(* ===== verification/_CoqProject ===== *)
-Q . S2P
Prelude.v
LLVMSupport.v
BitOps.v
LLVMTypes.v
DataLayout.v
CABI.v
CABIRewrite.v
CABIExec.v
TypeConverter.v
Variant.v
UnionStorage.v
ClosureLowering.v
ClosureSem.v
ClosureFacts.v
ClosureCorrect.v
ClosureProps.v
StringRef.v
Configuration.v
ConfigPaths.v
BazelRunfiles.v
MojoConfig.v
Semaphore.v
SemaphoreFair.v
Globals.v
Xlinker.v
FileSystemExtras.v
FileStreams.v
PackageClone.v
PackageRename.v
CPUCache.v
ResourceFile.v
LinkOutput.v
LinkProps.v
MojoBuild.v
MojoBuildProps.v
SharedObject.v
EmitArchive.v
CodegenTasks.v
OffloadKernels.v
ExecutionEngine.v
RPCClient.v
CompilerRT.v
BinaryID.v
ParserDriver.v
CallOperands.v
Precompile.v
MojoMain.v
MojoRun.v
CompilationOptions.v
NixlPluginDir.v
CPULimits.v
CPUTopology.v
ThreadAffinity.v
NUMATopology.v
Telemetry.v
SignalHandler.v
CrashReporting.v
PlatformGlue.v
Materialize.v
MaterializeWalk.v
ParamToLLVM.v
FieldIndexCache.v
POPTypes.v
POPCast.v
POPReshape.v
POPFolds.v
POPElementFolds.v
POPAttrs.v
POPInterp.v
POPRun.v
POPRunFacts.v
POPMemFold.v
POPMemSound.v
POPSimd.v
POPSimdRun.v
