(* ===== verification/Prelude.v ===== *)
(** * A verification library for the Windows overlay of Mojo

    The repository patches a compiler, its driver and its runtime support: the
    lowering of KGEN/POP values and types to the LLVM dialect (overlay/Mojo/
    lib/KGENToLLVM) and the folders and compile-time interpretation of the POP
    dialect (overlay/Mojo/lib/POPDialect), the object compiler and the execution
    engine (overlay/Mojo/lib/Compiler, ExecutionEngine), the driver behind
    [mojo] (overlay/Mojo/tools/mojo), the runtime (overlay/AsyncRT, overlay/
    Mojo/lib/CompilerRT), and what all of them stand on: configuration, the
    discovery of the machine, locked files, telemetry and crash reports
    (overlay/Support, overlay/Init).  This library models these parts as
    executable definitions and proves what makes them correct.  All paths below
    are relative to src/overlay.

    ** How the program's parts interact, and which file models which

    The back end.  A function of KGEN is lowered with its types converted by
    [POPToLLVMTypeConverter] (TypeConverter.v) on top of [LLVMDataLayout]
    (DataLayout.v, types in LLVMTypes.v); its constants go through
    [convertParameterToLLVM] (ParamToLLVM.v), which calls the converter,
    [VariantHelper] for unions (Variant.v) and [InterpreterMemoryConverter] for
    pointers into the memory of the compile-time interpreter (Materialize.v:
    the bytes of one blob; MaterializeWalk.v: which blobs are rebuilt).
    FieldIndexCache.v is the conversion again with the table of field indices
    that it fills and that the constants of structs are built with.
    Functions with the C ABI are then rewritten to the signature the platform
    asks for: CABI.v has the classification (CABILowering.h/.cpp, CABIWin64.h/
    .cpp), CABIRewrite.v the rewriting (LowerKGENToLLVMRewriteCABIFns.cpp) and
    CABIExec.v a semantics of the rewritten entry block.  UnionStorage.v joins
    the two halves of a union: the storage TypeConverter.v computes and the
    values Variant.v packs into it.

    Closures (Mojo/lib/KGENToLLVM/LowerKGENClosuresToLLVM.cpp).
    ClosureLowering.v has the two patterns and the pass, ClosureSem.v what
    closures mean before the pass and how the lowered code runs, ClosureFacts.v
    the lemmas on both, ClosureCorrect.v the simulation of calls and
    ClosureProps.v the theorems.  What the pass calls elsewhere (converting
    types, packing results, the C ABI of calls) is the class [ClosureSupport].

    The dialect's folders.  Before the lowering, operations of the POP dialect
    are folded and canonicalized (Mojo/lib/POPDialect/POPOpsFolders.cpp):
    POPFolds.v has the integer and boolean operations and the elements of
    vectors, POPElementFolds.v negation, rounding and the numbers of dtypes,
    POPCast.v the casts of casts, POPReshape.v the bitcasts that change the
    number of elements, POPTypes.v the element types they share.  The same
    file runs operations at compile time, once on types that are bound
    (interpret) and once on types still to be bound (parametric_interpret):
    POPAttrs.v has the attributes, POPInterp.v the operations on pointers,
    memory, arrays and calls of the interpreter, POPRun.v and POPRunFacts.v
    their agreement and a memory they run on; POPMemFold.v the folders of loads,
    stores and addresses with POPMemSound.v; POPSimd.v the vector operations
    with POPSimdRun.v.  The state of the interpreter is the class
    [InterpreterState], the sizes of types [DataLayoutInterface].

    The parser's driver.  ParserDriver.v (Mojo/lib/MojoTooling/
    ParserDriver.cpp) says what module or package a path stands for and in
    which order declarations are resolved, over the class [DeclResolver];
    CallOperands.v (Mojo/include/Mojo/MojoParser/CallOperands.h) the list of
    operands of a call.

    The object compiler (Mojo/lib/Compiler/ObjectCompiler/ObjectCompiler.cpp).
    EmitArchive.v turns a module into units and their results into one object;
    CodegenTasks.v compiles one unit, split into tasks; SharedObject.v exports
    and links a shared object; OffloadKernels.v compiles the kernels of a module
    for other devices with tasks and asynchronous values.  ExecutionEngine.v
    (Mojo/lib/ExecutionEngine/ExecutionEngine.cpp) sets up the dylibs of a JIT
    session and looks symbols up in them; CompilerRT.v (Mojo/lib/CompilerRT/
    Python.cpp, System.cpp) has entry points that running programs call.

    The driver.  MojoMain.v (Mojo/tools/mojo/mojo.cpp) picks the subcommand.
    MojoBuild.v is the one of Mojo/tools/mojo/Build/mojo-build.cpp, with
    MojoBuildProps.v: the options that print, the compilation of a module to
    each kind of output, the steps in order.  It calls [linkOutput]
    (LinkOutput.v) through the contract [LinkContract], which LinkProps.v proves
    of it; both are computations on the configuration (MojoConfig.v) and a log
    of events (errors, files, programs run), of which an early return keeps the
    rest from happening.  ResourceFile.v writes and reads the Windows manifest,
    CompilationOptions.v has the options both use.  MojoRun.v is [mojo run]
    (Run/mojo-run.cpp), which resolves the libraries named in linker flags with
    Xlinker.v (Common/XlinkerResolution.cpp).  [mojo precompile] (Precompile/
    mojo-precompile.cpp) is Precompile.v around PackageRename.v (dependencies,
    names and bitcode of a package), which calls PackageClone.v (the package
    that is written).  RPCClient.v (Debug/RPCClient.cpp) talks to the debug
    servers of an editor.

    The configuration.  Configuration.v has the parser of the file, the layered
    lookup of a value and MODULAR_DEBUG; ConfigPaths.v the search for the
    directories and the one-time reading of the file (both
    Support/lib/Configuration.cpp); BazelRunfiles.v the table of files that a
    Bazel run provides (BazelRunfiles.cpp); MojoConfig.v the values the compiler
    asks for (Mojo/lib/Support/Configuration.cpp).

    The machine.  CPULimits.v reads the control groups, CPUTopology.v
    /proc/cpuinfo and the performance cores, NUMATopology.v the nodes; all three
    are Support/lib/Threading/HWInfo.cpp.  ThreadAffinity.v (AsyncRT/lib/
    Support/ThreadAffinity.cpp) chooses the number of threads and their
    processors from the first two.  CPUCache.v has the cache sizes on the three
    systems (Support/lib/CPUCache.cpp), with the descriptors the Linux arm
    holds; NixlPluginDir.v the choice of a plugin directory.

    The runtime.  Semaphore.v is AsyncRT/lib/Support/Semaphore.cpp on three
    systems over the class [KernelSemaphore], as a step relation of threads;
    SemaphoreFair.v its runs under a fair scheduler; Globals.v the table of
    globals and the allocators (AsyncRT/lib/Runtime/Globals).

    Files and platforms.  FileSystemExtras.v has the operations under a lock
    file, for one process and as a step relation of several, and temporary
    files, FileStreams.v what is read and written under the lock and temporary
    directories (both Support/lib/FileSystemExtras.cpp); PlatformGlue.v
    Support/PortableEnv.h, bazel/internal/runtool-shim.cpp, Support/lib/
    Debugger.cpp and Support/STLExtras.h.

    What is told of a process.  BinaryID.v (Support/lib/BinaryID.cpp)
    identifies the running image; Telemetry.v (Support/lib/Telemetry/
    TelemetryContext.cpp) reads it and the settings of Configuration.v;
    CrashReporting.v has Support/lib/Random.cpp and Support/lib/CrashReporting,
    SignalHandler.v the handler of development builds (Init/lib/
    DevelopmentSignalHandler.cpp).

    Shared: this file (errors, the state monad, tactics, generic lemmas),
    LLVMSupport.v (llvm/Support/MathExtras.h as a class with an instance),
    BitOps.v (bit vectors), StringRef.v (llvm::StringRef and paths as a class
    with an instance).

    ** Conventions

    - Source names are kept.  A C++ loop is a [Fixpoint] on its list or, when it
      is driven by an index, on a fuel; a theorem always says that the fuel
      passed suffices (the number of bytes for the stores of a blob, the number
      of blobs for the walk, the bits for the packing of a union, the length of
      the text for the parsers and of the path for the walk up the packages, the
      number of declarations for the traversals), or for which inputs none does:
      [getPreferredCpuIDs_spec] and [getPreferredCpuIDs_diverges],
      [source_file_module].
    - [ErrorOr] is M::ErrorOr.  An outer [option] is [None] where the C++ would
      fail an assertion, index out of range, build a malformed operation or
      (where said) run out of fuel.
    - The runs of lowered closures bound the depth of calls: a program whose
      calls nest to some depth runs lowered at twice that depth, since each call
      of a closure goes through its wrapper.  The loop over cache directories
      needs one step more than there are directories; the resource reader takes
      the length of the file, and every record is at least 32 bytes.
    - Mutable objects are explicit states: the cells of a union and the
      position in them ([Storage]), what has been emitted for a blob
      ([StoreState], [EmitState], [ConvState]), the overrides and the file of a
      configuration, the maps of the NUMA topology, the table of field indices,
      the store of blocks of a package that is cloned.  IR builders are modelled
      by the instructions they emit (Materialize.v, CABIRewrite.v) or by the
      values these compute (Variant.v, ParamToLLVM.v).
    - Tasks and processes are step relations (Semaphore.v, FileSystemExtras.v,
      SignalHandler.v) or, where they share only what a lock guards, sequences in any
      order, which the theorem quantifies over (EmitArchive.v).
    - Code outside src/ is a class or a section variable with its documented
      behaviour as laws, and an executable instance on which the witnesses
      compute: [LLVMMath], [TargetDataLayout], [KGENLayout], [DTypes],
      [SIMDFolding], the StringRef interface, the file system, the environment.
    - Integers are [Z]; where the width matters the wrap-around is written out
      ([BV] in BitOps.v, the parsers of decimal numbers, the millicores of
      CPULimits.v).

    ** What the theorems show

    - C ABI: on Windows x64 the classification of every signature is the
      documented one ([win64_signature_spec]); rewriting a definition gives a
      well-formed function with exactly that signature
      ([cabi_rewrite_signature]); executed, the entry block rebuilds every
      argument from the registers and memory the caller filled
      ([win64_prologue_correct]); [isAllFloatStruct_spec].
    - Layout: fields of a struct are in bounds, aligned and disjoint
      ([struct_layout_sound]); a converted struct has every field at KGEN's
      offset and KGEN's size ([struct_conversion_layout]), and the table finds
      its index ([field_indices_recorded]); the head of a lowered union loses no
      bits and is aligned ([getUnionReprType_safe]); the closing assertion of
      the conversion, characterised ([union_size_assert_iff]).
    - Values: packing a member into a union stays inside the storage and every
      leaf can be read back ([union_member_packs]); a well-typed constant is
      lowered to a value of the converted type ([convertParameterToLLVM_typed]);
      executed, the stores of a blob rebuild it byte for byte ([storeBlob_spec]);
      a reference materializes exactly the blobs it reaches, or fails on stack
      memory ([getOrMaterialize_spec]).
    - Folding: every integer fold denotes the value of the operation it replaces
      ([integer_folds_sound]), divisions become shifts with the same quotients
      ([DivOp_canonicalize_sound]), rounding goes the way of its operation
      ([rounding_folds_sound]), one cast replaces two only when no integer
      is changed ([canonicalizeCast_sound]), a reshaped constant has the same
      bits in memory on both byte orders ([reshape_memory]).
    - Memory folds: folding or rewriting loads, offsets, selects and array
      accesses keeps what the program computes ([memory_folds_sound],
      [memory_canonicalizations_sound], [load_store_canonicalize_sound]).
    - Interpretation: an operation interpreted with unbound types gives what the
      same operation with its types bound gives ([parametric_interpret_simulates],
      [simd_parametric_interpret_agrees]).
    - Closures: a program and its lowering compute the same results
      ([closure_lowering_correct]), within the life of a closure's environment
      ([closure_environment_lifetime]).
    - Parser driver: a file stands for its place in the outermost package
      ([source_file_module]), declarations are resolved level by level
      ([declarations_level_order]) and their signatures once each, those added
      on the way included ([signatures_each_once]); the operands of a call
      and their keywords agree ([call_operands_invariant]).
    - Object compiler: compiling in parallel gives what compiling each piece
      alone gives ([parallel_codegen_spec]); a function is generated by one
      unit, whatever order they come in ([dedup_once]); the life of the compiled
      operation and of temporary files ([archive_operation_lifetime],
      [shared_object_temp_files]); the kernels that are emitted
      ([offload_kernels_spec]); the key of the cache tells inputs apart
      ([archive_key_injective]); calls of the profiler nest
      ([profiler_balanced]); [archive_never_splits_interprocedural],
      [coff_exports].
    - Execution: which library answers for a symbol ([jit_symbol_resolution]);
      the entry points of the runtime ([python_library_spec],
      [stack_trace_spec]).
    - Runtime: the semaphore refines a counter of permits
      ([semaphore_refines_permits]) and, scheduled fairly, serves every waiting
      thread for which a permit is posted ([waits_served]); globals are
      initialized and destroyed in order; the number of threads is within the
      limits ([thread_count_bounds]), work under an affinity runs
      once ([work_runs_once]).
    - Driver: an exit code of 0 means the output was made ([build_outcome],
      [link_exit_code]), every temporary file is removed after the linker ran
      ([link_temp_files]), one C runtime is linked on Windows
      ([windows_link_line]), the manifest is read back from its resource file
      ([resource_roundtrip]), the options that print never build
      ([print_options_stop]), the host's CPU never reaches a cross build
      ([cross_target_cpu]), linker flags resolve as their grammar says
      ([resolveXlinkerLibraries_spec]); the exit codes of the other subcommands
      ([run_outcome], [precompile_outcome], [main_dispatch],
      [clear_cache_only], [rpc_outcome]); the written package is the parsed one
      without what it does not need, under its new name
      ([buildPackageModule_spec], [buildPackage_spec]).
    - Configuration: the parser against a line-by-line specification and a
      round trip ([parseFrom_spec], [parseFrom_render]); the precedence of the
      layers ([maybeGetValue_spec], [getPath_spec], [MojoConfig]); the choice of
      directories ([findBestPathForType_spec]); the file is read once
      ([open_once]); MODULAR_DEBUG ([parseModularDebugEnv_spec]).
    - Machine: the topology read from /proc/cpuinfo, CPU lists, NUMA maps that
      agree with each other, limits in bounds, and the choice of ids; the cache
      search ends with every descriptor closed ([linux_cache_search]) and its
      answer is that of Windows on the same machine
      ([cache_size_platforms_agree]); the plugin directory is one the host can
      use ([nixl_flavor]).
    - Files: who holds the lock ([lock_exclusion]), what becomes of write errors
      ([write_errors_end_process]), names that are reserved
      ([temp_names_exclusive], [temp_file_lifetime]).
    - Reports: nothing is sent when telemetry is off ([telemetry_gated]); when
      crashpad runs ([crashpad_outcome]); how a crashing process ends
      ([crash_outcome]); identities of binaries ([elf_build_id],
      [pe_identity_injective]); random bytes are all filled
      ([random_bytes_filled]).
    - Platform: [setenv_portable], [bazel_paths_fixed],
      [debugger_wait_bounded], [failable_interleave_spec].

    Behaviour that the code does not intend, or that its comments deny, is
    stated as it is, in a theorem of its own or a clause of one:
    - in the back end [union_size_assert_fails], [f80_union_overruns],
      [isAllFloatStruct_mixed_formats], [store_alignment_overstated],
      [aliasing_lost], [squash_drops_operand], [cast_through_bf16_dropped],
      [closure_environment_lifetime], [wrapper_conversion_crashes],
      [negative_allocation], [interpreterWrite_unchecked],
      [array_replace_unchecked], [trivial_cast_and_splat],
      [CastFromBuiltin_unbound];
    - in the object compiler and the engine [offload_kernels_return],
      [codegen_error_asserts], [archive_operation_lifetime],
      [shared_object_temp_files], [codegen_copies_distinct],
      [jit_symbol_resolution], [macho_sanitizers_rejected],
      [python_library_spec];
    - in the driver [output_file_error_twice], [default_output_names],
      [windows_link_line], [precompile_outcome], [rewriteNameText_spec],
      [rpc_outcome], [response_framing], [connections_dropped],
      [source_file_module];
    - in the configuration and the machine [unset_override_sticks],
      [cpu_controller_last_is_missed], [getPreferredCpuIDs_diverges],
      [localMACs_ignores_address], [machine_id_ignores_hardware],
      [excluded_processor_leaks], [hybrid_pins_first_cores];
    - in the runtime and the platform [posix_timed_wait_aborts],
      [lock_exclusion], [lock_attempts_bounded], [write_errors_end_process],
      [temp_names_exclusive], [moved_dir_not_kept], [elf_build_id],
      [nested_fault_never_ends], [siginfo_fields_overlap], [crash_outcome],
      [setenv_portable], [debugger_wait_bounded].

    ** Not modelled

    What the sources only call is a parameter wherever the model needs it: the
    passes of LLVM and MLIR, the backends, splitting and linking of bitcode,
    ORC, the parser and the resolver of declarations, crashpad, OpenTelemetry,
    sockets and the calls of the operating systems.  Left out are folders that
    only hand their operands to a function that is not in the repository
    (absolute values, shifts, comparisons, reductions); the attributes of
    targets and the results of calls that two helpers of the lowering copy; the
    text that the print of a CPU topology makes; accessors; the stamp of the
    version, declarations without a body and macros (Config, Support/Context.h,
    Init/Init.h).  Names of globals (hashes of their contents), diagnostics
    beyond their text, the timing of passes, and caches that only avoid
    recomputation are left out of the modelled parts.  The standard library of
    Mojo is written in Mojo; tests, benchmarks, build rules and packaging were
    read for the behaviour they pin down. *)
From stdpp Require Export prelude list gmap strings.
From Stdlib Require Export ZArith Lia Bool.

(** ** Notations and automation shared by the whole development *)

Declare Scope mojo_scope.
Delimit Scope mojo_scope with mojo.
Create HintDb mojo.
Create HintDb mojo_z.

#[global] Open Scope Z_scope.

(** [M::ErrorOr<T>] / [ErrorTreeOrSuccess] (Support/ErrorOr.h): either a value
    or an error carrying its message. *)
Inductive ErrorOr (A : Type) : Type :=
  | Success (a : A)
  | Error (msg : string).
Arguments Success {A} a.
Arguments Error {A} msg.

Definition isError {A} (e : ErrorOr A) : bool :=
  match e with Error _ => true | Success _ => false end.

#[export] Instance ErrorOr_ret : MRet ErrorOr := fun A a => Success a.
#[export] Instance ErrorOr_bind : MBind ErrorOr := fun A B f e =>
  match e with Success a => f a | Error m => Error m end.
#[export] Instance ErrorOr_eq_dec {A} `{EqDecision A} : EqDecision (ErrorOr A).
Proof. solve_decision. Defined.

(** [b] as a guard: [check b msg] is the C++ [if (!b) return Error(msg);]. *)
Definition check (b : bool) (msg : string) : ErrorOr unit :=
  if b then Success tt else Error msg.

(** Turn the boolean tests in the context into propositions. *)
Ltac bool_to_prop :=
  repeat match goal with
  | H : andb _ _ = true |- _ => apply andb_true_iff in H; destruct H
  | H : orb _ _ = false |- _ => apply orb_false_iff in H; destruct H
  | H : negb _ = true |- _ => apply negb_true_iff in H
  | H : negb _ = false |- _ => apply negb_false_iff in H
  | H : (_ =? _)%Z = true |- _ => apply Z.eqb_eq in H
  | H : (_ =? _)%Z = false |- _ => apply Z.eqb_neq in H
  | H : (_ <? _)%Z = true |- _ => apply Z.ltb_lt in H
  | H : (_ <? _)%Z = false |- _ => apply Z.ltb_ge in H
  | H : (_ <=? _)%Z = true |- _ => apply Z.leb_le in H
  | H : (_ <=? _)%Z = false |- _ => apply Z.leb_gt in H
  | H : (_ >? _)%Z = true |- _ => rewrite Z.gtb_ltb in H; apply Z.ltb_lt in H
  | H : (_ >? _)%Z = false |- _ => rewrite Z.gtb_ltb in H; apply Z.ltb_ge in H
  | H : (_ >=? _)%Z = true |- _ => rewrite Z.geb_leb in H; apply Z.leb_le in H
  | H : (_ >=? _)%Z = false |- _ => rewrite Z.geb_leb in H; apply Z.leb_gt in H
  | H : bool_decide _ = true |- _ => apply bool_decide_eq_true in H
  | H : bool_decide _ = false |- _ => apply bool_decide_eq_false in H
  end.

(** Split on every [if]/[match] of the goal, then read the tests. *)
Ltac split_cases :=
  repeat case_match; bool_to_prop; simplify_eq/=.

(** ** Lists *)

(** Overwriting an element by one with the same [f] leaves the [f]s alone. *)
Lemma map_insert_same {A B} (f : A → B) (l : list A) i x y :
  l !! i = Some x → f y = f x → map f (<[i:=y]> l) = map f l.
Proof.
  revert i. induction l as [|z l IH]; intros [|i]; simpl; try done.
  - by intros [= ->] ->.
  - intros Hi Hf. by rewrite IH.
Qed.

(** Modus ponens under [Forall]. *)
Lemma Forall_impl_in {A} (P Q : A → Prop) l :
  Forall (fun x => P x → Q x) l → Forall P l → Forall Q l.
Proof. intros H HP. induction H; inversion HP; subst; constructor; auto. Qed.

Lemma lookup_map {A B} (f : A → B) (l : list A) i : map f l !! i = f <$> l !! i.
Proof. revert i. induction l as [|x l IH]; intros [|i]; simpl; auto. Qed.

Lemma map_replicate {A B} (f : A → B) n x : map f (replicate n x) = replicate n (f x).
Proof. induction n as [|n IH]; simpl; [done|]. by rewrite IH. Qed.

Lemma Forall_flat_map {A B} (f : A → list B) (P : B → Prop) l :
  Forall P (flat_map f l) ↔ Forall (fun x => Forall P (f x)) l.
Proof.
  induction l as [|x l IH]; simpl; [by split|]. by rewrite Forall_app, Forall_cons, IH.
Qed.

(** The sum of a measure over a list, and what changing one element does. *)
Definition total {A} (f : A → Z) (l : list A) : Z := foldr (fun x acc => f x + acc) 0 l.

Lemma total_insert {A} (f : A → Z) l i x y :
  l !! i = Some x → total f (<[i:=y]> l) = total f l - f x + f y.
Proof.
  revert i. induction l as [|z l IH]; intros [|i] Hi; simplify_eq/=; [lia|].
  rewrite (IH _ Hi). lia.
Qed.

Lemma total_nonneg {A} (f : A → Z) l : (∀ x, x ∈ l → 0 ≤ f x) → 0 ≤ total f l.
Proof.
  induction l as [|x l IH]; intros H; simpl; [lia|].
  pose proof (H x ltac:(left)). assert (0 ≤ total f l) by (apply IH; intros; apply H; by right). lia.
Qed.

Lemma total_ge {A} (f : A → Z) l x : (∀ y, y ∈ l → 0 ≤ f y) → x ∈ l → f x ≤ total f l.
Proof.
  induction l as [|y l IH]; intros H Hx; [by apply not_elem_of_nil in Hx|]. simpl.
  pose proof (H y ltac:(left)).
  pose proof (total_nonneg f l ltac:(intros; apply H; by right)).
  apply elem_of_cons in Hx as [->|Hx]; [lia|].
  pose proof (IH ltac:(intros; apply H; by right) Hx). lia.
Qed.

Lemma total_ext {A} (f g : A → Z) l : (∀ x, x ∈ l → f x = g x) → total f l = total g l.
Proof.
  induction l as [|x l IH]; intros H; simpl; [done|]. rewrite (H x) by left.
  rewrite IH; [done|]. intros. apply H. by right.
Qed.

(** Predicates on the elements, by recursion on the list: usable in the body of
    a recursive function on a nested type. *)
Section AllP.
Context {A B : Type}.

Definition allP (P : A → Prop) : list A → Prop :=
  fix go l := match l with [] => True | x :: l => P x ∧ go l end.
Definition all2P (P : A → B → Prop) : list A → list B → Prop :=
  fix go l k := match l, k with
                | [], [] => True
                | x :: l, y :: k => P x y ∧ go l k
                | _, _ => False
                end.

Lemma allP_Forall P l : allP P l ↔ Forall P l.
Proof. induction l as [|x l IH]; [by split|]. simpl. by rewrite Forall_cons, IH. Qed.
Lemma all2P_Forall2 P l k : all2P P l k ↔ Forall2 P l k.
Proof.
  revert k. induction l as [|x l IH]; intros [|y k]; simpl; [by split|split; [done|by inversion 1]..|].
  by rewrite Forall2_cons, IH.
Qed.
End AllP.

(** ** State passing: the [this] object or a process-wide table *)

Definition State (S A : Type) : Type := S → A * S.
#[export] Instance State_ret {S} : MRet (State S) := fun A a s => (a, s).
#[export] Instance State_bind {S} : MBind (State S) := fun A B f m s =>
  let '(a, s) := m s in f a s.
Definition get {S} : State S S := fun s => (s, s).
Definition put {S} (s : S) : State S unit := fun _ => (tt, s).
Definition gets {S A} (f : S → A) : State S A := fun s => (f s, s).
Definition modify {S} (f : S → S) : State S unit := fun s => (tt, f s).

(** ** Early returns with a log of what was done *)

(** A computation that adds events to a log and goes on with an [A], or has
    returned an [R]. *)
Definition Early (Event R A : Type) : Type := list Event → (A + R) * list Event.
#[export] Instance Early_ret {Event R} : MRet (Early Event R) := fun A a log => (inl a, log).
#[export] Instance Early_bind {Event R} : MBind (Early Event R) := fun A B f m log =>
  match m log with (inl a, log) => f a log | (inr r, log) => (inr r, log) end.
Definition tell {Event R} (e : Event) : Early Event R unit := fun log => (inl tt, app log [e]).
Definition return_ {Event R A} (r : R) : Early Event R A := fun log => (inr r, log).
(** The value an error-or carries, or what to do with the message. *)
Definition orElseReturn {Event R A} (e : ErrorOr A) (handle : string → Early Event R A) : Early Event R A :=
  match e with Success a => mret a | Error msg => handle msg end.

(** The events a run adds do not depend on those before. *)
Definition Logs {Event R A} (m : Early Event R A) : Prop :=
  ∀ log, m log = (fst (m []), app log (snd (m []))).

Lemma Logs_ret {Event R A} (a : A) : Logs (mret a : Early Event R A).
Proof. intros log. simpl. by rewrite app_nil_r. Qed.
Lemma Logs_return {Event R A} (r : R) : Logs (return_ r : Early Event R A).
Proof. intros log. simpl. by rewrite app_nil_r. Qed.
Lemma Logs_tell {Event R} (e : Event) : Logs (tell e : Early Event R unit).
Proof. by intros log. Qed.
Lemma Logs_bind {Event R A B} (m : Early Event R A) (f : A → Early Event R B) :
  Logs m → (∀ a, Logs (f a)) → Logs (m ≫= f).
Proof.
  intros Hm Hf log. unfold mbind, Early_bind. rewrite (Hm log). destruct (m []) as [[a|r] new]; simpl; [|done].
  rewrite (Hf a (app log new)), (Hf a new). simpl. by rewrite app_assoc.
Qed.
Lemma Logs_orElse {Event R A} (e : ErrorOr A) (h : string → Early Event R A) :
  (∀ msg, Logs (h msg)) → Logs (orElseReturn e h).
Proof. intros H. destruct e; simpl; [apply Logs_ret|apply H]. Qed.
#[export] Hint Resolve Logs_ret Logs_return Logs_tell Logs_bind Logs_orElse : mojo.
