(* ===== verification/LLVMSupport.v ===== *)
(** LLVM's support library, which the modelled files call and the repository
    does not contain: an interface of the operations with their documented
    laws, and an executable instance. *)
From S2P Require Import Prelude.

(** ** llvm/Support/MathExtras.h *)
Class LLVMMath := {
  alignTo : Z → Z → Z;
  isPowerOf2_64 : Z → bool;
  NextPowerOf2 : Z → Z;
  (** "Returns the next integer that is greater than or equal to Value and is
      a multiple of Align." *)
  alignTo_spec : ∀ v a, 0 ≤ v → 0 < a → alignTo v a = a * ((v + a - 1) / a);
  (** "Return true if the argument is a power of two > 0." *)
  isPowerOf2_64_spec : ∀ x, 0 ≤ x < 2 ^ 64 →
    isPowerOf2_64 x = true ↔ ∃ k, 0 ≤ k ∧ x = 2 ^ k;
  (** "Returns the next power of two (in 64-bits) that is strictly greater
      than A." *)
  NextPowerOf2_spec : ∀ x, 0 < x → NextPowerOf2 x = 2 ^ (Z.log2 x + 1)
}.

Module ConcreteMath.
Definition alignTo_c (v a : Z) : Z := a * ((v + a - 1) / a).
Definition isPowerOf2_64_c (x : Z) : bool := (0 <? x) && (2 ^ Z.log2 x =? x).
Definition NextPowerOf2_c (x : Z) : Z := 2 ^ (Z.log2 x + 1).

Lemma isPowerOf2_64_c_spec x : 0 ≤ x < 2 ^ 64 →
  isPowerOf2_64_c x = true ↔ ∃ k, 0 ≤ k ∧ x = 2 ^ k.
Proof.
  intros _. unfold isPowerOf2_64_c. split.
  - intros H. bool_to_prop. exists (Z.log2 x). split; [apply Z.log2_nonneg|done].
  - intros (k & Hk & ->). rewrite Z.log2_pow2 by done.
    rewrite Z.eqb_refl, andb_true_r. apply Z.ltb_lt. lia.
Qed.
End ConcreteMath.

(** The executable instance used by the witnesses. *)
Definition llvm_math : LLVMMath := {|
  alignTo := ConcreteMath.alignTo_c;
  isPowerOf2_64 := ConcreteMath.isPowerOf2_64_c;
  NextPowerOf2 := ConcreteMath.NextPowerOf2_c;
  alignTo_spec := fun _ _ _ _ => eq_refl;
  isPowerOf2_64_spec := ConcreteMath.isPowerOf2_64_c_spec;
  NextPowerOf2_spec := fun _ _ => eq_refl
|}.

Section AlignTo.
Context {LM : LLVMMath}.

Lemma alignTo_divide v a : 0 ≤ v → 0 < a → (a | alignTo v a).
Proof. intros. rewrite alignTo_spec by lia. apply Z.divide_factor_l. Qed.

Lemma alignTo_bounds v a : 0 ≤ v → 0 < a → v ≤ alignTo v a < v + a.
Proof.
  intros. rewrite alignTo_spec by lia.
  pose proof (Z.div_mod (v + a - 1) a ltac:(lia)).
  pose proof (Z.mod_pos_bound (v + a - 1) a ltac:(lia)). lia.
Qed.

Lemma alignTo_ge v a : 0 ≤ v → 0 < a → v ≤ alignTo v a.
Proof. intros. pose proof (alignTo_bounds v a). lia. Qed.

(** [alignTo v a] is the least multiple of [a] that is at least [v]. *)
Lemma alignTo_least v a m : 0 ≤ v → 0 < a → (a | m) → v ≤ m → alignTo v a ≤ m.
Proof.
  intros Hv Ha [k ->] Hm. rewrite alignTo_spec by lia.
  assert ((v + a - 1) / a ≤ k); [|nia].
  transitivity ((k * a + (a - 1)) / a); [apply Z.div_le_mono; lia|].
  rewrite Z.div_add_l by lia. rewrite Z.div_small; lia.
Qed.

Lemma alignTo_id v a : 0 ≤ v → 0 < a → (a | v) → alignTo v a = v.
Proof.
  intros. apply Z.le_antisymm; [by apply alignTo_least|by apply alignTo_ge].
Qed.

Lemma alignTo_1 v : 0 ≤ v → alignTo v 1 = v.
Proof. intros. apply alignTo_id; [lia|lia|apply Z.divide_1_l]. Qed.

Lemma alignTo_mono v w a : 0 ≤ v ≤ w → 0 < a → alignTo v a ≤ alignTo w a.
Proof.
  intros. apply alignTo_least; [lia|lia|apply alignTo_divide; lia|].
  pose proof (alignTo_bounds w a). lia.
Qed.

(** Scaling both arguments scales the result: bits against bytes. *)
Lemma alignTo_scale v a c : 0 ≤ v → 0 < a → 0 < c →
  alignTo (v * c) (a * c) = alignTo v a * c.
Proof.
  intros. apply Z.le_antisymm.
  - apply alignTo_least; [nia|nia| |].
    + apply Z.mul_divide_mono_r, alignTo_divide; lia.
    + apply Z.mul_le_mono_nonneg_r; [lia|apply alignTo_ge; lia].
  - pose proof (alignTo_divide (v * c) (a * c) ltac:(nia) ltac:(nia)) as [k Hk].
    rewrite Hk.
    assert (Hle : v * c ≤ k * (a * c)) by (rewrite <- Hk; apply alignTo_ge; nia).
    assert (alignTo v a ≤ k * a); [|nia].
    apply alignTo_least; [lia|lia|apply Z.divide_factor_r|]. nia.
Qed.
End AlignTo.

#[export] Hint Resolve alignTo_divide alignTo_ge : mojo.

(** Largest power of two not above [x], the idiom [NextPowerOf2(x) / 2]. *)
Lemma NextPowerOf2_half {LM : LLVMMath} x : 0 < x →
  NextPowerOf2 x / 2 = 2 ^ Z.log2 x ∧ 1 ≤ 2 ^ Z.log2 x ≤ x.
Proof.
  intros Hx. pose proof (Z.log2_nonneg x). pose proof (Z.log2_spec x Hx).
  rewrite NextPowerOf2_spec by done.
  rewrite Z.pow_add_r by lia. rewrite Z.pow_1_r, Z.div_mul by lia.
  pose proof (Z.pow_pos_nonneg 2 (Z.log2 x)). lia.
Qed.
