(* ===== verification/BitOps.v ===== *)
(** Bit-vectors of the LLVM integer types as non-negative [Z] below a power of
    two, and the generic facts on slices and disjunctions of shifted values. *)
From S2P Require Import Prelude.

(** ** The integer instructions, on a value of [w] bits *)

Record BV := mkBV { bv_width : Z; bv_val : Z }.

Definition bv_lshr (b : BV) (amount : Z) : BV := mkBV (bv_width b) (Z.shiftr (bv_val b) amount).
Definition bv_shl (b : BV) (amount : Z) : BV :=
  mkBV (bv_width b) (Z.shiftl (bv_val b) amount mod 2 ^ bv_width b).
Definition bv_or (a b : BV) : BV := mkBV (bv_width a) (Z.lor (bv_val a) (bv_val b)).
Definition bv_zext (b : BV) (w : Z) : BV := mkBV w (bv_val b).
Definition bv_trunc (b : BV) (w : Z) : BV := mkBV w (bv_val b mod 2 ^ w).

Definition wfBV (b : BV) : Prop := 0 < bv_width b ∧ 0 ≤ bv_val b < 2 ^ bv_width b.

(** ** Slices *)

Lemma testbit_below v n i : 0 ≤ v < 2 ^ n → 0 ≤ n ≤ i → Z.testbit v i = false.
Proof.
  intros Hv Hi. rewrite <- (Z.mod_small v (2 ^ n)) by done. by apply Z.mod_pow2_bits_high.
Qed.

Lemma testbit_mod_pow2 v n i : 0 ≤ n → Z.testbit (v mod 2 ^ n) i = (i <? n) && Z.testbit v i.
Proof.
  intros Hn. destruct (Z.ltb_spec i n) as [Hi|Hi]; simpl.
  - by apply Z.mod_pow2_bits_low.
  - by apply Z.mod_pow2_bits_high.
Qed.

Lemma testbit_shiftl v n i : 0 ≤ i → Z.testbit (Z.shiftl v n) i = Z.testbit v (i - n).
Proof. intros. by apply Z.shiftl_spec. Qed.

(** Reduce an equality of integers to the bits at each position. *)
Ltac by_bits i :=
  apply Z.bits_inj'; intros i ?Hi;
  repeat first
    [ rewrite Z.lor_spec | rewrite Z.land_spec
    | rewrite testbit_mod_pow2 by lia
    | rewrite testbit_shiftl by lia
    | rewrite Z.shiftr_spec by lia ].

(** Writing [a] more bits of [v] above the first [k]. *)
Lemma slice_extend v k a p : 0 ≤ k → 0 ≤ a → 0 ≤ p →
  Z.lor (Z.shiftl (v mod 2 ^ k) p) (Z.shiftl (Z.shiftr v k mod 2 ^ a) (p + k)) =
  Z.shiftl (v mod 2 ^ (k + a)) p.
Proof.
  intros Hk Ha Hp. by_bits i.
  destruct (Z.ltb_spec i p) as [Hip|Hip].
  - rewrite !(Z.testbit_neg_r _ (i - p)) by lia.
    rewrite (Z.testbit_neg_r _ (i - (p + k))) by lia. by rewrite !andb_false_r.
  - destruct (Z.ltb_spec (i - p) k) as [Hik|Hik].
    + rewrite (Z.testbit_neg_r _ (i - (p + k))) by lia.
      rewrite andb_false_r, orb_false_r. simpl. by destruct (Z.ltb_spec (i - p) (k + a)); [|lia].
    + simpl. rewrite Z.shiftr_spec by lia.
      replace (i - (p + k) + k) with (i - p) by lia.
      destruct (Z.ltb_spec (i - (p + k)) a), (Z.ltb_spec (i - p) (k + a)); simpl; try done; lia.
Qed.

(** The part of a shifted value that stays in a cell of [w] bits. *)
Lemma shl_in_cell x so w : 0 ≤ so ≤ w →
  Z.shiftl x so mod 2 ^ w = Z.shiftl (x mod 2 ^ (w - so)) so.
Proof.
  intros H. by_bits i.
  destruct (Z.ltb_spec i so) as [Hs|Hs].
  - rewrite !(Z.testbit_neg_r _ (i - so)) by lia. by rewrite !andb_false_r.
  - destruct (Z.ltb_spec i w), (Z.ltb_spec (i - so) (w - so)); simpl; try done; lia.
Qed.

Lemma shiftr_mod_min v w k a : 0 ≤ v < 2 ^ w → 0 ≤ k ≤ w → 0 ≤ a →
  Z.shiftr v k mod 2 ^ a = Z.shiftr v k mod 2 ^ Z.min (w - k) a.
Proof.
  intros Hv Hk Ha. by_bits i.
  destruct (Z.ltb_spec i a), (Z.ltb_spec i (Z.min (w - k) a)); simpl; try done; try lia.
  apply testbit_below with w; lia.
Qed.

Lemma mod_mod_pow2 x a b : 0 ≤ b ≤ a → (x mod 2 ^ a) mod 2 ^ b = x mod 2 ^ b.
Proof.
  intros H. by_bits i. destruct (Z.ltb_spec i b), (Z.ltb_spec i a); simpl; try done; lia.
Qed.

Lemma shiftl_bound v w s : 0 ≤ v < 2 ^ w → 0 ≤ w → 0 ≤ s → 0 ≤ Z.shiftl v s < 2 ^ (w + s).
Proof.
  intros Hv Hw Hs. rewrite Z.shiftl_mul_pow2, Z.pow_add_r by lia.
  pose proof (Z.pow_pos_nonneg 2 s). nia.
Qed.

Lemma lor_bound a b w : 0 ≤ w → 0 ≤ a < 2 ^ w → 0 ≤ b < 2 ^ w → 0 ≤ Z.lor a b < 2 ^ w.
Proof.
  intros Hw Ha Hb. split; [apply Z.lor_nonneg; lia|].
  destruct (Z.eq_dec (Z.lor a b) 0) as [->|Hne]; [apply Z.pow_pos_nonneg; lia|].
  assert (0 < Z.lor a b) by (pose proof (proj2 (Z.lor_nonneg a b)); lia).
  apply Z.log2_lt_pow2; [done|]. rewrite Z.log2_lor by lia.
  assert (∀ x, 0 ≤ x < 2 ^ w → 0 < w → Z.log2 x < w) as Hl.
  { intros x Hx ?. destruct (Z.eq_dec x 0) as [->|]; [simpl; lia|]. apply Z.log2_lt_pow2; lia. }
  destruct (Z.eq_dec w 0) as [->|]; [|apply Z.max_lub_lt; apply Hl; lia].
  assert (a = 0) as -> by lia. assert (b = 0) as -> by lia. done.
Qed.

(** ** Placements: values at bit offsets *)

Record Placement := mkPlacement { pl_off : Z; pl_width : Z; pl_bits : Z }.

Definition orPlacements (ps : list Placement) : Z :=
  fold_right (fun p acc => Z.lor (Z.shiftl (pl_bits p) (pl_off p)) acc) 0 ps.

(** In order and disjoint, starting at or after [from]. *)
Fixpoint orderedFrom (from : Z) (ps : list Placement) : Prop :=
  match ps with
  | [] => True
  | p :: ps =>
      from ≤ pl_off p ∧ 0 ≤ pl_width p ∧ 0 ≤ pl_bits p < 2 ^ pl_width p ∧
      orderedFrom (pl_off p + pl_width p) ps
  end.

Lemma orderedFrom_weaken a b ps : a ≤ b → orderedFrom b ps → orderedFrom a ps.
Proof. destruct ps as [|p ps]; simpl; [done|]. intros ? (? & ?). split; [lia|done]. Qed.

Lemma orderedFrom_low from ps i : 0 ≤ i < from → orderedFrom from ps →
  Z.testbit (orPlacements ps) i = false.
Proof.
  revert from. induction ps as [|p ps IH]; intros from Hi; simpl; [by rewrite Z.testbit_0_l|].
  intros (Hf & Hw & Hb & Ho). rewrite Z.lor_spec, Z.shiftl_spec by lia.
  rewrite Z.testbit_neg_r by lia. simpl. by eapply IH; [|exact Ho]; lia.
Qed.

Lemma orderedFrom_app a e ps qs : a ≤ e → orderedFrom a ps →
  Forall (fun p => pl_off p + pl_width p ≤ e) ps → orderedFrom e qs → orderedFrom a (ps ++ qs).
Proof.
  intros Hae Ho Hf Hq. revert a Hae Ho. induction Hf as [|p ps Hp _ IH]; intros a Hae; simpl.
  - intros _. by eapply orderedFrom_weaken.
  - intros (? & ? & ? & Ho). split_and!; try done; try lia. by apply IH.
Qed.

(** Every placed value can be read back. *)
Lemma orPlacements_read from ps i p : 0 ≤ from → orderedFrom from ps → ps !! i = Some p →
  Z.shiftr (orPlacements ps) (pl_off p) mod 2 ^ pl_width p = pl_bits p.
Proof.
  revert from i. induction ps as [|q ps IH]; intros from i Hfrom; [done|]. simpl.
  intros (Hf & Hw & Hb & Ho) Hi. assert (Hq : 0 ≤ pl_off q) by lia.
  destruct i as [|i]; simpl in Hi.
  - injection Hi as ->. by_bits j.
   
    replace (j + pl_off p - pl_off p) with j by lia.
    destruct (Z.ltb_spec j (pl_width p)) as [Hj|Hj]; simpl.
    + rewrite (orderedFrom_low (pl_off p + pl_width p) ps) by (done || lia). apply orb_false_r.
    + symmetry. apply testbit_below with (pl_width p); lia.
  - rewrite <- (IH (pl_off q + pl_width q) i ltac:(lia) Ho Hi).
    assert (Hp : pl_off q + pl_width q ≤ pl_off p ∧ 0 ≤ pl_width p).
    { clear IH. revert i Hi Ho. generalize (pl_off q + pl_width q). clear Hf Hw Hb Hq.
      induction ps as [|r ps IHp]; intros f i; [done|]. simpl. intros Hi (? & ? & ? & Ho).
      destruct i as [|i]; simpl in Hi; [injection Hi as ->; lia|].
      destruct (IHp _ i Hi Ho). lia. }
    by_bits j.
   
    rewrite (testbit_below (pl_bits q) (pl_width q)) by lia. done.
Qed.

Lemma orPlacements_app ps qs :
  orPlacements (ps ++ qs) = Z.lor (orPlacements ps) (orPlacements qs).
Proof.
  induction ps as [|p ps IH]; simpl; [by rewrite Z.lor_0_l|]. by rewrite IH, Z.lor_assoc.
Qed.

(** ** Storage: a list of cells read as one little-endian integer *)

Fixpoint combine (cells : list BV) : Z :=
  match cells with
  | [] => 0
  | c :: cells => Z.lor (bv_val c) (Z.shiftl (combine cells) (bv_width c))
  end.

Fixpoint startOf (cells : list BV) (i : nat) : Z :=
  match cells, i with
  | c :: cells, S i => bv_width c + startOf cells i
  | _, _ => 0
  end.

Definition totalBits (cells : list BV) : Z := startOf cells (length cells).

Lemma startOf_nonneg cells i : Forall wfBV cells → 0 ≤ startOf cells i.
Proof.
  intros H. revert i. induction H as [|c cells [Hc _] _ IH]; intros [|i]; simpl; try lia.
  specialize (IH i). lia.
Qed.

Lemma startOf_S cells i c : cells !! i = Some c →
  startOf cells (S i) = startOf cells i + bv_width c.
Proof.
  revert i. induction cells as [|d cells IH]; intros [|i]; simpl; try done.
  - intros [= ->]. destruct cells; simpl; lia.
  - intros Hi. rewrite <- Z.add_assoc, <- (IH i Hi). by destruct cells.
Qed.

(** Widths decide the positions. *)
Lemma startOf_widths cells1 cells2 i : map bv_width cells1 = map bv_width cells2 →
  startOf cells1 i = startOf cells2 i.
Proof.
  revert cells2 i. induction cells1 as [|c l IH]; intros [|d l2] i; simpl; try done.
  intros [= Hc Hl]. destruct i as [|i]; [done|]. by rewrite Hc, (IH l2 i Hl).
Qed.

Lemma combine_insert cells i c x : Forall wfBV cells → cells !! i = Some c → 0 ≤ x →
  combine (<[i := mkBV (bv_width c) (Z.lor (bv_val c) x)]> cells) =
  Z.lor (combine cells) (Z.shiftl x (startOf cells i)).
Proof.
  intros Hwf. revert i. induction Hwf as [|d cells [Hd _] Hwf IH]; intros [|i] Hi Hx; simpl in *; try done.
  - injection Hi as ->. rewrite Z.shiftl_0_r. rewrite <- !Z.lor_assoc. f_equal. apply Z.lor_comm.
  - rewrite (IH i Hi Hx). rewrite Z.shiftl_lor, Z.lor_assoc. f_equal.
    rewrite Z.shiftl_shiftl by (by apply startOf_nonneg). f_equal. lia.
Qed.

Lemma startOf_beyond cells i : (length cells ≤ i)%nat → startOf cells i = startOf cells (length cells).
Proof.
  revert i. induction cells as [|c cells IH]; intros [|i] Hi; simpl in *; try done; try lia.
  rewrite (IH i) by lia. done.
Qed.
