(* ===== verification/LLVMTypes.v ===== *)
(** The LLVM-dialect types that [LLVMDataLayout] (LLVMLoweringUtils.cpp) can
    lay out, as data: exactly the shapes its branches handle, so that the
    final [report_fatal_error] is unreachable for a value of [Ty]. *)
From S2P Require Import Prelude LLVMSupport.

(** mlir::FloatType subclasses. *)
Inductive FloatKind :=
  | F16 | BF16 | F32 | F64 | F80 | F128 | TF32
  | Float8E5M2 | Float8E5M2FNUZ | Float8E4M3 | Float8E4M3FN | Float8E3M4
  | Float8E4M3FNUZ | Float8E4M3B11FNUZ | Float8E8M0FNU
  | Float6E2M3FN | Float6E3M2FN | Float4E2M1FN.

#[export] Instance FloatKind_eq_dec : EqDecision FloatKind.
Proof. solve_decision. Defined.

(** [FloatType::getWidth]: the width is part of the type's name. *)
Definition floatWidth (k : FloatKind) : Z :=
  match k with
  | F16 | BF16 => 16 | F32 => 32 | F64 => 64 | F80 => 80 | F128 => 128
  | TF32 => 19
  | Float8E5M2 | Float8E5M2FNUZ | Float8E4M3 | Float8E4M3FN | Float8E3M4
  | Float8E4M3FNUZ | Float8E4M3B11FNUZ | Float8E8M0FNU => 8
  | Float6E2M3FN | Float6E3M2FN => 6
  | Float4E2M1FN => 4
  end.

Inductive Ty :=
  | IntegerType (width : Z)
  | FloatType (kind : FloatKind)
  | LLVMPointerType (addressSpace : Z)
  | VectorType (numElements : Z) (elementType : Ty)
  | LLVMArrayType (elementType : Ty) (numElements : Z)
  | LLVMStructType (body : list Ty).

(** Induction with the hypothesis on every field of a struct. *)
Section TyInd.
Variable P : Ty → Prop.
Hypothesis Hint : ∀ w, P (IntegerType w).
Hypothesis Hfloat : ∀ k, P (FloatType k).
Hypothesis Hptr : ∀ a, P (LLVMPointerType a).
Hypothesis Hvec : ∀ n e, P e → P (VectorType n e).
Hypothesis Harr : ∀ e n, P e → P (LLVMArrayType e n).
Hypothesis Hstruct : ∀ body, Forall P body → P (LLVMStructType body).

Fixpoint Ty_nested_ind (t : Ty) : P t :=
  match t with
  | IntegerType w => Hint w
  | FloatType k => Hfloat k
  | LLVMPointerType a => Hptr a
  | VectorType n e => Hvec n e (Ty_nested_ind e)
  | LLVMArrayType e n => Harr e n (Ty_nested_ind e)
  | LLVMStructType body => Hstruct body
      ((fix go (l : list Ty) : Forall P l :=
          match l with
          | [] => List.Forall_nil P
          | x :: l' => List.Forall_cons P x l' (Ty_nested_ind x) (go l')
          end) body)
  end.
End TyInd.

Fixpoint Ty_eqb (t u : Ty) {struct t} : bool :=
  match t, u with
  | IntegerType w, IntegerType w' => w =? w'
  | FloatType k, FloatType k' => bool_decide (k = k')
  | LLVMPointerType a, LLVMPointerType a' => a =? a'
  | VectorType n e, VectorType n' e' => (n =? n') && Ty_eqb e e'
  | LLVMArrayType e n, LLVMArrayType e' n' => (n =? n') && Ty_eqb e e'
  | LLVMStructType b, LLVMStructType b' =>
      (fix go (l l' : list Ty) {struct l} : bool :=
         match l, l' with
         | [], [] => true
         | x :: l, y :: l' => Ty_eqb x y && go l l'
         | _, _ => false
         end) b b'
  | _, _ => false
  end.

Lemma Ty_eqb_eq t : ∀ u, Ty_eqb t u = true ↔ t = u.
Proof.
  induction t as [w|k|a|n e IH|e n IH|body IH] using Ty_nested_ind; intros [];
    simpl; try (split; discriminate).
  - rewrite Z.eqb_eq. split; congruence.
  - rewrite bool_decide_eq_true. split; congruence.
  - rewrite Z.eqb_eq. split; congruence.
  - rewrite andb_true_iff, Z.eqb_eq, IH. split; [intros []|]; split || idtac; congruence.
  - rewrite andb_true_iff, Z.eqb_eq, IH. split; [intros []|]; split || idtac; congruence.
  - enough (∀ l', (fix go (l l' : list Ty) {struct l} : bool :=
         match l, l' with
         | [], [] => true
         | x :: l, y :: l' => Ty_eqb x y && go l l'
         | _, _ => false
         end) body l' = true ↔ body = l') as Hgo.
    { rewrite Hgo. split; congruence. }
    induction IH as [|x l Hx _ IHl]; intros [|y l']; simpl; try (split; discriminate).
    + done.
    + rewrite andb_true_iff, Hx, IHl. split; [intros []|]; split || idtac; congruence.
Qed.

#[export] Instance Ty_eq_dec : EqDecision Ty.
Proof.
  intros t u. destruct (Ty_eqb t u) eqn:E.
  - left. by apply Ty_eqb_eq.
  - right. intros H. apply Ty_eqb_eq in H. congruence.
Defined.

(** [isa<LLVM::LLVMStructType>(type)]. *)
Definition isStruct (t : Ty) : bool :=
  match t with LLVMStructType _ => true | _ => false end.

(** [isa<LLVM::LLVMArrayType>(type)]. *)
Definition isArray (t : Ty) : bool :=
  match t with LLVMArrayType _ _ => true | _ => false end.
