(* ===== verification/DataLayout.v ===== *)
(** [LLVMDataLayout] of Mojo/lib/KGENToLLVM/LLVMLoweringUtils.cpp: sizes and
    alignments of LLVM types computed from the target's data layout, and the
    offsets they give to the fields of a struct. *)
From S2P Require Import Prelude LLVMSupport LLVMTypes.

(** The number of bits in a [char]. *)
Definition CHAR_BIT : Z := 8.

(** [TargetInfoAttr::getDataLayout()] and the inline accessors of
    LLVMLoweringUtils.h, neither of which is in the repository. *)
Class TargetDataLayout := {
  getPointerBitWidth : Z → Z;
  getVectorBitWidth : Z → Z → Z;
  getIntegerABIAlign : Z → Z;
  getFloatABIAlign : Z → Z;
  getPointerABIAlign : Z;
  getStructABIAlign : Z;
  (** [getTypeStoreSize] of a type that is [bits] wide. *)
  storeSizeOfBits : Z → Z;
  (** [getTypeAllocSize] of a type with this store size and ABI alignment. *)
  allocSizeOf : Z → Z → Z;
  getPointerBitWidth_nonneg : ∀ a, 0 ≤ getPointerBitWidth a;
  getVectorBitWidth_nonneg : ∀ n w, 0 ≤ n → 0 ≤ w → 0 ≤ getVectorBitWidth n w;
  getIntegerABIAlign_pos : ∀ w, 0 < getIntegerABIAlign w;
  getFloatABIAlign_pos : ∀ w, 0 < getFloatABIAlign w;
  getPointerABIAlign_pos : 0 < getPointerABIAlign;
  getStructABIAlign_pos : 0 < getStructABIAlign;
  (** An ABI alignment is a power of two, and a vector holds its elements. *)
  getIntegerABIAlign_pow2 : ∀ w, ∃ k, 0 ≤ k ∧ getIntegerABIAlign w = 2 ^ k;
  getFloatABIAlign_pow2 : ∀ w, ∃ k, 0 ≤ k ∧ getFloatABIAlign w = 2 ^ k;
  getPointerABIAlign_pow2 : ∃ k, 0 ≤ k ∧ getPointerABIAlign = 2 ^ k;
  getStructABIAlign_pow2 : ∃ k, 0 ≤ k ∧ getStructABIAlign = 2 ^ k;
  getVectorBitWidth_covers : ∀ n w, 0 ≤ n → 0 ≤ w → n * w ≤ getVectorBitWidth n w;
  (** The store size is the number of bytes the bits occupy. *)
  storeSizeOfBits_spec : ∀ b, storeSizeOfBits b = (b + 7) / 8;
  (** The alloc size is the store size padded to the alignment. *)
  allocSizeOf_spec : ∀ s a, 0 ≤ s → 0 < a → allocSizeOf s a = a * ((s + a - 1) / a)
}.

Section DataLayout.
Context {LM : LLVMMath} {TD : TargetDataLayout}.

(** The most aligned leaf so far, a later one winning a tie. *)
Definition stricter (strictestPair cur : Z * option Ty) : Z * option Ty :=
  if fst cur >=? fst strictestPair then cur else strictestPair.

Fixpoint getTypeABIAlignAndType (type : Ty) : Z * option Ty :=
  match type with
  | IntegerType w => (getIntegerABIAlign w, Some type)
  | FloatType k => (getFloatABIAlign (floatWidth k), Some type)
  | LLVMPointerType _ => (getPointerABIAlign, Some type)
  | VectorType _ elt => getTypeABIAlignAndType elt
  | LLVMArrayType elt _ => getTypeABIAlignAndType elt
  | LLVMStructType body =>
      let strictestPair :=
        fold_left stricter (map getTypeABIAlignAndType body) (1, None) in
      (Z.max (fst strictestPair) getStructABIAlign, snd strictestPair)
  end.

Definition getTypeABIAlign (type : Ty) : Z := fst (getTypeABIAlignAndType type).

(** One iteration of the loop over a struct's body, given the alignment and
    the alloc size of the element. *)
Definition addField (acc : Z * Z) (elt : Z * Z) : Z * Z :=
  let '(size, strictest) := acc in
  let '(eltABIAlign, eltAllocSize) := elt in
  (alignTo size eltABIAlign + eltAllocSize, Z.max strictest eltABIAlign).

Fixpoint getTypeSizeInBits (type : Ty) : Z :=
  match type with
  | IntegerType w => w
  | FloatType k => floatWidth k
  | LLVMPointerType a => getPointerBitWidth a
  | VectorType n elt => getVectorBitWidth n (getTypeSizeInBits elt)
  | LLVMArrayType elt n => n * storeSizeOfBits (getTypeSizeInBits elt) * CHAR_BIT
  | LLVMStructType body =>
      let '(size, strictest) :=
        fold_left addField
          (map (fun t => (getTypeABIAlign t,
                          allocSizeOf (storeSizeOfBits (getTypeSizeInBits t))
                                      (getTypeABIAlign t))) body)
          (0, 1) in
      alignTo size strictest * CHAR_BIT
  end.

Definition getTypeStoreSize (type : Ty) : Z := storeSizeOfBits (getTypeSizeInBits type).
Definition getTypeAllocSize (type : Ty) : Z :=
  allocSizeOf (getTypeStoreSize type) (getTypeABIAlign type).

(** ** Specification: where the fields of a struct lie *)

Fixpoint fieldOffsets (offset : Z) (body : list Ty) : list Z :=
  match body with
  | [] => []
  | t :: body =>
      let here := alignTo offset (getTypeABIAlign t) in
      here :: fieldOffsets (here + getTypeAllocSize t) body
  end.

(** The bytes used by [body] laid out from [offset], before tail padding. *)
Fixpoint bodyEnd (offset : Z) (body : list Ty) : Z :=
  match body with
  | [] => offset
  | t :: body => bodyEnd (alignTo offset (getTypeABIAlign t) + getTypeAllocSize t) body
  end.

(** Every width and element count of the type is non-negative. *)
Fixpoint wfTy (type : Ty) : Prop :=
  match type with
  | IntegerType w => 0 ≤ w
  | FloatType _ | LLVMPointerType _ => True
  | VectorType n elt => 0 ≤ n ∧ wfTy elt
  | LLVMArrayType elt n => 0 ≤ n ∧ wfTy elt
  | LLVMStructType body =>
      (fix all (l : list Ty) : Prop :=
         match l with [] => True | t :: l => wfTy t ∧ all l end) body
  end.

(** ** Lemmas *)

Lemma wfTy_struct body : wfTy (LLVMStructType body) ↔ Forall wfTy body.
Proof.
  simpl. induction body as [|t body IH]; [by split|].
  rewrite Forall_cons, IH. done.
Qed.

Lemma stricter_fst p q : fst (stricter p q) = Z.max (fst p) (fst q).
Proof. unfold stricter. destruct (_ >=? _) eqn:E; bool_to_prop; lia. Qed.

Lemma fold_stricter_fst l p :
  fst (fold_left stricter l p) = fold_left Z.max (map fst l) (fst p).
Proof.
  revert p. induction l as [|q l IH]; intros p; simpl; [done|].
  by rewrite IH, stricter_fst.
Qed.

Lemma fold_max_ge l x : x ≤ fold_left Z.max l x.
Proof.
  revert x. induction l as [|y l IH]; intros x; simpl; [lia|].
  specialize (IH (Z.max x y)). lia.
Qed.

Lemma fold_max_in l x y : In y l → y ≤ fold_left Z.max l x.
Proof.
  revert x. induction l as [|z l IH]; intros x; simpl; [done|].
  intros [->|Hin]; [|by apply IH].
  pose proof (fold_max_ge l (Z.max x y)). lia.
Qed.

Lemma getTypeABIAlign_struct body :
  getTypeABIAlign (LLVMStructType body) =
  Z.max (fold_left Z.max (map getTypeABIAlign body) 1) getStructABIAlign.
Proof.
  unfold getTypeABIAlign at 1. cbn [getTypeABIAlignAndType fst].
  rewrite fold_stricter_fst, map_map. done.
Qed.

Lemma getTypeABIAlign_pos t : 0 < getTypeABIAlign t.
Proof.
  induction t as [w|k|a|n e IH|e n IH|body IH] using Ty_nested_ind.
  - apply getIntegerABIAlign_pos.
  - apply getFloatABIAlign_pos.
  - apply getPointerABIAlign_pos.
  - exact IH.
  - exact IH.
  - rewrite getTypeABIAlign_struct.
    pose proof (fold_max_ge (map getTypeABIAlign body) 1). lia.
Qed.

(** The alignment that sizes a struct never exceeds its ABI alignment. *)
Definition isPow2 (a : Z) : Prop := ∃ k, 0 ≤ k ∧ a = 2 ^ k.

Lemma isPow2_max a b : isPow2 a → isPow2 b → isPow2 (Z.max a b).
Proof. intros. destruct (Z.max_dec a b) as [-> | ->]; done. Qed.

Lemma isPow2_divide a b : isPow2 a → isPow2 b → a ≤ b → (a | b).
Proof.
  intros (k & Hk & ->) (l & Hl & ->) Hle.
  apply Z.pow_le_mono_r_iff in Hle; [|lia|lia].
  exists (2 ^ (l - k)). rewrite <- Z.pow_add_r by lia. f_equal. lia.
Qed.

Lemma getTypeABIAlign_pow2 t : isPow2 (getTypeABIAlign t).
Proof.
  induction t as [w|k|a|n e IH|e n IH|body IH] using Ty_nested_ind.
  - apply getIntegerABIAlign_pow2.
  - apply getFloatABIAlign_pow2.
  - apply getPointerABIAlign_pow2.
  - exact IH.
  - exact IH.
  - rewrite getTypeABIAlign_struct. apply isPow2_max; [|apply getStructABIAlign_pow2].
    assert (H1 : isPow2 1) by (by exists 0). revert H1. generalize 1.
    induction IH as [|t l Ht _ IHl]; intros m Hm; simpl; [done|].
    by apply IHl, isPow2_max.
Qed.

Lemma struct_align_divide_field body t : In t body →
  getTypeABIAlign t ≤ getTypeABIAlign (LLVMStructType body) →
  (getTypeABIAlign t | getTypeABIAlign (LLVMStructType body)).
Proof. intros. apply isPow2_divide; [apply getTypeABIAlign_pow2..|done]. Qed.

Lemma struct_align_ge_field body t : In t body →
  getTypeABIAlign t ≤ getTypeABIAlign (LLVMStructType body).
Proof.
  intros Hin. rewrite getTypeABIAlign_struct.
  pose proof (fold_max_in (map getTypeABIAlign body) 1 _ (in_map getTypeABIAlign _ _ Hin)). lia.
Qed.

Lemma addField_fold l o s :
  fold_left addField
    (map (fun t => (getTypeABIAlign t,
                    allocSizeOf (storeSizeOfBits (getTypeSizeInBits t)) (getTypeABIAlign t))) l)
    (o, s) = (bodyEnd o l, fold_left Z.max (map getTypeABIAlign l) s).
Proof. revert o s. induction l as [|t l IH]; intros o s; simpl; [done|]. by rewrite IH. Qed.

Lemma getTypeSizeInBits_struct body :
  getTypeSizeInBits (LLVMStructType body) =
  alignTo (bodyEnd 0 body) (fold_left Z.max (map getTypeABIAlign body) 1) * CHAR_BIT.
Proof.
  cbn [getTypeSizeInBits]. by rewrite addField_fold.
Qed.

Lemma storeSizeOfBits_nonneg b : 0 ≤ b → 0 ≤ storeSizeOfBits b.
Proof. intros. rewrite storeSizeOfBits_spec. apply Z.div_pos; lia. Qed.

Lemma storeSizeOfBits_bytes b : storeSizeOfBits (b * CHAR_BIT) = b.
Proof.
  rewrite storeSizeOfBits_spec. unfold CHAR_BIT.
  rewrite Z.add_comm, Z.div_add by lia. done.
Qed.

Lemma allocSizeOf_alignTo s a : 0 ≤ s → 0 < a → allocSizeOf s a = alignTo s a.
Proof. intros. by rewrite allocSizeOf_spec, alignTo_spec. Qed.

Lemma bodyEnd_ge o body : 0 ≤ o → Forall (fun t => 0 ≤ getTypeAllocSize t) body →
  o ≤ bodyEnd o body.
Proof.
  intros Ho H. revert o Ho. induction H as [|t l Ht _ IH]; intros o Ho; simpl; [lia|].
  pose proof (alignTo_ge o (getTypeABIAlign t) Ho (getTypeABIAlign_pos t)).
  etransitivity; [|apply IH; lia]. lia.
Qed.

Lemma getTypeSizeInBits_nonneg t : wfTy t → 0 ≤ getTypeSizeInBits t.
Proof.
  induction t as [w|k|a|n e IH|e n IH|body IH] using Ty_nested_ind.
  - done.
  - intros _. destruct k; simpl; lia.
  - intros _. apply getPointerBitWidth_nonneg.
  - intros [? ?]. apply getVectorBitWidth_nonneg; auto.
  - intros [? ?]. simpl. pose proof (storeSizeOfBits_nonneg _ (IH ltac:(done))).
    unfold CHAR_BIT. nia.
  - rewrite wfTy_struct. intros Hwf. rewrite getTypeSizeInBits_struct. unfold CHAR_BIT.
    pose proof (fold_max_ge (map getTypeABIAlign body) 1).
    assert (Hall : Forall (fun t => 0 ≤ getTypeAllocSize t) body).
    { eapply Forall_impl; [apply Forall_and; split; [exact IH|exact Hwf]|].
      intros t [Ht Hw]. unfold getTypeAllocSize.
      rewrite allocSizeOf_alignTo; [|by apply storeSizeOfBits_nonneg, Ht|apply getTypeABIAlign_pos].
      pose proof (storeSizeOfBits_nonneg _ (Ht Hw)).
      pose proof (alignTo_ge (getTypeStoreSize t) (getTypeABIAlign t)
                    ltac:(done) (getTypeABIAlign_pos t)).
      unfold getTypeStoreSize in *. lia. }
    pose proof (bodyEnd_ge 0 body ltac:(lia) Hall).
    pose proof (alignTo_ge (bodyEnd 0 body) (fold_left Z.max (map getTypeABIAlign body) 1)
                  ltac:(lia) ltac:(lia)). lia.
Qed.

Lemma getTypeStoreSize_nonneg t : wfTy t → 0 ≤ getTypeStoreSize t.
Proof. intros. by apply storeSizeOfBits_nonneg, getTypeSizeInBits_nonneg. Qed.

Lemma getTypeAllocSize_alignTo t : wfTy t →
  getTypeAllocSize t = alignTo (getTypeStoreSize t) (getTypeABIAlign t).
Proof.
  intros. apply allocSizeOf_alignTo; [by apply getTypeStoreSize_nonneg|apply getTypeABIAlign_pos].
Qed.

Lemma getTypeAllocSize_ge_store t : wfTy t → getTypeStoreSize t ≤ getTypeAllocSize t.
Proof.
  intros. rewrite getTypeAllocSize_alignTo by done.
  apply alignTo_ge; [by apply getTypeStoreSize_nonneg|apply getTypeABIAlign_pos].
Qed.

Lemma getTypeAllocSize_nonneg t : wfTy t → 0 ≤ getTypeAllocSize t.
Proof.
  intros Hwf. pose proof (getTypeAllocSize_ge_store t Hwf).
  pose proof (getTypeStoreSize_nonneg t Hwf). lia.
Qed.

Lemma getTypeStoreSize_struct body :
  getTypeStoreSize (LLVMStructType body) =
  alignTo (bodyEnd 0 body) (fold_left Z.max (map getTypeABIAlign body) 1).
Proof.
  unfold getTypeStoreSize. by rewrite getTypeSizeInBits_struct, storeSizeOfBits_bytes.
Qed.

Lemma wf_alloc_nonneg body : Forall wfTy body → Forall (fun t => 0 ≤ getTypeAllocSize t) body.
Proof. intros H. eapply Forall_impl; [exact H|]. intros. by apply getTypeAllocSize_nonneg. Qed.

Lemma fieldOffsets_length o body : length (fieldOffsets o body) = length body.
Proof. revert o. induction body as [|t l IH]; intros o; simpl; [done|]. by rewrite IH. Qed.

(** Shifting the start by a common multiple of the alignments shifts all
    offsets: the generic step for layouts that insert padding. *)
Lemma fieldOffsets_lookup_S o t body i :
  fieldOffsets o (t :: body) !! S i =
  fieldOffsets (alignTo o (getTypeABIAlign t) + getTypeAllocSize t) body !! i.
Proof. done. Qed.

(** One field of the layout: aligned, after everything before it, and ending
    before everything after it. *)
Lemma fieldOffsets_sound o body i t oi : 0 ≤ o → Forall wfTy body →
  body !! i = Some t → fieldOffsets o body !! i = Some oi →
  o ≤ oi ∧ (getTypeABIAlign t | oi) ∧ oi + getTypeAllocSize t ≤ bodyEnd o body.
Proof.
  intros Ho Hwf. revert o i Ho. induction Hwf as [|u l Hu Hl IH]; intros o i Ho; [done|].
  pose proof (getTypeABIAlign_pos u). pose proof (getTypeAllocSize_nonneg u Hu).
  pose proof (alignTo_ge o (getTypeABIAlign u) Ho ltac:(lia)).
  destruct i as [|i]; simpl.
  - intros [= ->] [= <-]. split_and!; [lia|by apply alignTo_divide|].
    apply bodyEnd_ge; [lia|by apply wf_alloc_nonneg].
  - intros Ht Hoi. apply IH in Hoi as (? & ? & ?); [|lia|done]. split_and!; [lia|done|done].
Qed.

Lemma fieldOffsets_disjoint o body i j t oi oj : 0 ≤ o → Forall wfTy body → (i < j)%nat →
  body !! i = Some t → fieldOffsets o body !! i = Some oi → fieldOffsets o body !! j = Some oj →
  oi + getTypeAllocSize t ≤ oj.
Proof.
  intros Ho Hwf. revert o i j Ho. induction Hwf as [|u l Hu Hl IH]; intros o i j Ho Hij; [done|].
  pose proof (getTypeABIAlign_pos u). pose proof (getTypeAllocSize_nonneg u Hu).
  pose proof (alignTo_ge o (getTypeABIAlign u) Ho ltac:(lia)).
  destruct j as [|j]; [lia|]. destruct i as [|i]; simpl.
  - intros [= ->] [= <-] Hj.
    assert (is_Some (l !! j)) as [v Hv].
    { apply lookup_lt_is_Some. rewrite <- (fieldOffsets_length
        (alignTo o (getTypeABIAlign t) + getTypeAllocSize t)). by eapply lookup_lt_Some. }
    by eapply fieldOffsets_sound in Hj as (? & _); [|lia|done|exact Hv].
  - intros Ht Hi Hj. eapply IH; [| |exact Ht|exact Hi|exact Hj]; lia.
Qed.

(** C6: The layout that [getTypeSizeInBits] assumes for a struct is sound:
    every field is aligned as its type requires, lies inside the struct's
    allocation, and ends before the next field begins; and the allocation is a
    multiple of the struct's own alignment. *)
Theorem struct_layout_sound body : Forall wfTy body →
  (getTypeABIAlign (LLVMStructType body) | getTypeAllocSize (LLVMStructType body)) ∧
  ∀ i t oi, body !! i = Some t → fieldOffsets 0 body !! i = Some oi →
    (getTypeABIAlign t | oi) ∧ 0 ≤ oi ∧
    oi + getTypeAllocSize t ≤ getTypeAllocSize (LLVMStructType body) ∧
    ∀ j oj, (i < j)%nat → fieldOffsets 0 body !! j = Some oj → oi + getTypeAllocSize t ≤ oj.
Proof.
  intros Hwf. assert (Hws : wfTy (LLVMStructType body)) by (by apply wfTy_struct).
  split.
  { rewrite getTypeAllocSize_alignTo by done.
    apply alignTo_divide; [by apply getTypeStoreSize_nonneg|apply getTypeABIAlign_pos]. }
  intros i t oi Ht Hi.
  destruct (fieldOffsets_sound 0 body i t oi ltac:(lia) Hwf Ht Hi) as (H0 & Hd & He).
  split_and!; [done|done| |intros j oj Hij Hj; by eapply (fieldOffsets_disjoint 0)].
  etransitivity; [exact He|]. etransitivity; [|by apply getTypeAllocSize_ge_store].
  rewrite getTypeStoreSize_struct. apply alignTo_ge; [by apply (bodyEnd_ge 0), wf_alloc_nonneg|].
  pose proof (fold_max_ge (map getTypeABIAlign body) 1). lia.
Qed.
End DataLayout.

(** ** The executable instance: the data layout of x86-64 *)

Module ConcreteLayout.
Definition integerAlign (w : Z) : Z :=
  if w <=? 8 then 1 else if w <=? 16 then 2 else if w <=? 32 then 4
  else if w <=? 64 then 8 else 16.
Definition floatAlign (w : Z) : Z :=
  if w <=? 8 then 1 else if w <=? 16 then 2 else if w <=? 32 then 4
  else if w <=? 64 then 8 else 16.
Lemma integerAlign_pos w : 0 < integerAlign w.
Proof. unfold integerAlign. repeat case_match; lia. Qed.
Lemma floatAlign_pos w : 0 < floatAlign w.
Proof. unfold floatAlign. repeat case_match; lia. Qed.
Lemma integerAlign_pow2 w : ∃ k, 0 ≤ k ∧ integerAlign w = 2 ^ k.
Proof.
  unfold integerAlign.
  repeat case_match; [exists 0|exists 1|exists 2|exists 3|exists 4]; by split; [lia|].
Qed.
End ConcreteLayout.

Definition x86_64_layout : TargetDataLayout := {|
  getPointerBitWidth := fun _ => 64;
  getVectorBitWidth := Z.mul;
  getIntegerABIAlign := ConcreteLayout.integerAlign;
  getFloatABIAlign := ConcreteLayout.floatAlign;
  getPointerABIAlign := 8;
  getStructABIAlign := 1;
  storeSizeOfBits := fun b => (b + 7) / 8;
  allocSizeOf := fun s a => a * ((s + a - 1) / a);
  getPointerBitWidth_nonneg := fun _ => ltac:(lia);
  getVectorBitWidth_nonneg := fun _ _ => Z.mul_nonneg_nonneg _ _;
  getIntegerABIAlign_pos := ConcreteLayout.integerAlign_pos;
  getFloatABIAlign_pos := ConcreteLayout.floatAlign_pos;
  getPointerABIAlign_pos := ltac:(lia);
  getStructABIAlign_pos := ltac:(lia);
  getIntegerABIAlign_pow2 := ConcreteLayout.integerAlign_pow2;
  getFloatABIAlign_pow2 := ConcreteLayout.integerAlign_pow2;
  getPointerABIAlign_pow2 := ltac:(exists 3; split; [lia|reflexivity]);
  getStructABIAlign_pow2 := ltac:(exists 0; split; [lia|reflexivity]);
  getVectorBitWidth_covers := fun _ _ _ _ => Z.le_refl _;
  storeSizeOfBits_spec := fun _ => eq_refl;
  allocSizeOf_spec := fun _ _ _ _ => eq_refl
|}.

Lemma struct_layout_sound_witness :
  let body := [IntegerType 8; FloatType F64; IntegerType 16] in
  8 + 8 ≤ @getTypeAllocSize llvm_math x86_64_layout (LLVMStructType body).
Proof.
  apply (proj2 (@struct_layout_sound llvm_math x86_64_layout [IntegerType 8; FloatType F64; IntegerType 16]
    ltac:(repeat constructor; simpl; lia)) 1%nat (FloatType F64) 8 eq_refl eq_refl).
Defined.
