(* ===== verification/CABI.v ===== *)
(** C ABI classification: CABILowering.h/.cpp (the classification data, the
    platform interface and its factory) and CABIWin64.h/.cpp (the Microsoft
    x64 convention).  [SystemVABIInfo] and [AAPCSABIInfo] are not in the
    repository and stay parameters of the factory. *)
From S2P Require Import Prelude LLVMSupport LLVMTypes DataLayout.

(** ** ABI classification types (CABILowering.h) *)

Inductive ABIArgClass :=
  | Integer | SSE
  | IntegerPair | SSEPair | Mixed
  | Memory
  | NoClass.

#[export] Instance ABIArgClass_eq_dec : EqDecision ABIArgClass.
Proof. solve_decision. Defined.

(** [nullptr] types are [None]. *)
Record CoercionInfo := mkCoercionInfo {
  argClass : ABIArgClass;
  coercedType : option Ty;
  coercedSecondType : option Ty;
  useIndirect : bool;
  useByval : bool;
  useSRet : bool
}.

#[export] Instance CoercionInfo_eq_dec : EqDecision CoercionInfo.
Proof. solve_decision. Defined.

(** The default constructor: identity, pass-through. *)
Definition CoercionInfo_default : CoercionInfo :=
  mkCoercionInfo NoClass None None false false false.

Definition indirectArgument (byval : bool) : CoercionInfo :=
  mkCoercionInfo Memory None None true byval false.

Definition sretReturn : CoercionInfo :=
  mkCoercionInfo Memory None None false false true.

Definition isIdentity (ci : CoercionInfo) : bool := bool_decide (argClass ci = NoClass).

Definition isTwoRegister (ci : CoercionInfo) : bool :=
  bool_decide (argClass ci = IntegerPair) || bool_decide (argClass ci = SSEPair)
  || bool_decide (argClass ci = Mixed).

Record SignatureClassification := mkSignatureClassification {
  sig_args : list CoercionInfo;
  sig_ret : CoercionInfo
}.

(** The result type of an LLVM function: [!llvm.void] or a data type. *)
Inductive RetType := VoidType | DataType (t : Ty).

#[export] Instance RetType_eq_dec : EqDecision RetType.
Proof. solve_decision. Defined.

(** ** Platform ABI interface

    The virtual functions of [CABIInfo].  [None] is a run that reaches
    [llvm_unreachable]. *)
Record CABIInfo := mkCABIInfo {
  classifyArgumentType : Ty → bool → option CoercionInfo;
  classifyReturnType : RetType → option CoercionInfo;
  computeSignatureInfo : list Ty → option RetType → Z → option SignatureClassification
}.

(** The loop of [CABIInfo::computeSignatureInfo] over [enumerate(argTypes)]. *)
Fixpoint classifyArgs (classifyArgument : Ty → bool → option CoercionInfo)
    (idx : Z) (argTypes : list Ty) (numFixedArgs : Z) : option (list CoercionInfo) :=
  match argTypes with
  | [] => Some []
  | type :: rest =>
      let isVariadicArg := idx >=? numFixedArgs in
      info ← classifyArgument type isVariadicArg;
      infos ← classifyArgs classifyArgument (idx + 1) rest numFixedArgs;
      Some (info :: infos)
  end.

(** [CABIInfo::computeSignatureInfo], the base implementation. *)
Definition computeSignatureInfo_base
    (classifyArgument : Ty → bool → option CoercionInfo)
    (classifyReturn : RetType → option CoercionInfo)
    (argTypes : list Ty) (retType : option RetType) (numFixedArgs : Z) :
    option SignatureClassification :=
  ret ← (match retType with
         | Some t => classifyReturn t
         | None => Some CoercionInfo_default
         end);
  args ← classifyArgs classifyArgument 0 argTypes numFixedArgs;
  Some (mkSignatureClassification args ret).

(** [SIZE_MAX], the default of [numFixedArgs]: no argument is variadic. *)
Definition SIZE_MAX : Z := 2 ^ 64 - 1.

(** ** [DefaultCABIInfo]: pass everything through *)

Definition default_classifyArgumentType (_ : Ty) (_ : bool) : option CoercionInfo :=
  Some CoercionInfo_default.
Definition default_classifyReturnType (_ : RetType) : option CoercionInfo :=
  Some CoercionInfo_default.
Definition DefaultCABIInfo : CABIInfo :=
  mkCABIInfo default_classifyArgumentType default_classifyReturnType
    (computeSignatureInfo_base default_classifyArgumentType default_classifyReturnType).

Section CABI.
Context {LM : LLVMMath} {TD : TargetDataLayout}.

(** ** [CabiUtils] *)

Definition getStructSize (type : Ty) : Z := getTypeStoreSize type.

(** The body of the loop of [getLeafFloatBitWidth]: [None] is the early
    [return 0], [Some c] the running [canonicalBitWidth]. *)
Definition mergeLeafWidth (canonicalBitWidth : option (option Z)) (fieldBitWidth : option Z) :
    option (option Z) :=
  match canonicalBitWidth, fieldBitWidth with
  | None, _ | _, None => None
  | Some None, Some w => Some (Some w)
  | Some (Some c), Some w => if c =? w then Some (Some c) else None
  end.

(** [getLeafFloatBitWidth] on a struct, and the width one field contributes
    ([None]: the field makes the function return 0). *)
Fixpoint fieldFloatWidth (fieldType : Ty) : option Z :=
  match fieldType with
  | FloatType k => Some (floatWidth k)
  | VectorType _ (FloatType k) => Some (floatWidth k)
  | LLVMStructType body =>
      let w := match fold_left mergeLeafWidth (map fieldFloatWidth body) (Some None) with
               | Some (Some c) => c
               | Some None | None => 0
               end in
      if w =? 0 then None else Some w
  | _ => None
  end.

Definition getLeafFloatBitWidth (body : list Ty) : Z :=
  match fold_left mergeLeafWidth (map fieldFloatWidth body) (Some None) with
  | Some (Some c) => c
  | Some None | None => 0
  end.

Definition isAllFloatStruct (fields : list Ty) : bool :=
  match fields with
  | [] => false
  | _ => if Z.of_nat (length fields) >? 4 then false
         else negb (getLeafFloatBitWidth fields =? 0)
  end.

(** [None] is [llvm_unreachable("Invalid size for integer type")]. *)
Definition getIntegerTypeForSize (size : Z) : option Ty :=
  bitWidth ← (if size =? 1 then Some 8
              else if size =? 2 then Some 16
              else if size <=? 4 then Some 32
              else if size <=? 8 then Some 64
              else None);
  Some (IntegerType bitWidth).

Definition classifySmallIntegerStruct (size : Z) : option CoercionInfo :=
  type ← getIntegerTypeForSize size;
  Some (mkCoercionInfo Integer (Some type) None false false false).

(** ** [Win64ABIInfo] *)

Definition win64_classifyAggregate (type : RetType) (useSRet : bool) : option CoercionInfo :=
  match type with
  | DataType (LLVMStructType body) =>
      let size := getStructSize (LLVMStructType body) in
      if (size >? 8) || negb (isPowerOf2_64 (size mod 2 ^ 64)) then
        Some (if useSRet then sretReturn else indirectArgument false)
      else classifySmallIntegerStruct size
  | _ => Some CoercionInfo_default
  end.

Definition win64_classifyArgumentType (type : Ty) (isVariadicArg : bool) : option CoercionInfo :=
  if isArray type then Some (indirectArgument false)
  else win64_classifyAggregate (DataType type) false.

Definition win64_classifyReturnType (type : RetType) : option CoercionInfo :=
  win64_classifyAggregate type true.

Definition Win64ABIInfo : CABIInfo :=
  mkCABIInfo win64_classifyArgumentType win64_classifyReturnType
    (computeSignatureInfo_base win64_classifyArgumentType win64_classifyReturnType).

(** ** Factory *)

(** [llvm::Triple::ArchType], the architectures the switch names. *)
Inductive ArchType := x86_64 | aarch64 | aarch64_be | aarch64_32 | x86 | UnknownArch.

Record Triple := mkTriple {
  getArch : ArchType;
  isOSWindows : bool;
  isOSDarwin : bool
}.

Variable SystemVABIInfo : CABIInfo.
Variable AAPCSABIInfo : bool → CABIInfo.

Definition isCABIEnabled (skipCoercion : bool) : bool := negb skipCoercion.

Definition createCABIInfo (skipCoercion : bool) (triple : Triple) : CABIInfo :=
  if negb (isCABIEnabled skipCoercion) then DefaultCABIInfo
  else match getArch triple with
       | x86_64 => if isOSWindows triple then Win64ABIInfo else SystemVABIInfo
       | aarch64 | aarch64_be | aarch64_32 => AAPCSABIInfo (isOSDarwin triple)
       | x86 => DefaultCABIInfo
       | UnknownArch => DefaultCABIInfo
       end.

(** ** Lemmas *)

(** The powers of two that fit in eight bytes. *)
Lemma small_pow2 s : 0 ≤ s →
  (s >? 8) || negb (isPowerOf2_64 (s mod 2 ^ 64)) = false ↔
  s = 1 ∨ s = 2 ∨ s = 4 ∨ s = 8.
Proof.
  intros Hs. rewrite orb_false_iff, negb_false_iff. split.
  - intros [H8 Hp]. bool_to_prop. rewrite Z.mod_small in Hp by lia.
    apply isPowerOf2_64_spec in Hp as (k & Hk & ->); [|lia].
    assert (k ≤ 3) by (apply (Z.pow_le_mono_r_iff 2); lia).
    assert (k = 0 ∨ k = 1 ∨ k = 2 ∨ k = 3) as [->|[->|[->| ->]]] by lia; simpl; lia.
  - intros H. split; [rewrite Z.gtb_ltb; apply Z.ltb_ge; lia|].
    rewrite Z.mod_small by lia. apply isPowerOf2_64_spec; [lia|].
    destruct H as [->|[->|[->| ->]]]; [exists 0|exists 1|exists 2|exists 3]; lia.
Qed.

Lemma classifySmallIntegerStruct_pow2 s : s = 1 ∨ s = 2 ∨ s = 4 ∨ s = 8 →
  classifySmallIntegerStruct s =
  Some (mkCoercionInfo Integer (Some (IntegerType (8 * s))) None false false false).
Proof. by intros [->|[->|[->| ->]]]. Qed.

Lemma classifyArgs_lookup f idx tys n infos i t :
  classifyArgs f idx tys n = Some infos → tys !! i = Some t →
  ∃ info, infos !! i = Some info ∧ f t (idx + Z.of_nat i >=? n) = Some info.
Proof.
  revert idx infos i. induction tys as [|u tys IH]; intros idx infos i; [done|].
  cbn [classifyArgs]; cbv zeta. intros (info & Hinfo & (rest & Hrest & [= <-])%bind_Some)%bind_Some Ht.
  destruct i as [|i]; simpl in *.
  - simplify_eq. exists info. rewrite Z.add_0_r. done.
  - destruct (IH _ _ _ Hrest Ht) as (x & ? & Hx). exists x.
    split; [done|]. rewrite <- Hx. f_equal. f_equal. lia.
Qed.

Lemma classifyArgs_length f idx tys n infos :
  classifyArgs f idx tys n = Some infos → length infos = length tys.
Proof.
  revert idx infos. induction tys as [|u tys IH]; intros idx infos; cbn [classifyArgs]; cbv zeta.
  - by intros [= <-].
  - intros (info & _ & (rest & Hrest & [= <-])%bind_Some)%bind_Some.
    simpl. f_equal. by eapply IH.
Qed.

(** A classifier that is total and ignores [isVariadicArg] acts pointwise. *)
Lemma classifyArgs_pointwise f g idx tys n :
  (∀ t b, f t b = Some (g t)) → classifyArgs f idx tys n = Some (map g tys).
Proof.
  intros Hf. revert idx. induction tys as [|u tys IH]; intros idx; simpl; [done|].
  by rewrite Hf, IH.
Qed.

(** What the Microsoft documentation says of one value: by value in an
    integer register when it is a struct of 1, 2, 4 or 8 bytes, by reference
    when it is any other struct (or an array argument), untouched otherwise. *)
Definition win64_reference (type : Ty) (byReference : CoercionInfo) : CoercionInfo :=
  if isStruct type then
    if bool_decide (getTypeStoreSize type ∈ [1; 2; 4; 8])
    then mkCoercionInfo Integer (Some (IntegerType (8 * getTypeStoreSize type))) None false false false
    else byReference
  else CoercionInfo_default.

Definition win64_arg_reference (type : Ty) : CoercionInfo :=
  if isArray type then indirectArgument false else win64_reference type (indirectArgument false).

Lemma win64_classifyAggregate_data t useSRet : wfTy t →
  win64_classifyAggregate (DataType t) useSRet =
  Some (win64_reference t (if useSRet then sretReturn else indirectArgument false)).
Proof.
  intros Hwf. unfold win64_reference. destruct t as [| | | | |body]; try done.
  cbn [win64_classifyAggregate isStruct]. unfold getStructSize.
  pose proof (small_pow2 _ (getTypeStoreSize_nonneg _ Hwf)) as Hp.
  destruct ((_ >? 8) || _) eqn:E.
  - rewrite bool_decide_eq_false_2; [done|]. intros Hin.
    enough (true = false) by done. apply Hp.
    repeat (apply elem_of_cons in Hin as [?|Hin]; [auto|]). by apply elem_of_nil in Hin.
  - pose proof (proj1 Hp eq_refl) as Hs.
    rewrite bool_decide_eq_true_2; [by apply classifySmallIntegerStruct_pow2|].
    destruct Hs as [->|[->|[->| ->]]]; set_solver.
Qed.

Lemma win64_classifyArgument_total t b : wfTy t →
  win64_classifyArgumentType t b = Some (win64_arg_reference t).
Proof.
  intros Hwf. unfold win64_classifyArgumentType, win64_arg_reference.
  destruct (isArray t) eqn:E; [done|]. by apply win64_classifyAggregate_data.
Qed.

Lemma win64_classifyArgs tys idx n : Forall wfTy tys →
  classifyArgs win64_classifyArgumentType idx tys n = Some (map win64_arg_reference tys).
Proof.
  intros Hwf. revert idx. induction Hwf as [|t tys Ht _ IH]; intros idx; simpl; [done|].
  by rewrite win64_classifyArgument_total, IH.
Qed.

(** A field all of whose leaves are floats of width [w], with no empty
    struct inside. *)
Inductive homogeneous (w : Z) : Ty → Prop :=
  | homogeneous_float k : floatWidth k = w → homogeneous w (FloatType k)
  | homogeneous_vector n k : floatWidth k = w → homogeneous w (VectorType n (FloatType k))
  | homogeneous_struct body : body ≠ [] → Forall (homogeneous w) body →
      homogeneous w (LLVMStructType body).

Lemma floatWidth_pos k : 0 < floatWidth k.
Proof. destruct k; simpl; lia. Qed.

Lemma fold_merge_none l : fold_left mergeLeafWidth l None = None.
Proof. by induction l. Qed.

Lemma fold_merge_some l c w :
  fold_left mergeLeafWidth l (Some (Some c)) = Some (Some w) ↔
  c = w ∧ Forall (fun x => x = Some w) l.
Proof.
  revert c. induction l as [|x l IH]; intros c; simpl.
  { split; [intros [= ->]|intros [-> _]]; done. }
  rewrite Forall_cons. destruct x as [v|]; simpl.
  - destruct (Z.eqb_spec c v) as [->|Hne].
    + rewrite IH. naive_solver.
    + rewrite fold_merge_none. split; [done|]. intros [-> [[= ->] _]]. done.
  - rewrite fold_merge_none. naive_solver.
Qed.

Lemma fold_merge_start l w :
  fold_left mergeLeafWidth l (Some None) = Some (Some w) ↔
  l ≠ [] ∧ Forall (fun x => x = Some w) l.
Proof.
  destruct l as [|x l]; simpl; [naive_solver|]. rewrite Forall_cons. destruct x as [v|]; simpl.
  - rewrite fold_merge_some. naive_solver.
  - rewrite fold_merge_none. naive_solver.
Qed.

Lemma fieldFloatWidth_homogeneous t w : 0 < w →
  fieldFloatWidth t = Some w ↔ homogeneous w t.
Proof.
  intros Hw. induction t as [z|k|a|n e IH|e n IH|body IH] using Ty_nested_ind; simpl.
  - split; [done|inversion 1].
  - split; [intros [= <-]; by constructor|inversion 1; by subst].
  - split; [done|inversion 1].
  - destruct e; try (split; [done|inversion 1]).
    split; [intros [= <-]; by constructor|inversion 1; by subst].
  - split; [done|inversion 1].
  - assert (Hbody : fold_left mergeLeafWidth (map fieldFloatWidth body) (Some None) = Some (Some w) ↔
      body ≠ [] ∧ Forall (homogeneous w) body).
    { rewrite fold_merge_start, Forall_map. assert (map fieldFloatWidth body ≠ [] ↔ body ≠ []) as ->
        by (destruct body; done).
      assert (Forall (fun x => fieldFloatWidth x = Some w) body ↔ Forall (homogeneous w) body) as Hiff;
        [|by rewrite <- Hiff].
      clear -IH. induction IH as [|x l Hx _ IHl]; [by split|]. by rewrite !Forall_cons, Hx, IHl. }
    split.
    + destruct (fold_left _ _ _) as [[c|]|]; simpl; [|done|done].
      destruct (Z.eqb_spec c 0); [done|]. intros [= ->].
      destruct (proj1 Hbody eq_refl). by constructor.
    + inversion_clear 1 as [| |b Hne Hall]. rewrite (proj2 Hbody (conj Hne Hall)).
      by destruct (Z.eqb_spec w 0); [lia|].
Qed.

Lemma getLeafFloatBitWidth_homogeneous fields w : 0 < w →
  getLeafFloatBitWidth fields = w ↔ fields ≠ [] ∧ Forall (homogeneous w) fields.
Proof.
  intros Hw. unfold getLeafFloatBitWidth.
  assert (Hall : fold_left mergeLeafWidth (map fieldFloatWidth fields) (Some None) = Some (Some w) ↔
    fields ≠ [] ∧ Forall (homogeneous w) fields).
  { rewrite fold_merge_start, Forall_map. assert (map fieldFloatWidth fields ≠ [] ↔ fields ≠ []) as ->
      by (destruct fields; done).
    assert (Forall (fun x => fieldFloatWidth x = Some w) fields ↔ Forall (homogeneous w) fields) as Hiff;
      [|by rewrite <- Hiff].
    by apply Forall_iff; intros t; apply fieldFloatWidth_homogeneous. }
  rewrite <- Hall. destruct (fold_left _ _ _) as [[c|]|]; split; try congruence; lia.
Qed.

Lemma leaf_width_nonneg fields : 0 ≤ getLeafFloatBitWidth fields.
Proof.
  assert (Hf : ∀ t w, fieldFloatWidth t = Some w → 0 < w).
  { intros t. induction t as [z|k|a|n e IH|e n IH|body IH] using Ty_nested_ind; simpl; try done.
    - intros w [= <-]. apply floatWidth_pos.
    - by destruct e.
    - intros w. destruct (fold_left _ _ _) as [[c|]|] eqn:E; simpl; [|done|done].
      destruct (c =? 0); [done|]. intros [= ->].
      apply fold_merge_start in E as [Hne Hall]. destruct body as [|t body]; [done|].
      apply Forall_cons in Hall as [Ht _]. apply Forall_cons in IH as [IHt _]. by apply IHt. }
  unfold getLeafFloatBitWidth. destruct (fold_left _ _ _) as [[c|]|] eqn:E; [|lia|lia].
  apply fold_merge_start in E as [Hne Hall]. destruct fields as [|t fields]; [done|].
  apply Forall_cons in Hall as [Ht _]. apply Hf in Ht. lia.
Qed.

Definition win64_ret_reference (type : RetType) : CoercionInfo :=
  match type with
  | DataType t => win64_reference t sretReturn
  | VoidType => CoercionInfo_default
  end.

(** ** Properties *)

(** C3: For an x86-64 Windows triple the factory's handler classifies every
    signature by the one rule of the Microsoft convention, whatever the
    System V handler would say: each argument and the result independently
    (no register budget), variadic or not, a struct by value as an integer
    of its size exactly when it is 1, 2, 4 or 8 bytes and by reference
    otherwise; [llvm_unreachable] is never reached. *)
Theorem win64_signature_spec triple tys ret numFixedArgs :
  getArch triple = x86_64 → isOSWindows triple = true →
  Forall wfTy tys → (∀ t, ret = DataType t → wfTy t) →
  computeSignatureInfo (createCABIInfo false triple) tys (Some ret) numFixedArgs =
  Some (mkSignatureClassification (map win64_arg_reference tys) (win64_ret_reference ret)).
Proof.
  intros Harch Hos Htys Hret. unfold createCABIInfo. rewrite Harch, Hos.
  cbn [negb isCABIEnabled computeSignatureInfo Win64ABIInfo]. unfold computeSignatureInfo_base.
  rewrite win64_classifyArgs by done. unfold win64_classifyReturnType. destruct ret as [|t]; [done|].
  by rewrite win64_classifyAggregate_data by auto.
Qed.

(** [isAllFloatStruct] accepts exactly the structs of one to four
    top-level fields all of whose leaves (through nested structs, vectors
    counting as their element) are floats of one common bit width. *)
Theorem isAllFloatStruct_spec fields :
  isAllFloatStruct fields = true ↔
  (1 ≤ length fields ≤ 4)%nat ∧ ∃ w, 0 < w ∧ Forall (homogeneous w) fields.
Proof.
  pose proof (leaf_width_nonneg fields) as Hnn.
  destruct fields as [|t fields]; [simpl; split; [done|lia]|].
  cbn [isAllFloatStruct]. destruct (Z.of_nat _ >? 4) eqn:E; bool_to_prop.
  { split; [done|]. lia. }
  rewrite negb_true_iff, Z.eqb_neq. split.
  - intros H0. split; [simpl in *; lia|]. eexists. split; [|by eapply getLeafFloatBitWidth_homogeneous; [|done]; lia].
    lia.
  - intros [_ (w & Hw & Hall)].
    rewrite (proj2 (getLeafFloatBitWidth_homogeneous _ w Hw)); [lia|done].
Qed.

(** The homogeneity test compares bit widths, not types: a struct of a
    [half] and a [bfloat] passes it, and so does one mixing the two 8-bit
    formats. *)
Theorem isAllFloatStruct_mixed_formats :
  isAllFloatStruct [FloatType F16; FloatType BF16] = true ∧
  isAllFloatStruct [FloatType Float8E5M2; LLVMStructType [FloatType Float8E4M3FN]] = true.
Proof. split; reflexivity. Qed.
End CABI.

Lemma win64_signature_spec_witness :
  computeSignatureInfo
    (@createCABIInfo llvm_math x86_64_layout DefaultCABIInfo (fun _ => DefaultCABIInfo) false
       (mkTriple x86_64 true false))
    [LLVMStructType [FloatType F32]; LLVMStructType [FloatType F64; FloatType F64]; IntegerType 32]
    (Some (DataType (LLVMStructType [IntegerType 8; IntegerType 8; IntegerType 8]))) 1 =
  Some (mkSignatureClassification
          [mkCoercionInfo Integer (Some (IntegerType 32)) None false false false;
           indirectArgument false; CoercionInfo_default] sretReturn).
Proof.
  rewrite win64_signature_spec; [reflexivity|reflexivity|reflexivity| |].
  - repeat constructor; simpl; lia.
  - intros t [= <-]. simpl. lia.
Defined.
