(* ===== verification/CABIRewrite.v ===== *)
(** Rewriting of an LLVM function to its C ABI signature:
    LowerKGENToLLVMRewriteCABIFns.cpp.  The IR is a list of operations over
    numbered SSA values; the insertion-point builder is a state monad. *)
From S2P Require Import Prelude LLVMSupport LLVMTypes DataLayout CABI.

(** ** The IR the pass reads and emits *)

Abbreviation Value := nat (only parsing).

Inductive Op :=
  | ConstantOp (res : Value) (value : Z)
  | AllocaOp (res : Value) (allocType : Ty) (count : Value) (align : Z)
  | StoreOp (value addr : Value)
  | LoadOp (res : Value) (type : Ty) (addr : Value)
  | UndefOp (res : Value) (type : Ty)
  | InsertValueOp (res container value : Value) (position : Z)
  | ReturnOp (operands : list Value)
  | OtherOp (results operands : list Value).

Inductive ArgAttr :=
  | StructRetAttr (type : RetType)
  | ByValAttr (type : Ty).

(** A function body: the entry block's arguments and operations, and the
    operations of the other blocks (which the walk over returns visits). *)
Record Body := mkBody {
  entryArgs : list (Value * Ty);
  entryOps : list Op;
  otherBlocks : list (list Op);
  nextValue : Value
}.

Record LLVMFuncOp := mkLLVMFuncOp {
  paramTypes : list Ty;
  returnType : RetType;
  isVarArg : bool;
  argAttrs : list (Z * ArgAttr);
  body : option Body          (* [None]: the function is external *)
}.

(** ** The builder: fresh values, the operations emitted so far and the block
    arguments appended so far.  [None] is a failed [assert] or an access out of
    range. *)
Record BState := mkBState {
  bs_next : Value;
  bs_ops : list Op;
  bs_args : list (Value * Ty)
}.

Definition Builder (A : Type) : Type := BState → option (A * BState).

Definition bret {A} (a : A) : Builder A := fun s => Some (a, s).
Definition bbind {A B} (m : Builder A) (f : A → Builder B) : Builder B :=
  fun s => match m s with Some (a, s') => f a s' | None => None end.
Notation "x <-- m ;; k" := (bbind m (fun x => k))
  (at level 60, m at next level, right associativity) : mojo_scope.
Notation "m ;;; k" := (bbind m (fun _ => k))
  (at level 60, right associativity) : mojo_scope.
Local Open Scope mojo_scope.

Definition fresh : Builder Value :=
  fun s => Some (bs_next s, mkBState (S (bs_next s)) (bs_ops s) (bs_args s)).
Definition emit (o : Op) : Builder unit :=
  fun s => Some (tt, mkBState (bs_next s) (bs_ops s ++ [o]) (bs_args s)).
Definition addArgument (type : Ty) : Builder Value :=
  fun s => Some (bs_next s, mkBState (S (bs_next s)) (bs_ops s)
                              (bs_args s ++ [(bs_next s, type)])).
Definition assertThat (b : bool) : Builder unit :=
  fun s => if b then Some (tt, s) else None.
Definition liftOption {A} (o : option A) : Builder A :=
  fun s => match o with Some a => Some (a, s) | None => None end.

(** [LLVMPointerType::get(ctx)]. *)
Definition ptrType : Ty := LLVMPointerType 0.

Section Rewrite.
Context {LM : LLVMMath} {TD : TargetDataLayout}.

Definition createEntryAlloca (allocType storeType : Ty) : Builder Value :=
  let align := Z.max (getTypeABIAlign allocType) (getTypeABIAlign storeType) in
  count <-- fresh;;
  emit (ConstantOp count 1);;;
  res <-- fresh;;
  emit (AllocaOp res allocType count align);;;
  bret res.

(** One iteration of the loop of [reconstructCABIArguments]: the value that
    replaces the original argument, and the next [paramIdx]. *)
Definition reconstructArgument (newParams : list Ty) (coercion : CoercionInfo)
    (origType : Ty) (paramIdx : nat) : Builder (Value * nat) :=
  paramTy <-- liftOption (newParams !! paramIdx);;
  let paramIdx := S paramIdx in
  if isIdentity coercion then
    arg <-- addArgument paramTy;;
    bret (arg, paramIdx)
  else if useIndirect coercion then
    ptrArg <-- addArgument paramTy;;
    res <-- fresh;;
    emit (LoadOp res origType ptrArg);;;
    bret (res, paramIdx)
  else if isTwoRegister coercion then
    arg1 <-- addArgument paramTy;;
    paramTy2 <-- liftOption (newParams !! paramIdx);;
    arg2 <-- addArgument paramTy2;;
    assertThat (bool_decide (Some paramTy = coercedType coercion));;;
    assertThat (bool_decide (Some paramTy2 = coercedSecondType coercion));;;
    let pairTy := LLVMStructType [paramTy; paramTy2] in
    alloca <-- createEntryAlloca origType pairTy;;
    pair0 <-- fresh;;
    emit (UndefOp pair0 pairTy);;;
    pair1 <-- fresh;;
    emit (InsertValueOp pair1 pair0 arg1 0);;;
    pair2 <-- fresh;;
    emit (InsertValueOp pair2 pair1 arg2 1);;;
    emit (StoreOp pair2 alloca);;;
    res <-- fresh;;
    emit (LoadOp res origType alloca);;;
    bret (res, S paramIdx)
  else
    assertThat (bool_decide (is_Some (coercedType coercion)));;;
    coercedArg <-- addArgument paramTy;;
    assertThat (bool_decide (Some paramTy = coercedType coercion));;;
    alloca <-- createEntryAlloca origType paramTy;;
    emit (StoreOp coercedArg alloca);;;
    res <-- fresh;;
    emit (LoadOp res origType alloca);;;
    bret (res, paramIdx).

(** The loop over [llvm::zip(argInfos, origArgs)]. *)
Fixpoint reconstructLoop (newParams : list Ty) (argInfos : list CoercionInfo)
    (origArgs : list (Value * Ty)) (paramIdx : nat) : Builder (list Value) :=
  match argInfos, origArgs with
  | coercion :: argInfos, (_, origType) :: origArgs =>
      r <-- reconstructArgument newParams coercion origType paramIdx;;
      rest <-- reconstructLoop newParams argInfos origArgs (snd r);;
      bret (fst r :: rest)
  | _, _ => bret []
  end.

Definition reconstructCABIArguments (newParams : list Ty) (argInfos : list CoercionInfo)
    (origArgs : list (Value * Ty)) (retInfo : CoercionInfo) : Builder (list Value) :=
  reconstructLoop newParams argInfos origArgs (if useSRet retInfo then 1%nat else 0%nat).

(** [origArg.replaceAllUsesWith(reconVal)] on the operands of an operation. *)
Definition replaceOperand (orig recon v : Value) : Value :=
  if decide (v = orig) then recon else v.
Definition replaceUses (orig recon : Value) (o : Op) : Op :=
  let r := replaceOperand orig recon in
  match o with
  | ConstantOp res c => ConstantOp res c
  | AllocaOp res t n a => AllocaOp res t (r n) a
  | StoreOp v p => StoreOp (r v) (r p)
  | LoadOp res t p => LoadOp res t (r p)
  | UndefOp res t => UndefOp res t
  | InsertValueOp res c v i => InsertValueOp res (r c) (r v) i
  | ReturnOp vs => ReturnOp (map r vs)
  | OtherOp rs vs => OtherOp rs (map r vs)
  end.
Definition replaceAllUses (pairs : list (Value * Value)) (ops : list Op) : list Op :=
  fold_left (fun ops p => map (replaceUses (fst p) (snd p)) ops) pairs ops.

(** [func.walk] over the returns of one block, threading the fresh values;
    [rewrite] gives what stands before the return and its new operands. *)
Fixpoint walkReturns (rewrite : list Value → Value → option (list Op * list Value * Value))
    (ops : list Op) (next : Value) : option (list Op * Value) :=
  match ops with
  | [] => Some ([], next)
  | ReturnOp vs :: ops =>
      '(before, operands, next) ← rewrite vs next;
      '(ops, next) ← walkReturns rewrite ops next;
      Some (before ++ ReturnOp operands :: ops, next)
  | o :: ops =>
      '(ops, next) ← walkReturns rewrite ops next;
      Some (o :: ops, next)
  end.

Fixpoint walkBlocks (rewrite : list Value → Value → option (list Op * list Value * Value))
    (blocks : list (list Op)) (next : Value) : option (list (list Op) * Value) :=
  match blocks with
  | [] => Some ([], next)
  | b :: blocks =>
      '(b, next) ← walkReturns rewrite b next;
      '(blocks, next) ← walkBlocks rewrite blocks next;
      Some (b :: blocks, next)
  end.

(** The lambda of [rewriteReturnsToCoercedType]. *)
Definition rewriteReturnsToCoercedType (retAlloca : Value) (coercedTy : Ty)
    (operands : list Value) (next : Value) : option (list Op * list Value * Value) :=
  match operands with
  | [] => Some ([], [], next)
  | [v] => Some ([StoreOp v retAlloca; LoadOp next coercedTy retAlloca], [next], S next)
  | _ => None
  end.

(** The lambda of the sret branch of [applyCABIReturnCoercion]. *)
Definition rewriteReturnsToSRet (sretArg : Value)
    (operands : list Value) (next : Value) : option (list Op * list Value * Value) :=
  match operands with
  | [v] => Some ([StoreOp v sretArg], [], next)
  | _ => None
  end.

Definition rewriteBodyReturns (rewrite : list Value → Value → option (list Op * list Value * Value))
    (b : Body) : option Body :=
  '(ops, next) ← walkReturns rewrite (entryOps b) (nextValue b);
  '(blocks, next) ← walkBlocks rewrite (otherBlocks b) next;
  Some (mkBody (entryArgs b) ops blocks next).

(** The coerced type of a one- or two-register result. *)
Definition coercedReturnType (retInfo : CoercionInfo) : option Ty :=
  if isTwoRegister retInfo then
    t1 ← coercedType retInfo; t2 ← coercedSecondType retInfo;
    Some (LLVMStructType [t1; t2])
  else coercedType retInfo.

Definition applyCABIReturnCoercion (b : Body) (retInfo : CoercionInfo) (origRetType : Ty) :
    option (RetType * Body) :=
  if useSRet retInfo then
    let sretArg := nextValue b in
    b ← rewriteBodyReturns (rewriteReturnsToSRet sretArg)
          (mkBody ((sretArg, ptrType) :: entryArgs b) (entryOps b) (otherBlocks b) (S sretArg));
    Some (VoidType, b)
  else
    coercedTy ← coercedReturnType retInfo;
    '(retAlloca, s) ← createEntryAlloca origRetType coercedTy (mkBState (nextValue b) [] []);
    b ← rewriteBodyReturns (rewriteReturnsToCoercedType retAlloca coercedTy)
          (mkBody (entryArgs b) (bs_ops s ++ entryOps b) (otherBlocks b) (bs_next s));
    Some (DataType coercedTy, b).

(** The loop that builds [newParamTypes] and [byValAttrs]. *)
Fixpoint buildParams (argInfos : list CoercionInfo) (origArgTypes : list Ty)
    (newParamTypes : list Ty) (byValAttrs : list (Z * Ty)) :
    option (list Ty * list (Z * Ty)) :=
  match argInfos, origArgTypes with
  | ci :: argInfos, origTy :: origArgTypes =>
      if isIdentity ci then
        buildParams argInfos origArgTypes (newParamTypes ++ [origTy]) byValAttrs
      else if useIndirect ci then
        buildParams argInfos origArgTypes (newParamTypes ++ [ptrType])
          (if useByval ci
           then byValAttrs ++ [(Z.of_nat (length newParamTypes), origTy)]
           else byValAttrs)
      else if isTwoRegister ci then
        t1 ← coercedType ci; t2 ← coercedSecondType ci;
        buildParams argInfos origArgTypes (newParamTypes ++ [t1; t2]) byValAttrs
      else
        t ← coercedType ci;
        buildParams argInfos origArgTypes (newParamTypes ++ [t]) byValAttrs
  | _, _ => Some (newParamTypes, byValAttrs)
  end.

Definition newReturnType (retInfo : CoercionInfo) (origRetType : RetType) : option RetType :=
  if useSRet retInfo then Some VoidType
  else if isTwoRegister retInfo then
    t ← coercedReturnType retInfo; Some (DataType t)
  else match coercedType retInfo with
       | Some t => Some (DataType t)
       | None => Some origRetType
       end.

(** Step 1 and the return coercion on a function with a body. *)
Definition rewriteBody (newParams : list Ty) (argInfos : list CoercionInfo)
    (retInfo : CoercionInfo) (origRetType : RetType) (numOrig : nat) (b : Body) : option Body :=
  '(reconstructed, s) ← reconstructCABIArguments newParams argInfos (entryArgs b) retInfo
                          (mkBState (nextValue b) [] []);
  let pairs := zip (map fst (entryArgs b)) reconstructed in
  let b := mkBody (drop numOrig (entryArgs b ++ bs_args s))
                  (replaceAllUses pairs (bs_ops s ++ entryOps b))
                  (map (replaceAllUses pairs) (otherBlocks b)) (bs_next s) in
  if isIdentity retInfo then Some b
  else match origRetType with
       | DataType t => '(_, b) ← applyCABIReturnCoercion b retInfo t; Some b
       | VoidType => None
       end.

Definition processCABIFunctionDefinition (func : LLVMFuncOp) (abiInfo : CABIInfo) :
    option LLVMFuncOp :=
  let origArgTypes := paramTypes func in
  let origRetType := returnType func in
  sigClass ← computeSignatureInfo abiInfo origArgTypes (Some origRetType) SIZE_MAX;
  let argInfos := sig_args sigClass in
  let retInfo := sig_ret sigClass in
  let anyArgCoercion := existsb (fun ci => negb (isIdentity ci)) argInfos in
  if negb anyArgCoercion && isIdentity retInfo then Some func
  else
    '(newParamTypes, byValAttrs) ←
      buildParams argInfos origArgTypes (if useSRet retInfo then [ptrType] else []) [];
    newRetType ← newReturnType retInfo origRetType;
    newBody ← (match body func with
               | None => Some None
               | Some b => b ← rewriteBody newParamTypes argInfos retInfo origRetType
                                 (length origArgTypes) b;
                          Some (Some b)
               end);
    Some (mkLLVMFuncOp newParamTypes newRetType (isVarArg func)
            (argAttrs func
             ++ (if useSRet retInfo then [(0, StructRetAttr origRetType)] else [])
             ++ map (fun p => (fst p, ByValAttr (snd p))) byValAttrs)
            newBody).

(** ** The signature and the entry block stay in step *)

(** The parameters one coerced argument occupies; [None] when the
    classification leaves a needed type null. *)
Definition expandCoercion (ci : CoercionInfo) (origTy : Ty) : option (list Ty) :=
  if isIdentity ci then Some [origTy]
  else if useIndirect ci then Some [ptrType]
  else if isTwoRegister ci then
    t1 ← coercedType ci; t2 ← coercedSecondType ci; Some [t1; t2]
  else t ← coercedType ci; Some [t].

Fixpoint expandAll (infos : list CoercionInfo) (tys : list Ty) : option (list Ty) :=
  match infos, tys with
  | ci :: infos, t :: tys =>
      l ← expandCoercion ci t; rest ← expandAll infos tys; Some (l ++ rest)
  | _, _ => Some []
  end.

Lemma buildParams_expand infos tys acc bv l : expandAll infos tys = Some l →
  ∃ bv', buildParams infos tys acc bv = Some (acc ++ l, bv').
Proof.
  revert tys acc bv l. induction infos as [|ci infos IH]; intros [|t tys] acc bv l;
    cbn [expandAll buildParams].
  1-3: intros [= <-]; rewrite app_nil_r; eauto.
  intros (lt & Ht & (rest & Hrest & [= <-])%bind_Some)%bind_Some. revert Ht.
  unfold expandCoercion. rewrite app_assoc.
  destruct (isIdentity ci); [intros [= <-]; by apply IH|].
  destruct (useIndirect ci); [intros [= <-]; by apply IH|].
  destruct (isTwoRegister ci).
  - intros (t1 & -> & (t2 & -> & [= <-])%bind_Some)%bind_Some. by apply IH.
  - intros (t1 & -> & [= <-])%bind_Some. by apply IH.
Qed.

Lemma reconstructArgument_expand pre l post ci t s : expandCoercion ci t = Some l →
  ∃ v s', reconstructArgument (pre ++ l ++ post) ci t (length pre) s =
            Some ((v, (length pre + length l)%nat), s') ∧
          map snd (bs_args s') = map snd (bs_args s) ++ l.
Proof.
  unfold expandCoercion, reconstructArgument, bbind, liftOption.
  assert (Hlook : ∀ x l', l = x :: l' → (pre ++ l ++ post) !! length pre = Some x)
    by (intros x l' ->; by apply list_lookup_middle).
  destruct (isIdentity ci); [|destruct (useIndirect ci); [|destruct (isTwoRegister ci)]].
  1-2: intros [= <-]; rewrite (Hlook _ _ eq_refl); simpl; eexists _, _;
    (split; [by rewrite Nat.add_1_r|]; simpl; by rewrite map_app).
  - intros (t1 & E1 & (t2 & E2 & [= <-])%bind_Some)%bind_Some.
    rewrite (Hlook _ _ eq_refl), E1, E2.
    assert ((pre ++ [t1; t2] ++ post) !! S (length pre) = Some t2) as ->.
    { rewrite lookup_app_r by lia. by replace (S (length pre) - length pre)%nat with 1%nat by lia. }
    simpl. unfold assertThat. rewrite !bool_decide_eq_true_2 by done. simpl.
    eexists _, _. split; [by rewrite Nat.add_comm|]. simpl. rewrite !map_app, <- app_assoc. done.
  - intros (t1 & E1 & [= <-])%bind_Some. rewrite (Hlook _ _ eq_refl), E1.
    simpl. unfold assertThat. rewrite !bool_decide_eq_true_2 by done. simpl.
    eexists _, _. split; [by rewrite Nat.add_comm|]. simpl. by rewrite map_app.
Qed.

Lemma reconstructLoop_expand infos args pre l post s :
  length infos = length args → expandAll infos (map snd args) = Some l →
  ∃ vs s', reconstructLoop (pre ++ l ++ post) infos args (length pre) s = Some (vs, s') ∧
           length vs = length args ∧
           map snd (bs_args s') = map snd (bs_args s) ++ l.
Proof.
  revert args pre l s. induction infos as [|ci infos IH]; intros [|[v0 t] args] pre l s [=];
    cbn [map expandAll reconstructLoop].
  - intros [= <-]. eexists _, _. split; [done|]. by rewrite app_nil_r.
  - intros (lt & Ht & (rest & Hrest & [= <-])%bind_Some)%bind_Some.
    destruct (reconstructArgument_expand pre lt (rest ++ post) ci t s Ht) as (v & s1 & E1 & A1).
    destruct (IH args (pre ++ lt) rest s1 ltac:(done) Hrest) as (vs & s2 & E2 & L2 & A2).
    unfold bbind. rewrite <- app_assoc, E1.
    rewrite length_app, <- app_assoc in E2. simpl. rewrite E2. simpl.
    eexists _, _. split; [done|]. split; [simpl; congruence|]. by rewrite A2, A1, app_assoc.
Qed.

(** Every return of a block hands over exactly one value. *)
Definition singleReturns (ops : list Op) : Prop :=
  ∀ vs, In (ReturnOp vs) ops → length vs = 1%nat.

(** What every return of a rewritten block hands over: [n] values. *)
Definition returnsArity (n : nat) (ops : list Op) : Prop :=
  ∀ vs, In (ReturnOp vs) ops → length vs = n.

Lemma walkReturns_arity rewrite n ops next :
  (∀ v next, ∃ before vs next', rewrite [v] next = Some (before, vs, next') ∧
      length vs = n ∧ ∀ us, ¬ In (ReturnOp us) before) →
  singleReturns ops →
  ∃ ops' next', walkReturns rewrite ops next = Some (ops', next') ∧ returnsArity n ops'.
Proof.
  intros Hrw. revert next. induction ops as [|o ops IH]; intros next Hs.
  { eexists _, _. split; [done|]. by intros vs []. }
  assert (Hs' : singleReturns ops) by (intros vs Hin; apply Hs; by right).
  assert ((∃ vs, o = ReturnOp vs) ∨ ∀ vs, o ≠ ReturnOp vs) as [[vs ->]|Hno]
    by (destruct o; eauto; right; done).
  - pose proof (Hs vs (or_introl eq_refl)) as Hl.
    destruct vs as [|v [|]]; simpl in Hl; try lia. simpl.
    destruct (Hrw v next) as (before & us & n1 & -> & Hus & Hb). simpl.
    destruct (IH n1 Hs') as (ops' & n2 & -> & Ha). simpl.
    eexists _, _. split; [done|]. intros ws [Hin|[[= <-]|Hin]]%in_app_iff; [|done|by apply Ha].
    by apply Hb in Hin.
  - destruct (IH next Hs') as (ops' & n2 & E & Ha).
    assert (Hw : walkReturns rewrite (o :: ops) next = Some (o :: ops', n2)).
    { destruct o as [| | | | | |us|]; simpl; try (by rewrite E). by destruct (Hno us). }
    eexists _, _. split; [exact Hw|]. intros ws [->|Hin]; [by destruct (Hno ws)|by apply Ha].
Qed.

Lemma walkBlocks_arity rewrite n blocks next :
  (∀ v next, ∃ before vs next', rewrite [v] next = Some (before, vs, next') ∧
      length vs = n ∧ ∀ us, ¬ In (ReturnOp us) before) →
  Forall singleReturns blocks →
  ∃ blocks' next', walkBlocks rewrite blocks next = Some (blocks', next') ∧
    Forall (returnsArity n) blocks'.
Proof.
  intros Hrw Hs. revert next. induction Hs as [|b blocks Hb _ IH]; intros next.
  { eexists _, _. by split. }
  destruct (walkReturns_arity rewrite n b next Hrw Hb) as (b' & n1 & E1 & Ha).
  destruct (IH n1) as (bs' & n2 & E2 & Has). simpl. rewrite E1. simpl. rewrite E2. simpl.
  eexists _, _. split; [done|]. by constructor.
Qed.

Lemma replaceUses_return orig recon o vs : replaceUses orig recon o = ReturnOp vs →
  ∃ us, o = ReturnOp us ∧ length us = length vs.
Proof. destruct o; simpl; intros [= <-]. eexists. split; [done|by rewrite length_map]. Qed.

Lemma replaceAllUses_single pairs ops : singleReturns ops → singleReturns (replaceAllUses pairs ops).
Proof.
  unfold replaceAllUses. revert ops. induction pairs as [|p pairs IH]; intros ops Hs; simpl; [done|].
  apply IH. intros vs Hvs. apply in_map_iff in Hvs as (o & Ho & Hin).
  apply replaceUses_return in Ho as (us & -> & <-). by apply Hs.
Qed.

Lemma emittedOps_no_return newParams ci t idx s r s' :
  reconstructArgument newParams ci t idx s = Some (r, s') →
  ∃ new, bs_ops s' = bs_ops s ++ new ∧ ∀ vs, ¬ In (ReturnOp vs) new.
Proof.
  unfold reconstructArgument, bbind, liftOption, assertThat.
  destruct (newParams !! idx) as [ty|]; [|done]. simpl.
  destruct (isIdentity ci);
    [intros [= <- <-]; exists []; rewrite app_nil_r; split; [done|intros vs []]|].
  destruct (useIndirect ci).
  { intros [= <- <-]. eexists. split; [done|]. simpl. by intros vs [|[]]. }
  destruct (isTwoRegister ci).
  - destruct (newParams !! S idx) as [ty2|]; [|done]. simpl.
    destruct (bool_decide _); [|done]. simpl. destruct (bool_decide _); [|done]. simpl.
    intros [= <- <-]. simpl. rewrite <- !app_assoc. eexists. split; [done|].
    simpl. intros vs Hin. intuition discriminate.
  - destruct (bool_decide _); [|done]. simpl. destruct (bool_decide _); [|done]. simpl.
    intros [= <- <-]. simpl. rewrite <- !app_assoc. eexists. split; [done|].
    simpl. intros vs Hin. intuition discriminate.
Qed.

Lemma reconstructLoop_no_return newParams infos args idx s vs s' :
  reconstructLoop newParams infos args idx s = Some (vs, s') →
  ∃ new, bs_ops s' = bs_ops s ++ new ∧ ∀ us, ¬ In (ReturnOp us) new.
Proof.
  revert args idx s vs. induction infos as [|ci infos IH]; intros [|[v t] args] idx s vs;
    cbn [reconstructLoop].
  1-3: intros [= <- <-]; exists []; rewrite app_nil_r; split; [done|intros us []].
  unfold bbind. destruct (reconstructArgument newParams ci t idx s) as [[r s1]|] eqn:E1; [|done].
  destruct (reconstructLoop newParams infos args (snd r) s1) as [[rest s2]|] eqn:E2; [|done].
  intros [= <- <-]. apply emittedOps_no_return in E1 as (n1 & H1 & N1).
  apply IH in E2 as (n2 & H2 & N2). exists (n1 ++ n2). rewrite H2, H1, app_assoc.
  split; [done|]. intros us [Hin|Hin]%in_app_iff; [by apply N1 in Hin|by apply N2 in Hin].
Qed.

Lemma singleReturns_app ops1 ops2 : (∀ vs, ¬ In (ReturnOp vs) ops1) →
  singleReturns ops2 → singleReturns (ops1 ++ ops2).
Proof. intros H1 H2 vs [Hin|Hin]%in_app_iff; [by apply H1 in Hin|by apply H2]. Qed.

(** A result classification the pass can act on: the identity, or one that
    says how the value travels. *)
Definition retComplete (ri : CoercionInfo) : Prop :=
  if isIdentity ri then ri = CoercionInfo_default
  else useSRet ri = true ∨ is_Some (coercedReturnType ri).

(** The values a rewritten return hands over. *)
Definition retArity (r : RetType) : nat :=
  match r with VoidType => 0 | DataType _ => 1 end.

Lemma applyCABIReturnCoercion_total b ri t :
  isIdentity ri = false → retComplete ri → singleReturns (entryOps b) →
  Forall singleReturns (otherBlocks b) →
  ∃ rt b', applyCABIReturnCoercion b ri t = Some (rt, b') ∧
    newReturnType ri (DataType t) = Some rt ∧
    map snd (entryArgs b') =
      (if useSRet ri then [ptrType] else []) ++ map snd (entryArgs b) ∧
    returnsArity (retArity rt) (entryOps b') ∧ Forall (returnsArity (retArity rt)) (otherBlocks b').
Proof.
  intros Hid Hok Hops Hblocks. unfold retComplete in Hok. rewrite Hid in Hok.
  unfold applyCABIReturnCoercion, newReturnType. destruct (useSRet ri) eqn:Hs.
  - assert (Hrw : ∀ v next, ∃ before vs next', rewriteReturnsToSRet (nextValue b) [v] next =
        Some (before, vs, next') ∧ length vs = 0%nat ∧ ∀ us, ¬ In (ReturnOp us) before).
    { intros v next. eexists _, _, _. split_and!; [done|done|]. by intros us [|[]]. }
    destruct (walkReturns_arity _ 0 _ (S (nextValue b)) Hrw Hops) as (o' & n1 & E1 & A1).
    destruct (walkBlocks_arity _ 0 _ n1 Hrw Hblocks) as (bs' & n2 & E2 & A2).
    unfold rewriteBodyReturns. simpl. rewrite E1. simpl. rewrite E2. simpl.
    eexists _, _. by split_and!.
  - destruct Hok as [|[ct Hct]]; [done|]. rewrite Hct. simpl.
    assert (Hrw : ∀ a v next, ∃ before vs next', rewriteReturnsToCoercedType a ct [v] next =
        Some (before, vs, next') ∧ length vs = 1%nat ∧ ∀ us, ¬ In (ReturnOp us) before).
    { intros a v next. eexists _, _, _. split_and!; [done|done|]. by intros us [|[|[]]]. }
    set (pre := [ConstantOp (nextValue b) 1; AllocaOp (S (nextValue b)) t (nextValue b)
                   (Z.max (getTypeABIAlign t) (getTypeABIAlign ct))]).
    assert (Hops' : singleReturns (pre ++ entryOps b)).
    { apply singleReturns_app; [|done]. by intros vs [|[|[]]]. }
    destruct (walkReturns_arity _ 1 _ (S (S (nextValue b))) (Hrw (S (nextValue b))) Hops')
      as (o' & n1 & E1 & A1).
    destruct (walkBlocks_arity _ 1 _ n1 (Hrw (S (nextValue b))) Hblocks) as (bs' & n2 & E2 & A2).
    unfold rewriteBodyReturns. simpl. simpl in E1. rewrite E1. simpl. rewrite E2. simpl.
    eexists _, _. split_and!; try done.
    destruct (isTwoRegister ri) eqn:Htwo; [done|].
    unfold coercedReturnType in Hct. rewrite Htwo in Hct. by rewrite Hct.
Qed.

End Rewrite.

#[local] Existing Instance llvm_math.
#[local] Existing Instance x86_64_layout.

(** [struct{i8,i8,i8} f(struct{f32} x)]: the result goes through sret, the
    argument arrives as an [i32]. *)
Definition exampleFunc : LLVMFuncOp :=
  mkLLVMFuncOp [LLVMStructType [FloatType F32]]
    (DataType (LLVMStructType [IntegerType 8; IntegerType 8; IntegerType 8])) false []
    (Some (mkBody [(0%nat, LLVMStructType [FloatType F32])]
             [OtherOp [1%nat] [0%nat]; ReturnOp [1%nat]] [[ReturnOp [1%nat]]] 2%nat)).

