(* ===== verification/CABIExec.v ===== *)
(** What the code emitted by the C ABI rewrite does when it runs: a small
    semantics of the memory operations of the entry block, against which the
    argument reconstruction for the Microsoft x64 convention is proved. *)
From S2P Require Import Prelude LLVMSupport LLVMTypes DataLayout CABI CABIRewrite.

(** A runtime value: the bytes of an aggregate or of a register ([None] is an
    undefined byte), a pointer to a memory block, or an integer constant. *)
Inductive RVal :=
  | RBytes (bytes : list (option Z))
  | RPtr (block : nat)
  | RInt (z : Z).

Abbreviation Env := (gmap nat RVal).
Abbreviation Mem := (list (list (option Z))).

Section Exec.
Context {LM : LLVMMath} {TD : TargetDataLayout}.

(** [None]: an access outside a block, or an operation the Win64 rewrite
    does not emit. *)
Definition exec1 (o : Op) (st : Env * Mem) : option (Env * Mem) :=
  let '(env, mem) := st in
  match o with
  | ConstantOp r c => Some (<[r := RInt c]> env, mem)
  | AllocaOp r t n _ =>
      match env !! n with
      | Some (RInt k) =>
          Some (<[r := RPtr (length mem)]> env,
                mem ++ [replicate (Z.to_nat (k * getTypeAllocSize t)) None])
      | _ => None
      end
  | StoreOp v p =>
      match env !! v, env !! p with
      | Some (RBytes bs), Some (RPtr b) =>
          block ← mem !! b;
          if (length bs <=? length block)%nat
          then Some (env, <[b := bs ++ drop (length bs) block]> mem) else None
      | _, _ => None
      end
  | LoadOp r t p =>
      match env !! p with
      | Some (RPtr b) =>
          block ← mem !! b;
          let n := Z.to_nat (getTypeStoreSize t) in
          if (n <=? length block)%nat
          then Some (<[r := RBytes (take n block)]> env, mem) else None
      | _ => None
      end
  | _ => None
  end.

Fixpoint exec (ops : list Op) (st : Env * Mem) : option (Env * Mem) :=
  match ops with
  | [] => Some st
  | o :: ops => st ← exec1 o st; exec ops st
  end.

Lemma exec_app ops1 ops2 st : exec (ops1 ++ ops2) st = st ← exec ops1 st; exec ops2 st.
Proof.
  revert st. induction ops1 as [|o ops1 IH]; intros st; [done|].
  simpl. destruct (exec1 o st) as [st'|]; simpl; [apply IH|done].
Qed.

(** How the caller hands over [orig], of type [t], under the classification
    [ci]: as it is, as a pointer to its bytes, or as its bytes in a register. *)
Definition passed (mem : Mem) (ci : CoercionInfo) (t : Ty) (rv orig : RVal) : Prop :=
  if isIdentity ci then rv = orig
  else ∃ bs, orig = RBytes bs ∧ length bs = Z.to_nat (getTypeStoreSize t) ∧
       if useIndirect ci then ∃ b, rv = RPtr b ∧ mem !! b = Some bs else rv = RBytes bs.

Lemma passed_prefix mem extra ci t rv orig :
  passed mem ci t rv orig → passed (mem ++ extra) ci t rv orig.
Proof.
  unfold passed. destruct (isIdentity ci); [done|].
  intros (bs & -> & Hl & H). exists bs. split; [done|]. split; [done|].
  destruct (useIndirect ci); [|done].
  destruct H as (b & -> & Hb). exists b. split; [done|]. by apply lookup_app_l_Some.
Qed.

(** The effect of running [new], emitted between the builder states with
    next values [n] and [n'], on the environment. *)
Definition frame (n n' : nat) (env env' : Env) : Prop :=
  ∀ k, (k < n ∨ n' ≤ k)%nat → env' !! k = env !! k.

Lemma frame_trans n n1 n2 env env1 env2 : (n ≤ n1 ≤ n2)%nat →
  frame n n1 env env1 → frame n1 n2 env1 env2 → frame n n2 env env2.
Proof. intros Hn H1 H2 k Hk. rewrite H2 by lia. apply H1. lia. Qed.

Lemma win64_arg_cases t : wfTy t →
  win64_arg_reference t = CoercionInfo_default ∨
  win64_arg_reference t = indirectArgument false ∨
  win64_arg_reference t =
    mkCoercionInfo Integer (Some (IntegerType (8 * getTypeStoreSize t))) None false false false.
Proof.
  intros Hwf. unfold win64_arg_reference, win64_reference.
  destruct (isArray t); [auto|]. destruct (isStruct t); [|auto].
  destruct (bool_decide _); auto.
Qed.

(** One argument: the block argument is the next fresh value, the emitted
    operations only define fresh values, and they rebuild the original. *)
Lemma win64_reconstructArgument pre l post t s : wfTy t →
  expandCoercion (win64_arg_reference t) t = Some l →
  ∃ v s' new ty,
    reconstructArgument (pre ++ l ++ post) (win64_arg_reference t) t (length pre) s =
      Some ((v, (length pre + length l)%nat), s') ∧
    bs_ops s' = bs_ops s ++ new ∧ bs_args s' = bs_args s ++ [(bs_next s, ty)] ∧
    (bs_next s < bs_next s')%nat ∧ (v < bs_next s')%nat ∧
    ∀ env mem rv orig, env !! bs_next s = Some rv →
      passed mem (win64_arg_reference t) t rv orig →
      ∃ env' extra, exec new (env, mem) = Some (env', mem ++ extra) ∧
        frame (S (bs_next s)) (bs_next s') env env' ∧ env' !! v = Some orig.
Proof.
  intros Hwf Hl. unfold reconstructArgument, bbind, liftOption.
  assert (Hlook : ∀ x l', l = x :: l' → (pre ++ l ++ post) !! length pre = Some x)
    by (intros x l' ->; by apply list_lookup_middle).
  pose proof (getTypeAllocSize_ge_store t Hwf) as Halloc.
  destruct (win64_arg_cases t Hwf) as [E|[E|E]]; rewrite E in Hl |- *; injection Hl as <-;
    rewrite (Hlook _ _ eq_refl); simpl.
  - eexists _, _, [], _. split_and!; [by rewrite Nat.add_1_r|by rewrite app_nil_r|done|simpl; lia..|].
    intros env mem rv orig Hrv <-. exists env, []. rewrite app_nil_r. done.
  - eexists _, _, [LoadOp _ _ _], _.
    split_and!; [by rewrite Nat.add_1_r|done|done|simpl; lia..|]. simpl.
    intros env mem rv orig Hrv (bs & -> & Hlen & b & -> & Hb). rewrite Hrv. simpl. rewrite Hb. simpl.
    rewrite (proj2 (Nat.leb_le _ _)) by lia. simpl. eexists _, []. rewrite app_nil_r.
    split; [done|]. split; [|rewrite lookup_insert_eq; by rewrite <- Hlen, firstn_all].
    intros k Hk. by rewrite lookup_insert_ne by lia.
  - unfold assertThat. rewrite !bool_decide_eq_true_2 by done. simpl.
    eexists _, _, [ConstantOp _ _; AllocaOp _ _ _ _; StoreOp _ _; LoadOp _ _ _], _.
    split_and!; [by rewrite Nat.add_1_r|by rewrite <- !app_assoc|done|simpl; lia..|].
    intros env mem rv orig Hrv (bs & -> & Hlen & ->). simpl.
    rewrite lookup_insert_eq. simpl. rewrite lookup_insert_ne by lia.
    rewrite lookup_insert_ne, Hrv by lia. rewrite lookup_insert_eq. simpl.
    rewrite list_lookup_middle by done. simpl.
    rewrite (proj2 (Nat.leb_le _ _)) by (rewrite length_replicate; lia). simpl.
    rewrite lookup_insert_eq. simpl. rewrite list_lookup_insert_eq by (rewrite length_app; simpl; lia).
    simpl. rewrite (proj2 (Nat.leb_le _ _)) by (rewrite length_app; lia). simpl.
    rewrite insert_app_r_alt by lia. rewrite Nat.sub_diag. simpl. eexists _, _. split; [done|].
    split; [|rewrite lookup_insert_eq; by rewrite <- Hlen, take_app_length].
    intros k Hk. rewrite !lookup_insert_ne by lia. done.
Qed.

(** The caller's view of a whole argument list: the block arguments [ids]
    hold what the classification says for the originals. *)
Inductive allPassed (env : Env) (mem : Mem) : list Ty → list nat → list RVal → Prop :=
  | passed_nil : allPassed env mem [] [] []
  | passed_cons t tys id ids rv orig origs :
      env !! id = Some rv → passed mem (win64_arg_reference t) t rv orig →
      allPassed env mem tys ids origs →
      allPassed env mem (t :: tys) (id :: ids) (orig :: origs).

Lemma allPassed_frame env env' mem extra tys ids origs :
  Forall (fun id => env' !! id = env !! id) ids →
  allPassed env mem tys ids origs → allPassed env' (mem ++ extra) tys ids origs.
Proof.
  intros Hf H. induction H as [|t tys id ids rv orig origs Hid Hp _ IH]; [constructor|].
  apply Forall_cons in Hf as [Heq Hf].
  econstructor; [rewrite Heq; exact Hid|by apply passed_prefix|by apply IH].
Qed.

Lemma win64_reconstructLoop args pre l post s :
  Forall wfTy (map snd args) →
  expandAll (map win64_arg_reference (map snd args)) (map snd args) = Some l →
  ∃ vs s' new ids,
    reconstructLoop (pre ++ l ++ post) (map win64_arg_reference (map snd args)) args (length pre) s
      = Some (vs, s') ∧
    bs_ops s' = bs_ops s ++ new ∧ map fst (bs_args s') = map fst (bs_args s) ++ ids ∧
    (bs_next s ≤ bs_next s')%nat ∧
    Forall (fun id => bs_next s ≤ id)%nat ids ∧
    ∀ env mem origs, allPassed env mem (map snd args) ids origs →
      ∃ env' extra, exec new (env, mem) = Some (env', mem ++ extra) ∧
        (∀ k, (k < bs_next s)%nat → env' !! k = env !! k) ∧
        Forall2 (fun v orig => env' !! v = Some orig) vs origs.
Proof.
  revert pre l s. induction args as [|[v0 t] args IH]; intros pre l s Hwf; cbn [map snd expandAll reconstructLoop].
  { intros [= <-]. eexists _, _, [], []. rewrite !app_nil_r. split_and!; try done.
    intros env mem origs Hp. inversion Hp; subst. exists env, []. by rewrite app_nil_r. }
  inversion_clear Hwf as [|? ? Ht Htys].
  intros (lt & Hlt & (rest & Hrest & [= <-])%bind_Some)%bind_Some.
  destruct (win64_reconstructArgument pre lt (rest ++ post) t s Ht Hlt)
    as (v & s1 & new1 & ty & E1 & O1 & A1 & N1 & V1 & X1).
  destruct (IH (pre ++ lt) rest s1 Htys Hrest)
    as (vs & s2 & new2 & ids & E2 & O2 & A2 & N2 & I2 & X2).
  unfold bbind. rewrite <- app_assoc, E1. simpl.
  rewrite length_app, <- app_assoc in E2. rewrite E2. simpl.
  eexists _, _, (new1 ++ new2), (bs_next s :: ids).
  split_and!; [done|by rewrite O2, O1, app_assoc| |lia| |].
  - rewrite A2, A1, map_app, <- app_assoc. done.
  - constructor; [lia|]. eapply Forall_impl; [exact I2|]. simpl. lia.
  - intros env mem origs Hp. inversion Hp as [|? ? ? ? rv orig origs' Hid Hpass Hrestp]; subst.
    destruct (X1 env mem rv orig Hid Hpass) as (env1 & ex1 & Ex1 & F1 & Hv).
    destruct (X2 env1 (mem ++ ex1) origs') as (env2 & ex2 & Ex2 & F2 & Hvs).
    { eapply allPassed_frame; [|done]. eapply Forall_impl; [exact I2|].
      intros id Hge. apply F1. simpl in Hge. lia. }
    exists env2, (ex1 ++ ex2). rewrite exec_app, Ex1. simpl. rewrite Ex2, app_assoc.
    split_and!; [done| |].
    + intros k Hk. rewrite F2 by lia. apply F1. lia.
    + constructor; [|done]. by rewrite F2 by lia.
Qed.

Lemma win64_expandAll tys : Forall wfTy tys →
  ∃ l, expandAll (map win64_arg_reference tys) tys = Some l.
Proof.
  induction 1 as [|t tys Ht _ [l IH]]; [by exists []|]. cbn [map expandAll].
  destruct (win64_arg_cases t Ht) as [->|[->| ->]]; cbn; rewrite IH; eauto.
Qed.

End Exec.

#[local] Existing Instance llvm_math.
#[local] Existing Instance x86_64_layout.

(** A function taking a pair of 32-bit integers (8 bytes, in a register) and a
    struct of three 64-bit integers (24 bytes, behind a pointer). *)
Definition exampleArgs : list (nat * Ty) :=
  [(0%nat, LLVMStructType [IntegerType 32; IntegerType 32]);
   (1%nat, LLVMStructType [IntegerType 64; IntegerType 64; IntegerType 64])].

