(* ===== verification/TypeConverter.v ===== *)
(** [POPToLLVMTypeConverter] of LLVMLoweringUtils.cpp: the conversion of KGEN
    and POP types to LLVM types, with the explicit padding of structs and the
    lowering of unions.  KGEN's own data layout ([DataLayoutInterface],
    [UnionType::getTypeAlign]) is not in the repository and is an interface. *)
From S2P Require Import Prelude LLVMSupport LLVMTypes DataLayout.

(** The categories of [KGENDType] the conversion asks about.  A float dtype
    carries its [getEquivalentFloatType], when there is one. *)
Inductive KGENDType :=
  | DTBool
  | DTAddress
  | DTIndex
  | DTUIndex
  | DTInt (width : Z)
  | DTFloat (fpType : option FloatKind)
  | DTOther.

(** The KGEN and POP types with a registered conversion.  [None] is an
    unresolved parameter. *)
Inductive KTy :=
  | KNone
  | KNever
  | KString
  | KFunc (isCapturing : bool)
  | KGenerator (body : KTy)
  | KPointer (addressSpace : Z)
  | KArray (size : option Z) (elementType : KTy)
  | KStruct (elementTypes : option (list KTy))
  | KSIMD (size : option Z) (dtype : option KGENDType)
  | KDType
  | KUnion (types : list KTy)
  | KCoroutine.

Record UnionMember := mkUnionMember {
  kgenType : KTy;
  llvmType : Ty
}.

(** [DataLayoutInterface] on KGEN types, and the conversion of the value of a
    function type, which the base class of the converter owns. *)
Class KGENLayout := {
  kgenABIAlign : KTy → option Z;
  kgenAllocSize : KTy → option Z;
  unionTypeAlign : list KTy → option Z;
  functionValueType : option Ty;
  indexBitwidth : Z
}.

Section TypeConverter.
Context {LM : LLVMMath} {TD : TargetDataLayout} {KL : KGENLayout}.

(** ** Scalar types *)

Definition isFP8 (fpType : FloatKind) : bool :=
  bool_decide (fpType ∈ [Float8E5M2; Float8E5M2FNUZ; Float8E4M3FN; Float8E3M4;
                         Float8E4M3FNUZ; Float8E8M0FNU]).
Definition isFP6 (fpType : FloatKind) : bool :=
  bool_decide (fpType ∈ [Float6E2M3FN; Float6E3M2FN]).
Definition isFP4 (fpType : FloatKind) : bool := bool_decide (fpType = Float4E2M1FN).

Definition isFPTyLoweredAsInt (fpType : FloatKind) : option Z :=
  if isFP4 fpType then Some 4
  else if isFP6 fpType then Some 6
  else if isFP8 fpType then Some 8
  else None.

Definition getMLIRTypeForDType (dtype : KGENDType) (indexWidth : Z) : option Ty :=
  match dtype with
  | DTBool => Some (IntegerType 1)
  | DTAddress => Some (LLVMPointerType 0)
  | DTIndex | DTUIndex => Some (IntegerType indexWidth)
  | DTInt width => Some (IntegerType width)
  | DTFloat (Some fpType) =>
      match isFPTyLoweredAsInt fpType with
      | Some intWidth => Some (IntegerType intWidth)
      | None => Some (FloatType fpType)
      end
  | DTFloat None => None
  | DTOther => None
  end.

Definition getLLVMTypeForKGENStringType (strSizeType : Ty) : Ty :=
  LLVMStructType [LLVMPointerType 0; strSizeType].

(** ** Structs: explicit padding up to KGEN's offsets *)

Definition i8Type : Ty := IntegerType 8.

(** The locals of the loop: [llvmTypes], [offset] and the logical-to-LLVM
    index mapping it records. *)
Record StructAcc := mkStructAcc {
  llvmTypes : list Ty;
  offset : Z;
  fieldIndex : list Z
}.

(** One iteration of the loop over the element types. *)
Definition addStructField (acc : StructAcc) (member : UnionMember) : option StructAcc :=
  kgenAlign ← kgenABIAlign (kgenType member);
  kgenSize ← kgenAllocSize (kgenType member);
  let llvmNaturalAlign := getTypeABIAlign (llvmType member) in
  let llvmOffset := alignTo (offset acc) llvmNaturalAlign in
  let kgenOffset := alignTo (offset acc) kgenAlign in
  let padded :=
    if kgenOffset >? llvmOffset
    then llvmTypes acc ++ [LLVMArrayType i8Type (kgenOffset - offset acc)]
    else llvmTypes acc in
  Some (mkStructAcc (padded ++ [llvmType member]) (kgenOffset + kgenSize)
          (fieldIndex acc ++ [Z.of_nat (length padded)])).

Fixpoint addStructFields (acc : StructAcc) (members : list UnionMember) : option StructAcc :=
  match members with
  | [] => Some acc
  | m :: members => acc ← addStructField acc m; addStructFields acc members
  end.

(** The whole body of the struct conversion, given the converted elements:
    the LLVM field types and the index of each logical field. *)
Definition convertStructBody (structType : KTy) (members : list UnionMember) :
    option (list Ty * list Z) :=
  acc ← addStructFields (mkStructAcc [] 0 []) members;
  kgenTotalAlign ← kgenABIAlign structType;
  let llvmOffset := alignTo (offset acc) (getTypeABIAlign (LLVMStructType (llvmTypes acc))) in
  let kgenOffset := alignTo (offset acc) kgenTotalAlign in
  Some (if kgenOffset >? llvmOffset
        then llvmTypes acc ++ [LLVMArrayType i8Type (kgenOffset - offset acc)]
        else llvmTypes acc,
        fieldIndex acc).

(** ** Unions: a representative field and a byte array *)

Definition isSafeUnionReprType (type : Ty) : bool :=
  getTypeSizeInBits type =? 8 * getTypeStoreSize type.

Definition unionMemberSize (member : UnionMember) : Z :=
  let memberSize := getTypeAllocSize (llvmType member) in
  match kgenAllocSize (kgenType member) with
  | Some kgenSize => Z.max memberSize kgenSize
  | None => memberSize
  end.

Definition getUnionPayloadSize (members : list UnionMember) : Z :=
  fold_left (fun payloadSize member => Z.max payloadSize (unionMemberSize member)) members 0.

(** One iteration of the search for the most aligned safe candidate. *)
Definition betterCandidate (maxAlignAndType : Z * option Ty) (member : UnionMember) : Z * option Ty :=
  let cur := getTypeABIAlignAndType (llvmType member) in
  match snd cur with
  | Some t =>
      if isSafeUnionReprType t && (fst cur >=? fst maxAlignAndType) then cur else maxAlignAndType
  | None => maxAlignAndType
  end.

Definition getUnionReprType (unionTypes : list KTy) (members : list UnionMember) : Ty :=
  let maxAlignAndType := fold_left betterCandidate members (1, None) in
  let reprType := match snd maxAlignAndType with Some t => t | None => i8Type end in
  match unionTypeAlign unionTypes with
  | Some trueAlign =>
      if trueAlign >? getTypeABIAlign reprType then
        let widened := IntegerType (8 * trueAlign) in
        if getTypeABIAlign widened >=? trueAlign then widened else reprType
      else reprType
  | None => reprType
  end.

(** The lowered union: [{repr, [tail x i8]}], or the empty struct. *)
Definition lowerUnion (unionTypes : list KTy) (members : list UnionMember) : Ty :=
  let payloadSize := getUnionPayloadSize members in
  if payloadSize =? 0 then LLVMStructType []
  else
    let reprType := getUnionReprType unionTypes members in
    let tailLen := payloadSize - getTypeAllocSize reprType in
    LLVMStructType (reprType :: (if tailLen =? 0 then [] else [LLVMArrayType i8Type tailLen])).

(** The [assert] at the end of the union conversion. *)
Definition unionSizeAssert (unionTypes : list KTy) (members : list UnionMember) : bool :=
  getUnionPayloadSize members =? getTypeAllocSize (lowerUnion unionTypes members).

(** ** The conversion *)

Fixpoint convertType (type : KTy) : option Ty :=
  match type with
  | KNone | KNever => Some (LLVMStructType [])
  | KString => Some (getLLVMTypeForKGENStringType (IntegerType indexBitwidth))
  | KFunc true => Some (LLVMStructType [LLVMPointerType 0; LLVMPointerType 0])
  | KFunc false => functionValueType
  | KGenerator body => convertType body
  | KPointer addressSpace => Some (LLVMPointerType addressSpace)
  | KArray size elementType =>
      n ← size; elt ← convertType elementType; Some (LLVMArrayType elt n)
  | KStruct None => None
  | KStruct (Some elementTypes) =>
      members ← (fix go (l : list KTy) : option (list UnionMember) :=
                   match l with
                   | [] => Some []
                   | t :: l => u ← convertType t; rest ← go l; Some (mkUnionMember t u :: rest)
                   end) elementTypes;
      '(tys, _) ← convertStructBody type members;
      Some (LLVMStructType tys)
  | KSIMD size dtype =>
      d ← dtype; n ← size; t ← getMLIRTypeForDType d indexBitwidth;
      Some (if n =? 1 then t else VectorType n t)
  | KDType => Some i8Type
  | KUnion types =>
      members ← (fix go (l : list KTy) : option (list UnionMember) :=
                   match l with
                   | [] => Some []
                   | t :: l => u ← convertType t; rest ← go l; Some (mkUnionMember t u :: rest)
                   end) types;
      Some (lowerUnion types members)
  | KCoroutine => Some (LLVMPointerType 0)
  end.

(** ** Specification: KGEN's own layout of a struct *)

Fixpoint kgenOffsets (off : Z) (members : list UnionMember) : list Z :=
  match members with
  | [] => []
  | m :: members =>
      let here := alignTo off (default 1 (kgenABIAlign (kgenType m))) in
      here :: kgenOffsets (here + default 0 (kgenAllocSize (kgenType m))) members
  end.

Fixpoint kgenEnd (off : Z) (members : list UnionMember) : Z :=
  match members with
  | [] => off
  | m :: members =>
      kgenEnd (alignTo off (default 1 (kgenABIAlign (kgenType m)))
               + default 0 (kgenAllocSize (kgenType m))) members
  end.

(** KGEN and LLVM agree on a field: same size, and KGEN's alignment is a
    multiple of LLVM's (the [@align] decorator only strengthens it). *)
Definition layoutsAgree (m : UnionMember) : Prop :=
  wfTy (llvmType m) ∧ kgenAllocSize (kgenType m) = Some (getTypeAllocSize (llvmType m)) ∧
  ∃ a, kgenABIAlign (kgenType m) = Some a ∧ 0 < a ∧ (getTypeABIAlign (llvmType m) | a).

(** ** Lemmas *)

Lemma bodyEnd_app o l1 l2 : bodyEnd o (l1 ++ l2) = bodyEnd (bodyEnd o l1) l2.
Proof. revert o. induction l1 as [|t l1 IH]; intros o; simpl; [done|]. apply IH. Qed.

Lemma fieldOffsets_app o l1 l2 :
  fieldOffsets o (l1 ++ l2) = fieldOffsets o l1 ++ fieldOffsets (bodyEnd o l1) l2.
Proof. revert o. induction l1 as [|t l1 IH]; intros o; simpl; [done|]. by rewrite IH. Qed.

Hypothesis i8_align : getIntegerABIAlign 8 = 1.

Lemma padding_alloc n : 0 ≤ n → getTypeAllocSize (LLVMArrayType i8Type n) = n.
Proof.
  intros Hn. rewrite getTypeAllocSize_alignTo by (simpl; lia).
  unfold getTypeStoreSize, i8Type. cbn [getTypeSizeInBits].
  rewrite (storeSizeOfBits_bytes 1 : storeSizeOfBits 8 = 1), Z.mul_1_r, storeSizeOfBits_bytes.
  unfold getTypeABIAlign. cbn [getTypeABIAlignAndType fst].
  rewrite i8_align. by apply alignTo_1.
Qed.

Lemma padding_align n : getTypeABIAlign (LLVMArrayType i8Type n) = 1.
Proof. exact i8_align. Qed.

(** One field: the LLVM layout so far ends at KGEN's offset, before and after,
    and the field itself lands at KGEN's offset. *)
Lemma addStructField_offset acc m :
  0 ≤ offset acc → bodyEnd 0 (llvmTypes acc) = offset acc → layoutsAgree m →
  ∃ a acc', kgenABIAlign (kgenType m) = Some a ∧ addStructField acc m = Some acc' ∧
    (∃ suffix, llvmTypes acc' = llvmTypes acc ++ suffix) ∧
    offset acc' = alignTo (offset acc) a + getTypeAllocSize (llvmType m) ∧
    bodyEnd 0 (llvmTypes acc') = offset acc' ∧ 0 ≤ offset acc' ∧
    ∃ i, fieldIndex acc' = fieldIndex acc ++ [Z.of_nat i] ∧
      fieldOffsets 0 (llvmTypes acc') !! i = Some (alignTo (offset acc) a) ∧
      llvmTypes acc' !! i = Some (llvmType m).
Proof.
  intros Ho Hend (Hwf & Hsz & a & Ha & Hpos & Hdiv). exists a.
  pose proof (getTypeABIAlign_pos (llvmType m)) as Hla.
  pose proof (getTypeAllocSize_nonneg _ Hwf) as Hnn.
  pose proof (alignTo_ge (offset acc) a Ho Hpos) as Hge.
  unfold addStructField. rewrite Ha, Hsz. simpl.
  set (k := alignTo (offset acc) a) in *. set (n := getTypeABIAlign (llvmType m)) in *.
  assert (Hk : (n | k)) by (etransitivity; [exact Hdiv|by apply alignTo_divide]).
  destruct (k >? alignTo (offset acc) n) eqn:E; bool_to_prop.
  - eexists. split_and!; [done|done| |done| |simpl; lia|].
    { simpl. rewrite <- app_assoc. eauto. }
    { simpl. rewrite <- app_assoc, bodyEnd_app, Hend. simpl.
      rewrite padding_align, alignTo_1, padding_alloc by lia.
      replace (offset acc + (k - offset acc)) with k by lia. fold n. rewrite alignTo_id; [done|lia|lia|done]. }
    eexists. split; [done|]. simpl. split; [|by apply list_lookup_middle].
    rewrite <- app_assoc, fieldOffsets_app, Hend, length_app. simpl.
    rewrite lookup_app_r, fieldOffsets_length by (rewrite fieldOffsets_length; lia).
    replace (length (llvmTypes acc) + 1 - length (llvmTypes acc))%nat with 1%nat by lia. simpl.
    rewrite padding_align, alignTo_1, padding_alloc by lia.
    replace (offset acc + (k - offset acc)) with k by lia. fold n. rewrite alignTo_id; [done|lia|lia|done].
  - assert (Heq : alignTo (offset acc) n = k).
    { apply Z.le_antisymm; [|done]. by apply alignTo_least. }
    eexists. split_and!; [done|done| |done| |simpl; lia|].
    { simpl. eauto. }
    { simpl. rewrite bodyEnd_app, Hend. simpl. fold n. by rewrite Heq. }
    eexists. split; [done|]. simpl. split; [|by apply list_lookup_middle].
    rewrite fieldOffsets_app, Hend. rewrite lookup_app_r, fieldOffsets_length by (rewrite fieldOffsets_length; lia).
    rewrite Nat.sub_diag. simpl. fold n. by rewrite Heq.
Qed.

Lemma addStructFields_offsets members acc :
  0 ≤ offset acc → bodyEnd 0 (llvmTypes acc) = offset acc → Forall layoutsAgree members →
  ∃ acc' idx, addStructFields acc members = Some acc' ∧
    (∃ suffix, llvmTypes acc' = llvmTypes acc ++ suffix) ∧
    offset acc' = kgenEnd (offset acc) members ∧
    bodyEnd 0 (llvmTypes acc') = offset acc' ∧ 0 ≤ offset acc' ∧
    fieldIndex acc' = fieldIndex acc ++ map Z.of_nat idx ∧
    Forall2 (fun i o => fieldOffsets 0 (llvmTypes acc') !! i = Some o) idx
            (kgenOffsets (offset acc) members) ∧
    Forall2 (fun i m => llvmTypes acc' !! i = Some (llvmType m)) idx members.
Proof.
  intros Ho Hend Hall. revert acc Ho Hend.
  induction Hall as [|m members Hm _ IH]; intros acc Ho Hend; cbn [addStructFields kgenEnd kgenOffsets].
  { exists acc, []. split_and!; try done; [exists []|]; by rewrite app_nil_r. }
  pose proof Hm as (_ & Hsz & _).
  destruct (addStructField_offset acc m Ho Hend Hm)
    as (a & acc1 & Ha & -> & (suf & Hs) & Hoff & Hend1 & Ho1 & i & Hi & Hfo & Hft). simpl.
  rewrite Ha, Hsz. simpl. rewrite <- Hoff.
  destruct (IH acc1 Ho1 Hend1) as (acc2 & idx & -> & (suf2 & Hs2) & Hoff2 & Hend2 & Ho2 & Hidx & HF & HT).
  exists acc2, (i :: idx). split_and!; try done.
  - exists (suf ++ suf2). by rewrite Hs2, Hs, app_assoc.
  - rewrite Hidx, Hi, <- app_assoc. done.
  - constructor; [|done]. rewrite Hs2, fieldOffsets_app. by apply lookup_app_l_Some.
  - constructor; [|done]. rewrite Hs2. by apply lookup_app_l_Some.
Qed.

Lemma fold_payload_ge members p : p ≤ fold_left (fun s m => Z.max s (unionMemberSize m)) members p.
Proof.
  revert p. induction members as [|m l IH]; intros p; simpl; [lia|].
  specialize (IH (Z.max p (unionMemberSize m))). lia.
Qed.

Lemma fold_payload_in members p m : In m members →
  unionMemberSize m ≤ fold_left (fun s m => Z.max s (unionMemberSize m)) members p.
Proof.
  revert p. induction members as [|x l IH]; intros p; simpl; [done|].
  intros [->|Hin]; [|by apply IH].
  pose proof (fold_payload_ge l (Z.max p (unionMemberSize m))). lia.
Qed.

(** The winning candidate: safe, at least as aligned as the start, and as
    every safe candidate of the list; its alignment is the recorded one. *)
Lemma candidate_invariant members p :
  (∀ t, snd p = Some t → isSafeUnionReprType t = true) →
  let r := fold_left betterCandidate members p in
  (∀ t, snd r = Some t → isSafeUnionReprType t = true) ∧ fst p ≤ fst r ∧
  ∀ m t, In m members → snd (getTypeABIAlignAndType (llvmType m)) = Some t →
    isSafeUnionReprType t = true → fst (getTypeABIAlignAndType (llvmType m)) ≤ fst r.
Proof.
  revert p. induction members as [|m l IH]; intros p Hp; simpl; [split_and!; [done|lia|done]|].
  assert (Hp' : (∀ t, snd (betterCandidate p m) = Some t → isSafeUnionReprType t = true) ∧
                fst p ≤ fst (betterCandidate p m) ∧
                ∀ t, snd (getTypeABIAlignAndType (llvmType m)) = Some t →
                  isSafeUnionReprType t = true →
                  fst (getTypeABIAlignAndType (llvmType m)) ≤ fst (betterCandidate p m)).
  { unfold betterCandidate. destruct (snd (getTypeABIAlignAndType (llvmType m))) as [t|] eqn:E;
      [|split_and!; [done|lia|done]].
    destruct (isSafeUnionReprType t) eqn:Es; simpl; [|split_and!; [done|lia|intros u [= <-]; congruence]].
    destruct (_ >=? _) eqn:Eg; bool_to_prop.
    - split_and!; [intros u; rewrite E; by intros [= <-]|lia|lia].
    - split_and!; [done|lia|lia]. }
  destruct Hp' as (H1 & H2 & H3). destruct (IH _ H1) as (I1 & I2 & I3).
  split_and!; [done|lia|]. intros m' t [->|Hin] Ht Hs; [|by eapply I3].
  specialize (H3 t Ht Hs). lia.
Qed.

Lemma isSafe_integer_bytes n : isSafeUnionReprType (IntegerType (8 * n)) = true.
Proof.
  unfold isSafeUnionReprType, getTypeStoreSize. cbn [getTypeSizeInBits].
  rewrite (Z.mul_comm 8 n) at 2. change (n * 8) with (n * CHAR_BIT).
  rewrite storeSizeOfBits_bytes. apply Z.eqb_refl.
Qed.

Lemma struct_align_divides tys total : getStructABIAlign = 1 →
  Forall (fun t => (getTypeABIAlign t | total)) tys →
  fold_left Z.max (map getTypeABIAlign tys) 1 = getTypeABIAlign (LLVMStructType tys) ∧
  (getTypeABIAlign (LLVMStructType tys) | total).
Proof.
  intros Hs Hall. rewrite getTypeABIAlign_struct, Hs.
  pose proof (fold_max_ge (map getTypeABIAlign tys) 1) as Hge. rewrite Z.max_l by lia.
  split; [done|]. clear Hge. generalize (Z.divide_1_l total). generalize 1.
  induction Hall as [|t l Ht _ IH]; intros x Hx; simpl; [done|].
  apply IH. destruct (Z.max_spec x (getTypeABIAlign t)) as [[_ ->]|[_ ->]]; done.
Qed.

(** The alloc size of a struct whose fields end at [e]. *)
Lemma struct_alloc_size tys : getStructABIAlign = 1 → Forall wfTy tys →
  getTypeAllocSize (LLVMStructType tys) =
  alignTo (bodyEnd 0 tys) (getTypeABIAlign (LLVMStructType tys)).
Proof.
  intros Hs Hwf. rewrite getTypeAllocSize_alignTo by (by apply wfTy_struct).
  rewrite getTypeStoreSize_struct.
  assert (fold_left Z.max (map getTypeABIAlign tys) 1 = getTypeABIAlign (LLVMStructType tys)) as ->.
  { rewrite getTypeABIAlign_struct, Hs. pose proof (fold_max_ge (map getTypeABIAlign tys) 1). lia. }
  pose proof (getTypeABIAlign_pos (LLVMStructType tys)).
  pose proof (bodyEnd_ge 0 tys ltac:(lia) (wf_alloc_nonneg _ Hwf)).
  apply alignTo_id; [|done|by apply alignTo_divide].
  etransitivity; [|by apply alignTo_ge]. done.
Qed.

Lemma addStructField_wf P acc m acc' : addStructField acc m = Some acc' →
  (∀ n, 0 < n → P (LLVMArrayType i8Type n)) → P (llvmType m) → 0 ≤ offset acc →
  0 < getTypeABIAlign (llvmType m) →
  Forall P (llvmTypes acc) → Forall P (llvmTypes acc').
Proof.
  unfold addStructField. intros (a & Ha & (z & Hz & [= <-])%bind_Some)%bind_Some Hpad Hm Ho Hal Hall.
  simpl. apply Forall_app_2; [|by constructor]. destruct (_ >? _) eqn:E; [|done]. bool_to_prop.
  apply Forall_app_2; [done|]. constructor; [|constructor]. apply Hpad.
  pose proof (alignTo_ge (offset acc) (getTypeABIAlign (llvmType m)) Ho Hal). lia.
Qed.

Lemma addStructFields_forall P members acc acc' :
  addStructFields acc members = Some acc' → Forall layoutsAgree members →
  bodyEnd 0 (llvmTypes acc) = offset acc →
  (∀ n, 0 < n → P (LLVMArrayType i8Type n)) → Forall (fun m => P (llvmType m)) members → 0 ≤ offset acc →
  Forall P (llvmTypes acc) → Forall P (llvmTypes acc').
Proof.
  intros H Hagree Hend Hpad. revert acc H Hend. induction Hagree as [|m l Hm _ IH]; intros acc; simpl.
  { by intros [= <-]. }
  intros (acc1 & H1 & H2)%bind_Some Hend Hall Ho Hacc. apply Forall_cons in Hall as [HPm Hl].
  destruct (addStructField_offset acc m Ho Hend Hm) as (? & acc1' & _ & H1' & _ & _ & He & Ho1 & _).
  rewrite H1 in H1'. injection H1' as <-. eapply IH; [exact H2|done|done|done|].
  eapply addStructField_wf; [exact H1|done|done|done|apply getTypeABIAlign_pos|done].
Qed.

(** C7: When KGEN and LLVM agree on the size of every field and KGEN's
    alignments are multiples of LLVM's, the converted struct puts every
    logical field, at its recorded index, exactly at KGEN's offset (the
    padding inserted for [@align] is neither missing nor doubled), and the
    struct occupies KGEN's end rounded up to KGEN's alignment. *)
Theorem struct_conversion_layout structType members total :
  getStructABIAlign = 1 → Forall layoutsAgree members →
  kgenABIAlign structType = Some total → 0 < total →
  Forall (fun m => (getTypeABIAlign (llvmType m) | total)) members →
  ∃ tys idx, convertStructBody structType members = Some (tys, map Z.of_nat idx) ∧
    Forall2 (fun i o => fieldOffsets 0 tys !! i = Some o) idx (kgenOffsets 0 members) ∧
    Forall2 (fun i m => tys !! i = Some (llvmType m)) idx members ∧
    getTypeAllocSize (LLVMStructType tys) = alignTo (kgenEnd 0 members) total.
Proof.
  intros Hs Hall Htot Hpos Hdiv.
  destruct (addStructFields_offsets members (mkStructAcc [] 0 []) ltac:(done) ltac:(done) Hall)
    as (acc & idx & E & _ & Hoff & Hend & Hnn & Hidx & HF & HT). simpl in Hidx, HF, Hoff.
  assert (Hwf : Forall wfTy (llvmTypes acc)).
  { eapply addStructFields_forall; [exact E|done|done| | |done|constructor].
    - simpl. lia.
    - eapply Forall_impl; [exact Hall|]. by intros m (? & _). }
  assert (Hdv : Forall (fun t => (getTypeABIAlign t | total)) (llvmTypes acc)).
  { eapply addStructFields_forall; [exact E|done|done| | |done|constructor].
    - intros n _. rewrite padding_align. apply Z.divide_1_l.
    - done. }
  destruct (struct_align_divides _ total Hs Hdv) as [_ HA].
  unfold convertStructBody. rewrite E. simpl. rewrite Htot. simpl. rewrite Hidx. rewrite <- Hoff.
  pose proof (getTypeABIAlign_pos (LLVMStructType (llvmTypes acc))) as HAp.
  destruct (_ >? _) eqn:Eg; bool_to_prop.
  - eexists _, idx. split; [done|]. split_and!.
    + eapply Forall2_impl; [exact HF|]. simpl. intros i o Hi. rewrite fieldOffsets_app.
      by apply lookup_app_l_Some.
    + eapply Forall2_impl; [exact HT|]. simpl. intros i m Hi. by apply lookup_app_l_Some.
    + pose proof (alignTo_ge (offset acc) _ Hnn HAp).
      rewrite struct_alloc_size; [|done|apply Forall_app_2; [done|constructor; [simpl; lia|constructor]]].
      rewrite bodyEnd_app, Hend. simpl. rewrite padding_align, alignTo_1, padding_alloc by lia.
      replace (offset acc + _) with (alignTo (offset acc) total) by lia.
      assert (Hdv' : Forall (fun t => (getTypeABIAlign t | total))
        (llvmTypes acc ++ [LLVMArrayType i8Type (alignTo (offset acc) total - offset acc)])).
      { apply Forall_app_2; [done|]. constructor; [|constructor]. rewrite padding_align. apply Z.divide_1_l. }
      destruct (struct_align_divides _ total Hs Hdv') as [_ HA'].
      apply alignTo_id; [lia|apply getTypeABIAlign_pos|].
      etransitivity; [exact HA'|by apply alignTo_divide].
  - eexists _, idx. split; [done|]. split_and!; [done|done|].
    rewrite struct_alloc_size, Hend by done. apply Z.le_antisymm; [|done].
    apply alignTo_least; [done|done| |by apply alignTo_ge].
    etransitivity; [exact HA|by apply alignTo_divide].
Qed.

Lemma fold_stricter_origin l p : fold_left stricter l p = p ∨ In (fold_left stricter l p) l.
Proof.
  revert p. induction l as [|q l IH]; intros p; simpl; [auto|].
  destruct (IH (stricter p q)) as [E|E]; [|auto]. rewrite E.
  unfold stricter. destruct (_ >=? _); auto.
Qed.

(** The leaf reported for a type has the alignment reported for it. *)
Lemma strictest_leaf_align t u : getStructABIAlign = 1 →
  snd (getTypeABIAlignAndType t) = Some u → getTypeABIAlign u = getTypeABIAlign t.
Proof.
  intros Hs. induction t as [w|k|a|n e IH|e n IH|body IH] using Ty_nested_ind;
    try (by intros [= <-]); [exact IH|exact IH|].
  unfold getTypeABIAlign at 2. cbn [getTypeABIAlignAndType fst snd]. rewrite Hs.
  destruct (fold_stricter_origin (map getTypeABIAlignAndType body) (1, None)) as [E|E].
  - rewrite E. done.
  - apply in_map_iff in E as (t & Et & Hin). rewrite <- Et. intros Hu.
    rewrite List.Forall_forall in IH. rewrite (IH t Hin Hu).
    pose proof (getTypeABIAlign_pos t). unfold getTypeABIAlign in *. lia.
Qed.

Lemma candidate_origin members p :
  fold_left betterCandidate members p = p ∨
  ∃ m, In m members ∧ fold_left betterCandidate members p = getTypeABIAlignAndType (llvmType m) ∧
       is_Some (snd (getTypeABIAlignAndType (llvmType m))).
Proof.
  revert p. induction members as [|m l IH]; intros p; simpl; [auto|].
  destruct (IH (betterCandidate p m)) as [E|(m' & ? & ? & ?)]; [|eauto 7].
  rewrite E. unfold betterCandidate. destruct (snd _) as [t|] eqn:Et; [|auto].
  destruct (_ && _); [|auto]. right. exists m. split_and!; [auto|done|]. rewrite Et. eauto.
Qed.


Lemma getUnionReprType_wf unionTypes members : Forall (fun m => wfTy (llvmType m)) members →
  (∀ t u, snd (getTypeABIAlignAndType t) = Some u → wfTy t → wfTy u) →
  wfTy (getUnionReprType unionTypes members).
Proof.
  intros Hall Hleaf. unfold getUnionReprType.
  set (r := fold_left betterCandidate members (1, None)).
  assert (H0 : wfTy (match snd r with Some t => t | None => i8Type end)).
  { destruct (snd r) as [t|] eqn:Et; [|simpl; lia].
    destruct (candidate_origin members (1, None)) as [E|(m & Hin & E & _)]; fold r in E; rewrite E in Et.
    - done.
    - eapply Hleaf; [exact Et|]. rewrite List.Forall_forall in Hall. by apply Hall. }
  destruct (unionTypeAlign unionTypes) as [ta|]; [|done].
  destruct (ta >? _) eqn:E1; [|done]. destruct (_ >=? ta); [|done]. bool_to_prop.
  pose proof (getTypeABIAlign_pos (match snd r with Some t => t | None => i8Type end)). simpl. lia.
Qed.

Lemma strictest_leaf_wf t u : snd (getTypeABIAlignAndType t) = Some u → wfTy t → wfTy u.
Proof.
  revert u. induction t as [w|k|a|n e IH|e n IH|body IH] using Ty_nested_ind; intros u;
    try (by intros [= <-]).
  - intros H [_ Hw]. by apply IH.
  - intros H [_ Hw]. by apply IH.
  - cbn [getTypeABIAlignAndType snd]. rewrite wfTy_struct.
    destruct (fold_stricter_origin (map getTypeABIAlignAndType body) (1, None)) as [E|E];
      [by rewrite E|].
    apply in_map_iff in E as (t & Et & Hin). rewrite <- Et. intros Hu Hall.
    rewrite List.Forall_forall in IH, Hall. by apply (IH t Hin u Hu), Hall.
Qed.

(** The assertion that ends the union conversion (the lowered struct is as
    big as the payload) holds exactly when the payload is a multiple of the
    representative's alignment, provided the representative fits. *)
Theorem union_size_assert_iff unionTypes members :
  getStructABIAlign = 1 → Forall (fun m => wfTy (llvmType m)) members →
  getUnionPayloadSize members ≠ 0 →
  getTypeAllocSize (getUnionReprType unionTypes members) ≤ getUnionPayloadSize members →
  unionSizeAssert unionTypes members = true ↔
  (getTypeABIAlign (getUnionReprType unionTypes members) | getUnionPayloadSize members).
Proof.
  intros Hs Hwf Hne Hfit. unfold unionSizeAssert, lowerUnion.
  set (p := getUnionPayloadSize members) in *. rewrite (proj2 (Z.eqb_neq p 0) Hne).
  pose proof (getUnionReprType_wf unionTypes members Hwf strictest_leaf_wf) as Hrwf.
  set (r := getUnionReprType unionTypes members) in *.
  pose proof (getTypeABIAlign_pos r) as Hap. pose proof (getTypeAllocSize_nonneg r Hrwf) as Hnn.
  set (tail := if p - getTypeAllocSize r =? 0 then [] else [LLVMArrayType i8Type (p - getTypeAllocSize r)]).
  assert (Hwf' : Forall wfTy (r :: tail)).
  { constructor; [done|]. unfold tail. destruct (_ =? 0); [constructor|]. repeat constructor; simpl; lia. }
  assert (Hend : bodyEnd 0 (r :: tail) = p).
  { simpl. rewrite alignTo_id; [|lia|done|apply Z.divide_0_r]. unfold tail.
    destruct (Z.eqb_spec (p - getTypeAllocSize r) 0); simpl; [lia|].
    rewrite padding_align, alignTo_1, padding_alloc by lia. lia. }
  assert (Hal : getTypeABIAlign (LLVMStructType (r :: tail)) = getTypeABIAlign r).
  { rewrite getTypeABIAlign_struct, Hs. unfold tail.
    destruct (_ =? 0); simpl; [lia|]. rewrite padding_align. lia. }
  rewrite struct_alloc_size, Hend, Hal, Z.eqb_eq by done. split.
  - intros ->. apply alignTo_divide; lia.
  - intros Hd. by rewrite alignTo_id by (done || lia).
Qed.
End TypeConverter.

(** ** An executable instance of KGEN's layout: natural sizes and alignments *)

Fixpoint naturalAllocSize (t : KTy) : option Z :=
  match t with
  | KSIMD (Some n) (Some (DTInt w)) => Some (n * ((w + 7) / 8))
  | KSIMD (Some n) (Some DTBool) => Some n
  | KArray (Some n) elt => s ← naturalAllocSize elt; Some (n * s)
  | KPointer _ => Some 8
  | _ => None
  end.

Fixpoint naturalAlign (t : KTy) : option Z :=
  match t with
  | KSIMD _ (Some (DTInt w)) => Some (ConcreteLayout.integerAlign w)
  | KSIMD _ (Some DTBool) => Some 1
  | KArray _ elt => naturalAlign elt
  | KPointer _ => Some 8
  | KStruct _ => Some 16
  | _ => None
  end.

Definition natural_kgen_layout : KGENLayout := {|
  kgenABIAlign := naturalAlign;
  kgenAllocSize := naturalAllocSize;
  unionTypeAlign := fun _ => None;
  functionValueType := Some (LLVMPointerType 0);
  indexBitwidth := 64
|}.

#[local] Existing Instance llvm_math.
#[local] Existing Instance x86_64_layout.
#[local] Existing Instance natural_kgen_layout.

Definition kInt (w : Z) : KTy := KSIMD (Some 1) (Some (DTInt w)).
Definition kMember (t : KTy) : UnionMember := mkUnionMember t (default i8Type (convertType t)).

(** The union of a 64-bit integer and a nine-byte array breaks the
    conversion's closing assertion: its payload is 9 bytes, while the lowered
    struct [{i64, [1 x i8]}] occupies 16. *)
Theorem union_size_assert_fails :
  let types := [kInt 64; KArray (Some 9) (kInt 8)] in
  getUnionPayloadSize (map kMember types) = 9 ∧
  lowerUnion types (map kMember types) =
    LLVMStructType [IntegerType 64; LLVMArrayType (IntegerType 8) 1] ∧
  getTypeAllocSize (lowerUnion types (map kMember types)) = 16 ∧
  unionSizeAssert types (map kMember types) = false.
Proof. repeat split. Qed.

Lemma union_size_assert_iff_witness :
  let types := [kInt 64; KArray (Some 16) (kInt 8)] in
  unionSizeAssert types (map kMember types) = true.
Proof.
  apply union_size_assert_iff; [reflexivity|reflexivity| | | |].
  - repeat constructor; simpl; lia.
  - vm_compute. discriminate.
  - vm_compute. discriminate.
  - exists 2. reflexivity.
Defined.


(** [struct { i8; i32; ptr }] in a struct type that KGEN aligns to 16.
    *)
Lemma struct_conversion_layout_witness :
  ∃ tys idx,
    convertStructBody (KStruct None) (map kMember [kInt 8; kInt 32; KPointer 0]) =
      Some (tys, map Z.of_nat idx) ∧
    Forall2 (fun i o => fieldOffsets 0 tys !! i = Some o) idx
      (kgenOffsets 0 (map kMember [kInt 8; kInt 32; KPointer 0])) ∧
    getTypeAllocSize (LLVMStructType tys) = 16.
Proof.
  destruct (@struct_conversion_layout llvm_math x86_64_layout natural_kgen_layout eq_refl (KStruct None)
    (map kMember [kInt 8; kInt 32; KPointer 0]) 16) as (tys & idx & H1 & H2 & _ & H3).
  - reflexivity.
  - repeat constructor; try (simpl; lia).
    + exists 1. split; [reflexivity|split; [lia|exists 1; reflexivity]].
    + exists 4. split; [reflexivity|split; [lia|exists 1; reflexivity]].
    + exists 8. split; [reflexivity|split; [lia|exists 1; reflexivity]].
  - reflexivity.
  - lia.
  - constructor; [exists 16; reflexivity|]. constructor; [exists 4; reflexivity|].
    constructor; [exists 2; reflexivity|constructor].
  - exists tys, idx. split; [exact H1|]. split; [exact H2|]. rewrite H3. reflexivity.
Defined.
