(* ===== verification/Variant.v ===== *)
(** [VariantHelper] of Mojo/lib/KGENToLLVM/LLVMLoweringUtils.cpp: packing a
    value into the integer cells of a lowered union.  The IR the helper builds
    is modelled by the values its operations compute; the cells, the iterator
    and the two offsets that the C++ threads by reference are the state.  The
    [unsigned] offsets are unbounded here: they never exceed the size of the
    storage ([walk_packs]), so they do not wrap for a union below 2^32 bits. *)
From S2P Require Import Prelude LLVMSupport BitOps LLVMTypes DataLayout.

(** A first-class LLVM value, down to the bits of its leaves. *)
Inductive LVal :=
  | VInt (b : BV)
  | VFloat (kind : FloatKind) (bits : Z)
  | VPtr (addressSpace : Z) (bits : Z)
  | VArray (elementType : Ty) (elements : list LVal)
  | VStruct (fields : list LVal)
  | VVector (elementType : Ty) (elements : list LVal).

Section LValInd.
Variable P : LVal → Prop.
Hypothesis Hint : ∀ b, P (VInt b).
Hypothesis Hfloat : ∀ k x, P (VFloat k x).
Hypothesis Hptr : ∀ a x, P (VPtr a x).
Hypothesis Harr : ∀ e vs, Forall P vs → P (VArray e vs).
Hypothesis Hstruct : ∀ vs, Forall P vs → P (VStruct vs).
Hypothesis Hvec : ∀ e vs, Forall P vs → P (VVector e vs).

Fixpoint LVal_nested_ind (v : LVal) : P v :=
  let fix go (l : list LVal) : Forall P l :=
    match l with
    | [] => List.Forall_nil P
    | x :: l' => List.Forall_cons P x l' (LVal_nested_ind x) (go l')
    end in
  match v with
  | VInt b => Hint b
  | VFloat k x => Hfloat k x
  | VPtr a x => Hptr a x
  | VArray e vs => Harr e vs (go vs)
  | VStruct vs => Hstruct vs (go vs)
  | VVector e vs => Hvec e vs (go vs)
  end.
End LValInd.

(** [value.getType()]. *)
Fixpoint typeOf (v : LVal) : Ty :=
  match v with
  | VInt b => IntegerType (bv_width b)
  | VFloat k _ => FloatType k
  | VPtr a _ => LLVMPointerType a
  | VArray e vs => LLVMArrayType e (Z.of_nat (length vs))
  | VStruct vs => LLVMStructType (map typeOf vs)
  | VVector e vs => VectorType (Z.of_nat (length vs)) e
  end.

(** The storage being filled: [storageValues], [valueIt] and [storageOffset]. *)
Record Storage := mkStorage {
  cells : list BV;
  valueIt : nat;
  storageOffset : Z
}.

Section Variant.
Context {LM : LLVMMath} {TD : TargetDataLayout}.

(** ** The walk.  [None]: the iterator is dereferenced past the last cell. *)

Definition advanceStoragePtr (st : Storage) (amt : Z) : option (Z * Storage) :=
  cur ← cells st !! valueIt st;
  let curStorageSize := bv_width cur in
  let advanceBy := Z.min amt (curStorageSize - storageOffset st) in
  let off := storageOffset st + advanceBy in
  Some (advanceBy,
        if off =? curStorageSize then mkStorage (cells st) (S (valueIt st)) 0
        else mkStorage (cells st) (valueIt st) off).

(** The loop [for (added = 0; added != padding;)]. *)
Fixpoint padLoop (fuel : nat) (padding added : Z) (st : Storage) : option Storage :=
  if added =? padding then Some st
  else match fuel with
       | O => None
       | S fuel =>
           '(n, st) ← advanceStoragePtr st (padding - added);
           padLoop fuel padding (added + n) st
       end.

Definition addStoragePadding (st : Storage) (offset alignment : Z) : option (Storage * Z) :=
  let padding := alignTo offset (alignment * CHAR_BIT) - offset in
  st ← padLoop (Z.to_nat padding) padding 0 st;
  Some (st, offset + padding).

(** The loop that stores one normalized leaf, a cell at a time. *)
Fixpoint storeLoop (fuel : nat) (normalizedValue : BV) (curValueOffset : Z) (st : Storage)
    : option Storage :=
  let curValueSize := bv_width normalizedValue in
  if curValueOffset =? curValueSize then Some st
  else match fuel with
       | O => None
       | S fuel =>
           cur ← cells st !! valueIt st;
           let curStorageWidth := bv_width cur in
           let valueToStore := bv_lshr normalizedValue curValueOffset in
           let valueToStore :=
             if curValueSize <? curStorageWidth then bv_zext valueToStore curStorageWidth
             else bv_trunc valueToStore curStorageWidth in
           let valueToStore := bv_shl valueToStore (storageOffset st) in
           let st := mkStorage (<[valueIt st := bv_or cur valueToStore]> (cells st))
                               (valueIt st) (storageOffset st) in
           '(n, st) ← advanceStoragePtr st (curValueSize - curValueOffset);
           storeLoop fuel normalizedValue (curValueOffset + n) st
       end.

(** The leaf case: the integer with the leaf's bits. *)
Definition normalize (value : LVal) : option BV :=
  match value with
  | VInt b => Some b
  | VFloat k x => Some (mkBV (floatWidth k) x)
  | VPtr a x => Some (mkBV (getTypeSizeInBits (LLVMPointerType a)) x)
  | _ => None
  end.

Fixpoint walkAndCreateVariant (value : LVal) (s : Storage * Z) : option (Storage * Z) :=
  let fix elements (vs : list LVal) (s : Storage * Z) : option (Storage * Z) :=
    match vs with
    | [] => Some s
    | v :: vs => s ← walkAndCreateVariant v s; elements vs s
    end in
  '(st, offset) ← addStoragePadding (fst s) (snd s) (getTypeABIAlign (typeOf value));
  match value with
  | VArray _ vs | VStruct vs | VVector _ vs => elements vs (st, offset)
  | _ =>
      normalizedValue ← normalize value;
      let curValueSize := bv_width normalizedValue in
      st ← storeLoop (Z.to_nat curValueSize) normalizedValue 0 st;
      Some (st, offset + curValueSize)
  end.

(** ** Building the union value *)

(** [storageValues] before the walk: zeros of the widths of the
    representative (or its elements) and of the trailing bytes. *)
Definition reprCells (maxAlignTp : Ty) : option (list BV) :=
  match maxAlignTp with
  | VectorType n e => Some (replicate (Z.to_nat n) (mkBV (getTypeSizeInBits e) 0))
  | IntegerType _ | FloatType _ | LLVMPointerType _ =>
      Some [mkBV (getTypeSizeInBits maxAlignTp) 0]
  | _ => None
  end.

Definition tailCells (body : list Ty) : option (list BV) :=
  match body with
  | [_; LLVMArrayType (IntegerType w) n] => Some (replicate (Z.to_nat n) (mkBV w 0))
  | [_; _] => None
  | _ => Some []
  end.

(** [BitcastOp] / [IntToPtrOp] of a cell to a scalar type. *)
Definition castCell (type : Ty) (b : BV) : LVal :=
  match type with
  | FloatType k => VFloat k (bv_val b)
  | LLVMPointerType a => VPtr a (bv_val b)
  | _ => VInt b
  end.

(** The representative rebuilt from the front of [toPack], and the rest. *)
Definition packRepr (maxAlignTp : Ty) (toPack : list BV) : LVal * list BV :=
  match maxAlignTp with
  | VectorType n e =>
      (VVector e (map (castCell e) (take (Z.to_nat n) toPack)), drop (Z.to_nat n) toPack)
  | _ => (castCell maxAlignTp (default (mkBV 0 0) (head toPack)), drop 1 toPack)
  end.

Definition materializeLLVMUnion (body : list Ty) (value : LVal) : option LVal :=
  match body with
  | [] => Some (VStruct [])
  | maxAlignTp :: _ =>
      front ← reprCells maxAlignTp;
      back ← tailCells body;
      '(st, _) ← walkAndCreateVariant value (mkStorage (front ++ back) 0 0, 0);
      let '(maxAlignV, toPack) := packRepr maxAlignTp (cells st) in
      Some (VStruct
        (match body with
         | [_; LLVMArrayType e _] => [maxAlignV; VArray e (map VInt toPack)]
         | _ => [maxAlignV]
         end))
  end.

(** ** Specification: where each leaf of the value goes *)

Fixpoint place (off : Z) (value : LVal) : list Placement * Z :=
  let fix elements (off : Z) (vs : list LVal) : list Placement * Z :=
    match vs with
    | [] => ([], off)
    | v :: vs =>
        let '(ps, off) := place off v in
        let '(qs, off) := elements off vs in
        (ps ++ qs, off)
    end in
  let off := alignTo off (getTypeABIAlign (typeOf value) * CHAR_BIT) in
  match value with
  | VArray _ vs | VStruct vs | VVector _ vs => elements off vs
  | _ => match normalize value with
         | Some b => ([mkPlacement off (bv_width b) (bv_val b)], off + bv_width b)
         | None => ([], off)
         end
  end.

(** The leaves of a value in order, as integers. *)
Fixpoint leaves (value : LVal) : list BV :=
  match value with
  | VArray _ vs | VStruct vs | VVector _ vs => flat_map leaves vs
  | _ => match normalize value with Some b => [b] | None => [] end
  end.

(** Every leaf holds a value of its width. *)
Definition wfVal (value : LVal) : Prop := Forall wfBV (leaves value).

(** ** Unfolding: leaves against aggregates *)

Definition fields (value : LVal) : list LVal :=
  match value with VArray _ vs | VStruct vs | VVector _ vs => vs | _ => [] end.

Fixpoint walkAll (vs : list LVal) (s : Storage * Z) : option (Storage * Z) :=
  match vs with
  | [] => Some s
  | v :: vs => s ← walkAndCreateVariant v s; walkAll vs s
  end.

Fixpoint placeAll (off : Z) (vs : list LVal) : list Placement * Z :=
  match vs with
  | [] => ([], off)
  | v :: vs => let '(ps, off) := place off v in let '(qs, off) := placeAll off vs in (ps ++ qs, off)
  end.

Lemma walk_leaf v nv s : normalize v = Some nv →
  walkAndCreateVariant v s =
  '(st, offset) ← addStoragePadding (fst s) (snd s) (getTypeABIAlign (typeOf v));
  st ← storeLoop (Z.to_nat (bv_width nv)) nv 0 st; Some (st, offset + bv_width nv).
Proof. by destruct v; intros [= <-]. Qed.

Lemma walk_aggregate v s : normalize v = None →
  walkAndCreateVariant v s =
  s ← addStoragePadding (fst s) (snd s) (getTypeABIAlign (typeOf v)); walkAll (fields v) s.
Proof.
  destruct v; intros [=]; cbn [walkAndCreateVariant fields];
    (destruct (addStoragePadding _ _ _) as [[st off]|]; [|done]); reflexivity.
Qed.

Lemma place_leaf v nv off : normalize v = Some nv →
  place off v =
  let off := alignTo off (getTypeABIAlign (typeOf v) * CHAR_BIT) in
  ([mkPlacement off (bv_width nv) (bv_val nv)], off + bv_width nv).
Proof. by destruct v; intros [= <-]. Qed.

Lemma place_aggregate v off : normalize v = None →
  place off v = placeAll (alignTo off (getTypeABIAlign (typeOf v) * CHAR_BIT)) (fields v).
Proof. by destruct v; intros [=]. Qed.

Lemma wfVal_leaf v nv : normalize v = Some nv → wfVal v → wfBV nv.
Proof. unfold wfVal. destruct v; intros [= <-] H; by inversion H. Qed.

Lemma wfVal_fields v : normalize v = None → wfVal v → Forall wfVal (fields v).
Proof.
  unfold wfVal. destruct v; intros [=]; simpl; intros H; by apply Forall_flat_map.
Qed.

Lemma LVal_ind_fields (P : LVal → Prop) :
  (∀ v nv, normalize v = Some nv → P v) →
  (∀ v, normalize v = None → Forall P (fields v) → P v) → ∀ v, P v.
Proof.
  intros Hl Ha v. induction v using LVal_nested_ind; try (by eapply Hl); by apply Ha.
Qed.

(** ** The state invariant *)

(** The number of bits already written or skipped. *)
Definition pos (st : Storage) : Z := startOf (cells st) (valueIt st) + storageOffset st.

Definition StorageInv (st : Storage) : Prop :=
  Forall wfBV (cells st) ∧
  match cells st !! valueIt st with
  | Some c => 0 ≤ storageOffset st < bv_width c
  | None => storageOffset st = 0
  end.

(** What a step leaves alone: the cells' widths, hence every position. *)
Definition sameWidths (st st' : Storage) : Prop :=
  map bv_width (cells st') = map bv_width (cells st).

Lemma sameWidths_refl st : sameWidths st st.
Proof. done. Qed.
Lemma sameWidths_trans st1 st2 st3 : sameWidths st1 st2 → sameWidths st2 st3 → sameWidths st1 st3.
Proof. unfold sameWidths. congruence. Qed.

Lemma sameWidths_total st st' : sameWidths st st' →
  totalBits (cells st') = totalBits (cells st).
Proof.
  intros H. unfold totalBits. rewrite (startOf_widths _ _ _ H).
  by rewrite <- (length_map bv_width), H, length_map.
Qed.

Lemma pos_lookup st : StorageInv st → pos st < totalBits (cells st) →
  ∃ c, cells st !! valueIt st = Some c ∧ 0 ≤ storageOffset st < bv_width c ∧ wfBV c.
Proof.
  intros [Hwf Hso] Hlt. destruct (cells st !! valueIt st) as [c|] eqn:Hc.
  - exists c. split; [done|]. split; [done|]. exact (Forall_lookup_1 _ _ _ _ Hwf Hc).
  - exfalso. unfold pos, totalBits in Hlt.
    rewrite startOf_beyond in Hlt by (by apply lookup_ge_None). lia.
Qed.

Lemma advance_spec st amt : StorageInv st → 0 < amt → pos st < totalBits (cells st) →
  ∃ c n st', cells st !! valueIt st = Some c ∧
    advanceStoragePtr st amt = Some (n, st') ∧
    n = Z.min amt (bv_width c - storageOffset st) ∧ 0 < n ≤ amt ∧
    cells st' = cells st ∧ StorageInv st' ∧ pos st' = pos st + n.
Proof.
  intros Hinv Hamt Hlt. destruct (pos_lookup st Hinv Hlt) as (c & Hc & Hso & Hwfc).
  destruct Hinv as [Hwf _]. unfold advanceStoragePtr. rewrite Hc. cbn [mbind option_bind].
  set (n := Z.min amt (bv_width c - storageOffset st)).
  destruct (storageOffset st + n =? bv_width c) eqn:E; bool_to_prop;
    (eexists c, n, _; split_and!; [done|reflexivity|done|lia|lia|reflexivity| |]).
  - split; [done|]. cbn [cells valueIt storageOffset].
    destruct (cells st !! S (valueIt st)) as [d|] eqn:Hd; [|done].
    pose proof (Forall_lookup_1 _ _ _ _ Hwf Hd) as [? _]. lia.
  - unfold pos. cbn [cells valueIt storageOffset]. rewrite (startOf_S _ _ c) by done. lia.
  - split; [done|]. cbn [cells valueIt storageOffset]. rewrite Hc. lia.
  - unfold pos. cbn [cells valueIt storageOffset]. lia.
Qed.

(** The padding loop ends and moves by exactly the padding. *)
Lemma padLoop_spec fuel padding added st :
  StorageInv st → 0 ≤ added ≤ padding → padding - added ≤ Z.of_nat fuel →
  pos st + (padding - added) ≤ totalBits (cells st) →
  ∃ st', padLoop fuel padding added st = Some st' ∧ cells st' = cells st ∧
    StorageInv st' ∧ pos st' = pos st + (padding - added).
Proof.
  revert added st. induction fuel as [|fuel IH]; intros added st Hinv Ha Hf Hp;
    simpl; destruct (added =? padding) eqn:E; bool_to_prop; try lia.
  - exists st. split_and!; try done; lia.
  - exists st. split_and!; try done; lia.
  - destruct (advance_spec st (padding - added) Hinv) as (c & n & st' & _ & -> & _ & Hn & Hc & Hinv' & Hpos);
      [lia|lia|]. cbn [mbind option_bind].
    destruct (IH (added + n) st') as (st2 & -> & Hc2 & Hinv2 & Hpos2); [done|lia|lia|rewrite Hc; lia|].
    exists st2. split_and!; [done|congruence|done|lia].
Qed.

Lemma addStoragePadding_spec st off a : StorageInv st → pos st = off → 0 ≤ off → 0 < a →
  alignTo off (a * CHAR_BIT) ≤ totalBits (cells st) →
  ∃ st', addStoragePadding st off a = Some (st', alignTo off (a * CHAR_BIT)) ∧
    cells st' = cells st ∧ StorageInv st' ∧ pos st' = alignTo off (a * CHAR_BIT).
Proof.
  intros Hinv Hpos Hoff Ha Ht. unfold addStoragePadding.
  pose proof (alignTo_ge off (a * CHAR_BIT) Hoff ltac:(unfold CHAR_BIT; lia)).
  set (al := alignTo off (a * CHAR_BIT)) in *.
  destruct (padLoop_spec (Z.to_nat (al - off)) (al - off) 0 st) as (st' & -> & Hc & Hinv' & Hpos');
    [done|lia|lia|lia|].
  exists st'. cbn [mbind option_bind]. split_and!; try done; [do 2 f_equal; lia|lia].
Qed.

(** ** Storing one leaf *)

Definition cellBits (nv : BV) (k w so : Z) : BV :=
  bv_shl (if bv_width nv <? w then bv_zext (bv_lshr nv k) w else bv_trunc (bv_lshr nv k) w) so.

Lemma cellBits_val nv k w so : wfBV nv → 0 ≤ k ≤ bv_width nv → 0 ≤ so < w →
  bv_val (cellBits nv k w so) =
  Z.shiftl (Z.shiftr (bv_val nv) k mod 2 ^ Z.min (bv_width nv - k) (w - so)) so.
Proof.
  intros [Hw Hv] Hk Hso. unfold cellBits.
  assert (Hx : ∀ b : BV, bv_width b = w → bv_val b mod 2 ^ (w - so) =
     Z.shiftr (bv_val nv) k mod 2 ^ Z.min (bv_width nv - k) (w - so) →
     bv_val (bv_shl b so) =
     Z.shiftl (Z.shiftr (bv_val nv) k mod 2 ^ Z.min (bv_width nv - k) (w - so)) so).
  { intros b Hb Hm. unfold bv_shl. rewrite Hb. cbn [bv_val].
    rewrite shl_in_cell by lia. by rewrite Hm. }
  destruct (bv_width nv <? w); apply Hx; try done; cbn [bv_val bv_zext bv_trunc bv_lshr bv_width].
  - by apply shiftr_mod_min; [|lia|lia].
  - rewrite mod_mod_pow2 by lia. by apply shiftr_mod_min; [|lia|lia].
Qed.

Lemma cellBits_wf cur nv k so : wfBV cur → wfBV nv → 0 ≤ k ≤ bv_width nv →
  0 ≤ so < bv_width cur → wfBV (bv_or cur (cellBits nv k (bv_width cur) so)).
Proof.
  intros [Hw Hc] Hnv Hk Hso. split; [done|]. cbn [bv_or bv_val bv_width].
  apply lor_bound; [lia|done|]. unfold cellBits, bv_shl.
  assert (bv_width (if bv_width nv <? bv_width cur then bv_zext (bv_lshr nv k) (bv_width cur)
                    else bv_trunc (bv_lshr nv k) (bv_width cur)) = bv_width cur) as ->
    by by destruct (_ <? _).
  cbn [bv_val]. apply Z.mod_pos_bound, Z.pow_pos_nonneg; lia.
Qed.

Lemma storeLoop_spec fuel nv k st base P :
  StorageInv st → wfBV nv → 0 ≤ k ≤ bv_width nv → bv_width nv - k ≤ Z.of_nat fuel →
  pos st = P + k → 0 ≤ P → P + bv_width nv ≤ totalBits (cells st) →
  combine (cells st) = Z.lor base (Z.shiftl (bv_val nv mod 2 ^ k) P) →
  ∃ st', storeLoop fuel nv k st = Some st' ∧ StorageInv st' ∧ sameWidths st st' ∧
    pos st' = P + bv_width nv ∧ combine (cells st') = Z.lor base (Z.shiftl (bv_val nv) P).
Proof.
  revert k st. induction fuel as [|fuel IH]; intros k st Hinv Hnv Hk Hf Hpos HP Ht Hc;
    cbn [storeLoop]; destruct (k =? bv_width nv) eqn:E; bool_to_prop; subst; try lia.
  1,2: exists st; (split_and!; [done|done|done|lia|]);
    rewrite Hc; destruct Hnv; by rewrite Z.mod_small by done.
  destruct (pos_lookup st Hinv) as (c & Hlk & Hso & Hwfc); [lia|].
  rewrite Hlk. cbn [mbind option_bind]. fold (cellBits nv k (bv_width c) (storageOffset st)).
  set (st1 := mkStorage _ _ _).
  destruct Hinv as [Hwf _].
  assert (Hsame : sameWidths st st1).
  { by apply map_insert_same with c. }
  assert (Hinv1 : StorageInv st1).
  { split; [by apply Forall_insert; [|apply cellBits_wf]|].
    unfold st1. cbn [cells valueIt storageOffset].
    rewrite list_lookup_insert_eq by (by eapply lookup_lt_Some). done. }
  assert (Hp1 : pos st1 = pos st).
  { unfold pos, st1. cbn [valueIt storageOffset]. f_equal. by apply startOf_widths. }
  assert (Hc1 : combine (cells st1) = Z.lor (combine (cells st))
     (Z.shiftl (bv_val (cellBits nv k (bv_width c) (storageOffset st))) (startOf (cells st) (valueIt st)))).
  { unfold st1. cbn [cells]. unfold bv_or. apply combine_insert; [done|done|].
    rewrite cellBits_val by done. apply Z.shiftl_nonneg, Z.mod_pos_bound, Z.pow_pos_nonneg; lia. }
  destruct (advance_spec st1 (bv_width nv - k) Hinv1) as
    (c' & n & st2 & Hlk' & -> & Hn & Hnb & Hc2 & Hinv2 & Hp2);
    [lia|rewrite (sameWidths_total _ _ Hsame); lia|].
  cbn [mbind option_bind].
  assert (Hcw : bv_width c' = bv_width c).
  { unfold st1 in Hlk'. cbn [cells valueIt] in Hlk'.
    rewrite list_lookup_insert_eq in Hlk' by (by eapply lookup_lt_Some). by injection Hlk' as <-. }
  destruct (IH (k + n) st2) as (st3 & -> & Hinv3 & Hsame3 & Hp3 & Hc3); try done; try lia.
  - rewrite Hc2, (sameWidths_total _ _ Hsame). lia.
  - rewrite Hc2, Hc1, Hc, cellBits_val by done.
    rewrite Hcw in Hn. replace (storageOffset st1) with (storageOffset st) in Hn by done.
    rewrite <- Hn, Z.shiftl_shiftl by lia.
    replace (storageOffset st + startOf (cells st) (valueIt st)) with (P + k) by (unfold pos in Hpos; lia).
    rewrite <- Z.lor_assoc, slice_extend by lia. done.
  - exists st3. split_and!; try done.
    unfold sameWidths in *. rewrite Hsame3, Hc2. done.
Qed.

(** ** The placement *)

Lemma alignBits_ge off t : 0 ≤ off → off ≤ alignTo off (getTypeABIAlign t * CHAR_BIT).
Proof.
  intros. pose proof (getTypeABIAlign_pos t). apply alignTo_ge; unfold CHAR_BIT; lia.
Qed.

(** [ps] lies in order inside [[off, e)]. *)
Definition placedIn (off e : Z) (ps : list Placement) : Prop :=
  off ≤ e ∧ orderedFrom off ps ∧ Forall (fun p => pl_off p + pl_width p ≤ e) ps.

Lemma placedIn_app a b c ps qs : placedIn a b ps → placedIn b c qs → placedIn a c (ps ++ qs).
Proof.
  intros (Hab & Ho & Hf) (Hbc & Ho' & Hf'). split; [lia|]. split.
  - by apply orderedFrom_app with b.
  - apply Forall_app. split; [|done]. eapply Forall_impl; [exact Hf|]. simpl. lia.
Qed.

Lemma placedIn_weaken a b c ps : a ≤ b → placedIn b c ps → placedIn a c ps.
Proof.
  intros Hab (Hbc & Ho & Hf). split; [lia|]. split; [by eapply orderedFrom_weaken|done].
Qed.

Lemma placeAll_placed vs off : 0 ≤ off →
  Forall (fun v => ∀ off, 0 ≤ off → placedIn off (snd (place off v)) (fst (place off v))) vs →
  placedIn off (snd (placeAll off vs)) (fst (placeAll off vs)).
Proof.
  intros Hoff Hvs. revert off Hoff. induction Hvs as [|v vs Hv _ IH]; intros off Hoff; simpl.
  - split; [lia|]. by split.
  - specialize (Hv off Hoff). destruct (place off v) as [ps o1]. simpl in Hv.
    assert (H1 : 0 ≤ o1) by (destruct Hv; lia). specialize (IH o1 H1).
    destruct (placeAll o1 vs) as [qs o2]. by eapply placedIn_app.
Qed.

Lemma place_placed v : wfVal v → ∀ off, 0 ≤ off →
  placedIn off (snd (place off v)) (fst (place off v)).
Proof.
  induction v as [v nv Hn|v Hn IH] using LVal_ind_fields; intros Hwf off Hoff;
    pose proof (alignBits_ge off (typeOf v) Hoff) as Hal.
  - rewrite (place_leaf _ nv) by done. destruct (wfVal_leaf v nv Hn Hwf) as [Hw Hv].
    cbn [fst snd]. split; [lia|]. split; [by simpl; split_and!; try lia|].
    constructor; [simpl; lia|constructor].
  - rewrite place_aggregate by done. eapply placedIn_weaken; [exact Hal|].
    apply placeAll_placed; [lia|]. pose proof (wfVal_fields v Hn Hwf) as Hfs.
    apply Forall_forall. intros u Hu. rewrite Forall_forall in IH, Hfs.
    by apply IH, Hfs.
Qed.

(** ** The walk packs *)

(** From a consistent state, the walk ends, and adds to the storage exactly
    the placements of the specification. *)
Definition walkPacks (v : LVal) : Prop := ∀ st off,
  StorageInv st → pos st = off → 0 ≤ off → snd (place off v) ≤ totalBits (cells st) →
  ∃ st', walkAndCreateVariant v (st, off) = Some (st', snd (place off v)) ∧
    StorageInv st' ∧ sameWidths st st' ∧ pos st' = snd (place off v) ∧
    combine (cells st') = Z.lor (combine (cells st)) (orPlacements (fst (place off v))).

Lemma walkAll_packs vs st off : Forall walkPacks vs → Forall wfVal vs →
  StorageInv st → pos st = off → 0 ≤ off → snd (placeAll off vs) ≤ totalBits (cells st) →
  ∃ st', walkAll vs (st, off) = Some (st', snd (placeAll off vs)) ∧
    StorageInv st' ∧ sameWidths st st' ∧ pos st' = snd (placeAll off vs) ∧
    combine (cells st') = Z.lor (combine (cells st)) (orPlacements (fst (placeAll off vs))).
Proof.
  intros Hvs. revert st off.
  induction Hvs as [|v vs Hv Hvs IH]; intros st off Hwf Hinv Hp Hoff Ht; cbn [walkAll placeAll] in *.
  - exists st. split_and!; try done. simpl. by rewrite Z.lor_0_r.
  - inversion Hwf as [|? ? Hwv Hwvs]; subst.
    pose proof (place_placed v Hwv (pos st) Hoff) as (H1 & _).
    pose proof (placeAll_placed vs (snd (place (pos st) v)) ltac:(lia)
      ltac:(eapply Forall_impl; [exact Hwvs|apply place_placed])) as (H2 & _).
    destruct (place (pos st) v) as [ps o1] eqn:Ep. destruct (placeAll o1 vs) as [qs o2] eqn:Eq.
    cbn [snd] in *. rewrite Eq in H2. cbn [snd] in H2.
    destruct (Hv st (pos st) Hinv eq_refl Hoff) as (st1 & -> & Hi1 & Hs1 & Hp1 & Hc1);
      rewrite ?Ep; cbn [snd fst]; [lia|]. rewrite Ep in *. cbn [fst snd] in *.
    cbn [mbind option_bind].
    destruct (IH st1 o1 Hwvs Hi1 Hp1 ltac:(lia)) as (st2 & -> & Hi2 & Hs2 & Hp2 & Hc2);
      rewrite ?Eq in *; cbn [snd fst] in *; [by rewrite (sameWidths_total st st1)|].
    exists st2. split_and!; try done; [by eapply sameWidths_trans|].
    by rewrite Hc2, Hc1, orPlacements_app, Z.lor_assoc.
Qed.

Lemma walk_packs v : wfVal v → walkPacks v.
Proof.
  induction v as [v nv Hn|v Hn IH] using LVal_ind_fields; intros Hwf st off Hinv Hp Hoff Ht;
    pose proof (getTypeABIAlign_pos (typeOf v)) as Ha;
    pose proof (alignBits_ge off (typeOf v) Hoff) as Hal.
  - rewrite (walk_leaf v nv) by done. rewrite (place_leaf v nv) in * by done. cbn [fst snd] in *.
    pose proof (wfVal_leaf v nv Hn Hwf) as Hnv. assert (0 < bv_width nv) by by destruct Hnv.
    destruct (addStoragePadding_spec st off _ Hinv Hp Hoff Ha) as (st1 & -> & Hc1 & Hi1 & Hp1); [lia|].
    cbn [mbind option_bind].
    destruct (storeLoop_spec (Z.to_nat (bv_width nv)) nv 0 st1 (combine (cells st))
      (alignTo off (getTypeABIAlign (typeOf v) * CHAR_BIT)))
      as (st2 & -> & Hi2 & Hs2 & Hp2 & Hc2); try done; try lia.
    { by rewrite Hc1. }
    { rewrite Hc1, Z.mod_1_r, Z.shiftl_0_l. by rewrite Z.lor_0_r. }
    exists st2. cbn [mbind option_bind]. split_and!; try done.
    + unfold sameWidths in *. by rewrite Hs2, Hc1.
    + rewrite Hc2. cbn [orPlacements foldr pl_bits pl_off]. by rewrite Z.lor_0_r.
  - rewrite (walk_aggregate v) by done. rewrite (place_aggregate v) in * by done.
    pose proof (wfVal_fields v Hn Hwf) as Hfs. cbn [fst snd].
    assert (H0 : 0 ≤ alignTo off (getTypeABIAlign (typeOf v) * CHAR_BIT)) by lia.
    pose proof (placeAll_placed (fields v) _ H0
      ltac:(eapply Forall_impl; [exact Hfs|apply place_placed])) as (H2 & _).
    destruct (addStoragePadding_spec st off _ Hinv Hp Hoff Ha) as (st1 & -> & Hc1 & Hi1 & Hp1); [lia|].
    cbn [mbind option_bind].
    destruct (walkAll_packs (fields v) st1 _ ltac:(eapply Forall_impl_in; [exact IH|exact Hfs]) Hfs Hi1 Hp1)
      as (st2 & -> & Hi2 & Hs2 & Hp2 & Hc2); [lia|by rewrite Hc1|].
    exists st2. split_and!; try done.
    + unfold sameWidths in *. by rewrite Hs2, Hc1.
    + by rewrite Hc2, Hc1.
Qed.

(** ** The union value *)

Definition leafOf (p : Placement) : BV := mkBV (pl_width p) (pl_bits p).

Lemma placeAll_leaves vs off :
  Forall (fun v => ∀ off, map leafOf (fst (place off v)) = leaves v) vs →
  map leafOf (fst (placeAll off vs)) = flat_map leaves vs.
Proof.
  intros H. revert off. induction H as [|v vs Hv _ IH]; intros off; simpl; [done|].
  specialize (Hv off). destruct (place off v) as [ps o1]. simpl in Hv.
  specialize (IH o1). destruct (placeAll o1 vs) as [qs o2]. simpl in *.
  by rewrite map_app, Hv, IH.
Qed.

(** The placements are those of the leaves, in order. *)
Lemma place_leaves v off : map leafOf (fst (place off v)) = leaves v.
Proof.
  revert off. induction v as [v nv Hn|v Hn IH] using LVal_ind_fields; intros off.
  - rewrite (place_leaf v nv) by done. by destruct v as [[]| | | | |]; simplify_eq/=.
  - rewrite place_aggregate by done. rewrite placeAll_leaves by done.
    by destruct v.
Qed.

Lemma castCell_leaves type b : bv_width b = getTypeSizeInBits type →
  leaves (castCell type b) = [b].
Proof. destruct b as [w x], type; cbn; intros Hw; by rewrite ?Hw. Qed.

Lemma castCells_leaves type bs : Forall (fun b => bv_width b = getTypeSizeInBits type) bs →
  flat_map leaves (map (castCell type) bs) = bs.
Proof.
  intros H. induction H as [|b bs Hb _ IH]; [done|].
  cbn [map flat_map]. by rewrite castCell_leaves, IH.
Qed.

Lemma VInt_leaves bs : flat_map leaves (map VInt bs) = bs.
Proof. induction bs as [|b bs IH]; [done|]. simpl in *. by rewrite IH. Qed.

(** Rebuilding the representative loses nothing and takes only its cells. *)
Lemma packRepr_leaves type front back cs : reprCells type = Some front →
  map bv_width cs = map bv_width (front ++ back) →
  leaves (fst (packRepr type cs)) ++ snd (packRepr type cs) = cs ∧
  length (snd (packRepr type cs)) = length back.
Proof.
  intros Hr Hw.
  assert (Hl : length cs = (length front + length back)%nat).
  { rewrite <- (length_map bv_width), Hw, length_map. apply length_app. }
  destruct type as [w|k|a|n e|e n|body]; try done; cbn [packRepr reprCells] in *;
    injection Hr as <-.
  1-3: destruct cs as [|c cs]; [done|]; cbn [fst snd head default drop from_option app] in *;
    injection Hw as Hc Hw; rewrite castCell_leaves by done; split; [done|]; rewrite ?drop_0; simpl in *; lia.
  cbn [fst snd leaves]. rewrite length_replicate in Hl. rewrite castCells_leaves.
  - rewrite take_drop, length_drop. split; [done|lia].
  - rewrite map_app, map_replicate in Hw.
    apply Forall_lookup. intros i b Hb. apply lookup_take_Some in Hb as [Hb Hi].
    assert (Hm : map bv_width cs !! i = Some (bv_width b)) by (by rewrite lookup_map, Hb).
    rewrite Hw, lookup_app_l in Hm by (by rewrite length_replicate).
    by apply lookup_replicate in Hm as [-> _].
Qed.

Lemma combine_zeros cs : Forall (fun c => bv_val c = 0) cs → combine cs = 0.
Proof. intros H. induction H as [|c cs Hc _ IH]; [done|]. simpl. by rewrite Hc, IH, Z.shiftl_0_l. Qed.

Lemma reprCells_zero type front : reprCells type = Some front →
  Forall (fun c => bv_val c = 0) front.
Proof.
  destruct type; intros [= <-]; try (by repeat constructor). by apply Forall_replicate.
Qed.

Lemma tailCells_zero body back : tailCells body = Some back →
  Forall (fun c => bv_val c = 0) back.
Proof.
  unfold tailCells. intros H. repeat case_match; simplify_eq; try constructor.
  by apply Forall_replicate.
Qed.

(** The second field is present exactly when there are trailing cells. *)
Lemma union_content_leaves t rest front back cs :
  reprCells t = Some front → tailCells (t :: rest) = Some back →
  map bv_width cs = map bv_width (front ++ back) →
  leaves (VStruct (match t :: rest with
                   | [_; LLVMArrayType e _] =>
                       [fst (packRepr t cs); VArray e (map VInt (snd (packRepr t cs)))]
                   | _ => [fst (packRepr t cs)]
                   end)) = cs.
Proof.
  intros Hf Hb Hw. destruct (packRepr_leaves t front back cs Hf Hw) as [Heq Hlen].
  assert (Hone : length back = 0%nat → leaves (VStruct [fst (packRepr t cs)]) = cs).
  { intros H0. rewrite H0 in Hlen. apply nil_length_inv in Hlen. rewrite Hlen in Heq. exact Heq. }
  destruct rest as [|u [|? ?]]; [apply Hone; by simplify_eq/=| |].
  2: unfold tailCells in Hb; repeat case_match; simplify_eq; by apply Hone.
  destruct u as [| | | |e n|]; try done. cbn [leaves flat_map].
  by rewrite VInt_leaves, app_nil_r.
Qed.

(** A value that fits the union's storage is packed into it without touching
    anything out of range; the bits of the union are exactly the disjunction of
    the value's leaves at the specified offsets, and each leaf is read back
    unchanged from its place. *)
Lemma materialize_packs t rest front back value :
  reprCells t = Some front → tailCells (t :: rest) = Some back →
  Forall wfBV (front ++ back) → wfVal value →
  snd (place 0 value) ≤ totalBits (front ++ back) →
  ∃ content, materializeLLVMUnion (t :: rest) value = Some content ∧
    map bv_width (leaves content) = map bv_width (front ++ back) ∧
    combine (leaves content) = orPlacements (fst (place 0 value)) ∧
    ∀ i b p, leaves value !! i = Some b → fst (place 0 value) !! i = Some p →
      Z.shiftr (combine (leaves content)) (pl_off p) mod 2 ^ bv_width b = bv_val b.
Proof.
  intros Hf Hb Hwf Hv Hfit. cbn [materializeLLVMUnion]. rewrite Hf, Hb. cbn [mbind option_bind].
  assert (Hinv : StorageInv (mkStorage (front ++ back) 0 0)).
  { split; [done|]. cbn [cells valueIt storageOffset].
    destruct ((front ++ back) !! 0%nat) as [c|] eqn:E; [|done].
    destruct (Forall_lookup_1 _ _ _ _ Hwf E). lia. }
  assert (Hp0 : pos (mkStorage (front ++ back) 0 0) = 0) by (unfold pos; simpl; by destruct (front ++ back)).
  destruct (walk_packs value Hv _ 0 Hinv Hp0 ltac:(lia) Hfit) as (st & -> & Hi & Hs & _ & Hc).
  cbn [mbind option_bind].
  pose proof (union_content_leaves t rest front back (cells st) Hf Hb Hs) as Hcl.
  destruct (packRepr t (cells st)) as [mv tp]. cbn [fst snd] in Hcl.
  eexists. split; [reflexivity|]. rewrite Hcl.
  assert (Hcomb : combine (cells st) = orPlacements (fst (place 0 value))).
  { rewrite Hc. cbn [cells]. rewrite combine_zeros, Z.lor_0_l; [done|].
    apply Forall_app. split; [by eapply reprCells_zero|by eapply tailCells_zero]. }
  split; [exact Hs|]. split; [done|]. intros i b p Hib Hip. rewrite Hcomb.
  pose proof (place_placed value Hv 0 ltac:(lia)) as (_ & Ho & _).
  assert (leafOf p = b) as <-.
  { rewrite <- (place_leaves value 0), lookup_map, Hip in Hib. by injection Hib. }
  by eapply orPlacements_read; [|exact Ho|exact Hip].
Qed.

End Variant.
