(* ===== verification/UnionStorage.v ===== *)
(** The two halves of a union's lowering together: the storage that
    [POPToLLVMTypeConverter] computes for a union (TypeConverter.v) holds every
    member value that [VariantHelper] packs into it (Variant.v). *)
From S2P Require Import Prelude LLVMSupport BitOps LLVMTypes DataLayout TypeConverter Variant.

Section UnionStorage.
Context {LM : LLVMMath} {TD : TargetDataLayout} {KL : KGENLayout}.

(** A value without padding bits: every leaf fills its allocation, and array
    elements are as far apart as their store size. *)
Fixpoint dense (value : LVal) : Prop :=
  let fix all (e : option Ty) (vs : list LVal) : Prop :=
    match vs with
    | [] => True
    | v :: vs => (∀ t, e = Some t → typeOf v = t) ∧ dense v ∧ all e vs
    end in
  match value with
  | VArray e vs => getTypeStoreSize e = getTypeAllocSize e ∧ all (Some e) vs
  | VVector e vs => CHAR_BIT * getTypeAllocSize e = getTypeSizeInBits e ∧ all (Some e) vs
  | VStruct vs => all None vs
  | _ => CHAR_BIT * getTypeAllocSize (typeOf value) = getTypeSizeInBits (typeOf value)
  end.

Definition elementTypeOf (value : LVal) : option Ty :=
  match value with VArray e _ | VVector e _ => Some e | _ => None end.

Lemma dense_fields v : normalize v = None → dense v →
  Forall (fun u => (∀ t, elementTypeOf v = Some t → typeOf u = t) ∧ dense u) (fields v).
Proof.
  assert (Hall : ∀ e vs,
    (fix all (e : option Ty) (vs : list LVal) : Prop :=
       match vs with
       | [] => True
       | v :: vs => (∀ t, e = Some t → typeOf v = t) ∧ dense v ∧ all e vs
       end) e vs → Forall (fun u => (∀ t, e = Some t → typeOf u = t) ∧ dense u) vs).
  { intros e vs. induction vs as [|u vs IH]; [constructor|].
    intros (H1 & H2 & H3). constructor; [by split|by apply IH]. }
  destruct v as [| | |e vs|vs|e vs]; intros [=]; cbn [dense elementTypeOf fields].
  - intros [_ H]. by apply Hall.
  - intros H. by apply Hall.
  - intros [_ H]. by apply Hall.
Qed.

(** A multiple of the alignment passes through [alignTo]. *)
Lemma alignTo_shift base v a : 0 ≤ base → 0 ≤ v → 0 < a → (a | base) →
  alignTo (base + v) a ≤ base + alignTo v a.
Proof.
  intros Hb Hv Ha Hd. apply alignTo_least; [lia|lia| |].
  - apply Z.divide_add_r; [done|by apply alignTo_divide].
  - pose proof (alignTo_ge v a Hv Ha). lia.
Qed.

(** A value placed from [off] ends within its allocation. *)
Definition fitsAlloc (v : LVal) : Prop := ∀ off, 0 ≤ off →
  snd (place off v) ≤
  alignTo off (getTypeABIAlign (typeOf v) * CHAR_BIT) + CHAR_BIT * getTypeAllocSize (typeOf v).

Lemma placeAll_fits vs base : 0 ≤ base →
  Forall fitsAlloc vs → Forall wfVal vs → Forall wfTy (map typeOf vs) →
  Forall (fun v => (getTypeABIAlign (typeOf v) * CHAR_BIT | base)) vs →
  ∀ off b, 0 ≤ b → 0 ≤ off ≤ base + CHAR_BIT * b →
  snd (placeAll off vs) ≤ base + CHAR_BIT * bodyEnd b (map typeOf vs).
Proof.
  intros Hbase Hfit. induction Hfit as [|v vs Hv _ IH]; intros Hwv Hwt Hd off b Hb Hoff;
    cbn [placeAll map bodyEnd snd]; [lia|].
  inversion Hwv as [|? ? Hv0 Hwvs]; subst. inversion Hwt as [|? ? Ht0 Hwts]; subst.
  inversion Hd as [|? ? Hd0 Hds]; subst.
  specialize (Hv off ltac:(lia)). pose proof (place_placed v Hv0 off ltac:(lia)) as (Hge & _).
  destruct (place off v) as [ps o1]. cbn [snd] in *.
  assert (Ha : 0 < getTypeABIAlign (typeOf v) * CHAR_BIT).
  { pose proof (getTypeABIAlign_pos (typeOf v)). unfold CHAR_BIT. lia. }
  pose proof (getTypeAllocSize_nonneg (typeOf v) Ht0) as Hn.
  pose proof (alignTo_ge b _ Hb (getTypeABIAlign_pos (typeOf v))) as Hgb.
  pose proof (alignTo_mono off (base + b * CHAR_BIT) _ ltac:(lia) Ha) as H1.
  pose proof (alignTo_shift base (b * CHAR_BIT) _ Hbase ltac:(unfold CHAR_BIT; lia) Ha Hd0) as H2.
  rewrite alignTo_scale in H2; [|lia|apply getTypeABIAlign_pos|unfold CHAR_BIT; lia].
  specialize (IH Hwvs Hwts Hds o1 (alignTo b (getTypeABIAlign (typeOf v)) + getTypeAllocSize (typeOf v))).
  destruct (placeAll o1 vs) as [qs o2]. cbn [snd] in *. apply IH; lia.
Qed.

Lemma bodyEnd_repeat t n k : wfTy t → 0 ≤ k →
  bodyEnd (k * getTypeAllocSize t) (repeat t n) = (k + Z.of_nat n) * getTypeAllocSize t.
Proof.
  intros Hwf. revert k. induction n as [|n IH]; intros k Hk; cbn [repeat bodyEnd]; [f_equal; lia|].
  pose proof (getTypeAllocSize_nonneg t Hwf). pose proof (getTypeABIAlign_pos t).
  rewrite alignTo_id; [|nia|done|].
  - replace (k * getTypeAllocSize t + getTypeAllocSize t) with ((k + 1) * getTypeAllocSize t) by lia.
    rewrite IH by lia. f_equal. lia.
  - apply Z.divide_mul_r. rewrite getTypeAllocSize_alignTo by done.
    apply alignTo_divide; [by apply getTypeStoreSize_nonneg|done].
Qed.

Lemma map_const_repeat vs (t : Ty) : Forall (fun u => typeOf u = t) vs →
  map typeOf vs = repeat t (length vs).
Proof. intros H. induction H as [|u vs Hu _ IH]; simpl; [done|]. by rewrite Hu, IH. Qed.

(** The elements of a value end within its allocation. *)
Lemma elements_fit v : normalize v = None → wfTy (typeOf v) → dense v →
  bodyEnd 0 (map typeOf (fields v)) ≤ getTypeAllocSize (typeOf v).
Proof.
  intros Hn Hwf Hd. pose proof (dense_fields v Hn Hd) as Hf.
  pose proof (getTypeAllocSize_ge_store (typeOf v) Hwf) as Hst.
  assert (Hrep : ∀ t, elementTypeOf v = Some t → wfTy t →
            bodyEnd 0 (map typeOf (fields v)) = Z.of_nat (length (fields v)) * getTypeAllocSize t).
  { intros t Ht Hwt. rewrite (map_const_repeat _ t).
    - by apply (bodyEnd_repeat t _ 0).
    - eapply Forall_impl; [exact Hf|]. simpl. intros u [H _]. by apply H. }
  etransitivity; [|exact Hst].
  destruct v as [| | |e vs|vs|e vs]; try done; cbn [typeOf elementTypeOf fields dense] in *.
  - rewrite (Hrep e) by (done || apply Hwf). destruct Hd as [Hd _]. rewrite <- Hd.
    unfold getTypeStoreSize at 2. cbn [getTypeSizeInBits]. fold (getTypeStoreSize e).
    rewrite storeSizeOfBits_bytes. lia.
  - rewrite getTypeStoreSize_struct. apply wfTy_struct in Hwf.
    apply alignTo_ge; [by apply (bodyEnd_ge 0), wf_alloc_nonneg|].
    pose proof (fold_max_ge (map getTypeABIAlign (map typeOf vs)) 1). lia.
  - rewrite (Hrep e) by (done || apply Hwf). destruct Hd as [Hd _], Hwf as [Hl Hwf].
    unfold getTypeStoreSize. cbn [getTypeSizeInBits]. rewrite storeSizeOfBits_spec.
    pose proof (getVectorBitWidth_covers (Z.of_nat (length vs)) (getTypeSizeInBits e) Hl
      ltac:(by apply getTypeSizeInBits_nonneg)).
    apply Z.div_le_lower_bound; [lia|]. unfold CHAR_BIT in Hd. lia.
Qed.

Lemma field_align_divides v u : normalize v = None → dense v → In u (fields v) →
  (getTypeABIAlign (typeOf u) | getTypeABIAlign (typeOf v)).
Proof.
  intros Hn Hd Hin. pose proof (dense_fields v Hn Hd) as Hf. rewrite List.Forall_forall in Hf.
  destruct (Hf u Hin) as [He _].
  destruct v as [| | |e vs|vs|e vs]; try done; cbn [typeOf elementTypeOf fields] in *.
  - rewrite (He e eq_refl). apply Z.divide_refl.
  - apply struct_align_divide_field; [by apply in_map|]. by apply struct_align_ge_field, in_map.
  - rewrite (He e eq_refl). apply Z.divide_refl.
Qed.

Lemma wfTy_fields v u : normalize v = None → wfTy (typeOf v) → dense v → In u (fields v) →
  wfTy (typeOf u).
Proof.
  intros Hn Hwf Hd Hin. pose proof (dense_fields v Hn Hd) as Hf. rewrite List.Forall_forall in Hf.
  destruct (Hf u Hin) as [He _].
  destruct v as [| | |e vs|vs|e vs]; try done; cbn [typeOf elementTypeOf fields] in *.
  - rewrite (He e eq_refl). apply Hwf.
  - apply wfTy_struct in Hwf. rewrite List.Forall_forall in Hwf. by apply Hwf, in_map.
  - rewrite (He e eq_refl). apply Hwf.
Qed.

Lemma place_fits v : wfVal v → wfTy (typeOf v) → dense v → fitsAlloc v.
Proof.
  induction v as [v nv Hnv|v Hn IH] using LVal_ind_fields; intros Hwf Hwt Hd off Hoff.
  - rewrite (place_leaf v nv) by done. cbn [snd].
    assert (bv_width nv = getTypeSizeInBits (typeOf v)) as -> by (by destruct v; simplify_eq/=).
    assert (CHAR_BIT * getTypeAllocSize (typeOf v) = getTypeSizeInBits (typeOf v)) by (by destruct v).
    lia.
  - rewrite (place_aggregate v) by done. pose proof (alignBits_ge off (typeOf v) Hoff) as Hge.
    pose proof (getTypeABIAlign_pos (typeOf v)) as Hap.
    set (base := alignTo off (getTypeABIAlign (typeOf v) * CHAR_BIT)) in *.
    pose proof (elements_fit v Hn Hwt Hd) as He. pose proof (dense_fields v Hn Hd) as Hf.
    pose proof (wfVal_fields v Hn Hwf) as Hwfs.
    enough (snd (placeAll base (fields v)) ≤ base + CHAR_BIT * bodyEnd 0 (map typeOf (fields v)))
      by (unfold CHAR_BIT in *; lia).
    apply placeAll_fits; try done; try lia.
    + apply List.Forall_forall. intros u Hu. rewrite List.Forall_forall in IH, Hf, Hwfs.
      apply IH; [done|by apply Hwfs|by eapply wfTy_fields|by apply Hf].
    + apply List.Forall_forall. intros t (u & <- & Hu)%in_map_iff. by eapply wfTy_fields.
    + apply List.Forall_forall. intros u Hu. etransitivity.
      * apply Z.mul_divide_mono_r, (field_align_divides v u Hn Hd Hu).
      * apply alignTo_divide; [done|]. unfold CHAR_BIT. lia.
Qed.

(** ** The storage of a lowered union *)

Lemma reprCells_total t front : reprCells t = Some front → (∀ n e, t ≠ VectorType n e) →
  totalBits front = getTypeSizeInBits t ∧ (0 < getTypeSizeInBits t → Forall wfBV front).
Proof.
  destruct t as [w|k|a|n e|e n|body]; intros [= <-] Hv; try (by destruct (Hv n e)).
  all: unfold totalBits; simpl; split; [lia|].
  all: intros; repeat constructor; simpl; try lia; apply Z.pow_pos_nonneg; lia.
Qed.

Lemma startOf_app cs ds :
  startOf (cs ++ ds) (length (cs ++ ds)) = startOf cs (length cs) + startOf ds (length ds).
Proof. induction cs as [|c cs IH]; simpl; [done|]. rewrite IH. lia. Qed.

Lemma zeros_total n w : 0 < w →
  totalBits (replicate n (mkBV w 0)) = Z.of_nat n * w ∧ Forall wfBV (replicate n (mkBV w 0)).
Proof.
  intros Hw. split.
  - unfold totalBits. induction n as [|n IH]; simpl; [done|]. rewrite IH. lia.
  - apply Forall_replicate. split; [done|]. simpl. split; [lia|]. apply Z.pow_pos_nonneg; lia.
Qed.

(** The candidates for the representative are leaves. *)
Definition isLeaf (t : Ty) : Prop :=
  match t with IntegerType _ | FloatType _ | LLVMPointerType _ => True | _ => False end.

Lemma strictest_isLeaf t u : snd (getTypeABIAlignAndType t) = Some u → isLeaf u.
Proof.
  revert u. induction t as [w|k|a|n e IH|e n IH|body IH] using Ty_nested_ind; intros u;
    try (by intros [= <-]); [exact (IH u)|exact (IH u)|].
  cbn [getTypeABIAlignAndType snd].
  destruct (fold_stricter_origin (map getTypeABIAlignAndType body) (1, None)) as [E|E];
    [by rewrite E|].
  apply in_map_iff in E as (t & Et & Hin). rewrite <- Et. intros Hu.
  rewrite List.Forall_forall in IH. by apply (IH t Hin).
Qed.

Lemma getUnionReprType_isLeaf types members : isLeaf (getUnionReprType types members).
Proof.
  unfold getUnionReprType. set (r := fold_left betterCandidate members (1, None)).
  assert (H0 : isLeaf (match snd r with Some t => t | None => i8Type end)).
  { destruct (snd r) as [t|] eqn:Et; [|done].
    destruct (candidate_origin members (1, None)) as [E|(m & _ & E & _)]; fold r in E; rewrite E in Et.
    - done.
    - by eapply strictest_isLeaf. }
  destruct (unionTypeAlign types); [|done]. by repeat case_match.
Qed.

(** The cells of a lowered union: the representative's bits, and a byte for
    each byte of the payload outside its allocation. *)
Lemma lowered_cells types members :
  let r := getUnionReprType types members in
  let p := getUnionPayloadSize members in
  p ≠ 0 → getTypeAllocSize r ≤ p → 0 < getTypeSizeInBits r →
  ∃ rest front back, lowerUnion types members = LLVMStructType (r :: rest) ∧
    reprCells r = Some front ∧ tailCells (r :: rest) = Some back ∧
    Forall wfBV (front ++ back) ∧
    totalBits (front ++ back) = getTypeSizeInBits r + CHAR_BIT * (p - getTypeAllocSize r).
Proof.
  intros r p Hp Hle Hpos. unfold lowerUnion. fold r p.
  rewrite (proj2 (Z.eqb_neq p 0) Hp).
  pose proof (getUnionReprType_isLeaf types members) as Hleaf. fold r in Hleaf.
  assert (∃ front, reprCells r = Some front) as [front Hfront] by (destruct r; try done; eauto).
  destruct (reprCells_total r front Hfront) as [Htot Hwf]; [by intros n e Hr; rewrite Hr in Hleaf|].
  specialize (Hwf Hpos).
  set (tailLen := p - getTypeAllocSize r). fold tailLen in Hle |- *.
  exists (if tailLen =? 0 then [] else [LLVMArrayType i8Type tailLen]), front,
    (replicate (Z.to_nat tailLen) (mkBV 8 0)).
  destruct (zeros_total (Z.to_nat tailLen) 8 ltac:(lia)) as [Hzt Hzw].
  split; [done|]. split; [done|]. split.
  { destruct (Z.eqb_spec tailLen 0) as [->|]; done. }
  split; [by apply Forall_app|]. unfold totalBits in *. rewrite startOf_app, Htot, Hzt.
  unfold CHAR_BIT. lia.
Qed.

Lemma payload_ge_member members m : In m members →
  getTypeAllocSize (llvmType m) ≤ getUnionPayloadSize members.
Proof.
  intros Hin. pose proof (fold_payload_in members 0 m Hin). unfold getUnionPayloadSize.
  assert (getTypeAllocSize (llvmType m) ≤ unionMemberSize m); [|lia].
  unfold unionMemberSize. destruct (kgenAllocSize _); lia.
Qed.

(** C13: Every member value without padding bits is packed into the union
    lowered from its members, without running past the storage, and every one
    of its leaves can be read back from the union's bits, provided the
    representative's allocation is no bigger than the bits it stores. *)
Theorem union_member_packs types members m value :
  Forall (fun m => wfTy (llvmType m)) members → In m members →
  typeOf value = llvmType m → wfVal value → dense value →
  getUnionPayloadSize members ≠ 0 →
  getTypeAllocSize (getUnionReprType types members) ≤ getUnionPayloadSize members →
  0 < getTypeSizeInBits (getUnionReprType types members) →
  CHAR_BIT * getTypeAllocSize (getUnionReprType types members) =
    getTypeSizeInBits (getUnionReprType types members) →
  ∃ body content, lowerUnion types members = LLVMStructType body ∧
    materializeLLVMUnion body value = Some content ∧
    totalBits (leaves content) = CHAR_BIT * getUnionPayloadSize members ∧
    combine (leaves content) = orPlacements (fst (place 0 value)) ∧
    ∀ i b p, leaves value !! i = Some b → fst (place 0 value) !! i = Some p →
      Z.shiftr (combine (leaves content)) (pl_off p) mod 2 ^ bv_width b = bv_val b.
Proof.
  intros Hwfs Hin Ht Hwf Hd Hp Hle Hpos Hdense.
  destruct (lowered_cells types members Hp Hle Hpos) as (rest & front & back & Hl & Hf & Hb & Hwc & Htot).
  assert (Hwt : wfTy (typeOf value)).
  { rewrite Ht. rewrite List.Forall_forall in Hwfs. by apply Hwfs. }
  assert (Hfit : snd (place 0 value) ≤ totalBits (front ++ back)).
  { pose proof (place_fits value Hwf Hwt Hd 0 ltac:(lia)) as H.
    rewrite alignTo_id in H; [|lia| |apply Z.divide_0_r].
    - pose proof (payload_ge_member members m Hin) as Hpm. rewrite <- Ht in Hpm.
      rewrite Htot. unfold CHAR_BIT in *. lia.
    - pose proof (getTypeABIAlign_pos (typeOf value)). unfold CHAR_BIT. lia. }
  destruct (materialize_packs _ rest front back value Hf Hb Hwc Hwf Hfit)
    as (content & Hm & Hw & Hc & Hr).
  exists (getUnionReprType types members :: rest), content. split_and!; try done.
  assert (totalBits (leaves content) = totalBits (front ++ back)) as ->.
  { unfold totalBits. rewrite (startOf_widths _ _ _ Hw).
    by rewrite <- (length_map bv_width), Hw, length_map. }
  rewrite Htot. unfold CHAR_BIT in *. lia.
Qed.

End UnionStorage.

#[local] Existing Instance llvm_math.
#[local] Existing Instance x86_64_layout.
#[local] Existing Instance natural_kgen_layout.

(** A union of [i64] and [[2 x [2 x i32]]], holding the array. *)
Definition sampleTypes : list KTy := [kInt 64; KArray (Some 2) (KArray (Some 2) (kInt 32))].
Definition sampleValue : LVal :=
  VArray (LLVMArrayType (IntegerType 32) 2)
    [VArray (IntegerType 32) [VInt (mkBV 32 1); VInt (mkBV 32 2)];
     VArray (IntegerType 32) [VInt (mkBV 32 3); VInt (mkBV 32 4)]].

Lemma union_member_packs_witness :
  ∃ content, materializeLLVMUnion [IntegerType 64; LLVMArrayType (IntegerType 8) 8] sampleValue
    = Some content ∧
    combine (leaves content) = 1 + 2 * 2 ^ 32 + 3 * 2 ^ 64 + 4 * 2 ^ 96.
Proof.
  destruct (@union_member_packs llvm_math x86_64_layout natural_kgen_layout sampleTypes
    (map kMember sampleTypes) (kMember (KArray (Some 2) (KArray (Some 2) (kInt 32)))) sampleValue)
    as (body & content & Hl & Hm & _ & Hc & _).
  - repeat constructor; simpl; lia.
  - simpl. auto.
  - reflexivity.
  - repeat constructor; simpl; lia.
  - repeat split; intros t [= <-]; reflexivity.
  - vm_compute. discriminate.
  - vm_compute. discriminate.
  - reflexivity.
  - reflexivity.
  - exists content. assert (body = [IntegerType 64; LLVMArrayType (IntegerType 8) 8]) as <-.
    { vm_compute in Hl. congruence. }
    split; [exact Hm|]. rewrite Hc. reflexivity.
Defined.

(** The provision is needed.  The union of an 80-bit float and two 64-bit
    integers has a 16-byte payload and is lowered to [{f80}], whose allocation
    covers the payload; but only the float's own 80 bits become storage cells,
    so packing the integers runs past the last cell. *)
Theorem f80_union_overruns :
  let members := [mkUnionMember KNone (FloatType F80);
                  mkUnionMember KNone (LLVMArrayType (IntegerType 64) 2)] in
  getUnionPayloadSize members = 16 ∧
  lowerUnion [] members = LLVMStructType [FloatType F80] ∧
  unionSizeAssert [] members = true ∧
  ∀ a b, 0 ≤ a < 2 ^ 64 → 0 ≤ b < 2 ^ 64 →
    materializeLLVMUnion [FloatType F80]
      (VArray (IntegerType 64) [VInt (mkBV 64 a); VInt (mkBV 64 b)]) = None.
Proof. repeat split. Qed.
