(* ===== verification/ClosureLowering.v ===== *)
(** Lowering of closures and indirect calls to the LLVM dialect: the pass of
    Mojo/lib/KGENToLLVM/LowerKGENClosuresToLLVM.cpp.  A closure becomes a pair
    of a wrapper function and a pointer to a struct on the stack that holds the
    captures; a call unpacks the pair. *)
From stdpp Require Import pretty.
From S2P Require Import Prelude LLVMSupport LLVMTypes DataLayout TypeConverter.

#[global] Open Scope Z_scope.

Module ClosureLowering.

(** ** LLVM functions and operations *)

(** No return type is void. *)
Record FunctionType := mkFunctionType { returnType : option Ty; params : list Ty }.
#[export] Instance FunctionType_eq_dec : EqDecision FunctionType.
Proof. solve_decision. Defined.

(** MLIR uniques types: they can be compared. *)
#[export] Instance KGENDType_eq_dec : EqDecision KGENDType.
Proof. solve_decision. Defined.
Lemma eq_KTy (x y : KTy) : {x = y} + {x ≠ y}.
Proof.
  revert x y. fix go 1. intros x y. pose proof (List.list_eq_dec go) as Hl.
  pose proof (fun l k : option Z => decide (l = k)) as Hz.
  pose proof (fun l k : option KGENDType => decide (l = k)) as Hd.
  decide equality; try apply Hl; try apply Hz; try apply Hd; try apply Z.eq_dec; try apply bool_dec.
  decide equality.
Defined.
#[export] Instance KTy_eq_dec : EqDecision KTy := eq_KTy.

(** Values are numbered per function. *)
Abbreviation V := nat.

Inductive TailCallKind := TailCallNone | TailCall | MustTail | NoTail.
Inductive Callee := Symbol (name : string) | Pointer (v : V).
Inductive CallAttr := StructRetAttr (type : Ty) | ByValAttr (index : nat) (type : Ty).

(** The operations the pass emits, and any other one by an opcode. The index of
    a [GEPOp] is the second of [{0, index}]. *)
Inductive Instr :=
  | AddressOfOp (res : V) (name : string)
  | UndefOp (res : V) (type : Ty)
  | ConstantOp (res : V) (width value : Z)
  | AllocaOp (res : V) (elemType : Ty) (count : V)
  | InsertValueOp (res container value : V) (position : nat)
  | ExtractValueOp (res container : V) (position : nat)
  | LifetimeStartOp (ptr : V)
  | LifetimeEndOp (ptr : V)
  | GEPOp (res : V) (elemType : Ty) (base : V) (index : nat)
  | StoreOp (value ptr : V)
  | LoadOp (res : V) (type : Ty) (ptr : V)
  | CallOp (res : option V) (type : FunctionType) (callee : Callee) (args : list V)
      (tail : TailCallKind) (attrs : list CallAttr)
  | ReturnOp (operands : list V)
  | OtherOp (results : list V) (opcode : nat) (operands : list V).

(** A debug scope: its name, within the scope of the name's owner, the linkage
    name, and the types. *)
Record DISubprogram := mkDISubprogram {
  sourceName : string; owner : string; linkageName : string;
  argumentTypes : list Ty; returnTypes : option Ty
}.

(** The entry block's arguments are the values below the number of
    parameters. *)
Record LLVMFuncOp := mkLLVMFuncOp {
  symName : string;
  funcType : FunctionType;
  isInternal : bool;
  subprogram : option DISubprogram;
  bodyOps : list Instr
}.

(** ** The KGEN operations *)

Inductive SymbolRef := FlatSymbolRef (name : string) | NestedSymbolRef (root : string).

Record CreateClosureOp := mkCreateClosureOp {
  isCapturing : bool;                    (* of the result's type *)
  callee : SymbolRef;
  calleeInputs : list KTy;
  calleeResults : list KTy;
  captures : list V;
  captureTypes : list KTy;
  debugScope : option string;            (* the source name of the enclosing subprogram *)
  hasFileLoc : bool
}.

Record CallIndirectOp := mkCallIndirectOp {
  target : V;
  targetCapturing : bool;                (* [isCapturing], [isCABI] of the callee's type *)
  targetCABI : bool;
  targetInputs : list KTy;
  arguments : list V;
  argTypes : list Ty;                    (* of the converted arguments *)
  resultTypes : list KTy;
  tailKind : TailCallKind
}.

Inductive KOp :=
  | KOther (results : list V) (opcode : nat) (operands : list V)
  | KCreateClosure (res : V) (op : CreateClosureOp)
  | KCallIndirect (results : list V) (op : CallIndirectOp).

(** A function of one block before the pass; its signature is LLVM's already. *)
Record KFuncOp := mkKFuncOp {
  kName : string;
  kType : FunctionType;
  kOps : list KOp;
  kReturn : option V
}.

(** ** Outcomes: a failed assertion or a null type ([None]), an error, a value *)

Definition Lower (A : Type) : Type := option (ErrorOr A).
Definition ret {A} (a : A) : Lower A := Some (Success a).
Definition fail {A} (msg : string) : Lower A := Some (Error msg).
Definition crash {A} : Lower A := None.
#[export] Instance Lower_bind : MBind Lower := fun A B f m =>
  match m with
  | Some (Success a) => f a
  | Some (Error msg) => Some (Error msg)
  | None => None
  end.
Definition must {A} (a : option A) : Lower A := match a with Some a => ret a | None => crash end.
Definition need {A} (msg : string) (a : option A) : Lower A :=
  match a with Some a => ret a | None => fail msg end.

(** MLIR's converter for the results of a function, its symbol table and its
    helper for C ABI calls, which are not in the repository. *)
Record CABICallPrep := mkCABICallPrep {
  prepOps : list Instr; callArgs : list V; signature : FunctionType; usesSRet : bool; prepNext : V
}.
Class ClosureSupport := {
  packFunctionResults : list KTy → option Ty;
  (** [SymbolTable::insert] renames a symbol as necessary to avoid collisions. *)
  uniqueName : gset string → string → string;
  uniqueName_fresh : ∀ used name, uniqueName used name ∉ used;
  uniqueName_free : ∀ used name, name ∉ used → uniqueName used name = name;
  prepareCall : list Ty → list V → option Ty → V → CABICallPrep;
  sretAttrs : option Ty → bool → list CallAttr;
  byvalAttrs : CABICallPrep → list Ty → list CallAttr;
  extractReturn : CABICallPrep → option V → Ty → V → list Instr * V * V
}.

Section Lowering.
Context {LM : LLVMMath} {TD : TargetDataLayout} {KL : KGENLayout} {CS : ClosureSupport}.

Definition ptrType : Ty := LLVMPointerType 0.

(** ** CreateClosureTypes *)

Record CreateClosureTypes := mkCreateClosureTypes {
  boundArgTypes : list Ty;
  liftedFunctionCaptureType : Ty;
  unpackingFunctionAndCapturesType : Ty
}.

Definition createClosureTypes (captureTypes : list KTy) : option CreateClosureTypes :=
  tys ← mapM convertType captureTypes;
  Some (mkCreateClosureTypes tys (LLVMStructType tys) (LLVMStructType [ptrType; ptrType])).

(** The packed result type, void if there are no results. *)
Definition packedResultType (results : list KTy) : option (option Ty) :=
  match results with [] => Some None | _ => Some <$> packFunctionResults results end.

(** ** The wrapper function *)

Definition wrapperName (nameIndex : nat) : string := "closure_wrapper_fn_" ++ pretty nameIndex.

(** The debug scope of a wrapper, when the closure is created in one; the
    location is dereferenced without a test. *)
Definition wrapperScope (op : CreateClosureOp) (nameIndex : nat) (type : FunctionType)
    : Lower (option DISubprogram) :=
  match debugScope op with
  | None => ret None
  | Some scope =>
      if hasFileLoc op
      then ret (Some (mkDISubprogram ("closure_wrapper_fn." ++ pretty nameIndex) scope
                        (wrapperName nameIndex) (params type) (returnType type)))
      else crash
  end.

(** Without its body; null if a parameter's type does not convert. *)
Definition generateWrapperFunction (op : CreateClosureOp) (nameIndex : nat)
    : Lower (option LLVMFuncOp) :=
  let captureCount := length (captures op) in
  if (length (calleeInputs op) <? captureCount)%nat then crash else
  match mapM convertType (drop captureCount (calleeInputs op)) with
  | None => ret None
  | Some tys =>
      packedResTy ← must (packedResultType (calleeResults op));
      let type := mkFunctionType packedResTy (ptrType :: tys) in
      scope ← wrapperScope op nameIndex type;
      ret (Some (mkLLVMFuncOp (wrapperName nameIndex) type true scope []))
  end.

(** Each capture is loaded from its field of the environment. *)
Fixpoint loadCaptures (structType : Ty) (env next : V) (i : nat) (tys : list Ty) : list Instr :=
  match tys with
  | [] => []
  | ty :: tys =>
      GEPOp next structType env i :: LoadOp (S next) ty next
        :: loadCaptures structType env (S (S next)) (S i) tys
  end.
Definition loadedCaptures (next : V) (n : nat) : list V := map (fun i => S (next + 2 * i))%nat (seq 0 n).

(** A call's results, and the next value. *)
Definition callResult (type : FunctionType) (next : V) : option V :=
  match returnType type with Some _ => Some next | None => None end.

Definition populateBodyOfWrapperFunction (wrapperFn : LLVMFuncOp) (op : CreateClosureOp)
    (symtab : gmap string (option FunctionType)) (types : CreateClosureTypes) : Lower (list Instr) :=
  match callee op with
  | NestedSymbolRef _ => fail "cannot lower call to nested symbol to LLVM"
  | FlatSymbolRef name =>
      match symtab !! name with
      | Some (Some func) =>
          let arity := length (params (funcType wrapperFn)) in
          let numCaptures := length (captures op) in
          let numberDynamicArgs := (length (calleeInputs op) - numCaptures)%nat in
          let bound := loadCaptures (liftedFunctionCaptureType types) 0 arity 0 (boundArgTypes types) in
          let args := (loadedCaptures arity numCaptures ++ seq 1 numberDynamicArgs)%list in
          let res := callResult func (arity + 2 * numCaptures)%nat in
          ret (bound ++ [CallOp res func (Symbol name) args TailCallNone []; ReturnOp (option_list res)])%list
      | _ => fail "Callee does not reference llvm function"
      end
  end.

(** ** The closure at its creation *)

Fixpoint storeCaptures (structType : Ty) (env next : V) (i : nat) (captures : list V) : list Instr :=
  match captures with
  | [] => []
  | c :: captures =>
      GEPOp next structType env i :: StoreOp c next
        :: storeCaptures structType env (S next) (S i) captures
  end.

(** The operations in place of the operation, those before the end of its block,
    the closure, and the next value. *)
Definition generateClosureStruct (wrapper : string) (types : CreateClosureTypes) (captures : list V)
    (next : V) : list Instr * list Instr * V * V :=
  let undef := next in
  let address := (next + 1)%nat in
  let withFunction := (next + 2)%nat in
  let one := (next + 3)%nat in
  let envStruct := (next + 4)%nat in
  let closureStruct := (next + 5 + length captures)%nat in
  ([UndefOp undef (unpackingFunctionAndCapturesType types);
    AddressOfOp address wrapper;
    InsertValueOp withFunction undef address 0;
    ConstantOp one 8 1;
    AllocaOp envStruct (liftedFunctionCaptureType types) one;
    LifetimeStartOp envStruct]
   ++ storeCaptures (liftedFunctionCaptureType types) envStruct (next + 5)%nat 0 captures
   ++ [InsertValueOp closureStruct withFunction envStruct 1],
   [LifetimeEndOp envStruct], closureStruct, S closureStruct)%list.

(** What the pattern keeps across operations: the module's symbols, [None] for
    one that is not a function, the wrappers inserted, and the counter of names. *)
Record ConvState := mkConvState {
  symtab : gmap string (option FunctionType);
  wrappers : list LLVMFuncOp;
  nameIndex : nat
}.

Definition setSymName (name : string) (f : LLVMFuncOp) : LLVMFuncOp :=
  mkLLVMFuncOp name (funcType f) (isInternal f) (subprogram f) (bodyOps f).
Definition setBody (ops : list Instr) (f : LLVMFuncOp) : LLVMFuncOp :=
  mkLLVMFuncOp (symName f) (funcType f) (isInternal f) (subprogram f) ops.

(** A pattern's outcome: operations, operations at the end of the block, the
    values that replace the results, the next value, the state. *)
Definition Rewrite : Type := list Instr * list Instr * list V * V * ConvState.

Definition CreateClosure_matchAndRewrite (op : CreateClosureOp) (captureValues : list V) (next : V)
    (st : ConvState) : Lower Rewrite :=
  if negb (isCapturing op) && bool_decide (captures op = []) then
    match callee op, convertType (KFunc (isCapturing op)) with
    | FlatSymbolRef name, Some _ => ret ([AddressOfOp next name], [], [next], S next, st)
    | _, _ => crash
    end
  else
    wrapper ← generateWrapperFunction op (nameIndex st);
    wrapperFn ← must wrapper;
    let name := uniqueName (dom (symtab st)) (symName wrapperFn) in
    let wrapperFn := setSymName name wrapperFn in
    let symtab := <[name := Some (funcType wrapperFn)]> (symtab st) in
    types ← need "failed to convert kgen types to llvm closure types" (createClosureTypes (captureTypes op));
    body ← populateBodyOfWrapperFunction wrapperFn op symtab types;
    let '(ops, ends, closure, next) := generateClosureStruct name types captureValues next in
    ret (ops, ends, [closure], next,
         mkConvState symtab (wrappers st ++ [setBody body wrapperFn]) (S (nameIndex st))).

(** ** CallIndirectOp *)

Definition extractResults (n : nat) (res next : V) : list Instr :=
  imap (fun i _ => ExtractValueOp (next + i) res i) (replicate n tt).

(** The values for the results of a call to a Mojo function or a closure. *)
Definition unpackResults (numResults : nat) (res : option V) (next : V) : Lower (list Instr * list V * V) :=
  if (numResults <=? 1)%nat then
    if bool_decide (length (option_list res) = numResults) then ret ([], option_list res, next) else crash
  else
    res ← must res;
    ret (extractResults numResults res next, seq next numResults, next + numResults)%nat.

Definition CallIndirect_matchAndRewrite (op : CallIndirectOp) (callee : V) (args : list V) (next : V)
    (st : ConvState) : Lower Rewrite :=
  resultType ← need "failed to convert call result type" (packedResultType (resultTypes op));
  let numResults := length (resultTypes op) in
  if targetCABI op then
    let origRetTy := resultType in
    let prep := prepareCall (argTypes op) args origRetTy next in
    let res := callResult (signature prep) (prepNext prep) in
    let tail := if usesSRet prep then TailCallNone else tailKind op in
    let call := CallOp res (signature prep) (Pointer callee) (callArgs prep) tail
                  (sretAttrs origRetTy (usesSRet prep) ++ byvalAttrs prep (argTypes op))%list in
    match origRetTy with
    | None => ret ((prepOps prep ++ [call])%list, [], [], S (prepNext prep), st)
    | Some origRetTy =>
        rawResult ← must (if usesSRet prep then Some None else Some <$> res);
        let '(ops, coerced, next) := extractReturn prep rawResult origRetTy (S (prepNext prep)) in
        if (numResults =? 1)%nat
        then ret ((prepOps prep ++ [call] ++ ops)%list, [], [coerced], next, st) else crash
    end
  else if targetCapturing op then
    let wrapperFnPtr := next in
    let envStruct := S next in
    inputs ← need "could not convert argument type" (mapM convertType (targetInputs op));
    let type := mkFunctionType resultType (ptrType :: inputs) in
    let res := callResult type (S (S next)) in
    '(unpack, results, next) ← unpackResults numResults res (3 + next)%nat;
    ret ([ExtractValueOp wrapperFnPtr callee 0; ExtractValueOp envStruct callee 1;
          CallOp res type (Pointer wrapperFnPtr) (envStruct :: args) (tailKind op) []] ++ unpack,
         [], results, next, st)%list
  else
    let type := mkFunctionType resultType (argTypes op) in
    let res := callResult type next in
    '(unpack, results, next) ← unpackResults numResults res (S next);
    ret ((CallOp res type (Pointer callee) args (tailKind op) [] :: unpack), [], results, next, st).

(** ** The conversion of a module *)

(** The converted values of the operands so far; the adaptor looks them up. *)
Definition bindResults {A} (vmap : gmap V A) (results : list V) (values : list A) : option (gmap V A) :=
  if bool_decide (length results = length values)
  then Some (list_to_map (zip results values) ∪ vmap) else None.

Definition lowerOp (op : KOp) (vmap : gmap V V) (next : V) (st : ConvState)
    : Lower (list Instr * list Instr * gmap V V * V * ConvState) :=
  match op with
  | KOther results opcode operands =>
      operands ← must (mapM (fun v => vmap !! v) operands);
      let values := seq next (length results) in
      vmap ← must (bindResults vmap results values);
      ret ([OtherOp values opcode operands], [], vmap, next + length results, st)%nat
  | KCreateClosure res op =>
      captureValues ← must (mapM (fun v => vmap !! v) (captures op));
      '(ops, ends, values, next, st) ← CreateClosure_matchAndRewrite op captureValues next st;
      vmap ← must (bindResults vmap [res] values);
      ret (ops, ends, vmap, next, st)
  | KCallIndirect results op =>
      callee ← must (vmap !! target op);
      args ← must (mapM (fun v => vmap !! v) (arguments op));
      '(ops, ends, values, next, st) ← CallIndirect_matchAndRewrite op callee args next st;
      vmap ← must (bindResults vmap results values);
      ret (ops, ends, vmap, next, st)
  end.

Fixpoint lowerOps (ops : list KOp) (vmap : gmap V V) (next : V) (st : ConvState)
    : Lower (list Instr * list Instr * gmap V V * V * ConvState) :=
  match ops with
  | [] => ret ([], [], vmap, next, st)
  | op :: ops =>
      '(code, ends, vmap, next, st) ← lowerOp op vmap next st;
      '(code', ends', vmap, next, st) ← lowerOps ops vmap next st;
      ret ((code ++ code')%list, (ends ++ ends')%list, vmap, next, st)
  end.

Definition lowerFunction (f : KFuncOp) (st : ConvState) : Lower (LLVMFuncOp * ConvState) :=
  let arity := length (params (kType f)) in
  let vmap := list_to_map (zip (seq 0 arity) (seq 0 arity)) in
  '(code, ends, vmap, next, st) ← lowerOps (kOps f) vmap arity st;
  operands ← must (mapM (fun v => vmap !! v) (option_list (kReturn f)));
  ret (mkLLVMFuncOp (kName f) (kType f) false None (code ++ ends ++ [ReturnOp operands])%list, st).

Fixpoint lowerFunctions (fs : list KFuncOp) (st : ConvState) : Lower (list LLVMFuncOp * ConvState) :=
  match fs with
  | [] => ret ([], st)
  | f :: fs =>
      '(f, st) ← lowerFunction f st;
      '(fs, st) ← lowerFunctions fs st;
      ret (f :: fs, st)
  end.

(** [others]: the names of the module's other symbols. *)
Definition initialSymbols (others : list string) (fs : list KFuncOp) : gmap string (option FunctionType) :=
  (list_to_map (map (fun f => (kName f, Some (kType f))) fs)
   ∪ list_to_map (map (fun n => (n, None)) others)).

Definition runOnOperation (hasTargetInfo : bool) (others : list string) (fs : list KFuncOp)
    : Lower (list LLVMFuncOp) :=
  if negb hasTargetInfo then fail "could not find an enclosing target specification" else
  '(lowered, st) ← lowerFunctions fs (mkConvState (initialSymbols others fs) [] 0);
  ret (lowered ++ wrappers st)%list.

End Lowering.
End ClosureLowering.
