(* ===== verification/ClosureSem.v ===== *)
(** Meaning of closures before and after the pass of ClosureLowering.v: a
    source semantics in which a closure is a function with its captures, and a
    target semantics of the emitted operations with stack objects and their
    lifetimes. *)
From S2P Require Import Prelude LLVMSupport LLVMTypes DataLayout TypeConverter ClosureLowering.

Module ClosureSem.
Import ClosureLowering.

(** ** Values *)

(** Data that holds no closure; functions are named. *)
Inductive Data := DInt (z : Z) | DFun (name : string) | DStruct (fields : list Data).
(** Before the pass: data, or a closure over a function, with the inputs it still
    takes and its results. *)
Inductive SVal :=
  | SPlain (d : Data)
  | SClosure (callee : string) (ins outs : list KTy) (captured : list SVal).
(** After it; [None] is an undefined field. *)
Inductive TVal :=
  | TInt (z : Z)
  | TFun (name : string)
  | TPtr (block field : nat)
  | TStruct (fields : list (option TVal)).

Fixpoint embed (d : Data) : TVal :=
  match d with
  | DInt z => TInt z
  | DFun f => TFun f
  | DStruct ds => TStruct (map (fun d => Some (embed d)) ds)
  end.
Fixpoint unembed (t : TVal) : option Data :=
  match t with
  | TInt z => Some (DInt z)
  | TFun f => Some (DFun f)
  | TPtr _ _ => None
  | TStruct ts => DStruct <$> mapM (fun o => match o with Some t => unembed t | None => None end) ts
  end.
Definition plain (s : SVal) : option Data := match s with SPlain d => Some d | _ => None end.

Definition isTail (k : TailCallKind) : bool :=
  match k with TailCall | MustTail => true | _ => false end.
Definition valuesOf {A} (env : gmap V A) (vs : list V) : option (list A) := mapM (fun v => env !! v) vs.
Definition entryEnv {A} (args : list A) : gmap V A := list_to_map (zip (seq 0 (length args)) args).

(** A module's functions by name. *)
Definition sourceFunctions (fs : list KFuncOp) : gmap string KFuncOp :=
  list_to_map (map (fun f => (kName f, f)) fs).
Definition targetFunctions (fs : list LLVMFuncOp) : gmap string LLVMFuncOp :=
  list_to_map (map (fun f => (symName f, f)) fs).

(** A stack object: its field types, whether it is alive, its fields. *)
Record Block := mkBlock { elem : list Ty; alive : bool; fields : list (option TVal) }.
Abbreviation Mem := (list Block).

Definition dead (b : Block) : Block := mkBlock (elem b) false (fields b).
(** The objects from [base] on die. *)
Definition kill (base : nat) (mem : Mem) : Mem :=
  imap (fun b blk => if (b <? base)%nat then blk else dead blk) mem.
(** The memory after a call that could not see the objects from [base] on. *)
Definition restore (base : nat) (mem mem' : Mem) : Mem :=
  (take base mem' ++ drop base mem ++ drop (length mem) mem')%list.

Section Semantics.
Context {LM : LLVMMath} {TD : TargetDataLayout} {KL : KGENLayout} {CS : ClosureSupport}.
(** The operations the pass leaves alone act on data and on the world. *)
Context {W : Type}.
Variable prim : nat → list Data → W → option (list Data * W).

(** ** Before the pass *)

Section Source.
Variable program : gmap string KFuncOp.
Variable call : string → list SVal → W → option (option Data * W).

Definition signatureOf (ins outs : list KTy) : option FunctionType :=
  ps ← mapM convertType ins; r ← packedResultType outs; Some (mkFunctionType r ps).

(** The results of a call out of the single value it returns. *)
Definition unpackData (n : nat) (r : option Data) : option (list Data) :=
  match n, r with
  | O, _ => Some []
  | S O, Some d => Some [d]
  | S (S _), Some (DStruct ds) => if bool_decide (length ds = n) then Some ds else None
  | _, _ => None
  end.

Definition createClosure (op : CreateClosureOp) (caps : list SVal) : option SVal :=
  match callee op with
  | NestedSymbolRef _ => None
  | FlatSymbolRef name =>
      f ← program !! name;
      if bool_decide (signatureOf (calleeInputs op) (calleeResults op) = Some (kType f)) then
        if isCapturing op then
          if bool_decide (captureTypes op = take (length caps) (calleeInputs op))
          then Some (SClosure name (drop (length caps) (calleeInputs op)) (calleeResults op) caps)
          else None
        else match caps with [] => Some (SPlain (DFun name)) | _ => None end
      else None
  end.

(** The function that an indirect call runs, with its arguments. A call that is
    marked as a tail call must not hand out this function's stack. *)
Definition resolve (op : CallIndirectOp) (c : SVal) (args : list SVal) : option (string * list SVal) :=
  match c with
  | SClosure name ins outs caps =>
      if targetCapturing op && bool_decide (ins = targetInputs op ∧ outs = resultTypes op)
         && negb (isTail (tailKind op))
      then Some (name, caps ++ args)%list else None
  | SPlain (DFun name) =>
      f ← program !! name;
      if negb (targetCapturing op)
         && bool_decide (Some (returnType (kType f)) = packedResultType (resultTypes op) ∧
                         params (kType f) = argTypes op)
         && (negb (isTail (tailKind op)) || forallb (fun s => bool_decide (is_Some (plain s))) args)
      then Some (name, args) else None
  | _ => None
  end.

(** C ABI calls are not given a meaning. *)
Definition sourceOp (op : KOp) (env : gmap V SVal) (w : W) : option (gmap V SVal * W) :=
  match op with
  | KOther results opcode operands =>
      vals ← valuesOf env operands;
      ds ← mapM plain vals;
      '(out, w) ← prim opcode ds w;
      env ← bindResults env results (map SPlain out);
      Some (env, w)
  | KCreateClosure res op =>
      caps ← valuesOf env (captures op);
      c ← createClosure op caps;
      env ← bindResults env [res] [c];
      Some (env, w)
  | KCallIndirect results op =>
      if targetCABI op then None else
      c ← env !! target op;
      args ← valuesOf env (arguments op);
      '(name, actuals) ← resolve op c args;
      '(r, w) ← call name actuals w;
      out ← unpackData (length (resultTypes op)) r;
      env ← bindResults env results (map SPlain out);
      Some (env, w)
  end.

Fixpoint sourceOps (ops : list KOp) (env : gmap V SVal) (w : W) : option (gmap V SVal * W) :=
  match ops with
  | [] => Some (env, w)
  | op :: ops => '(env, w) ← sourceOp op env w; sourceOps ops env w
  end.
End Source.

(** A function's result is data: a closure does not outlive the function that
    creates it. *)
Fixpoint callS (program : gmap string KFuncOp) (fuel : nat) (name : string) (args : list SVal) (w : W)
    : option (option Data * W) :=
  match fuel with
  | O => None
  | S fuel =>
      f ← program !! name;
      if bool_decide (length args = length (params (kType f))) then
        '(env, w) ← sourceOps program (callS program fuel) (kOps f) (entryEnv args) w;
        match kReturn f with
        | None => Some (None, w)
        | Some v => s ← env !! v; d ← plain s; Some (Some d, w)
        end
      else None
  end.

(** ** After the pass *)

Section Target.
Variable program : gmap string LLVMFuncOp.
Variable call : string → list TVal → Mem → W → option (option TVal * Mem * W).
(** The objects of the running function are those from [base] on. *)
Variable base : nat.

Definition calleeName (c : Callee) (env : gmap V TVal) : option string :=
  match c with
  | Symbol name => Some name
  | Pointer v => match env !! v with Some (TFun name) => Some name | _ => None end
  end.
Definition bindCall (res : option V) (r : option TVal) (env : gmap V TVal) : option (gmap V TVal) :=
  match res, r with
  | None, _ => Some env
  | Some x, Some t => Some (<[x := t]> env)
  | Some _, None => None
  end.

(** An object is alive from its lifetime's start to its end; a function is
    called at its own type; operations the pass does not emit are stuck. *)
Definition step (i : Instr) (st : gmap V TVal * Mem * W) : option (gmap V TVal * Mem * W) :=
  let '(env, mem, w) := st in
  match i with
  | AddressOfOp r name => Some (<[r := TFun name]> env, mem, w)
  | UndefOp r (LLVMStructType tys) => Some (<[r := TStruct (replicate (length tys) None)]> env, mem, w)
  | ConstantOp r _ v => Some (<[r := TInt v]> env, mem, w)
  | AllocaOp r (LLVMStructType tys) n =>
      match env !! n with
      | Some (TInt 1) =>
          Some (<[r := TPtr (length mem) 0]> env,
                (mem ++ [mkBlock tys false (replicate (length tys) None)])%list, w)
      | _ => None
      end
  | InsertValueOp r c v p =>
      match env !! c, env !! v with
      | Some (TStruct ts), Some t =>
          if (p <? length ts)%nat then Some (<[r := TStruct (<[p := Some t]> ts)]> env, mem, w) else None
      | _, _ => None
      end
  | ExtractValueOp r c p =>
      match env !! c with
      | Some (TStruct ts) => t ← mjoin (ts !! p); Some (<[r := t]> env, mem, w)
      | _ => None
      end
  | LifetimeStartOp p =>
      match env !! p with
      | Some (TPtr b O) =>
          blk ← mem !! b;
          Some (env, <[b := mkBlock (elem blk) true (replicate (length (elem blk)) None)]> mem, w)
      | _ => None
      end
  | LifetimeEndOp p =>
      match env !! p with
      | Some (TPtr b O) => blk ← mem !! b; Some (env, <[b := dead blk]> mem, w)
      | _ => None
      end
  | GEPOp r (LLVMStructType tys) p i =>
      match env !! p with
      | Some (TPtr b O) =>
          blk ← mem !! b;
          if bool_decide (elem blk = tys) && (i <? length tys)%nat
          then Some (<[r := TPtr b i]> env, mem, w) else None
      | _ => None
      end
  | StoreOp v p =>
      match env !! v, env !! p with
      | Some t, Some (TPtr b i) =>
          blk ← mem !! b;
          if alive blk && (i <? length (fields blk))%nat
          then Some (env, <[b := mkBlock (elem blk) true (<[i := Some t]> (fields blk))]> mem, w) else None
      | _, _ => None
      end
  | LoadOp r ty p =>
      match env !! p with
      | Some (TPtr b i) =>
          blk ← mem !! b;
          if alive blk && bool_decide (elem blk !! i = Some ty)
          then t ← mjoin (fields blk !! i); Some (<[r := t]> env, mem, w) else None
      | _ => None
      end
  | CallOp res type c args tail [] =>
      name ← calleeName c env;
      f ← program !! name;
      if bool_decide (funcType f = type) then
        vals ← valuesOf env args;
        '(r, mem', w) ← call name vals (if isTail tail then kill base mem else mem) w;
        env ← bindCall res r env;
        Some (env, if isTail tail then restore base mem mem' else mem', w)
      else None
  | OtherOp results opcode operands =>
      vals ← valuesOf env operands;
      ds ← mapM unembed vals;
      '(out, w) ← prim opcode ds w;
      env ← bindResults env results (map embed out);
      Some (env, mem, w)
  | _ => None
  end.

Fixpoint steps (ops : list Instr) (st : gmap V TVal * Mem * W) : option (gmap V TVal * Mem * W) :=
  match ops with [] => Some st | i :: ops => st ← step i st; steps ops st end.

Fixpoint run (ops : list Instr) (st : gmap V TVal * Mem * W) : option (option TVal * Mem * W) :=
  match ops with
  | [] => None
  | ReturnOp vs :: _ =>
      let '(env, mem, w) := st in
      match vs with
      | [] => Some (None, mem, w)
      | [v] => t ← env !! v; Some (Some t, mem, w)
      | _ => None
      end
  | i :: ops => st ← step i st; run ops st
  end.
End Target.

(** A function's objects die when it returns. *)
Fixpoint callT (program : gmap string LLVMFuncOp) (fuel : nat) (name : string) (args : list TVal)
    (mem : Mem) (w : W) : option (option TVal * Mem * W) :=
  match fuel with
  | O => None
  | S fuel =>
      f ← program !! name;
      if bool_decide (length args = length (params (funcType f))) then
        '(r, mem', w) ← run program (callT program fuel) (length mem) (bodyOps f) (entryEnv args, mem, w);
        Some (r, kill (length mem) mem', w)
      else None
  end.

End Semantics.
End ClosureSem.
