(* ===== verification/ClosureFacts.v ===== *)
(** The lowering of closures (ClosureLowering.v) keeps their meaning
    (ClosureSem.v). *)
From S2P Require Import Prelude LLVMSupport LLVMTypes DataLayout TypeConverter ClosureLowering ClosureSem.

Module ClosureFacts.
Import ClosureLowering ClosureSem.

(** ** Environments *)

Ltac lookups := repeat first [rewrite lookup_insert_eq | rewrite lookup_insert_ne by lia].

Lemma mapM_ext_in {A B} (f g : A → option B) l k :
  (∀ x, x ∈ l → f x = g x) → mapM f l = Some k → mapM g l = Some k.
Proof.
  intros H. rewrite !mapM_Some. induction 1 as [|x y l k Hx _ IH]; constructor.
  - rewrite <- H by left. done.
  - apply IH. intros z Hz. apply H. by right.
Qed.

Lemma mapM_len {A B} (f : A → option B) l k : mapM f l = Some k → length l = length k.
Proof. intros H. by apply mapM_Some, Forall2_length in H. Qed.

Lemma valuesOf_lookup {A} (env : gmap V A) vs xs :
  length vs = length xs → (∀ i v x, vs !! i = Some v → xs !! i = Some x → env !! v = Some x) →
  valuesOf env vs = Some xs.
Proof.
  intros Hl H. apply mapM_Some. apply Forall2_same_length_lookup_2; [done|]. intros i v x Hv Hx.
  by apply (H i).
Qed.

Lemma zip_seq_lookup {A} (xs : list A) n j :
  (list_to_map (zip (seq n (length xs)) xs) : gmap V A) !! j
    = if decide (n ≤ j)%nat then xs !! (j - n)%nat else None.
Proof.
  revert n. induction xs as [|x xs IH]; intros n; simpl.
  { rewrite lookup_empty. by destruct (decide _). }
  destruct (decide (j = n)) as [->|Hne].
  - rewrite lookup_insert_eq, decide_True, Nat.sub_diag by lia. done.
  - rewrite lookup_insert_ne by done. rewrite IH. destruct (decide (S n ≤ j)%nat).
    + rewrite decide_True by lia. replace (j - n)%nat with (S (j - S n)) by lia. done.
    + rewrite decide_False by lia. done.
Qed.

Lemma entryEnv_lookup {A} (args : list A) v : entryEnv args !! v = args !! v.
Proof. unfold entryEnv. rewrite zip_seq_lookup, decide_True by lia. by rewrite Nat.sub_0_r. Qed.

Lemma bindResults_length {A} (env env' : gmap V A) rs xs :
  bindResults env rs xs = Some env' → length rs = length xs.
Proof. unfold bindResults. case_bool_decide; [done|discriminate]. Qed.

Lemma bindResults_cons {A} (env env' : gmap V A) r rs x xs :
  bindResults env (r :: rs) (x :: xs) = Some env' →
  ∃ env1, bindResults env rs xs = Some env1 ∧ env' = <[r := x]> env1.
Proof.
  unfold bindResults. simpl. intros H. case_bool_decide as Hl; [|done].
  rewrite bool_decide_eq_true_2 by lia. eexists. split; [done|].
  rewrite insert_union_l. by simplify_eq.
Qed.

(** New values are bound above [next]. *)
Lemma bindResults_seq {A} (env : gmap V A) next xs :
  ∃ env', bindResults env (seq next (length xs)) xs = Some env' ∧
    (∀ v, (v < next)%nat → env' !! v = env !! v) ∧
    (∀ i x, xs !! i = Some x → env' !! (next + i)%nat = Some x).
Proof.
  unfold bindResults. rewrite bool_decide_eq_true_2 by apply length_seq. eexists. split; [done|]. split.
  - intros v Hv. rewrite lookup_union, zip_seq_lookup, decide_False by lia. apply left_id, _.
  - intros i x Hi. rewrite lookup_union, zip_seq_lookup, decide_True by lia.
    replace (next + i - next)%nat with i by lia. rewrite Hi. by rewrite union_Some_l.
Qed.

Section Correct.
Context {LM : LLVMMath} {TD : TargetDataLayout} {KL : KGENLayout} {CS : ClosureSupport}.
Context {W : Type} (prim : nat → list Data → W → option (list Data * W)).

(** ** Data *)

Section DataInd.
Variable Q : Data → Prop.
Hypothesis Hint : ∀ z, Q (DInt z).
Hypothesis Hfun : ∀ f, Q (DFun f).
Hypothesis Hstruct : ∀ ds, Forall Q ds → Q (DStruct ds).
Fixpoint Data_nested_ind (d : Data) : Q d :=
  match d with
  | DInt z => Hint z
  | DFun f => Hfun f
  | DStruct ds => Hstruct ds
      ((fix go (l : list Data) : Forall Q l :=
          match l with
          | [] => List.Forall_nil Q
          | x :: l => List.Forall_cons Q x l (Data_nested_ind x) (go l)
          end) ds)
  end.
End DataInd.

Lemma unembed_embed d : unembed (embed d) = Some d.
Proof.
  induction d as [z|f|ds IH] using Data_nested_ind; simpl; try done.
  assert (mapM (fun o => match o with Some t => unembed t | None => None end)
            (map (fun d => Some (embed d)) ds) = Some ds) as ->; [|done].
  apply mapM_Some. induction IH; simpl; by constructor.
Qed.

(** ** The relation of values *)

Variable P : gmap string KFuncOp.
Variable M : gmap string LLVMFuncOp.

(** The function [w] takes an environment of the types [tys] and forwards to
    [f]. *)
Definition wrapperBody (tys : list Ty) (arity : nat) (name : string) (type : FunctionType) : list Instr :=
  (loadCaptures (LLVMStructType tys) 0 (S arity) 0 tys ++
   [CallOp (callResult type (S arity + 2 * length tys)) type (Symbol name)
      (loadedCaptures (S arity) (length tys) ++ seq 1 arity) TailCallNone [];
    ReturnOp (option_list (callResult type (S arity + 2 * length tys)))])%list.
Definition isWrapper (w name : string) (tys : list Ty) (ins outs : list KTy) : Prop :=
  ∃ f fl fw insT,
    P !! name = Some f ∧ M !! name = Some fl ∧ funcType fl = kType f ∧
    M !! w = Some fw ∧ mapM convertType ins = Some insT ∧
    packedResultType outs = Some (returnType (kType f)) ∧
    length (params (kType f)) = (length tys + length ins)%nat ∧
    funcType fw = mkFunctionType (returnType (kType f)) (ptrType :: insT) ∧
    bodyOps fw = wrapperBody tys (length ins) name (kType f).

Fixpoint rel (mem : Mem) (s : SVal) (t : TVal) : Prop :=
  match s with
  | SPlain d => t = embed d
  | SClosure name ins outs caps =>
      ∃ w b tys ts,
        t = TStruct [Some (TFun w); Some (TPtr b 0)] ∧ isWrapper w name tys ins outs ∧
        mem !! b = Some (mkBlock tys true (map Some ts)) ∧ length tys = length ts ∧
        all2P (rel mem) caps ts
  end.

(** Live objects stay as they are. *)
Definition mem_le (mem mem' : Mem) : Prop :=
  (length mem ≤ length mem')%nat ∧
  ∀ b blk, mem !! b = Some blk → alive blk = true → mem' !! b = Some blk.

#[local] Instance mem_le_preorder : PreOrder mem_le.
Proof.
  split; [by split|]. intros m1 m2 m3 [H1 H2] [H3 H4]. split; [lia|]. intros b blk Hb Ha. auto.
Qed.

Section SValInd.
Variable Q : SVal → Prop.
Hypothesis Hplain : ∀ d, Q (SPlain d).
Hypothesis Hclosure : ∀ n ins outs caps, Forall Q caps → Q (SClosure n ins outs caps).
Fixpoint SVal_nested_ind (s : SVal) : Q s :=
  match s with
  | SPlain d => Hplain d
  | SClosure n ins outs caps => Hclosure n ins outs caps
      ((fix go (l : list SVal) : Forall Q l :=
          match l with
          | [] => List.Forall_nil Q
          | x :: l => List.Forall_cons Q x l (SVal_nested_ind x) (go l)
          end) caps)
  end.
End SValInd.

Lemma rel_mono mem mem' s t : mem_le mem mem' → rel mem s t → rel mem' s t.
Proof.
  intros Hle. revert t. induction s as [d|n ins outs caps IH] using SVal_nested_ind; intros t; [done|].
  simpl. intros (w & b & tys & ts & -> & Hw & Hb & Hl & Hc). exists w, b, tys, ts.
  split; [done|]. split; [done|]. split; [by apply Hle|]. split; [done|].
  rewrite all2P_Forall2 in Hc |- *. clear Hb Hl Hw.
  induction Hc as [|s t caps ts Hs _ IHc]; inversion_clear IH; constructor; auto.
Qed.

Lemma rel_plain mem mem' s t : is_Some (plain s) → rel mem s t → rel mem' s t.
Proof. destruct s; simpl; [done|]. by intros [? ?]. Qed.

Lemma Forall2_rel_mono mem mem' ss ts :
  mem_le mem mem' → Forall2 (rel mem) ss ts → Forall2 (rel mem') ss ts.
Proof. intros Hle H. eapply Forall2_impl; [exact H|]. intros s t. by apply rel_mono. Qed.

(** ** Memory *)

Lemma kill_length base mem : length (kill base mem) = length mem.
Proof. apply length_imap. Qed.

Lemma kill_lookup base mem b : (b < base)%nat → kill base mem !! b = mem !! b.
Proof.
  intros Hb. unfold kill. rewrite list_lookup_imap. destruct (mem !! b); simpl; [|done].
  by rewrite (proj2 (Nat.ltb_lt _ _)).
Qed.

Lemma kill_idem base mem : kill base (kill base mem) = kill base mem.
Proof.
  apply list_eq. intros b. unfold kill. rewrite !list_lookup_imap. destruct (mem !! b); simpl; [|done].
  by destruct (b <? base)%nat.
Qed.

(** What the callee killed at its return is what its caller could not see. *)
Lemma mem_le_kill base mem mem' : (base ≤ length mem)%nat → length mem = base →
  mem_le mem mem' → mem_le mem (kill base mem').
Proof.
  intros _ Hb [Hl H]. split; [rewrite kill_length; lia|]. intros b blk Hbl Ha.
  rewrite kill_lookup by (apply lookup_lt_Some in Hbl; lia). auto.
Qed.

Lemma restore_le base mem mem' : (base ≤ length mem)%nat →
  mem_le (kill base mem) mem' → mem_le mem (restore base mem mem').
Proof.
  intros Hb [Hl H]. rewrite kill_length in Hl. unfold restore. split.
  - rewrite !length_app, length_take, !length_drop. lia.
  - intros b blk Hblk Ha. pose proof (lookup_lt_Some _ _ _ Hblk).
    destruct (decide (b < base)%nat).
    + rewrite lookup_app_l by (rewrite length_take; lia). rewrite lookup_take_lt by done.
      apply H; [|done]. by rewrite kill_lookup.
    + rewrite lookup_app_r by (rewrite length_take; lia).
      rewrite lookup_app_l by (rewrite length_take, length_drop; lia). rewrite lookup_drop, length_take.
      by replace (base + (b - base `min` length mem'))%nat with b by lia.
Qed.

(** ** Running emitted code *)

Abbreviation Step := (step prim M).
Abbreviation Steps := (steps prim M).
Abbreviation Run := (run prim M).

Lemma steps_app call base ops1 ops2 st :
  Steps call base (ops1 ++ ops2) st = st ← Steps call base ops1 st; Steps call base ops2 st.
Proof.
  revert st. induction ops1 as [|i ops1 IH]; intros st; simpl; [done|].
  destruct (Step call base i st); simpl; [apply IH|done].
Qed.

Lemma run_app call base ops1 ops2 st st' :
  Steps call base ops1 st = Some st' → Run call base (ops1 ++ ops2) st = Run call base ops2 st'.
Proof.
  revert st. induction ops1 as [|i ops1 IH]; intros st; simpl; [by intros [= ->]|].
  intros (st1 & Hi & Hs)%bind_Some. rewrite <- (IH st1 Hs).
  destruct i; simpl in *; try (rewrite Hi; done); by destruct st as [[] ?].
Qed.

Lemma loadCaptures_run call base tys ts envV b (mem : Mem) w :
  mem !! b = Some (mkBlock tys true (map Some ts)) → length tys = length ts →
  ∀ rest i next env, drop i tys = rest → env !! envV = Some (TPtr b 0) → (envV < next)%nat →
  ∃ env', Steps call base (loadCaptures (LLVMStructType tys) envV next i rest) (env, mem, w)
            = Some (env', mem, w) ∧
    (∀ v, (v < next)%nat → env' !! v = env !! v) ∧
    (∀ j t, (j < length rest)%nat → ts !! (i + j)%nat = Some t → env' !! S (next + 2 * j)%nat = Some t).
Proof.
  intros Hb Hlen rest. induction rest as [|ty rest IH]; intros i next env Hd Henv Hlt.
  { exists env. simpl. split_and!; [done..|]. intros; lia. }
  assert (tys !! i = Some ty) as Hty.
  { rewrite <- (Nat.add_0_r i), <- lookup_drop, Hd. done. }
  pose proof (lookup_lt_Some _ _ _ Hty). destruct (lookup_lt_is_Some_2 ts i ltac:(lia)) as [t0 Ht0].
  simpl. rewrite Henv. simpl. rewrite Hb. simpl.
  rewrite bool_decide_eq_true_2, (proj2 (Nat.ltb_lt _ _)) by done. simpl.
  rewrite lookup_insert_eq. simpl. rewrite Hb. simpl. rewrite bool_decide_eq_true_2 by done.
  rewrite lookup_map, Ht0. simpl.
  destruct (IH (S i) (S (S next)) (<[S next:=t0]> (<[next:=TPtr b i]> env))) as (env' & Hs & Hlow & Hv).
  - rewrite <- Nat.add_1_r, <- drop_drop, Hd. done.
  - rewrite !lookup_insert_ne by lia. done.
  - lia.
  - exists env'. split; [exact Hs|]. split.
    + intros v Hv'. rewrite Hlow, !lookup_insert_ne by lia. done.
    + intros [|j] t Hj Ht.
      * rewrite Nat.add_0_r in Ht. rewrite Hlow by lia.
        match goal with |- _ !! ?k = _ => replace k with (S next) by lia end.
        rewrite lookup_insert_eq. congruence.
      * match goal with |- _ !! ?k = _ => replace k with (S (S (S next) + 2 * j))%nat by lia end.
        apply Hv; [lia|]. by replace (S i + j)%nat with (i + S j)%nat by lia.
Qed.

Lemma storeCaptures_run call base tys ts envV b w :
  length tys = length ts →
  ∀ cs i next env (mem : Mem), (i + length cs = length ts)%nat →
  mem !! b = Some (mkBlock tys true (map Some (take i ts) ++ replicate (length ts - i) None)) →
  env !! envV = Some (TPtr b 0) → (envV < next)%nat → (∀ c, c ∈ cs → (c < next)%nat) →
  valuesOf env cs = Some (drop i ts) →
  ∃ env', Steps call base (storeCaptures (LLVMStructType tys) envV next i cs) (env, mem, w)
            = Some (env', <[b := mkBlock tys true (map Some ts)]> mem, w) ∧
    (∀ v, (v < next)%nat → env' !! v = env !! v).
Proof.
  intros Hlen cs. induction cs as [|c cs IH]; intros i next env mem Hi Hb Henv Hlt Hcs Hvals; simpl.
  { exists env. split; [|done]. simpl in Hi. assert (i = length ts) as Hi' by lia.
    rewrite Hi', take_ge, Nat.sub_diag, app_nil_r in Hb by lia. by rewrite list_insert_id. }
  simpl in Hi. apply mapM_Some in Hvals.
  destruct (lookup_lt_is_Some_2 ts i ltac:(lia)) as [t0 Ht0].
  rewrite (drop_S _ _ _ Ht0) in Hvals. inversion_clear Hvals as [|? ? ? ? Hc Hvals'].
  apply mapM_Some in Hvals'.
  rewrite Henv. simpl. rewrite Hb. simpl. rewrite bool_decide_eq_true_2, (proj2 (Nat.ltb_lt _ _)) by (done || lia).
  simpl. rewrite lookup_insert_ne by (specialize (Hcs c ltac:(left)); lia). rewrite Hc. simpl.
  rewrite lookup_insert_eq. simpl. rewrite Hb. simpl.
  assert ((i <? length (map Some (take i ts) ++ replicate (length ts - i) (None : option TVal)))%nat = true) as ->.
  { apply Nat.ltb_lt. rewrite length_app, length_map, length_take, length_replicate. lia. }
  simpl.
  assert (<[i:=Some t0]> (map Some (take i ts) ++ replicate (length ts - i) None)
          = map Some (take (S i) ts) ++ replicate (length ts - S i) None)%list as ->.
  { rewrite (take_S_r _ _ _ Ht0), map_app, <- app_assoc.
    rewrite insert_app_r_alt by (rewrite length_map, length_take; lia).
    rewrite length_map, length_take. replace (i - i `min` length ts)%nat with O by lia.
    replace (length ts - i)%nat with (S (length ts - S i)) by lia. done. }
  edestruct (IH (S i) (S next) (<[next:=TPtr b i]> env)) as (env' & Hs & Hlow).
  - lia.
  - rewrite list_lookup_insert_eq; [done|]. by apply lookup_lt_Some in Hb.
  - by rewrite lookup_insert_ne by lia.
  - lia.
  - intros c' Hc'. specialize (Hcs c' ltac:(by right)). lia.
  - apply mapM_Some, Forall2_same_length_lookup_2.
    { by apply mapM_Some, Forall2_length in Hvals'. }
    intros j v x Hv Hx. rewrite lookup_insert_ne.
    + apply mapM_Some in Hvals'. exact (Forall2_lookup_lr _ _ _ _ _ _ Hvals' Hv Hx).
    + apply list_elem_of_lookup_2 in Hv. specialize (Hcs v ltac:(by right)). lia.
  - exists env'. rewrite list_insert_insert_eq in Hs. split; [exact Hs|].
    intros v Hv. rewrite Hlow, lookup_insert_ne by lia. done.
Qed.

Lemma generateClosureStruct_run call base name tys types captures next env mem w ts ops ends c next' :
  generateClosureStruct name types captures next = (ops, ends, c, next') →
  liftedFunctionCaptureType types = LLVMStructType tys →
  unpackingFunctionAndCapturesType types = LLVMStructType [ptrType; ptrType] →
  valuesOf env captures = Some ts → length tys = length ts → (∀ v, v ∈ captures → (v < next)%nat) →
  ∃ env' e, Steps call base ops (env, mem, w)
              = Some (env', (mem ++ [mkBlock tys true (map Some ts)])%list, w) ∧
    env' !! c = Some (TStruct [Some (TFun name); Some (TPtr (length mem) 0)]) ∧ (c < next')%nat ∧
    ends = [LifetimeEndOp e] ∧ env' !! e = Some (TPtr (length mem) 0) ∧ (e < next')%nat ∧
    (next ≤ next')%nat ∧ (∀ v, (v < next)%nat → env' !! v = env !! v).
Proof.
  unfold generateClosureStruct. intros [= <- <- <- <-] Hs Hp Hts Hlen Hcs. rewrite Hs, Hp. simpl. lookups.
  simpl. lookups. simpl. lookups. simpl. lookups. simpl.
  rewrite lookup_app_r, Nat.sub_diag by lia. simpl. rewrite insert_app_r_alt, Nat.sub_diag by lia. simpl.
  pose proof (mapM_len _ _ _ Hts) as Hlc. simpl in Hlc.
  match goal with |- context [steps _ _ _ _ _ (?e, ?m, _)] => set (env1 := e); set (mem1 := m) end.
  destruct (storeCaptures_run call base tys ts (next + 4) (length mem) w Hlen captures 0 (next + 5) env1 mem1)
    as (env2 & Hrun & Hlow).
  - simpl. by rewrite Hlc.
  - unfold mem1. rewrite lookup_app_r, Nat.sub_diag by lia. simpl. by rewrite Hlen, Nat.sub_0_r.
  - unfold env1. by lookups.
  - lia.
  - intros v Hv. specialize (Hcs v Hv). lia.
  - rewrite drop_0. eapply mapM_ext_in, Hts. intros v Hv. specialize (Hcs v Hv). unfold env1. by lookups.
  - rewrite steps_app, Hrun. simpl.
    rewrite !Hlow by lia. unfold env1. lookups. simpl. unfold mem1.
    rewrite insert_app_r_alt, Nat.sub_diag by lia. simpl. eexists _, (next + 4)%nat. split; [done|]. lookups.
    split_and!; try done; try lia; [by rewrite Hlow by lia; unfold env1; lookups|].
    intros v Hv. lookups. rewrite Hlow by lia. unfold env1. by lookups.
Qed.

(** A call of a wrapper is a call of its function with the captures first. *)
Lemma wrapper_call k wname name tys ins outs b ts args mem w f r mem' w' :
  isWrapper wname name tys ins outs → P !! name = Some f →
  mem !! b = Some (mkBlock tys true (map Some ts)) → length tys = length ts →
  length args = length ins →
  callT prim M k name (ts ++ args) mem w = Some (r, mem', w') →
  (is_Some (returnType (kType f)) → is_Some r) →
  callT prim M (S k) wname (TPtr b 0 :: args) mem w
    = Some (match returnType (kType f) with Some _ => r | None => None end, kill (length mem) mem', w').
Proof.
  intros (f' & fl & fw & insT & HP & Hfl & Hft & Hfw & Hins & Hres & Harity & Hty & Hbody) HP' Hb Hlen Hargs
    Hcall Hr. replace f' with f in * by congruence. cbn [callT]. rewrite Hfw. simpl. rewrite Hty. simpl.
  pose proof (mapM_len _ _ _ Hins) as HinsT. simpl in HinsT.
  rewrite bool_decide_eq_true_2 by (simpl; lia). rewrite Hbody. unfold wrapperBody.
  destruct (loadCaptures_run (callT prim M k) (length mem) tys ts 0 b mem w Hb Hlen tys 0 (S (length ins))
              (entryEnv (TPtr b 0 :: args))) as (env' & Hs & Hlow & Hloads).
  { done. } { by rewrite entryEnv_lookup. } { lia. }
  rewrite (run_app _ _ _ _ _ _ Hs). cbn [run step]. simpl calleeName. simpl. rewrite Hfl. simpl.
  rewrite bool_decide_eq_true_2 by done.
  assert (valuesOf env' (loadedCaptures (S (length ins)) (length tys) ++ seq 1 (length ins)) = Some (ts ++ args)%list)
    as ->.
  { apply valuesOf_lookup.
    - unfold loadedCaptures. rewrite !length_app, length_map, !length_seq. lia.
    - intros i v x Hv Hx. unfold loadedCaptures in Hv.
      apply lookup_app_Some in Hv as [Hv|[Hge Hv]].
      + rewrite lookup_map in Hv. apply fmap_Some in Hv as (j & Hj & ->).
        apply lookup_seq in Hj as [-> Hj]. rewrite lookup_app_l in Hx by lia.
        apply (Hloads i x); [lia|done].
      + rewrite length_map, length_seq in Hge, Hv. apply lookup_seq in Hv as [-> Hv].
        rewrite lookup_app_r in Hx by lia. rewrite Hlow, entryEnv_lookup by lia. simpl.
        by rewrite <- Hlen in Hx. }
  simpl. rewrite Hcall. simpl. unfold callResult. destruct (returnType (kType f)) as [t|]; simpl.
  - destruct (Hr ltac:(done)) as [r' ->]. simpl. lookups. done.
  - done.
Qed.

End Correct.
End ClosureFacts.
