(* ===== verification/ClosureCorrect.v ===== *)
(** The simulation: a module whose closures were lowered by ClosureLowering.v
    runs as the module did before. *)
From S2P Require Import Prelude LLVMSupport LLVMTypes DataLayout TypeConverter ClosureLowering ClosureSem ClosureFacts.

Module ClosureCorrect.
Import ClosureLowering ClosureSem ClosureFacts.

Section Sim.
Context {LM : LLVMMath} {TD : TargetDataLayout} {KL : KGENLayout} {CS : ClosureSupport}.
Context {W : Type} (prim : nat → list Data → W → option (list Data * W)).
Variable P : gmap string KFuncOp.
Variable M : gmap string LLVMFuncOp.

#[local] Existing Instance mem_le_preorder.
Abbreviation Rel := (rel P M).

(** The values of the source and of the converted function so far. *)
Definition EnvRel (vmap : gmap V V) (next : V) (senv : gmap V SVal) (tenv : gmap V TVal) (mem : Mem) : Prop :=
  ∀ v s, senv !! v = Some s →
    ∃ v' t, vmap !! v = Some v' ∧ (v' < next)%nat ∧ tenv !! v' = Some t ∧ Rel mem s t.

Definition agree (next : V) (tenv tenv' : gmap V TVal) : Prop :=
  ∀ v, (v < next)%nat → tenv' !! v = tenv !! v.

Lemma EnvRel_mono vmap next next' senv tenv tenv' mem mem' :
  EnvRel vmap next senv tenv mem → (next ≤ next')%nat → agree next tenv tenv' → mem_le mem mem' →
  EnvRel vmap next' senv tenv' mem'.
Proof.
  intros H Hn Ha Hm v s Hv. destruct (H v s Hv) as (v' & t & Hv' & Hlt & Ht & Hr).
  exists v', t. split_and!; [done|lia|by rewrite Ha|by eapply rel_mono].
Qed.

Lemma EnvRel_bind vmap vmap' next senv senv' tenv mem rs ss vs :
  EnvRel vmap next senv tenv mem →
  bindResults senv rs ss = Some senv' → bindResults vmap rs vs = Some vmap' →
  Forall2 (fun s v => (v < next)%nat ∧ ∃ t, tenv !! v = Some t ∧ Rel mem s t) ss vs →
  EnvRel vmap' next senv' tenv mem.
Proof.
  intros H Hs Hv Hf. revert rs senv' vmap' Hs Hv.
  induction Hf as [|s v ss vs (Hlt & t & Ht & Hr) _ IH]; intros [|r rs] senv' vmap' Hs Hv;
    try (apply bindResults_length in Hs; simpl in Hs; lia).
  - unfold bindResults in Hs, Hv. simpl in Hs, Hv. rewrite !(left_id_L ∅ (∪)) in *. by simplify_eq.
  - apply bindResults_cons in Hs as (senv1 & Hs & ->). apply bindResults_cons in Hv as (vmap1 & Hv & ->).
    specialize (IH rs senv1 vmap1 Hs Hv). intros x sx. destruct (decide (x = r)) as [->|Hne].
    + rewrite !lookup_insert_eq. intros [= <-]. eauto 6.
    + rewrite !lookup_insert_ne by done. apply IH.
Qed.

Lemma EnvRel_values vmap next senv tenv mem vs ss vs' :
  EnvRel vmap next senv tenv mem → valuesOf senv vs = Some ss → mapM (fun v => vmap !! v) vs = Some vs' →
  ∃ ts, valuesOf tenv vs' = Some ts ∧ Forall2 (Rel mem) ss ts ∧ ∀ v, v ∈ vs' → (v < next)%nat.
Proof.
  intros H. unfold valuesOf. rewrite !mapM_Some. intros Hs. revert vs'.
  induction Hs as [|v s vs ss Hv _ IH]; intros vs' Hm; inversion Hm as [|? v' ? vs'' Hv' Hm']; subst.
  - exists []. split_and!; [done|constructor|]. intros v Hin. by apply not_elem_of_nil in Hin.
  - destruct (IH _ Hm') as (ts & Hts & Hr & Hlt). destruct (H v s Hv) as (v1 & t & Hv1 & Hl1 & Ht & Hrel).
    simplify_eq. exists (t :: ts). split_and!.
    + simpl. rewrite Ht. simpl. unfold valuesOf in Hts. by rewrite Hts.
    + by constructor.
    + intros x [->|Hx]%elem_of_cons; auto.
Qed.

(** ** Results of calls *)

Lemma Rel_embeds mem ds : Forall2 (Rel mem) (map SPlain ds) (map embed ds).
Proof. induction ds; simpl; by constructor. Qed.

Lemma plain_values mem ss ds ts :
  mapM plain ss = Some ds → Forall2 (Rel mem) ss ts → mapM unembed ts = Some ds.
Proof.
  rewrite !mapM_Some. intros H. revert ts. induction H as [|s d ss ds Hs _ IH]; intros ts Hr;
    inversion Hr as [|? t ? ts' Hst Hrest]; subst; constructor; [|by apply IH].
  destruct s; simplify_eq/=. apply unembed_embed.
Qed.

Lemma extract_run call base n x next ds env mem w :
  env !! x = Some (embed (DStruct ds)) → length ds = n → (x < next)%nat →
  ∀ k, (k ≤ n)%nat → ∃ env',
    steps prim M call base (imap (fun i _ => ExtractValueOp (next + i) x i) (replicate k tt)) (env, mem, w)
      = Some (env', mem, w) ∧ agree next env env' ∧
    (∀ i d, (i < k)%nat → ds !! i = Some d → env' !! (next + i)%nat = Some (embed d)).
Proof.
  intros Hx Hn Hlt k. induction k as [|k IH]; intros Hk.
  { exists env. split; [done|]. split; [done|]. intros; lia. }
  destruct IH as (env' & Hs & Ha & Hv); [lia|].
  rewrite replicate_S_end, imap_app, length_replicate. simpl.
  destruct (lookup_lt_is_Some_2 ds k ltac:(lia)) as [d Hd].
  exists (<[(next + k)%nat := embed d]> env'). split; [|split].
  - rewrite steps_app. rewrite Hs. simpl. rewrite Nat.add_0_r, Ha, Hx by lia. simpl.
    rewrite lookup_map, Hd. done.
  - intros v Hv'. rewrite lookup_insert_ne by lia. by apply Ha.
  - intros i d' Hi Hd'. destruct (decide (i = k)) as [->|Hne].
    + rewrite lookup_insert_eq. congruence.
    + rewrite lookup_insert_ne by lia. apply Hv; [lia|done].
Qed.

(** Unpacking the value of a call gives the results of the source. *)
Lemma unpackResults_run call base n r out res next ins vals next' env mem w :
  unpackData n r = Some out → unpackResults n res next = Some (Success (ins, vals, next')) →
  (∀ x, res = Some x → (x < next)%nat ∧ ∃ d, r = Some d ∧ env !! x = Some (embed d)) →
  ∃ env', steps prim M call base ins (env, mem, w) = Some (env', mem, w) ∧ agree next env env' ∧
    (next ≤ next')%nat ∧
    Forall2 (fun s v => (v < next')%nat ∧ ∃ t, env' !! v = Some t ∧ Rel mem s t) (map SPlain out) vals.
Proof.
  unfold unpackResults. intros Hout Hu Hres. destruct (Nat.leb_spec n 1) as [Hn|Hn].
  - case_bool_decide as Hl; [|done]. injection Hu as <- <- <-. exists env.
    split; [done|]. split; [done|]. split; [done|].
    destruct res as [x|]; simpl in *; subst n.
    + destruct (Hres x eq_refl) as (Hx & d & -> & Hd). simpl in Hout. injection Hout as <-.
      repeat constructor; [done|]. by exists (embed d).
    + simpl in Hout. injection Hout as <-. constructor.
  - destruct res as [x|]; [|done]. simpl in Hu. injection Hu as <- <- <-.
    destruct (Hres x eq_refl) as (Hx & d & -> & Hd).
    destruct n as [|[|n]]; [lia..|]. simpl in Hout. destruct d as [| |ds]; try done.
    case_bool_decide as Hlen; [|done]. injection Hout as <-.
    destruct (extract_run call base (S (S n)) x next ds env mem w Hd Hlen Hx (S (S n))) as (env' & Hs & Ha & Hv);
      [lia|]. exists env'. split; [exact Hs|]. split; [done|]. split; [lia|].
    apply Forall2_same_length_lookup_2; [by rewrite length_map, length_seq|].
    intros i s v Hsi Hvi. apply lookup_seq in Hvi as [-> Hi]. rewrite lookup_map in Hsi.
    apply fmap_Some in Hsi as (d & Hdi & ->). split; [lia|]. exists (embed d). split; [|done].
    by apply Hv.
Qed.

(** ** One operation *)

(** The symbol table knows the functions. *)
Definition symOK (st : ConvState) : Prop :=
  ∀ name f, P !! name = Some f → symtab st !! name = Some (Some (kType f)).
Definition inserted (st : ConvState) : Prop := ∀ f, f ∈ wrappers st → M !! symName f = Some f.
(** The end of a lifetime of an object of the running function. *)
Definition endOK (base : nat) (tenv : gmap V TVal) (mem : Mem) (next : V) (i : Instr) : Prop :=
  ∃ e b, i = LifetimeEndOp e ∧ (e < next)%nat ∧ tenv !! e = Some (TPtr b 0) ∧ (base ≤ b < length mem)%nat.

Lemma endOK_mono base tenv tenv' mem mem' next next' i :
  agree next tenv tenv' → mem_le mem mem' → (next ≤ next')%nat →
  endOK base tenv mem next i → endOK base tenv' mem' next' i.
Proof.
  intros Ha [Hl _] Hn (e & b & -> & He & Hv & Hb). exists e, b. split_and!; [done|lia|by rewrite Ha|lia|lia].
Qed.

(** The conversion changes its state only by inserting wrappers. *)
Inductive grow (st : ConvState) : ConvState → Prop :=
  | grow_wrapper name ft f k : name ∉ dom (symtab st) → symName f = name →
      grow st (mkConvState (<[name := ft]> (symtab st)) (wrappers st ++ [f]) k).
Definition extends : relation ConvState := rtc grow.
#[local] Instance extends_preorder : PreOrder extends.
Proof. apply _. Qed.

Lemma extends_symOK st st' : extends st st' → symOK st → symOK st'.
Proof.
  induction 1 as [|st1 st2 st3 [name ft fw k Hn _] _ IH]; [done|]. intros H. apply IH.
  intros x f Hf. simpl. rewrite lookup_insert_ne; [by apply H|]. intros ->.
  apply Hn, elem_of_dom. rewrite (H _ _ Hf). done.
Qed.

Lemma inserted_extends st st' : extends st st' → inserted st' → inserted st.
Proof.
  induction 1 as [|st1 st2 st3 [name ft fw k _ _] _ IH]; [done|]. intros H f Hf. apply (IH H). simpl.
  apply elem_of_app. by left.
Qed.

(** The wrappers' names differ from each other and from those in use. *)
Definition wrapperNames (st0 st : ConvState) : Prop :=
  dom (symtab st0) ⊆ dom (symtab st) ∧
  (∀ f, f ∈ wrappers st → symName f ∈ dom (symtab st) ∧ symName f ∉ dom (symtab st0)) ∧
  NoDup (map symName (wrappers st)).
Lemma extends_names st0 st st' : extends st st' → wrapperNames st0 st → wrapperNames st0 st'.
Proof using Type.
  clear P M prim. induction 1 as [|st1 st2 st3 [name ft fw k Hn Hs] _ IH]; [done|]. intros (Hd & Hw & Hnd). apply IH. split_and!; simpl.
  - rewrite dom_insert_L. set_solver.
  - intros f [Hf|Hf]%elem_of_app; [specialize (Hw f Hf); rewrite dom_insert_L; set_solver|].
    apply list_elem_of_singleton in Hf as ->. rewrite Hs, dom_insert_L. set_solver.
  - rewrite map_app. simpl. apply NoDup_app. split; [done|]. split; [|apply NoDup_singleton].
    intros x Hx. rewrite list_elem_of_singleton, Hs. intros ->. apply Hn.
    apply list_elem_of_fmap in Hx as (f & -> & Hf). by apply Hw.
Qed.

(** What a successful conversion of a closure with captures computed. *)
Lemma CreateClosure_inv op cvs next st ops ends vals next' st' :
  negb (isCapturing op) && bool_decide (captures op = []) = false →
  CreateClosure_matchAndRewrite op cvs next st = Some (Success (ops, ends, vals, next', st')) →
  ∃ insT r wname tys fw name ft c,
    (length (captures op) ≤ length (calleeInputs op))%nat ∧
    mapM convertType (drop (length (captures op)) (calleeInputs op)) = Some insT ∧
    packedResultType (calleeResults op) = Some r ∧
    mapM convertType (captureTypes op) = Some tys ∧
    callee op = FlatSymbolRef name ∧
    (wname ∉ dom (symtab st)) ∧
    (<[wname := Some (mkFunctionType r (ptrType :: insT))]> (symtab st)) !! name = Some (Some ft) ∧
    symName fw = wname ∧ funcType fw = mkFunctionType r (ptrType :: insT) ∧
    (length tys = length (captures op) →
     bodyOps fw = wrapperBody tys (length (calleeInputs op) - length (captures op)) name ft) ∧
    generateClosureStruct wname (mkCreateClosureTypes tys (LLVMStructType tys) (LLVMStructType [ptrType; ptrType]))
      cvs next = (ops, ends, c, next') ∧ vals = [c] ∧
    st' = mkConvState (<[wname := Some (mkFunctionType r (ptrType :: insT))]> (symtab st))
            (wrappers st ++ [fw]) (S (nameIndex st)).
Proof.
  intros Hc. unfold CreateClosure_matchAndRewrite. rewrite Hc. unfold generateWrapperFunction.
  destruct (Nat.ltb_spec (length (calleeInputs op)) (length (captures op))) as [|Hle]; [done|].
  destruct (mapM convertType (drop _ _)) as [insT|] eqn:Hins; [|done]. simpl.
  destruct (packedResultType (calleeResults op)) as [r|] eqn:Hr; [|done]. simpl.
  destruct (wrapperScope op (nameIndex st) _) as [[scope|]|] eqn:Hsc; [|done..]. simpl.
  unfold createClosureTypes. destruct (mapM convertType (captureTypes op)) as [tys|] eqn:Htys; [|done]. simpl.
  unfold populateBodyOfWrapperFunction. destruct (callee op) as [name|] eqn:Hcal; [|done].
  set (wname := uniqueName (dom (symtab st)) (wrapperName (nameIndex st))).
  destruct (_ !! name) as [[ft|]|] eqn:Hft; [|done..]. simpl.
  intros [= <- <- <- <- <-]. eexists insT, r, wname, tys, _, name, ft, _.
  pose proof (mapM_len _ _ _ Hins) as Hli. rewrite length_drop in Hli.
  split_and!; try done; try apply uniqueName_fresh; try reflexivity.
  intros Hlen. simpl. unfold wrapperBody. rewrite <- Hlen. do 2 f_equal. all: rewrite Hlen, <- Hli; done.
Qed.

Lemma CreateClosure_extends op cvs next st ops ends vals next' st' :
  CreateClosure_matchAndRewrite op cvs next st = Some (Success (ops, ends, vals, next', st')) →
  extends st st'.
Proof.
  destruct (negb (isCapturing op) && bool_decide (captures op = [])) eqn:Hc.
  - unfold CreateClosure_matchAndRewrite. rewrite Hc. destruct (callee op); [|done].
    destruct (convertType _); [|done]. by intros [= <- <- <- <- <-].
  - intros H. destruct (CreateClosure_inv _ _ _ _ _ _ _ _ _ Hc H)
      as (insT & r & wname & tys & fw & name & ft & c & Hle & Hins & Hr & Htys & Hcal & Hfresh & Hsym & Hn & Hty
          & Hbody & Hgen & -> & ->).
    apply rtc_once. by constructor.
Qed.

Section Op.
(** The functions of the source are in the converted module, at their types. *)
Hypothesis HM : ∀ name f, P !! name = Some f → ∃ fl, M !! name = Some fl ∧ funcType fl = kType f.

Lemma CreateClosure_sim call base op caps cvs c next st ops ends vals next' st' tenv mem ts w :
  createClosure P op caps = Some c →
  CreateClosure_matchAndRewrite op cvs next st = Some (Success (ops, ends, vals, next', st')) →
  symOK st → inserted st' → length caps = length (captures op) →
  valuesOf tenv cvs = Some ts → Forall2 (Rel mem) caps ts → (∀ v, v ∈ cvs → (v < next)%nat) →
  (base ≤ length mem)%nat →
  ∃ tenv' mem', steps prim M call base ops (tenv, mem, w) = Some (tenv', mem', w) ∧
    agree next tenv tenv' ∧ mem_le mem mem' ∧ (next ≤ next')%nat ∧
    Forall2 (fun s v => (v < next')%nat ∧ ∃ t, tenv' !! v = Some t ∧ Rel mem' s t) [c] vals ∧
    Forall (endOK base tenv' mem' next') ends.
Proof.
  intros Hsrc Hm Hsym Hin Hlen Hts Hrel Hlt Hbase. unfold createClosure in Hsrc.
  destruct (callee op) as [name|] eqn:Hcal; [|done].
  apply bind_Some in Hsrc as (f & Hf & Hsrc). case_bool_decide as Hsig; [|done].
  destruct (negb (isCapturing op) && bool_decide (captures op = [])) eqn:Hc.
  - unfold CreateClosure_matchAndRewrite in Hm. rewrite Hc, Hcal in Hm.
    destruct (convertType _); [|done]. injection Hm as <- <- <- <- <-.
    bool_to_prop. destruct (isCapturing op); [done|]. destruct caps; [|done]. injection Hsrc as <-.
    exists (<[next := TFun name]> tenv), mem. simpl. split_and!; try done; try lia.
    + intros v Hv. by rewrite lookup_insert_ne by lia.
    + constructor; [|constructor]. split; [lia|]. exists (TFun name). split; [apply lookup_insert_eq|done].
  - destruct (CreateClosure_inv _ _ _ _ _ _ _ _ _ Hc Hm)
      as (insT & r & wname & tys & fw & name' & ft & cl & Hle & Hins & Hr & Htys & Hcal' & Hfresh & Hsymt & Hn & Hty
          & Hbody & Hgen & -> & ->).
    rewrite Hcal in Hcal'. injection Hcal' as <-.
    destruct (isCapturing op) eqn:Hcap.
    2: { destruct caps; [|done]. by rewrite (nil_length_inv _ (eq_sym Hlen)) in Hc. }
    clear Hc. case_bool_decide as Hct; [|done]. injection Hsrc as <-.
    pose proof (Forall2_length _ _ _ Hrel) as Hl2. pose proof (mapM_len _ _ _ Htys) as Hl3.
    assert (length tys = length caps) as Hltys by (rewrite <- Hl3, Hct, length_take; lia).
    destruct (generateClosureStruct_run prim M call base wname tys _ cvs next tenv mem w ts ops ends cl next' Hgen)
      as (env' & e & Hs & Hcv & Hcl & -> & He & Hel & Hnn & Ha); [done..|lia|done|].
    assert (mem_le mem (mem ++ [mkBlock tys true (map Some ts)])) as Hml.
    { split; [rewrite length_app; lia|]. intros b blk Hb _. by apply lookup_app_l_Some. }
    exists env', (mem ++ [mkBlock tys true (map Some ts)])%list. split_and!; try done.
    + constructor; [|constructor]. split; [done|]. eexists. split; [exact Hcv|].
      exists wname, (length mem), tys, ts. split; [done|]. split; [|split; [by apply list_lookup_middle|]].
      2: { split; [lia|]. rewrite all2P_Forall2. by eapply Forall2_rel_mono. }
      destruct (HM _ _ Hf) as (fl & Hfl & Hflt). exists f, fl, fw, insT.
      unfold signatureOf in Hsig. apply bind_Some in Hsig as (ps & Hps & Hsig).
      rewrite Hr in Hsig. simpl in Hsig. injection Hsig as Hsig.
      assert (ft = kType f) as ->.
      { rewrite lookup_insert_ne in Hsymt.
        - rewrite (Hsym _ _ Hf) in Hsymt. congruence.
        - intros ->. apply Hfresh, elem_of_dom. rewrite (Hsym _ _ Hf). done. }
      assert (returnType (kType f) = r ∧ params (kType f) = ps) as [Hret Hparams] by (by rewrite <- Hsig).
      pose proof (mapM_len _ _ _ Hps) as Hlp. rewrite Hret, Hparams, length_drop, Hlen.
      split_and!; try done.
      * rewrite <- Hn. apply Hin. simpl. by apply elem_of_app; right; left.
      * lia.
      * apply Hbody. lia.
    + constructor; [|constructor]. exists e, (length mem). split_and!; try done. rewrite length_app. simpl. lia.
Qed.

(** Calls before and after: [ct] runs what [cs] runs. *)
Definition CallSim (cs : string → list SVal → W → option (option Data * W))
    (ct : string → list TVal → Mem → W → option (option TVal * Mem * W)) : Prop :=
  ∀ name args targs w r w' mem, cs name args w = Some (r, w') → Forall2 (Rel mem) args targs →
    ∃ mem', ct name targs mem w = Some (embed <$> r, mem', w') ∧ mem_le mem mem'.

Lemma packed_result rs rt r out :
  packedResultType rs = Some rt → unpackData (length rs) r = Some out → is_Some rt → is_Some r.
Proof.
  destruct rs as [|x rs]; simpl; [by intros [= <-] _ []|].
  intros _. destruct r; [done|]. by destruct rs.
Qed.

(** Binding the value of a call. *)
Lemma bindCall_run rt ps next (r : option Data) tenv :
  (is_Some rt → is_Some r) →
  ∃ tenv', bindCall (callResult (mkFunctionType rt ps) next) (match rt with Some _ => embed <$> r | None => None end)
             tenv = Some tenv' ∧ agree next tenv tenv' ∧
    ∀ x, callResult (mkFunctionType rt ps) next = Some x →
      (x < S next)%nat ∧ ∃ d, r = Some d ∧ tenv' !! x = Some (embed d).
Proof.
  intros Hr. unfold callResult. simpl. destruct rt as [t|]; simpl.
  - destruct (Hr ltac:(done)) as [d ->]. simpl. exists (<[next := embed d]> tenv). split; [done|]. split.
    + intros v Hv. by rewrite lookup_insert_ne by lia.
    + intros x [= <-]. split; [lia|]. exists d. split; [done|apply lookup_insert_eq].
  - exists tenv. by split.
Qed.

Variable k : nat.
Variable cs : string → list SVal → W → option (option Data * W).
Hypothesis Harity : ∀ name args w x, cs name args w = Some x →
  ∃ f, P !! name = Some f ∧ length args = length (params (kType f)).
Hypothesis Hcs0 : CallSim cs (callT prim M k).
Hypothesis Hcs1 : CallSim cs (callT prim M (S k)).
Variable base : nat.

(** A closure's call, up to the unpacking of its results. *)
Lemma closure_call_run callee op caps args ins name ts targs rt insT next tenv mem w r w' out :
  Rel mem (SClosure name ins (resultTypes op) caps) ts → tenv !! callee = Some ts →
  isTail (tailKind op) = false →
  mapM convertType ins = Some insT → packedResultType (resultTypes op) = Some rt →
  valuesOf tenv args = Some targs → (∀ v, v ∈ args → (v < next)%nat) → (callee < next)%nat →
  (∃ sargs, Forall2 (Rel mem) sargs targs ∧ cs name (caps ++ sargs) w = Some (r, w')) →
  unpackData (length (resultTypes op)) r = Some out →
  let type := mkFunctionType rt (ptrType :: insT) in
  ∃ tenv' mem', steps prim M (callT prim M (S k)) base
      [ExtractValueOp next callee 0; ExtractValueOp (S next) callee 1;
       CallOp (callResult type (S (S next))) type (Pointer next) (S next :: args) (tailKind op) []]
      (tenv, mem, w) = Some (tenv', mem', w') ∧
    agree next tenv tenv' ∧ mem_le mem mem' ∧
    ∀ x, callResult type (S (S next)) = Some x →
      (x < S (S (S next)))%nat ∧ ∃ d, r = Some d ∧ tenv' !! x = Some (embed d).
Proof.
  intros (wname & b & tys & caps' & -> & Hw & Hb & Hlen & Hcaps) Hcal Htail Hins Hrt Hargs Hlt Hclt
    (sargs & Hsargs & Hcall) Hout type.
  pose proof Hw as (f & fl & fw & insT' & HP & Hfl & Hflt & Hfw & Hins' & Hres & Har & Hty & _).
  rewrite Hins in Hins'. injection Hins' as <-. rewrite Hrt in Hres. injection Hres as Hret.
  rewrite all2P_Forall2 in Hcaps. pose proof (Forall2_length _ _ _ Hcaps) as Hlc.
  pose proof (Forall2_length _ _ _ Hsargs) as Hla.
  destruct (Hcs0 _ _ _ _ _ _ mem Hcall (Forall2_app Hcaps Hsargs)) as (mem' & Hct & Hle).
  assert (is_Some rt → is_Some r) as Hsome by (intros; by eapply packed_result).
  apply (wrapper_call prim P M k wname name tys ins (resultTypes op) b caps' targs mem w f) in Hct;
    [|done|done|done|done| |].
  2: { destruct (Harity _ _ _ _ Hcall) as (f' & HP' & Hl). rewrite length_app in Hl. simplify_eq. lia. }
  2: { rewrite <- Hret. intros H. destruct (Hsome H) as [d ->]. done. }
  remember (callT prim M (S k)) as ct eqn:Ect. clear Ect.
  cbn [steps step]. rewrite Hcal. simpl. lookups. rewrite Hcal. simpl. lookups. simpl. rewrite Hfw. simpl.
  rewrite bool_decide_eq_true_2 by (unfold type; by rewrite Hty, Hret). simpl.
  assert (valuesOf (<[S next:=TPtr b 0]> (<[next:=TFun wname]> tenv)) args = Some targs) as ->.
  { eapply mapM_ext_in, Hargs. intros v Hv. specialize (Hlt v Hv). by lookups. }
  simpl. rewrite Htail, Hct. simpl. rewrite <- Hret.
  destruct (bindCall_run rt (ptrType :: insT) (S (S next)) r
              (<[S next:=TPtr b 0]> (<[next:=TFun wname]> tenv)) Hsome) as (tenv' & Hbind & Ha & Hx).
  unfold type. rewrite Hbind. simpl. exists tenv', (kill (length mem) mem'). split_and!; [done| | |done].
  - intros v Hv. rewrite Ha by lia. by lookups.
  - by apply mem_le_kill.
Qed.

(** A call through a function pointer. *)
Lemma pointer_call_run callee op args f name targs next tenv mem w r w' out rt :
  (base ≤ length mem)%nat → tenv !! callee = Some (TFun name) → P !! name = Some f →
  rt = returnType (kType f) → packedResultType (resultTypes op) = Some rt → params (kType f) = argTypes op →
  valuesOf tenv args = Some targs →
  (∃ sargs, Forall2 (Rel mem) sargs targs ∧ cs name sargs w = Some (r, w') ∧
     (isTail (tailKind op) = true → Forall (fun s => is_Some (plain s)) sargs)) →
  unpackData (length (resultTypes op)) r = Some out →
  let type := mkFunctionType rt (argTypes op) in
  ∃ tenv' mem', steps prim M (callT prim M (S k)) base
      [CallOp (callResult type next) type (Pointer callee) args (tailKind op) []] (tenv, mem, w)
        = Some (tenv', mem', w') ∧
    agree next tenv tenv' ∧ mem_le mem mem' ∧
    ∀ x, callResult type next = Some x → (x < S next)%nat ∧ ∃ d, r = Some d ∧ tenv' !! x = Some (embed d).
Proof.
  intros Hbase Hcal HP Hrt Hres Hps Hargs (sargs & Hsargs & Hcall & Htail) Hout type.
  assert (is_Some rt → is_Some r) as Hsome by (intros; by eapply packed_result).
  destruct (HM _ _ HP) as (fl & Hfl & Hflt). remember (callT prim M (S k)) as ct eqn:Ect. cbn [steps step]. simpl. rewrite Hcal. simpl. rewrite Hfl. simpl.
  rewrite bool_decide_eq_true_2 by (unfold type; rewrite Hflt, Hrt, <- Hps; by destruct (kType f)).
  rewrite Hargs. simpl.
  set (seen := if isTail (tailKind op) then kill base mem else mem).
  assert (Forall2 (Rel seen) sargs targs) as Hseen.
  { unfold seen. destruct (isTail (tailKind op)); [|done]. specialize (Htail eq_refl).
    clear -Hsargs Htail. induction Hsargs; inversion_clear Htail; constructor; [by eapply rel_plain|auto]. }
  destruct (Hcs1 _ _ _ _ _ _ seen Hcall Hseen) as (mem' & Hct & Hle). rewrite Hct. simpl.
  destruct (bindCall_run rt (argTypes op) next r tenv Hsome) as (tenv' & Hbind & Ha & Hx).
  assert (bindCall (callResult type next) (embed <$> r) tenv = Some tenv') as ->.
  { rewrite <- Hbind. unfold type, callResult. simpl. by destruct rt. }
  simpl. exists tenv', (if isTail (tailKind op) then restore base mem mem' else mem').
  split_and!; [done|done| |done]. unfold seen in Hle. destruct (isTail (tailKind op)); [|done].
  by apply restore_le.
Qed.

Lemma CallIndirect_sim op callee args c sargs actuals name r w w1 out next st ops ends vals next' st' tenv mem tc targs :
  resolve P op c sargs = Some (name, actuals) → targetCABI op = false →
  cs name actuals w = Some (r, w1) → unpackData (length (resultTypes op)) r = Some out →
  CallIndirect_matchAndRewrite op callee args next st = Some (Success (ops, ends, vals, next', st')) →
  tenv !! callee = Some tc → Rel mem c tc → (callee < next)%nat →
  valuesOf tenv args = Some targs → Forall2 (Rel mem) sargs targs → (∀ v, v ∈ args → (v < next)%nat) →
  (base ≤ length mem)%nat →
  ∃ tenv' mem', steps prim M (callT prim M (S k)) base ops (tenv, mem, w) = Some (tenv', mem', w1) ∧
    agree next tenv tenv' ∧ mem_le mem mem' ∧ (next ≤ next')%nat ∧ ends = [] ∧
    Forall2 (fun s v => (v < next')%nat ∧ ∃ t, tenv' !! v = Some t ∧ Rel mem' s t) (map SPlain out) vals.
Proof.
  intros Hres HC Hcall Hout Hm Hcal Hc Hclt Hargs Hsargs Hlt Hbase.
  unfold CallIndirect_matchAndRewrite in Hm. rewrite HC in Hm.
  destruct (packedResultType (resultTypes op)) as [rt|] eqn:Hrt; [|done]. simpl in Hm.
  unfold resolve in Hres. destruct c as [[|fn|]|fn ins outs caps]; try done.
  - apply bind_Some in Hres as (f & HP & Hres).
    destruct (targetCapturing op); [done|]. simpl in Hres.
    case_bool_decide as Hsig; [|done]. destruct Hsig as [Hret Hps]. simpl in Hres.
    destruct (_ || _) eqn:Htail; [|done]. injection Hres as <- <-. simpl in Hc. subst tc.
    destruct (unpackResults _ _ _) as [[[[ins vals'] nx]|]|] eqn:Hu; [|done..]. injection Hm as <- <- <- <- <-.
    destruct (pointer_call_run callee op args f fn targs next tenv mem w r w1 out rt)
      as (tenv1 & mem1 & Hs & Ha & Hle & Hx); try done; [congruence| |].
    { exists sargs. split_and!; [done..|]. intros Ht. rewrite Ht in Htail. simpl in Htail.
      apply Forall_forall. intros s Hin. apply list_elem_of_In in Hin.
      apply forallb_forall with (x := s) in Htail; [|done]. by bool_to_prop. }
    destruct (unpackResults_run (callT prim M (S k)) base _ _ _ _ _ _ _ _ tenv1 mem1 w1 Hout Hu Hx)
      as (tenv2 & Hs2 & Ha2 & Hn & Hv).
    exists tenv2, mem1. change (?a :: ins) with ([a] ++ ins)%list.
    rewrite steps_app, Hs. simpl. split_and!; try done; [|lia].
    intros v Hv'. rewrite Ha2 by lia. by apply Ha.
  - destruct (targetCapturing op); [|done]. simpl in Hres.
    case_bool_decide as Hsig; [|done]. destruct Hsig as [-> ->]. simpl in Hres.
    destruct (isTail (tailKind op)) eqn:Htail; [done|]. injection Hres as <- <-.
    destruct (mapM convertType (targetInputs op)) as [insT|] eqn:Hins; [|done]. simpl in Hm.
    destruct (unpackResults _ _ _) as [[[[ins vals'] nx]|]|] eqn:Hu; [|done..]. injection Hm as <- <- <- <- <-.
    destruct (closure_call_run callee op caps args (targetInputs op) fn tc targs rt insT next tenv mem w r w1 out)
      as (tenv1 & mem1 & Hs & Ha & Hle & Hx); try done; [by exists sargs|].
    destruct (unpackResults_run (callT prim M (S k)) base _ _ _ _ _ _ _ _ tenv1 mem1 w1 Hout Hu Hx)
      as (tenv2 & Hs2 & Ha2 & Hn & Hv).
    exists tenv2, mem1. change (?a :: ?b :: ?c :: ins) with ([a; b; c] ++ ins)%list.
    rewrite steps_app, Hs. simpl. split_and!; try done; [|lia].
    intros v Hv'. rewrite Ha2 by lia. by apply Ha.
Qed.

(** ** Sequences of operations *)

Lemma lowerOp_extends op vmap next st code ends vmap' next' st' :
  lowerOp op vmap next st = Some (Success (code, ends, vmap', next', st')) → extends st st'.
Proof.
  destruct op as [rs opc vs|r op|rs op]; cbn [lowerOp].
  - destruct (mapM _ vs); [|done]. simpl. destruct (bindResults _ _ _); [|done]. by intros [= <- <- <- <- <-].
  - destruct (mapM _ _) as [cvs|]; [|done]. simpl.
    destruct (CreateClosure_matchAndRewrite _ _ _ _) as [[[[[[ops en] vals] nx] s1]|]|] eqn:Hm; [|done..]. simpl.
    destruct (bindResults _ _ _); [|done]. intros [= <- <- <- <- <-]. by eapply CreateClosure_extends.
  - destruct (vmap !! target op) as [c|]; [|done]. simpl. destruct (mapM _ _) as [args|]; [|done]. simpl.
    destruct (CallIndirect_matchAndRewrite _ _ _ _ _) as [[[[[[ops en] vals] nx] s1]|]|] eqn:Hm; [|done..]. simpl.
    destruct (bindResults _ _ _); [|done]. intros [= <- <- <- <- <-]. revert Hm.
    unfold CallIndirect_matchAndRewrite. destruct (packedResultType _) as [rt|]; [|done]. cbn [mbind Lower_bind need ret].
    destruct (targetCABI op); [|destruct (targetCapturing op)].
    + destruct rt; [|by intros [= <- <- <- <- <-]].
      match goal with |- context [must ?o] => destruct o end; [|done]. simpl.
      destruct (extractReturn _ _ _ _) as [[? ?] ?]. destruct (_ =? 1)%nat; [|done].
      by intros [= <- <- <- <- <-].
    + destruct (mapM _ _); [|done]. simpl. destruct (unpackResults _ _ _) as [[[[? ?] ?]|]|]; [|done..].
      by intros [= <- <- <- <- <-].
    + destruct (unpackResults _ _ _) as [[[[? ?] ?]|]|]; [|done..]. by intros [= <- <- <- <- <-].
Qed.

Lemma lowerOps_extends ops vmap next st code ends vmap' next' st' :
  lowerOps ops vmap next st = Some (Success (code, ends, vmap', next', st')) → extends st st'.
Proof.
  revert vmap next st code ends. induction ops as [|op ops IH]; intros vmap next st code ends; simpl.
  { by intros [= <- <- <- <- <-]. }
  destruct (lowerOp op vmap next st) as [[[[[[c1 e1] vm1] n1] s1]|]|] eqn:H1; [|done..]. simpl.
  destruct (lowerOps ops vm1 n1 s1) as [[[[[[c2 e2] vm2] n2] s2]|]|] eqn:H2; [|done..]. simpl.
  intros [= <- <- <- <- <-]. transitivity s1; [by eapply lowerOp_extends|by eapply IH].
Qed.

Lemma lowerOp_sim op vmap next st code ends vmap' next' st' senv senv' tenv mem w w' :
  sourceOp prim P cs op senv w = Some (senv', w') →
  lowerOp op vmap next st = Some (Success (code, ends, vmap', next', st')) →
  symOK st → inserted st' → EnvRel vmap next senv tenv mem → (base ≤ length mem)%nat →
  ∃ tenv' mem', steps prim M (callT prim M (S k)) base code (tenv, mem, w) = Some (tenv', mem', w') ∧
    EnvRel vmap' next' senv' tenv' mem' ∧ mem_le mem mem' ∧ (next ≤ next')%nat ∧ agree next tenv tenv' ∧
    Forall (endOK base tenv' mem' next') ends.
Proof.
  intros Hsrc Hl Hsym Hin Henv Hbase. destruct op as [rs opc vs|r op|rs op]; cbn [sourceOp lowerOp] in Hsrc, Hl.
  - apply bind_Some in Hsrc as (vals & Hvals & Hsrc). apply bind_Some in Hsrc as (ds & Hds & Hsrc).
    apply bind_Some in Hsrc as ([out w1] & Hprim & Hsrc). apply bind_Some in Hsrc as (senv1 & Hb & [= <- <-]).
    destruct (mapM (fun v => vmap !! v) vs) as [vs'|] eqn:Hvs; [|done]. simpl in Hl.
    destruct (bindResults vmap rs _) as [vm1|] eqn:Hvm; [|done]. injection Hl as <- <- <- <- <-.
    destruct (EnvRel_values _ _ _ _ _ _ _ _ Henv Hvals Hvs) as (ts & Hts & Hr & _).
    pose proof (bindResults_length _ _ _ _ Hb) as Hlen. rewrite length_map in Hlen.
    destruct (bindResults_seq tenv next (map embed out)) as (tenv' & Hbt & Hlow & Hnew).
    rewrite length_map in Hbt. exists tenv', mem. simpl. rewrite Hts. simpl.
    rewrite (plain_values _ _ _ _ Hds Hr). simpl. rewrite Hprim. simpl. rewrite Hlen, Hbt. simpl.
    split_and!; [done| |done|lia|done|constructor]. rewrite <- Hlen.
    eapply EnvRel_bind; [|exact Hb|exact Hvm|].
    + eapply EnvRel_mono; [exact Henv|lia|done|done].
    + apply Forall2_same_length_lookup_2; [by rewrite length_map, length_seq|].
      intros i s v Hs Hv. apply lookup_seq in Hv as [-> Hi]. rewrite lookup_map in Hs.
      apply fmap_Some in Hs as (d & Hd & ->). split; [lia|]. exists (embed d). split; [|done].
      apply Hnew. by rewrite lookup_map, Hd.
  - apply bind_Some in Hsrc as (caps & Hcaps & Hsrc). apply bind_Some in Hsrc as (c & Hc & Hsrc).
    apply bind_Some in Hsrc as (senv1 & Hb & [= <- <-]).
    destruct (mapM (fun v => vmap !! v) _) as [cvs|] eqn:Hcvs; [|done]. simpl in Hl.
    destruct (CreateClosure_matchAndRewrite _ _ _ _) as [[[[[[ops en] vals] nx] s1]|]|] eqn:Hm; [|done..].
    simpl in Hl. destruct (bindResults vmap _ vals) as [vm1|] eqn:Hvm; [|done]. injection Hl as <- <- <- <- <-.
    destruct (EnvRel_values _ _ _ _ _ _ _ _ Henv Hcaps Hcvs) as (ts & Hts & Hr & Hlt).
    pose proof (mapM_len _ _ _ Hcaps) as Hlen.
    destruct (CreateClosure_sim (callT prim M (S k)) base op caps cvs c next st ops en vals nx s1 tenv mem ts w)
      as (tenv' & mem' & Hs & Ha & Hle & Hn & Hv & He); try done.
    exists tenv', mem'. split_and!; try done. eapply EnvRel_bind; [|exact Hb|exact Hvm|exact Hv].
    by eapply EnvRel_mono.
  - destruct (targetCABI op) eqn:HC; [done|].
    apply bind_Some in Hsrc as (c & Hc & Hsrc). apply bind_Some in Hsrc as (sargs & Hsargs & Hsrc).
    apply bind_Some in Hsrc as ([name actuals] & Hres & Hsrc).
    apply bind_Some in Hsrc as ([r w1] & Hcall & Hsrc). apply bind_Some in Hsrc as (out & Hout & Hsrc).
    apply bind_Some in Hsrc as (senv1 & Hb & [= <- <-]).
    destruct (vmap !! target op) as [callee|] eqn:Hcal; [|done]. simpl in Hl.
    destruct (mapM (fun v => vmap !! v) _) as [args|] eqn:Hargs; [|done]. simpl in Hl.
    destruct (CallIndirect_matchAndRewrite _ _ _ _ _) as [[[[[[ops en] vals] nx] s1]|]|] eqn:Hm; [|done..].
    simpl in Hl. destruct (bindResults vmap rs vals) as [vm1|] eqn:Hvm; [|done]. injection Hl as <- <- <- <- <-.
    destruct (EnvRel_values _ _ _ _ _ _ _ _ Henv Hsargs Hargs) as (ts & Hts & Hr & Hlt).
    destruct (Henv _ _ Hc) as (callee' & tc & Hc' & Hclt & Htc & Hrc). rewrite Hcal in Hc'. injection Hc' as <-.
    destruct (CallIndirect_sim op callee args c sargs actuals name r w w1 out next st ops en vals nx s1 tenv mem tc ts)
      as (tenv' & mem' & Hs & Ha & Hle & Hn & -> & Hv); try done.
    exists tenv', mem'. split_and!; try done.
    eapply EnvRel_bind; [|exact Hb|exact Hvm|exact Hv]. by eapply EnvRel_mono.
Qed.

Lemma lowerOps_sim ops vmap next st code ends vmap' next' st' senv senv' tenv mem w w' :
  sourceOps prim P cs ops senv w = Some (senv', w') →
  lowerOps ops vmap next st = Some (Success (code, ends, vmap', next', st')) →
  symOK st → inserted st' → EnvRel vmap next senv tenv mem → (base ≤ length mem)%nat →
  ∃ tenv' mem', steps prim M (callT prim M (S k)) base code (tenv, mem, w) = Some (tenv', mem', w') ∧
    EnvRel vmap' next' senv' tenv' mem' ∧ mem_le mem mem' ∧ (next ≤ next')%nat ∧ agree next tenv tenv' ∧
    Forall (endOK base tenv' mem' next') ends.
Proof.
  revert vmap next st code ends senv tenv mem w.
  induction ops as [|op ops IH]; intros vmap next st code ends senv tenv mem w Hsrc Hl Hsym Hin Henv Hbase;
    cbn [sourceOps lowerOps] in Hsrc, Hl.
  { injection Hsrc as <- <-. injection Hl as <- <- <- <- <-. exists tenv, mem. by split_and!. }
  apply bind_Some in Hsrc as ([senv1 w1] & Hsrc1 & Hsrc).
  destruct (lowerOp op vmap next st) as [[[[[[c1 e1] vm1] n1] s1]|]|] eqn:H1; [|done..]. simpl in Hl.
  destruct (lowerOps ops vm1 n1 s1) as [[[[[[c2 e2] vm2] n2] s2]|]|] eqn:H2; [|done..]. injection Hl as <- <- <- <- <-.
  destruct (lowerOp_sim op vmap next st c1 e1 vm1 n1 s1 senv senv1 tenv mem w w1)
    as (tenv1 & mem1 & Hs1 & Henv1 & Hle1 & Hn1 & Ha1 & He1); try done.
  { eapply inserted_extends; [by eapply lowerOps_extends|done]. }
  destruct (IH vm1 n1 s1 c2 e2 senv1 tenv1 mem1 w1)
    as (tenv2 & mem2 & Hs2 & Henv2 & Hle2 & Hn2 & Ha2 & He2); try done.
  { eapply extends_symOK; [by eapply lowerOp_extends|done]. }
  { destruct Hle1. lia. }
  exists tenv2, mem2. rewrite steps_app, Hs1. split_and!; [exact Hs2|done|by etransitivity|lia| |].
  - intros v Hv. rewrite Ha2 by lia. by apply Ha1.
  - apply Forall_app. split; [|done]. eapply Forall_impl; [exact He1|]. intros. by eapply endOK_mono.
Qed.

Lemma ends_run call tenv mem next ends w : Forall (endOK base tenv mem next) ends →
  ∃ mem', steps prim M call base ends (tenv, mem, w) = Some (tenv, mem', w) ∧ length mem' = length mem ∧
    ∀ b, (b < base)%nat → mem' !! b = mem !! b.
Proof.
  intros H. revert mem H. induction ends as [|i ends IH]; intros mem H.
  { by exists mem. }
  inversion_clear H as [|? ? (e & b & -> & _ & He & Hb) Hrest]. simpl. rewrite He.
  destruct (lookup_lt_is_Some_2 mem b ltac:(lia)) as [blk Hblk]. rewrite Hblk. simpl.
  destruct (IH (<[b := dead blk]> mem)) as (mem' & Hs & Hl & Hlow).
  - eapply Forall_impl; [exact Hrest|]. intros j (e' & b' & -> & H1 & H2 & H3). exists e', b'.
    by rewrite length_insert.
  - exists mem'. rewrite length_insert in Hl. split_and!; [done|done|].
    intros b' Hb'. rewrite Hlow by done. by rewrite list_lookup_insert_ne by lia.
Qed.

End Op.

(** ** Functions and the module *)

Lemma lowerFunction_inv f st fl st' :
  lowerFunction f st = Some (Success (fl, st')) →
  ∃ code ends vmap next operands,
    lowerOps (kOps f) (list_to_map (zip (seq 0 (length (params (kType f)))) (seq 0 (length (params (kType f))))))
      (length (params (kType f))) st = Some (Success (code, ends, vmap, next, st')) ∧
    mapM (fun v => vmap !! v) (option_list (kReturn f)) = Some operands ∧
    fl = mkLLVMFuncOp (kName f) (kType f) false None (code ++ ends ++ [ReturnOp operands])%list.
Proof.
  unfold lowerFunction. destruct (lowerOps _ _ _ _) as [[[[[[code ends] vmap] next] st1]|]|] eqn:Hl; [|done..]. simpl.
  destruct (mapM _ _) as [operands|] eqn:Ho; [|done]. intros [= <- <-]. eauto 8.
Qed.

Lemma EnvRel_entry args targs mem : Forall2 (Rel mem) args targs →
  EnvRel (list_to_map (zip (seq 0 (length args)) (seq 0 (length args)))) (length args)
    (entryEnv args) (entryEnv targs) mem.
Proof.
  intros H v s Hv. rewrite entryEnv_lookup in Hv. pose proof (lookup_lt_Some _ _ _ Hv) as Hlt.
  destruct (Forall2_lookup_l _ _ _ _ _ H Hv) as (t & Ht & Hr). exists v, t. split_and!; [|done| |done].
  - pose proof (zip_seq_lookup (seq 0 (length args)) 0 v) as Hz. rewrite length_seq in Hz. rewrite Hz.
    rewrite decide_True by lia. apply lookup_seq. lia.
  - by rewrite entryEnv_lookup.
Qed.

Section Program.
Hypothesis Hlowered : ∀ name f, P !! name = Some f → ∃ fl st st',
  lowerFunction f st = Some (Success (fl, st')) ∧ symOK st ∧ inserted st' ∧ M !! name = Some fl.

Lemma lowered_type name f : P !! name = Some f → ∃ fl, M !! name = Some fl ∧ funcType fl = kType f.
Proof.
  intros H. destruct (Hlowered name f H) as (fl & st & st' & Hl & _ & _ & Hfl). exists fl. split; [done|].
  apply lowerFunction_inv in Hl as (? & ? & ? & ? & ? & _ & _ & ->). done.
Qed.

(** With twice the fuel, as a closure's call goes through its wrapper. *)
Lemma call_sim n k : (2 * n ≤ k)%nat → CallSim (callS prim P n) (callT prim M k).
Proof.
  revert k. induction n as [|n IH]; intros k Hk; [done|]. destruct k as [|[|k]]; [lia..|].
  intros name args targs w r w' mem Hcall Hargs. cbn [callS] in Hcall.
  apply bind_Some in Hcall as (f & HP & Hcall). case_bool_decide as Har; [|done].
  apply bind_Some in Hcall as ([senv w1] & Hops & Hret).
  destruct (Hlowered _ _ HP) as (fl & st & st' & Hl & Hsym & Hins & Hfl).
  apply lowerFunction_inv in Hl as (code & ends & vmap & next & operands & Hlo & Hoper & Hfleq).
  rewrite <- Har in Hlo. pose proof (Forall2_length _ _ _ Hargs) as Hla.
  destruct (lowerOps_sim lowered_type k (callS prim P n)) with (base := length mem) (mem := mem) (tenv := entryEnv targs)
    (ops := kOps f) (vmap := (list_to_map (zip (seq 0 (length args)) (seq 0 (length args))) : gmap V V))
    (next := length args) (st := st) (code := code) (ends := ends) (vmap' := vmap) (next' := next) (st' := st')
    (senv := entryEnv args) (senv' := senv) (w := w) (w' := w1) as (tenv' & mem1 & Hs & Henv & Hle & Hn & Ha & He);
    try done.
  { clear. intros name args w x Hc. destruct n as [|n]; [done|]. cbn [callS] in Hc.
    apply bind_Some in Hc as (f & Hf & Hc). case_bool_decide; [|done]. eauto. }
  { apply IH. lia. }
  { apply IH. lia. }
  { by apply EnvRel_entry. }
  destruct (ends_run (length mem) (callT prim M (S k)) tenv' mem1 next ends w1 He) as (mem2 & Hs2 & Hl2 & Hlow2).
  remember (S k) as k1 eqn:Ek. cbn [callT]. rewrite Hfl. simpl. subst fl. simpl.
  rewrite bool_decide_eq_true_2 by congruence.
  rewrite (run_app _ _ _ _ _ _ _ _ Hs), (run_app _ _ _ _ _ _ _ _ Hs2). simpl.
  assert (mem_le mem (kill (length mem) mem2)) as Hkill.
  { destruct Hle as [Hle1 Hle2]. split; [rewrite kill_length; lia|]. intros b blk Hb Halive.
    pose proof (lookup_lt_Some _ _ _ Hb). rewrite kill_lookup, Hlow2 by done. auto. }
  destruct (kReturn f) as [v|]; simpl in Hoper.
  - apply bind_Some in Hret as (s & Hv & Hret). apply bind_Some in Hret as (d & Hd & [= <- <-]).
    destruct (Henv _ _ Hv) as (v' & t & Hv' & _ & Ht & Hr). rewrite Hv' in Hoper. injection Hoper as <-.
    rewrite Ht. simpl. destruct s; simplify_eq/=. by eexists.
  - injection Hoper as <-. injection Hret as <- <-. by eexists.
Qed.
End Program.

End Sim.
End ClosureCorrect.
