(* ===== verification/ClosureProps.v ===== *)
(** What the lowering of closures guarantees for whole modules, and where the
    environment of a closure is already dead. *)
From stdpp Require Import infinite.
From S2P Require Import Prelude LLVMSupport LLVMTypes DataLayout TypeConverter ClosureLowering ClosureSem ClosureFacts ClosureCorrect.

Module ClosureProps.
Import ClosureLowering ClosureSem ClosureFacts ClosureCorrect.

Section Module.
Context {LM : LLVMMath} {TD : TargetDataLayout} {KL : KGENLayout} {CS : ClosureSupport}.
Context {W : Type} (prim : nat → list Data → W → option (list Data * W)).

Lemma map_pair_keys {A} (key : A → string) fs : (map (fun f => (key f, f)) fs).*1 = map key fs.
Proof. induction fs as [|f fs IH]; [done|]. simpl. f_equal. exact IH. Qed.

Lemma by_name {A} (key : A → string) fs f : NoDup (map key fs) →
  f ∈ fs → (list_to_map (map (fun f => (key f, f)) fs) : gmap string A) !! key f = Some f.
Proof.
  intros Hnd Hf. apply elem_of_list_to_map_1; [by rewrite map_pair_keys|].
  apply list_elem_of_fmap. by exists f.
Qed.

Lemma by_name_inv {A} (key : A → string) fs name f :
  (list_to_map (map (fun f => (key f, f)) fs) : gmap string A) !! name = Some f → f ∈ fs ∧ key f = name.
Proof.
  intros H. apply elem_of_list_to_map_2 in H. apply list_elem_of_fmap in H as (f' & [= -> ->] & Hf). done.
Qed.

Lemma initialSymbols_OK others fs : NoDup (map kName fs) →
  symOK (sourceFunctions fs) (mkConvState (initialSymbols others fs) [] 0).
Proof.
  intros Hnd name f Hf. apply by_name_inv in Hf as [Hf <-]. simpl. unfold initialSymbols.
  apply lookup_union_Some_l, elem_of_list_to_map_1.
  - replace (map _ fs).*1 with (map kName fs); [done|].
    clear. induction fs as [|f fs IH]; [done|]. simpl. f_equal. exact IH.
  - apply list_elem_of_fmap. by exists f.
Qed.

Lemma lowerFunctions_inv fs st lowered st' :
  lowerFunctions fs st = Some (Success (lowered, st')) →
  extends st st' ∧ map symName lowered = map kName fs ∧
  ∀ f, f ∈ fs → ∃ fl s s', fl ∈ lowered ∧ symName fl = kName f ∧
    lowerFunction f s = Some (Success (fl, s')) ∧ extends st s ∧ extends s' st'.
Proof.
  revert st lowered. induction fs as [|f fs IH]; intros st lowered; simpl.
  { intros [= <- <-]. split; [apply rtc_refl|]. split; [done|]. intros f Hf. by apply not_elem_of_nil in Hf. }
  destruct (lowerFunction f st) as [[[fl s1]|]|] eqn:Hf; [|done..]. simpl.
  destruct (lowerFunctions fs s1) as [[[fls s2]|]|] eqn:Hfs; [|done..]. intros [= <- <-].
  destruct (IH _ _ Hfs) as (He & Hnames & Hall).
  pose proof Hf as Hinv. apply lowerFunction_inv in Hinv as (code & ends & vmap & next & ops & Hl & _ & ->).
  apply lowerOps_extends in Hl. split; [by etransitivity|]. split; [by rewrite <- Hnames|].
  intros g [->|Hg]%elem_of_cons.
  - eexists _, st, s1. split; [by left|]. split_and!; [done|done|apply rtc_refl|done].
  - destruct (Hall g Hg) as (gl & s & s' & Hin & Hn & Hlg & H1 & H2). exists gl, s, s'.
    split; [by right|]. split_and!; [done|done| |done]. by etransitivity.
Qed.

(** The converted module has the source's functions under their names, and its
    symbols are distinct. *)
Lemma converted_module hasTargetInfo others fs M : NoDup (map kName fs) →
  runOnOperation hasTargetInfo others fs = Some (Success M) →
  NoDup (map symName M) ∧
  ∀ name f, sourceFunctions fs !! name = Some f → ∃ fl st st',
    lowerFunction f st = Some (Success (fl, st')) ∧ symOK (sourceFunctions fs) st ∧
    inserted (targetFunctions M) st' ∧ targetFunctions M !! name = Some fl.
Proof.
  intros Hnd Hrun. unfold runOnOperation in Hrun. destruct hasTargetInfo; [|done]. simpl in Hrun.
  set (st0 := mkConvState _ _ _) in Hrun.
  destruct (lowerFunctions fs st0) as [[[lowered st]|]|] eqn:Hl; [|done..]. injection Hrun as <-.
  pose proof (initialSymbols_OK others fs Hnd) as Hsym. fold st0 in Hsym.
  apply lowerFunctions_inv in Hl as (He & Hnames & Hall).
  assert (wrapperNames st0 st) as (_ & Hw & Hwnd).
  { eapply extends_names; [exact He|]. split_and!; [done| |constructor]. intros f Hf. by apply not_elem_of_nil in Hf. }
  assert (∀ f, f ∈ fs → kName f ∈ dom (symtab st0)) as Hdom.
  { intros f Hf. apply elem_of_dom. rewrite (Hsym (kName f) f); [done|]. by apply by_name. }
  assert (NoDup (map symName (lowered ++ wrappers st))) as HND.
  { rewrite map_app. apply NoDup_app. split; [by rewrite Hnames|]. split; [|done].
    intros x Hx (f & -> & Hf)%list_elem_of_fmap. rewrite Hnames in Hx.
    apply list_elem_of_fmap in Hx as (g & Hg & Hgin). destruct (Hw f Hf) as [_ Hn]. apply Hn. rewrite Hg. auto. }
  split; [exact HND|]. intros name f Hf. apply by_name_inv in Hf as [Hf <-].
  destruct (Hall f Hf) as (fl & s & s' & Hin & Hn & Hlf & H1 & H2). exists fl, s, s'. split_and!.
  - done.
  - by eapply extends_symOK.
  - intros w Hwin. apply by_name; [done|]. apply elem_of_app. right.
    clear -H2 Hwin. induction H2 as [|s1 s2 s3 [? ? ? ? _ _] _ IH]; [done|]. apply IH. simpl.
    apply elem_of_app. by left.
  - rewrite <- Hn. apply by_name; [done|]. apply elem_of_app. by left.
Qed.

Lemma callT_dead program n name args mem w r mem' w' :
  callT prim program n name args mem w = Some (r, mem', w') →
  Forall (fun b => alive b = false) (drop (length mem) mem').
Proof.
  destruct n as [|n]; [done|]. cbn [callT]. intros H. apply bind_Some in H as (f & _ & H).
  case_bool_decide; [|done]. apply bind_Some in H as ([[r1 m1] w1] & _ & [= _ <- _]).
  apply Forall_lookup. intros i b Hb. rewrite lookup_drop in Hb. unfold kill in Hb.
  rewrite list_lookup_imap in Hb. apply fmap_Some in Hb as (b1 & _ & ->).
  by rewrite (proj2 (Nat.ltb_ge _ _)) by lia.
Qed.


(** ** The life of an environment *)

Lemma wrapper_needs_env program k wname fw name ft ty tys arity b blk mem args w :
  program !! wname = Some fw → bodyOps fw = wrapperBody (ty :: tys) arity name ft →
  mem !! b = Some blk → alive blk = false →
  callT prim program k wname (TPtr b 0 :: args) mem w = None.
Proof.
  intros Hfw Hbody Hb Hdead. destruct k as [|k]; [done|]. cbn [callT]. rewrite Hfw. simpl.
  case_bool_decide; [|done]. rewrite Hbody. unfold wrapperBody.
  cbn [loadCaptures app run step]. rewrite entryEnv_lookup. simpl. rewrite Hb. simpl.
  case_bool_decide; simpl; [|done]. rewrite lookup_insert_eq. simpl. rewrite Hb. simpl. by rewrite Hdead.
Qed.

(** A closure with captures lives as long as the block that creates it, not
    as long as its uses: once the operations that the pass puts before the end of
    that block have run, a call of the closure loads from a dead object, which is
    undefined. The same holds within a call marked as a tail call, which may not
    see its caller's stack, although the pass passes the mark on to calls of
    closures. *)
Theorem closure_environment_lifetime call base op cvs next st ops ends c next' st' program env mem w ts :
  captures op ≠ [] →
  CreateClosure_matchAndRewrite op cvs next st = Some (Success (ops, ends, [c], next', st')) →
  length (captureTypes op) = length (captures op) → inserted program st' →
  valuesOf env cvs = Some ts → length cvs = length (captures op) → (∀ v, v ∈ cvs → (v < next)%nat) →
  (base ≤ length mem)%nat →
  ∃ env' mem' mem'' wname b,
    steps prim program call base ops (env, mem, w) = Some (env', mem', w) ∧
    env' !! c = Some (TStruct [Some (TFun wname); Some (TPtr b 0)]) ∧
    steps prim program call base ends (env', mem', w) = Some (env', mem'', w) ∧
    ∀ k args w,
      callT prim program k wname (TPtr b 0 :: args) mem'' w = None ∧
      callT prim program k wname (TPtr b 0 :: args) (kill base mem') w = None.
Proof.
  intros Hne Hm Hct Hin Hts Hcv Hlt Hbase.
  assert (negb (isCapturing op) && bool_decide (captures op = []) = false) as Hc.
  { rewrite bool_decide_eq_false_2 by done. apply andb_false_r. }
  destruct (CreateClosure_inv _ _ _ _ _ _ _ _ _ Hc Hm)
    as (insT & r & wname & tys & fw & name & ft & c' & _ & _ & _ & Htys & _ & _ & _ & Hn & _ & Hbody & Hgen & [= <-] & ->).
  pose proof (mapM_len _ _ _ Htys) as Hl. pose proof (mapM_len _ _ _ Hts) as Hl2.
  destruct (generateClosureStruct_run prim program call base wname tys _ cvs next env mem w ts ops ends c next' Hgen)
    as (env' & e & Hs & Hcl & _ & -> & He & _ & _ & _); [done..|lia|done|].
  assert (program !! wname = Some fw) as Hfw.
  { rewrite <- Hn. apply Hin. simpl. by apply elem_of_app; right; left. }
  specialize (Hbody ltac:(lia)). destruct tys as [|ty tys].
  { destruct (captures op); [done|]. simpl in *. lia. }
  eexists env', _, _, wname, (length mem). split; [exact Hs|]. split; [exact Hcl|]. split.
  { simpl. rewrite He. rewrite list_lookup_middle by done. simpl. done. }
  intros k args w'. split.
  - eapply wrapper_needs_env; [exact Hfw|exact Hbody| |].
    + apply list_lookup_insert_eq. rewrite length_app. simpl. lia.
    + done.
  - eapply wrapper_needs_env; [exact Hfw|exact Hbody| |].
    + unfold kill. rewrite list_lookup_imap, list_lookup_middle by done. simpl.
      rewrite (proj2 (Nat.ltb_ge _ _)) by lia. done.
    + done.
Qed.

(** A parameter whose type does not convert: the wrapper is null, and inserting
    it into the symbol table fails. *)
Lemma wrapper_conversion_crashes op cvs next st :
  captures op ≠ [] → (length (captures op) ≤ length (calleeInputs op))%nat →
  mapM convertType (drop (length (captures op)) (calleeInputs op)) = None →
  generateWrapperFunction op (nameIndex st) = ret None ∧
  CreateClosure_matchAndRewrite op cvs next st = crash.
Proof.
  intros Hne Hle Hconv. unfold CreateClosure_matchAndRewrite.
  rewrite bool_decide_eq_false_2, andb_false_r by done. unfold generateWrapperFunction.
  by rewrite (proj2 (Nat.ltb_ge _ _)), Hconv by lia.
Qed.

End Module.

(** ** A module *)

#[local] Existing Instance llvm_math.
#[local] Existing Instance x86_64_layout.
#[local] Existing Instance natural_kgen_layout.

Definition pack_c (rs : list KTy) : option Ty :=
  tys ← mapM convertType rs; match tys with [t] => Some t | _ => Some (LLVMStructType tys) end.
Definition uniqueName_c (used : gset string) (name : string) : string :=
  if decide (name ∈ used) then fresh used else name.
Lemma uniqueName_c_fresh used name : uniqueName_c used name ∉ used.
Proof. unfold uniqueName_c. case_decide; [apply is_fresh|done]. Qed.
Lemma uniqueName_c_free used name : name ∉ used → uniqueName_c used name = name.
Proof. intros H. unfold uniqueName_c. by rewrite decide_False. Qed.

(** Without a C ABI: its calls pass everything directly. *)
Definition closure_support : ClosureSupport := {|
  packFunctionResults := pack_c;
  uniqueName := uniqueName_c;
  uniqueName_fresh := uniqueName_c_fresh;
  uniqueName_free := uniqueName_c_free;
  prepareCall := fun tys args ret next => mkCABICallPrep [] args (mkFunctionType ret tys) false next;
  sretAttrs := fun _ _ => [];
  byvalAttrs := fun _ _ => [];
  extractReturn := fun _ raw _ next => ([], default O raw, next)
|}.
#[local] Existing Instance closure_support.

Definition i32 : Ty := IntegerType 32.
Definition kI32 : KTy := kInt 32.

(** [main(a)]: [let f = fn(x): a + x; f(f(a))]; an addition is written to the
    world. *)
Definition addPrim (opcode : nat) (ds : list Data) (w : list Z) : option (list Data * list Z) :=
  match ds with [DInt a; DInt b] => Some ([DInt (a + b)], (w ++ [a + b])%list) | _ => None end.
Definition addFunc : KFuncOp :=
  mkKFuncOp "add" (mkFunctionType (Some i32) [i32; i32]) [KOther [2] 0 [0; 1]]%nat (Some 2%nat).
Definition createAdd : CreateClosureOp :=
  mkCreateClosureOp true (FlatSymbolRef "add") [kI32; kI32] [kI32] [0%nat] [kI32] (Some "main") true.
Definition callAdd (v : V) : CallIndirectOp :=
  mkCallIndirectOp 1 true false [kI32] [v] [i32] [kI32] TailCallNone.
Definition mainFunc : KFuncOp :=
  mkKFuncOp "main" (mkFunctionType (Some i32) [i32])
    [KCreateClosure 1 createAdd; KCallIndirect [2%nat] (callAdd 0); KCallIndirect [3%nat] (callAdd 2)]
    (Some 3%nat).
Definition exampleModule : list KFuncOp := [addFunc; mainFunc].


Lemma closure_environment_lifetime_witness :
  ∃ ops ends st' env' mem' mem'' wname b,
    CreateClosure_matchAndRewrite createAdd [0%nat] 1
      (mkConvState (initialSymbols [] exampleModule) [] 0) = Some (Success (ops, ends, [7%nat], 8%nat, st')) ∧
    steps addPrim (targetFunctions (wrappers st')) (fun _ _ _ _ => None) 0 ops ({[0%nat := TInt 5]}, [], [])
      = Some (env', mem', []) ∧
    env' !! 7%nat = Some (TStruct [Some (TFun wname); Some (TPtr b 0)]) ∧
    steps addPrim (targetFunctions (wrappers st')) (fun _ _ _ _ => None) 0 ends (env', mem', [])
      = Some (env', mem'', []) ∧
    ∀ k args w,
      callT addPrim (targetFunctions (wrappers st')) k wname (TPtr b 0 :: args) mem'' w = None ∧
      callT addPrim (targetFunctions (wrappers st')) k wname (TPtr b 0 :: args) (kill 0 mem') w = None.
Proof.
  destruct (CreateClosure_matchAndRewrite createAdd [0%nat] 1 (mkConvState (initialSymbols [] exampleModule) [] 0))
    as [[[[[[ops ends] vals] next] st']|]|] eqn:Hm.
  2, 3: exfalso; vm_compute in Hm; discriminate.
  assert (vals = [7%nat] ∧ next = 8%nat) as [-> ->] by (vm_compute in Hm; by simplify_eq).
  destruct (@closure_environment_lifetime llvm_math x86_64_layout natural_kgen_layout closure_support (list Z) addPrim
      (fun _ _ _ _ => None) 0 createAdd [0%nat] 1 (mkConvState (initialSymbols [] exampleModule) [] 0)
      ops ends 7 8 st' (targetFunctions (wrappers st')) {[0%nat := TInt 5]} [] [] [TInt 5])
    as (env' & mem' & mem'' & wname & b & H).
  - discriminate.
  - exact Hm.
  - reflexivity.
  - intros f Hf. vm_compute in Hm. injection Hm as <- <- <-. simpl in Hf.
    apply list_elem_of_singleton in Hf as ->. vm_compute. reflexivity.
  - reflexivity.
  - reflexivity.
  - intros v Hv. apply list_elem_of_singleton in Hv as ->. lia.
  - simpl. lia.
  - exists ops, ends, st', env', mem', mem'', wname, b. split; [reflexivity|exact H].
Defined.

End ClosureProps.
