(* ===== verification/StringRef.v ===== *)
(** llvm::StringRef and std::filesystem::path as the modelled files use them:
    the StringRef methods are an interface whose laws give each method's
    documented result by a reference function on strings, with an executable
    instance; paths are strings joined by the standard library's rule. *)
From S2P Require Import Prelude.
From Stdlib Require Export Ascii String.

#[global] Open Scope string_scope.
#[global] Open Scope Z_scope.

#[global] Arguments String.append !_ _ : simpl nomatch.

(** ** Reference functions on strings *)

Definition charBetween (lo hi : nat) (c : ascii) : bool :=
  (lo <=? nat_of_ascii c)%nat && (nat_of_ascii c <=? hi)%nat.

Definition to_lower (c : ascii) : ascii :=
  if charBetween 65 90 c then ascii_of_nat (nat_of_ascii c + 32) else c.
Definition to_upper (c : ascii) : ascii :=
  if charBetween 97 122 c then ascii_of_nat (nat_of_ascii c - 32) else c.

Fixpoint string_map (f : ascii → ascii) (s : string) : string :=
  match s with "" => "" | String c s => String (f c) (string_map f s) end.

Fixpoint string_forall (p : ascii → bool) (s : string) : bool :=
  match s with "" => true | String c s => p c && string_forall p s end.

(** The part before the first character satisfying [p], and after it. *)
Fixpoint before (p : ascii → bool) (s : string) : string :=
  match s with "" => "" | String c s => if p c then "" else String c (before p s) end.
Fixpoint after (p : ascii → bool) (s : string) : option string :=
  match s with "" => None | String c s => if p c then Some s else after p s end.
Fixpoint indexOf (p : ascii → bool) (s : string) : option nat :=
  match s with "" => None | String c s => if p c then Some O else S <$> indexOf p s end.

Fixpoint string_take (n : nat) (s : string) : string :=
  match n, s with S n, String c s => String c (string_take n s) | _, _ => "" end.
Fixpoint string_drop (n : nat) (s : string) : string :=
  match n, s with S n, String _ s => string_drop n s | O, s => s | S _, "" => "" end.

Fixpoint dropLeading (p : ascii → bool) (s : string) : string :=
  match s with "" => "" | String c s' => if p c then dropLeading p s' else s end.
Fixpoint dropTrailing (p : ascii → bool) (s : string) : string :=
  match s with
  | "" => ""
  | String c s =>
      match dropTrailing p s with
      | "" => if p c then "" else String c ""
      | s => String c s
      end
  end.

Fixpoint stripPrefix (pre s : string) : option string :=
  match pre, s with
  | "", _ => Some s
  | String a pre, String c s => if Ascii.eqb a c then stripPrefix pre s else None
  | String _ _, "" => None
  end.

(** All the pieces between separators. *)
Fixpoint pieces (p : ascii → bool) (s : string) : list string :=
  match s with
  | "" => [""]
  | String c s =>
      if p c then "" :: pieces p s
      else match pieces p s with
           | [] => [String c ""]
           | x :: xs => String c x :: xs
           end
  end.

(** Around the first occurrence of a separator string. *)
Fixpoint splitAt (sep s : string) : option (string * string) :=
  match stripPrefix sep s with
  | Some r => Some ("", r)
  | None => match s with
            | "" => None
            | String c s => '(a, r) ← splitAt sep s; Some (String c a, r)
            end
  end.
Fixpoint piecesOn (fuel : nat) (sep s : string) : list string :=
  match fuel, splitAt sep s with
  | S fuel, Some (a, r) => a :: piecesOn fuel sep r
  | _, _ => [s]
  end.

(** At most [n] splits; the rest of the string is the last piece. *)
Fixpoint piecesMax (n : nat) (p : ascii → bool) (s : string) : list string :=
  match n, after p s with
  | S n, Some r => before p s :: piecesMax n p r
  | _, _ => [s]
  end.

Fixpoint countChar (c : ascii) (s : string) : nat :=
  match s with
  | "" => O
  | String d s => if Ascii.eqb c d then S (countChar c s) else countChar c s
  end.
Fixpoint lastIndexOf (c : ascii) (s : string) : option nat :=
  match s with
  | "" => None
  | String d s =>
      match lastIndexOf c s with
      | Some n => Some (S n)
      | None => if Ascii.eqb c d then Some O else None
      end
  end.

(** A suffix, and an occurrence anywhere. *)
Definition hasSuffix (suf s : string) : bool :=
  (String.length suf <=? String.length s)%nat
  && String.eqb (string_drop (String.length s - String.length suf) s) suf.
Definition hasInfix (sub s : string) : bool :=
  match splitAt sub s with Some _ => true | None => false end.

(** Decimal digits, without and with a sign. *)
Definition digitVal (c : ascii) : option Z :=
  if charBetween 48 57 c then Some (Z.of_nat (nat_of_ascii c) - 48) else None.
Fixpoint digitsVal (acc : Z) (s : string) : option Z :=
  match s with
  | "" => Some acc
  | String c s => d ← digitVal c; digitsVal (acc * 10 + d) s
  end.
Definition unsignedVal (s : string) : option Z :=
  match s with "" => None | _ => digitsVal 0 s end.
Definition signedVal (s : string) : option Z :=
  match s with
  | String "-" s => Z.opp <$> unsignedVal s
  | _ => unsignedVal s
  end.
(** The digits at the front, with or without a sign, and what follows. *)
Fixpoint digitsPrefix (acc : Z) (s : string) : Z * string :=
  match s with
  | "" => (acc, "")
  | String c s' => match digitVal c with Some d => digitsPrefix (acc * 10 + d) s' | None => (acc, s) end
  end.
Definition unsignedPrefix (s : string) : option (Z * string) :=
  match s with
  | "" => None
  | String c _ => _ ← digitVal c; Some (digitsPrefix 0 s)
  end.
Definition signedPrefix (s : string) : option (Z * string) :=
  match s with
  | String "-" s => '(v, r) ← unsignedPrefix s; Some (- v, r)
  | _ => unsignedPrefix s
  end.
Definition prefixInRange (lo hi : Z) (v : option (Z * string)) : option (Z * string) :=
  '(x, r) ← v; if (lo <=? x) && (x <? hi) then Some (x, r) else None.
Definition inRange (lo hi : Z) (v : option Z) : option Z :=
  x ← v; if (lo <=? x) && (x <? hi) then Some x else None.

Definition isEmpty (s : string) : bool := match s with "" => true | _ => false end.
Definition charIn (set : list ascii) (c : ascii) : bool := existsb (Ascii.eqb c) set.

(** The default set of [trim]: space and [\t\n\v\f\r]. *)
Definition whitespace : list ascii := [" "; "009"; "010"; "011"; "012"; "013"]%char.

(** ** The interface *)

Class StringRefOps := {
  lower : string → string;
  upper : string → string;
  trim : list ascii → string → string;
  take_until : (ascii → bool) → string → string;
  find_first_of : list ascii → string → option nat;
  take_front : string → nat → string;
  drop_front : string → nat → string;
  consume_front : string → string → option string;
  split : string → ascii → string * string;
  split_all : string → ascii → bool → list string;
  split_on : string → string → list string;
  split_max : string → ascii → nat → list string;
  count : string → ascii → nat;
  rfind : string → ascii → option nat;
  ends_with : string → string → bool;
  ends_with_insensitive : string → string → bool;
  contains : string → string → bool;
  find_string : string → string → option nat;
  getAsInteger_int : string → option Z;
  getAsInteger_size : string → option Z;
  consumeInteger_int64 : string → option (Z * string);
  (** "Convert the given ASCII string to lowercase / uppercase." *)
  lower_spec : ∀ s, lower s = string_map to_lower s;
  upper_spec : ∀ s, upper s = string_map to_upper s;
  (** "Return string with consecutive characters in Chars starting from the
      left and right removed." *)
  trim_spec : ∀ cs s, trim cs s = dropTrailing (charIn cs) (dropLeading (charIn cs) s);
  (** "Return the longest prefix of 'this' such that no character in the
      prefix satisfies the given predicate." *)
  take_until_spec : ∀ p s, take_until p s = before p s;
  (** "Find the first character in the string that is in Chars." *)
  find_first_of_spec : ∀ cs s, find_first_of cs s = indexOf (charIn cs) s;
  take_front_spec : ∀ s n, take_front s n = string_take n s;
  drop_front_spec : ∀ s n, drop_front s n = string_drop n s;
  (** "Returns true if this StringRef has the given prefix and removes that
      prefix." *)
  consume_front_spec : ∀ s pre, consume_front s pre = stripPrefix pre s;
  (** "Split into two substrings around the first occurrence of a separator";
      without one "the result is (LHS, '')". *)
  split_spec : ∀ s c, split s c =
    match after (Ascii.eqb c) s with
    | Some r => (before (Ascii.eqb c) s, r)
    | None => (s, "")
    end;
  (** "Split into substrings around the occurrences of a separator"; without
      [KeepEmpty] "empty strings will not be added". *)
  split_all_spec : ∀ s c keep, split_all s c keep =
    (if keep then pieces (Ascii.eqb c) s
     else List.filter (fun x => negb (isEmpty x)) (pieces (Ascii.eqb c) s));
  (** The same around a separator string, keeping empty pieces. *)
  split_on_spec : ∀ s sep, sep ≠ "" → split_on s sep = piecesOn (String.length s) sep s;
  (** "At most MaxSplit splits are done"; empty pieces are not added. *)
  split_max_spec : ∀ s c n, split_max s c n =
    List.filter (fun x => negb (isEmpty x)) (piecesMax n (Ascii.eqb c) s);
  (** "The number of occurrences of C"; "the index of the last occurrence". *)
  count_spec : ∀ s c, count s c = countChar c s;
  rfind_spec : ∀ s c, rfind s c = lastIndexOf c s;
  (** "Check if this string ends with the given Suffix", also "ignoring case";
      "return true if the given string is a substring of *this". *)
  ends_with_spec : ∀ s suf, ends_with s suf = hasSuffix suf s;
  ends_with_insensitive_spec : ∀ s suf,
    ends_with_insensitive s suf = hasSuffix (string_map to_lower suf) (string_map to_lower s);
  contains_spec : ∀ s sub, contains s sub = hasInfix sub s;
  (** [find] of a string: "the index of the first occurrence of Str". *)
  find_string_spec : ∀ s sub, find_string s sub = String.length ∘ fst <$> splitAt sub s;
  (** "Parse the current string as an integer of radix 10": the whole string,
      or an error when it is empty, not a number, or out of the type's range. *)
  getAsInteger_int_spec : ∀ s,
    getAsInteger_int s = inRange (- 2 ^ 31) (2 ^ 31) (signedVal s);
  getAsInteger_size_spec : ∀ s, getAsInteger_size s = inRange 0 (2 ^ 64) (unsignedVal s);
  (** "Parse the current string as an integer", reading a prefix: what follows
      the number stays. *)
  consumeInteger_int64_spec : ∀ s,
    consumeInteger_int64 s = prefixInRange (- 2 ^ 63) (2 ^ 63) (signedPrefix s)
}.

Definition llvm_stringref : StringRefOps := {|
  lower := string_map to_lower;
  upper := string_map to_upper;
  trim := fun cs s => dropTrailing (charIn cs) (dropLeading (charIn cs) s);
  take_until := before;
  find_first_of := fun cs => indexOf (charIn cs);
  take_front := fun s n => string_take n s;
  drop_front := fun s n => string_drop n s;
  consume_front := fun s pre => stripPrefix pre s;
  split := fun s c =>
    match after (Ascii.eqb c) s with
    | Some r => (before (Ascii.eqb c) s, r)
    | None => (s, "")
    end;
  split_all := fun s c keep =>
    if keep then pieces (Ascii.eqb c) s
    else List.filter (fun x => negb (isEmpty x)) (pieces (Ascii.eqb c) s);
  split_on := fun s sep => piecesOn (String.length s) sep s;
  split_max := fun s c n => List.filter (fun x => negb (isEmpty x)) (piecesMax n (Ascii.eqb c) s);
  count := fun s c => countChar c s;
  rfind := fun s c => lastIndexOf c s;
  ends_with := fun s suf => hasSuffix suf s;
  ends_with_insensitive := fun s suf => hasSuffix (string_map to_lower suf) (string_map to_lower s);
  contains := fun s sub => hasInfix sub s;
  find_string := fun s sub => String.length ∘ fst <$> splitAt sub s;
  getAsInteger_int := fun s => inRange (- 2 ^ 31) (2 ^ 31) (signedVal s);
  getAsInteger_size := fun s => inRange 0 (2 ^ 64) (unsignedVal s);
  consumeInteger_int64 := fun s => prefixInRange (- 2 ^ 63) (2 ^ 63) (signedPrefix s);
  lower_spec := fun _ => eq_refl;
  upper_spec := fun _ => eq_refl;
  trim_spec := fun _ _ => eq_refl;
  take_until_spec := fun _ _ => eq_refl;
  find_first_of_spec := fun _ _ => eq_refl;
  take_front_spec := fun _ _ => eq_refl;
  drop_front_spec := fun _ _ => eq_refl;
  consume_front_spec := fun _ _ => eq_refl;
  split_spec := fun _ _ => eq_refl;
  split_all_spec := fun _ _ _ => eq_refl;
  split_on_spec := fun _ _ _ => eq_refl;
  split_max_spec := fun _ _ _ => eq_refl;
  count_spec := fun _ _ => eq_refl;
  rfind_spec := fun _ _ => eq_refl;
  ends_with_spec := fun _ _ => eq_refl;
  ends_with_insensitive_spec := fun _ _ => eq_refl;
  contains_spec := fun _ _ => eq_refl;
  find_string_spec := fun _ _ => eq_refl;
  getAsInteger_int_spec := fun _ => eq_refl;
  getAsInteger_size_spec := fun _ => eq_refl;
  consumeInteger_int64_spec := fun _ => eq_refl
|}.

(** ** std::filesystem::path *)

Fixpoint endsWithSlash (s : string) : bool :=
  match s with
  | "" => false
  | String c "" => Ascii.eqb c "/"
  | String _ s => endsWithSlash s
  end.

(** [operator/]: an absolute right operand replaces the left one. *)
Definition path_div (p q : string) : string :=
  match q with
  | String "/" _ => q
  | _ => if isEmpty p || endsWithSlash p then p ++ q else p ++ "/" ++ q
  end.
Infix "/+/" := path_div (at level 40, left associativity) : mojo_scope.

(** ** Lemmas *)

Lemma to_lower_lower c : charBetween 65 90 (to_lower c) = false.
Proof. destruct c as [[] [] [] [] [] [] [] []]; reflexivity. Qed.

Lemma to_lower_idem c : to_lower (to_lower c) = to_lower c.
Proof. unfold to_lower at 1. by rewrite to_lower_lower. Qed.

Lemma string_map_idem f s : (∀ c, f (f c) = f c) → string_map f (string_map f s) = string_map f s.
Proof. intros Hf. induction s as [|c s IH]; simpl; [done|]. by rewrite Hf, IH. Qed.

Lemma to_upper_to_lower c : to_upper (to_lower c) = to_upper c.
Proof. destruct c as [[] [] [] [] [] [] [] []]; reflexivity. Qed.

Lemma upper_lower `{StringRefOps} s : upper (lower s) = upper s.
Proof.
  rewrite !upper_spec, lower_spec. induction s as [|c s IH]; simpl; [done|].
  by rewrite to_upper_to_lower, IH.
Qed.

Lemma string_map_app f s t : string_map f (s ++ t) = string_map f s ++ string_map f t.
Proof. induction s as [|c s IH]; simpl; [done|]. by rewrite IH. Qed.

Lemma lower_idem `{StringRefOps} s : lower (lower s) = lower s.
Proof. rewrite !lower_spec. apply string_map_idem, to_lower_idem. Qed.

Lemma string_app_nil s : s ++ "" = s.
Proof. induction s as [|c s IH]; simpl; [done|]. by rewrite IH. Qed.

Lemma string_app_assoc s t u : (s ++ t) ++ u = s ++ (t ++ u).
Proof. induction s as [|c s IH]; simpl; [done|]. by rewrite IH. Qed.

Lemma string_forall_app p s t : string_forall p (s ++ t) = string_forall p s && string_forall p t.
Proof. induction s as [|c s IH]; simpl; [done|]. by rewrite IH, andb_assoc. Qed.

(** Cutting at the first character with [p]. *)
Lemma take_indexOf p s n : indexOf p s = Some n →
  string_take n s = before p s ∧ after p s = Some (string_drop (S n) s).
Proof.
  revert n. induction s as [|c s IH]; intros n; simpl; [done|].
  destruct (p c) eqn:Ep; [by intros [= <-]|].
  intros (m & Hm & ->)%fmap_Some. destruct (IH m Hm) as [H1 H2]. simpl. by rewrite H1, H2.
Qed.

Lemma indexOf_None p s : indexOf p s = None → before p s = s ∧ after p s = None.
Proof.
  induction s as [|c s IH]; simpl; [done|]. destruct (p c); [done|].
  intros Hm. apply fmap_None in Hm. by destruct (IH Hm) as [-> ->].
Qed.

Lemma string_take_length s : string_take (String.length s) s = s.
Proof. induction s as [|c s IH]; simpl; [done|]. by rewrite IH. Qed.
Lemma string_drop_length s : string_drop (String.length s) s = "".
Proof. induction s as [|c s IH]; simpl; [done|]. by rewrite IH. Qed.

(** "Returns true if this StringRef has the given suffix and removes that
    suffix." *)
Definition consume_back `{StringRefOps} (s suf : string) : option string :=
  if ends_with s suf then Some (take_front s (String.length s - String.length suf)) else None.

Lemma string_length_app s t : String.length (s ++ t) = (String.length s + String.length t)%nat.
Proof. induction s as [|c s IH]; simpl; [done|]. by rewrite IH. Qed.
Lemma string_take_app s t : string_take (String.length s) (s ++ t) = s.
Proof. induction s as [|c s IH]; simpl; [by destruct t|]. by rewrite IH. Qed.
Lemma string_drop_app s t : string_drop (String.length s) (s ++ t) = t.
Proof. induction s as [|c s IH]; simpl; [by destruct t|]. apply IH. Qed.
Lemma string_take_drop n s : string_take n s ++ string_drop n s = s.
Proof. revert n. induction s as [|c s IH]; intros [|n]; simpl; [done..|]. by rewrite IH. Qed.
Lemma string_take_all n s : (String.length s ≤ n)%nat → string_take n s = s.
Proof. revert n. induction s as [|c s IH]; intros [|n] H; simpl in *; try done; [lia|]. rewrite IH; [done|lia]. Qed.
Lemma string_take_le n s : (String.length (string_take n s) ≤ n)%nat.
Proof. revert n. induction s as [|c s IH]; intros [|n]; simpl; try lia. specialize (IH n). lia. Qed.

Lemma consume_back_app `{StringRefOps} s suf : consume_back (s ++ suf) suf = Some s.
Proof.
  unfold consume_back. rewrite ends_with_spec, take_front_spec. unfold hasSuffix.
  rewrite string_length_app, Nat.add_sub, string_drop_app, string_take_app, String.eqb_refl.
  by rewrite (proj2 (Nat.leb_le _ _)) by lia.
Qed.

(** ** Decimal numbers *)

(** What [%d] prints for a number below [10 ^ 20]. *)
Fixpoint decimalGo (fuel : nat) (n : Z) (rest : string) : string :=
  let rest := String (ascii_of_nat (Z.to_nat (48 + n mod 10))) rest in
  match fuel with
  | O => rest
  | S fuel => if n <? 10 then rest else decimalGo fuel (n / 10) rest
  end.
Definition decimal (n : Z) : string := decimalGo 19 n "".
Definition isDigit (c : ascii) : bool := charBetween 48 57 c.

Lemma digit_ascii d : 0 ≤ d < 10 →
  digitVal (ascii_of_nat (Z.to_nat (48 + d))) = Some d ∧ isDigit (ascii_of_nat (Z.to_nat (48 + d))) = true.
Proof.
  intros Hd. unfold digitVal, isDigit, charBetween. rewrite nat_ascii_embedding by lia.
  rewrite !(proj2 (Nat.leb_le _ _)) by lia. split; [|done]. f_equal. lia.
Qed.

Lemma decimalGo_spec fuel n rest : 0 ≤ n < 10 ^ Z.of_nat (S fuel) →
  digitsVal 0 (decimalGo fuel n rest) = digitsVal n rest
  ∧ (∃ c s, decimalGo fuel n rest = String c s)
  ∧ (String.length (decimalGo fuel n rest) ≤ S fuel + String.length rest)%nat
  ∧ (string_forall isDigit rest = true → string_forall isDigit (decimalGo fuel n rest) = true).
Proof.
  revert n rest. induction fuel as [|fuel IH]; intros n rest Hn;
    pose proof (digit_ascii (n mod 10) (Z.mod_pos_bound n 10 ltac:(lia))) as [Hd Hc].
  - change (10 ^ Z.of_nat 1) with 10 in Hn. cbn [decimalGo digitsVal]. rewrite Hd. simpl.
    rewrite Z.mod_small by lia. split_and!; [done|eauto|lia|].
    intros H. rewrite Z.mod_small in Hc by lia. by rewrite Hc.
  - cbn [decimalGo]. destruct (n <? 10) eqn:E; bool_to_prop.
    + cbn [digitsVal]. rewrite Hd. simpl. rewrite Z.mod_small by lia. split_and!; [done|eauto|lia|].
      intros H. rewrite Z.mod_small in Hc by lia. by rewrite Hc.
    + destruct (IH (n / 10) (String (ascii_of_nat (Z.to_nat (48 + n mod 10))) rest)) as (H1 & H2 & H3 & H4).
      { split; [apply Z.div_pos; lia|]. apply Z.div_lt_upper_bound; [lia|].
        rewrite <- Z.pow_succ_r, <- Nat2Z.inj_succ by lia. exact (proj2 Hn). }
      rewrite H1. cbn [digitsVal]. rewrite Hd. simpl. split_and!; [|done|simpl in H3; lia|].
      * f_equal. rewrite (Z.div_mod n 10) at 3 by lia. lia.
      * intros H. apply H4. simpl. by rewrite Hc.
Qed.

Lemma decimal_spec n : 0 ≤ n < 2 ^ 64 →
  unsignedVal (decimal n) = Some n ∧ (String.length (decimal n) ≤ 20)%nat
  ∧ string_forall isDigit (decimal n) = true.
Proof.
  intros Hn. destruct (decimalGo_spec 19 n "") as (H1 & (c & s & Hs) & H2 & H3); [lia|].
  unfold decimal. split_and!; [|exact H2|by apply H3]. rewrite Hs in *. exact H1.
Qed.

Lemma getAsInteger_decimal `{StringRefOps} n : 0 ≤ n < 2 ^ 64 → getAsInteger_size (decimal n) = Some n.
Proof.
  intros Hn. rewrite getAsInteger_size_spec. destruct (decimal_spec n Hn) as (-> & _ & _). unfold inRange. simpl.
  by rewrite (proj2 (Z.leb_le _ _)), (proj2 (Z.ltb_lt _ _)) by lia.
Qed.

Lemma inRange_bounds lo hi v x : inRange lo hi v = Some x → lo ≤ x < hi.
Proof.
  unfold inRange. intros (y & _ & H)%bind_Some. destruct (_ && _) eqn:E; [|done].
  injection H as <-. bool_to_prop. lia.
Qed.

Lemma getAsInteger_int_bounds `{StringRefOps} s x : getAsInteger_int s = Some x → - 2 ^ 31 ≤ x < 2 ^ 31.
Proof. rewrite getAsInteger_int_spec. apply inRange_bounds. Qed.
Lemma getAsInteger_size_bounds `{StringRefOps} s x : getAsInteger_size s = Some x → 0 ≤ x < 2 ^ 64.
Proof. rewrite getAsInteger_size_spec. apply inRange_bounds. Qed.

(** Cutting at the last occurrence of a character removes it. *)
Lemma lastIndexOf_take c s n : lastIndexOf c s = Some n →
  countChar c s = S (countChar c (string_take n s)).
Proof.
  revert n. induction s as [|d s IH]; intros n; simpl; [done|].
  destruct (lastIndexOf c s) as [m|] eqn:E.
  - intros [= <-]. simpl. rewrite (IH m eq_refl). by destruct (Ascii.eqb c d).
  - destruct (Ascii.eqb c d) eqn:Ec; [|done]. intros [= <-]. simpl. f_equal.
    clear -E. induction s as [|e s IH]; simpl in *; [done|].
    destruct (lastIndexOf c s); [done|]. destruct (Ascii.eqb c e); [done|]. by apply IH.
Qed.

Lemma lastIndexOf_none c s : lastIndexOf c s = None → countChar c s = O.
Proof.
  induction s as [|d s IH]; simpl; [done|]. destruct (lastIndexOf c s); [done|].
  destruct (Ascii.eqb c d); [done|]. intros _. by apply IH.
Qed.

(** A string without [p] characters is its own prefix. *)
Lemma before_all p s : string_forall (fun c => negb (p c)) s = true → before p s = s.
Proof.
  induction s as [|c s IH]; simpl; [done|]. rewrite andb_true_iff, negb_true_iff.
  intros [-> H]. by rewrite IH.
Qed.

Lemma before_app p s t : string_forall (fun c => negb (p c)) s = true →
  before p (s ++ t) = s ++ before p t.
Proof.
  induction s as [|c s IH]; simpl; [done|]. rewrite andb_true_iff, negb_true_iff.
  intros [-> H]. by rewrite IH.
Qed.

Lemma after_app p s t : string_forall (fun c => negb (p c)) s = true →
  after p (s ++ t) = after p t.
Proof.
  induction s as [|c s IH]; simpl; [done|]. rewrite andb_true_iff, negb_true_iff.
  intros [-> H]. by rewrite IH.
Qed.

Lemma dropTrailing_all p s : string_forall p s = true → dropTrailing p s = "".
Proof.
  induction s as [|c s IH]; simpl; [done|]. rewrite andb_true_iff. intros [Hc H].
  by rewrite (IH H), Hc.
Qed.

Lemma dropTrailing_app p s t : string_forall p t = true →
  dropTrailing p (s ++ t) = dropTrailing p s.
Proof.
  intros Ht. induction s as [|c s IH]; simpl; [by apply dropTrailing_all|]. by rewrite IH.
Qed.

Lemma dropTrailing_idem p s : dropTrailing p (dropTrailing p s) = dropTrailing p s.
Proof.
  induction s as [|c s IH]; simpl; [done|].
  destruct (dropTrailing p s) as [|d t] eqn:E; [destruct (p c) eqn:Ec; simpl; by rewrite ?Ec|].
  change (dropTrailing p (String c (String d t))) with
    (match dropTrailing p (String d t) with "" => if p c then "" else String c "" | s => String c s end).
  by rewrite IH.
Qed.

(** No leading or trailing character satisfies [p]. *)
Definition trimmed (p : ascii → bool) (s : string) : Prop :=
  dropLeading p s = s ∧ dropTrailing p s = s.

Lemma dropLeading_idem p s : dropLeading p (dropLeading p s) = dropLeading p s.
Proof.
  induction s as [|c s IH]; simpl; [done|]. destruct (p c) eqn:E; [done|]. simpl. by rewrite E.
Qed.

Lemma dropLeading_head p s : dropLeading p s = s ↔ s = "" ∨ ∃ c t, s = String c t ∧ p c = false.
Proof.
  destruct s as [|c s]; simpl; [split; auto|].
  destruct (p c) eqn:E; [|split; eauto].
  split; [|intros [|(d & t & [= -> ->] & ?)]; congruence]. intros H. exfalso.
  assert (∀ t, String.length (dropLeading p t) ≤ String.length t)%nat as Hl.
  { induction t as [|d t IH]; simpl; [done|]. destruct (p d); simpl; lia. }
  specialize (Hl s). rewrite H in Hl. simpl in Hl. lia.
Qed.

Lemma dropTrailing_head p c s : p c = false → ∃ t, dropTrailing p (String c s) = String c t.
Proof. intros H. simpl. destruct (dropTrailing p s); rewrite ?H; eauto. Qed.

Lemma trim_trimmed `{StringRefOps} cs s : trimmed (charIn cs) (trim cs s).
Proof.
  rewrite trim_spec. split; [|by rewrite dropTrailing_idem].
  apply dropLeading_head. pose proof (dropLeading_idem (charIn cs) s) as Hi.
  apply dropLeading_head in Hi as [->|(c & t & -> & Hc)]; [by left|]. right.
  destruct (dropTrailing_head _ c t Hc) as [u ->]. eauto.
Qed.

Lemma trim_id `{StringRefOps} cs s : trimmed (charIn cs) s → trim cs s = s.
Proof. intros [H1 H2]. by rewrite trim_spec, H1. Qed.

(** Blanks around a trimmed text are removed. *)
Lemma trim_around `{StringRefOps} cs l s r :
  string_forall (charIn cs) l = true → string_forall (charIn cs) r = true →
  trimmed (charIn cs) s → trim cs (l ++ s ++ r) = s.
Proof.
  intros Hl Hr [H1 H2]. rewrite trim_spec.
  assert (Hd : ∀ t, dropLeading (charIn cs) (l ++ t) = dropLeading (charIn cs) t).
  { intros t. induction l as [|c l IH]; simpl in *; [done|]. apply andb_true_iff in Hl as [-> Hl].
    by apply IH. }
  rewrite Hd. apply dropLeading_head in H1 as [->|(c & t & -> & Hc)].
  - simpl. clear Hd H2. induction r as [|c r IH]; simpl in *; [done|].
    apply andb_true_iff in Hr as [-> Hr]. by apply IH.
  - simpl. rewrite Hc. change (String c (t ++ r)) with (String c t ++ r).
    by rewrite dropTrailing_app.
Qed.

Fixpoint stem (s : string) : string :=
  match s with
  | "" => ""
  | String c s =>
      match after (Ascii.eqb "/") s with
      | Some _ => String c (stem s)
      | None => if Ascii.eqb c "/" then "" else if isEmpty (stem s) then "" else String c (stem s)
      end
  end.

(** [path::parent_path]: what precedes the last separator, or the root. *)
Definition parent_path (s : string) : string :=
  match s, stem s with String "/" _, "" => "/" | _, p => p end.

Example parent_path_examples :
  map parent_path ["/opt/modular/modular.cfg"; "/x"; "modular.cfg"; "a/b"] =
  ["/opt/modular"; "/"; ""; "a"].
Proof. reflexivity. Qed.

(** [path::filename], and [path::stem] of it. *)
Fixpoint filename (p : string) : string :=
  match after (Ascii.eqb "/") p with
  | None => p
  | Some _ => match p with "" => "" | String _ p => filename p end
  end.
Definition fileStem `{StringRefOps} (p : string) : string :=
  let f := filename p in
  if String.eqb f "." || String.eqb f ".." then f
  else match rfind f "." with
       | None | Some O => f
       | Some n => take_front f n
       end.

(** [path::extension]: what [stem] leaves of the name. *)
Definition extension `{StringRefOps} (p : string) : string := string_drop (String.length (fileStem p)) (filename p).

Lemma stripPrefix_self pre r : stripPrefix pre (pre ++ r) = Some r.
Proof. induction pre as [|c pre IH]; [done|]. simpl. by rewrite Ascii.eqb_refl. Qed.
Lemma stripPrefix_app pre s r : stripPrefix pre s = Some r → s = pre ++ r.
Proof.
  revert s. induction pre as [|a pre IH]; intros [|c s] H; simpl in *; try congruence.
  destruct (Ascii.eqb_spec a c) as [->|]; [|done]. by rewrite (IH _ H).
Qed.

Lemma splitAt_app sep s a r : splitAt sep s = Some (a, r) → s = a ++ sep ++ r.
Proof.
  revert a r. induction s as [|c s IH]; intros a r H; simpl in H.
  - destruct (stripPrefix sep "") eqn:E; [|done]. injection H as <- <-. by apply stripPrefix_app in E.
  - destruct (stripPrefix sep (String c s)) eqn:E; [injection H as <- <-; by apply stripPrefix_app in E|].
    destruct (splitAt sep s) as [[a' r']|]; [|done]. injection H as <- <-. simpl. f_equal. by apply IH.
Qed.

Lemma hasSuffix_app suf s : hasSuffix suf (s ++ suf) = true.
Proof.
  unfold hasSuffix. rewrite string_length_app. rewrite (proj2 (Nat.leb_le _ _)) by lia.
  replace (_ + String.length suf - String.length suf)%nat with (String.length s) by lia.
  rewrite string_drop_app. apply String.eqb_refl.
Qed.

(** A suffix of a concatenation, when it is no longer than the last part. *)
Lemma hasSuffix_app_long suf s t : (String.length suf ≤ String.length t)%nat →
  hasSuffix suf (s ++ t) = hasSuffix suf t.
Proof.
  intros H. unfold hasSuffix. rewrite string_length_app.
  rewrite !(proj2 (Nat.leb_le _ _)) by lia. f_equal.
  replace (String.length s + String.length t - String.length suf)%nat
    with (String.length s + (String.length t - String.length suf))%nat by lia.
  assert (Hd : ∀ s t n, string_drop (String.length s + n) (s ++ t) = string_drop n t).
  { clear. induction s as [|c s IH]; intros t n; simpl; [done|apply IH]. }
  by rewrite Hd.
Qed.

(** Cancelling in concatenations. *)
Lemma string_app_inv_head p x y : p ++ x = p ++ y → x = y.
Proof. induction p as [|c p IH]; simpl; [done|]. intros [= H]. auto. Qed.
Lemma string_app_inj a : ∀ b c d, String.length a = String.length b → a ++ c = b ++ d → a = b ∧ c = d.
Proof.
  induction a as [|x a IH]; intros [|y b] c d; simpl; try done.
  intros [= Hl] [= -> E]. destruct (IH _ _ _ Hl E) as [-> ->]. done.
Qed.
Lemma string_app_inv_tail a b c : a ++ c = b ++ c → a = b.
Proof.
  intros E. apply (f_equal String.length) in E as Hl. rewrite !string_length_app in Hl.
  by destruct (string_app_inj a b c c ltac:(lia) E).
Qed.
Lemma string_app_suffix_inj s t u v : String.length u = String.length v → s ++ u = t ++ v → s = t ∧ u = v.
Proof.
  intros Hl E. apply string_app_inj; [|done]. apply (f_equal String.length) in E.
  rewrite !string_length_app in E. lia.
Qed.
