(* ===== verification/Configuration.v ===== *)
(** [M::Config] of Support/lib/Configuration.cpp: the parser of configuration
    files, the layered lookup of values (process-wide overrides, environment,
    runfiles, file), MODULAR_DEBUG, and the search for the directories. *)
From S2P Require Import Prelude StringRef.

Abbreviation KV := (gmap string string).

Module Config.

Section Parse.
Context {SR : StringRefOps}.

(** ** [Config::parseFrom] *)

Definition newlines : list ascii := ["010"; "013"; "012"; "011"]%char.

(** The lambda [takeLine]: the line, what remains of the buffer, and how many
    characters were dropped. *)
Definition takeLine (buffer : string) : string * string * nat :=
  let '(newlineLoc, toDrop) :=
    match find_first_of newlines buffer with
    | None => (String.length buffer, String.length buffer)
    | Some newlineLoc => (newlineLoc, S newlineLoc)
    end in
  (take_front buffer newlineLoc, drop_front buffer toDrop, toDrop).

(** What one line does: the body of the loop up to its effect. *)
Inductive LineAction :=
  | LineSkip
  | LineSection (currentSection : string)
  | LineMalformed
  | LineAssign (key value : string).

Definition isCommentStart (c : ascii) : bool := Ascii.eqb c "#" || Ascii.eqb c ";".

Definition parseLine (currentSection tmp : string) : LineAction :=
  if isEmpty (trim whitespace tmp) then LineSkip
  else match consume_front tmp "[" with
  | Some tmp => LineSection (trim whitespace (take_until (fun c => Ascii.eqb c "]") tmp))
  | None =>
      let tmp := take_until isCommentStart tmp in
      if isEmpty (trim whitespace tmp) then LineSkip
      else
        let '(k, v) := split tmp "=" in
        if isEmpty v then LineMalformed
        else
          let currentSectionPrefix :=
            if isEmpty currentSection then "" else currentSection ++ "." in
          let constructedKey := currentSectionPrefix ++ trim whitespace k in
          LineAssign (lower constructedKey) (trim whitespace v)
  end.

Definition malformedMessage : string := "malformed line: expected `key = value`".

(** The lambda [emitError]: [PrintMessage] of the source manager, given the
    offset of the location in the buffer, when there is a manager. *)
Definition emitError (mgr : option (nat → string → string)) (loc : nat) (msg : string) : string :=
  match mgr with
  | None => msg
  | Some printMessage => printMessage loc msg
  end.

(** The loop [while (!buffer.empty())].  The map is the object's state, so an
    error leaves the assignments of the earlier lines in it. *)
Fixpoint parseLoop (fuel : nat) (mgr : option (nat → string → string)) (loc : nat)
    (buffer currentSection : string) (kv : KV) : option (ErrorOr unit * KV) :=
  if isEmpty buffer then Some (Success tt, kv)
  else match fuel with
  | O => None
  | S fuel =>
      let '(tmp, rest, dropped) := takeLine buffer in
      match parseLine currentSection tmp with
      | LineSkip => parseLoop fuel mgr (loc + dropped) rest currentSection kv
      | LineSection s => parseLoop fuel mgr (loc + dropped) rest s kv
      | LineMalformed => Some (Error (emitError mgr loc malformedMessage), kv)
      | LineAssign k v => parseLoop fuel mgr (loc + dropped) rest currentSection (<[k := v]> kv)
      end
  end.

Definition parseFrom (buffer : string) (mgr : option (nat → string → string)) (kv : KV)
    : option (ErrorOr unit * KV) :=
  parseLoop (String.length buffer) mgr 0 buffer "" kv.

(** ** Specification: a file is the list of its lines *)

Definition isNewline : ascii → bool := charIn newlines.

Fixpoint splitLines (s : string) : list string :=
  match s with
  | "" => []
  | String c s =>
      if isNewline c then "" :: splitLines s
      else match splitLines s with
           | [] => [String c ""]
           | l :: ls => String c l :: ls
           end
  end.

(** The assignments of the lines in order, up to the first malformed line. *)
Fixpoint assignments (currentSection : string) (lines : list string)
    : bool * list (string * string) :=
  match lines with
  | [] => (true, [])
  | l :: lines =>
      match parseLine currentSection l with
      | LineSkip => assignments currentSection lines
      | LineSection s => assignments s lines
      | LineMalformed => (false, [])
      | LineAssign k v =>
          let '(ok, asg) := assignments currentSection lines in (ok, (k, v) :: asg)
      end
  end.

(** The last assignment to a key wins. *)
Definition assignAll (asg : list (string * string)) (kv : KV) : KV :=
  fold_left (fun kv '(k, v) => <[k := v]> kv) asg kv.

Lemma takeLine_spec buffer :
  ∃ dropped, takeLine buffer =
    (before isNewline buffer, default "" (after isNewline buffer), dropped) ∧
    (buffer ≠ "" → (0 < dropped)%nat).
Proof.
  unfold takeLine. rewrite find_first_of_spec. fold isNewline.
  destruct (indexOf isNewline buffer) as [n|] eqn:E; rewrite take_front_spec, drop_front_spec.
  - destruct (take_indexOf _ _ _ E) as [-> ->]. exists (S n). split; [done|lia].
  - destruct (indexOf_None _ _ E) as [-> ->]. exists (String.length buffer).
    rewrite string_take_length, string_drop_length. split; [done|].
    destruct buffer; [done|simpl; lia].
Qed.

Lemma splitLines_step buffer : buffer ≠ "" →
  splitLines buffer = before isNewline buffer :: splitLines (default "" (after isNewline buffer)).
Proof.
  induction buffer as [|c s IH]; [done|]. intros _. simpl.
  destruct (isNewline c) eqn:E; [done|].
  destruct s as [|d s]; [done|]. by rewrite IH.
Qed.

Lemma after_length p s : (String.length (default "" (after p s)) ≤ String.length s - 1)%nat.
Proof.
  induction s as [|c s IH]; simpl; [lia|]. destruct (p c); simpl; lia.
Qed.

(** The loop ends within as many iterations as characters, and does to the
    map what the assignments of the lines say. *)
Lemma parseLoop_spec fuel mgr loc buffer currentSection kv :
  (String.length buffer ≤ fuel)%nat →
  ∃ r, parseLoop fuel mgr loc buffer currentSection kv =
         Some (r, assignAll (snd (assignments currentSection (splitLines buffer))) kv) ∧
       isError r = negb (fst (assignments currentSection (splitLines buffer))).
Proof.
  revert loc buffer currentSection kv.
  induction fuel as [|fuel IH]; intros loc buffer sec kv Hf; cbn [parseLoop].
  { destruct buffer; [|simpl in Hf; lia]. by eexists. }
  destruct (isEmpty buffer) eqn:Eb; [destruct buffer; [|done]; by eexists|].
  assert (Hne : buffer ≠ "") by (by destruct buffer).
  destruct (takeLine_spec buffer) as (dropped & -> & _). rewrite (splitLines_step buffer Hne).
  pose proof (after_length isNewline buffer) as Hl.
  assert (Hf' : (String.length (default "" (after isNewline buffer)) ≤ fuel)%nat).
  { destruct buffer; [done|]. simpl in Hl, Hf |- *. lia. }
  cbn [assignments]. destruct (parseLine sec _) as [|s| |k v].
  - by apply IH.
  - by apply IH.
  - by eexists.
  - destruct (IH (loc + dropped)%nat (default "" (after isNewline buffer)) sec (<[k:=v]> kv) Hf')
      as (r & -> & Hr).
    destruct (assignments sec _) as [ok asg]. by exists r.
Qed.

(** ** The invariant of the map: lower-case keys, trimmed values *)

Definition wfKV (kv : KV) : Prop :=
  ∀ k v, kv !! k = Some v → lower k = k ∧ trimmed (charIn whitespace) v.

Lemma wfKV_insert kv k v : wfKV kv → lower k = k → trimmed (charIn whitespace) v →
  wfKV (<[k := v]> kv).
Proof.
  intros Hkv Hk Hv k' v'. destruct (decide (k' = k)) as [->|Hne].
  - rewrite lookup_insert_eq. by intros [= <-].
  - rewrite lookup_insert_ne by done. apply Hkv.
Qed.

Lemma parseLine_assign sec l k v : parseLine sec l = LineAssign k v →
  lower k = k ∧ trimmed (charIn whitespace) v.
Proof.
  unfold parseLine. destruct (isEmpty (trim whitespace l)); [done|].
  destruct (consume_front l "["); [done|].
  destruct (isEmpty _); [done|]. destruct (split _ "=") as [k0 v0].
  destruct (isEmpty v0); [done|]. intros [= <- <-].
  split; [apply lower_idem|apply trim_trimmed].
Qed.

Lemma assignments_wf sec lines kv : wfKV kv → wfKV (assignAll (snd (assignments sec lines)) kv).
Proof.
  revert sec kv. induction lines as [|l lines IH]; intros sec kv Hkv; cbn [assignments]; [done|].
  destruct (parseLine sec l) as [|s| |k v] eqn:E; [by apply IH|by apply IH|done|].
  destruct (parseLine_assign sec l k v E) as [Hk Hv].
  pose proof (IH sec (<[k:=v]> kv) (wfKV_insert _ _ _ Hkv Hk Hv)) as H.
  by destruct (assignments sec lines) as [ok asg].
Qed.

Lemma wfKV_empty : wfKV ∅.
Proof. intros k v Hk. by rewrite lookup_empty in Hk. Qed.

Lemma parseFrom_wf buffer mgr r kv : parseFrom buffer mgr ∅ = Some (r, kv) → wfKV kv.
Proof.
  unfold parseFrom.
  destruct (parseLoop_spec (String.length buffer) mgr 0 buffer "" ∅ (le_n _)) as (r' & -> & _).
  intros [= _ <-]. apply assignments_wf, wfKV_empty.
Qed.

(** Parsing always ends (one iteration per character is enough); it fails
    exactly when some line is malformed, and either way the map holds exactly
    the assignments of the lines before that one, the last one winning; keys
    stay lower-case and values stay trimmed. *)
Theorem parseFrom_spec buffer mgr kv :
  ∃ r, parseFrom buffer mgr kv =
         Some (r, assignAll (snd (assignments "" (splitLines buffer))) kv) ∧
       (isError r = true ↔ fst (assignments "" (splitLines buffer)) = false) ∧
       (wfKV kv → wfKV (assignAll (snd (assignments "" (splitLines buffer))) kv)).
Proof.
  destruct (parseLoop_spec (String.length buffer) mgr 0 buffer "" kv) as (r & H & Hr); [done|].
  exists r. split; [exact H|]. split; [|apply assignments_wf].
  rewrite Hr. by destruct (fst _).
Qed.

(** ** Rendering a configuration, and reading it back *)

Definition newline : string := String "010" "".

Definition renderEntry (e : string * string) : string :=
  fst e ++ " = " ++ snd e ++ newline.

Fixpoint renderEntries (es : list (string * string)) (rest : string) : string :=
  match es with [] => rest | e :: es => renderEntry e ++ renderEntries es rest end.

(** Named sections, each with its entries. *)
Fixpoint renderSections (secs : list (string * list (string * string))) : string :=
  match secs with
  | [] => ""
  | (name, es) :: secs => ("[" ++ name ++ "]" ++ newline) ++ renderEntries es (renderSections secs)
  end.

Definition noneOf (p : ascii → bool) (s : string) : Prop :=
  string_forall (fun c => negb (p c)) s = true.

Definition goodName (s : string) : Prop :=
  noneOf isNewline s ∧ noneOf (Ascii.eqb "]") s ∧ trimmed (charIn whitespace) s ∧ isEmpty s = false.
Definition goodEntry (e : string * string) : Prop :=
  (noneOf isNewline (fst e) ∧ noneOf isCommentStart (fst e) ∧ noneOf (Ascii.eqb "=") (fst e) ∧
   trimmed (charIn whitespace) (fst e) ∧ ∃ c t, fst e = String c t ∧ c ≠ "["%char) ∧
  noneOf isNewline (snd e) ∧ noneOf isCommentStart (snd e) ∧ trimmed (charIn whitespace) (snd e).
Definition goodSection (sec : string * list (string * string)) : Prop :=
  goodName (fst sec) ∧ Forall goodEntry (snd sec).

(** The key an entry is stored under. *)
Definition fullKey (sec key : string) : string :=
  lower ((if isEmpty sec then "" else sec ++ ".") ++ key).

Lemma splitLines_line l rest : noneOf isNewline l →
  splitLines (l ++ newline ++ rest) = l :: splitLines rest.
Proof.
  unfold noneOf. change (newline ++ rest) with (String "010" rest).
  induction l as [|c l IH]; simpl; [done|].
  rewrite andb_true_iff, negb_true_iff. intros [-> H]. by rewrite (IH H).
Qed.

Lemma noneOf_app p s t : noneOf p s → noneOf p t → noneOf p (s ++ t).
Proof. unfold noneOf. rewrite string_forall_app. by intros -> ->. Qed.

Lemma trim_nonempty c t : charIn whitespace c = false →
  isEmpty (trim whitespace (String c t)) = false.
Proof.
  intros Hc. rewrite trim_spec. cbn [dropLeading]. rewrite Hc.
  by destruct (dropTrailing_head _ c t Hc) as [u ->].
Qed.

Lemma trimmed_head p c t : trimmed p (String c t) → p c = false.
Proof.
  intros [H _]. apply dropLeading_head in H as [|(d & u & [= -> ->] & ?)]; done.
Qed.

Lemma parseLine_entry sec e : goodEntry e →
  parseLine sec (fst e ++ " = " ++ snd e) = LineAssign (fullKey sec (fst e)) (snd e).
Proof.
  destruct e as [k v]. intros ((Hn & Hc & Heq & Ht & c & t & Hk & Hb) & Hnv & Hcv & Htv).
  cbn [fst snd] in *. subst k. pose proof (trimmed_head _ _ _ Ht) as Hw.
  assert (H1 : ∀ r, isEmpty (trim whitespace (String c t ++ r)) = false)
    by (intros r; by apply (trim_nonempty c (t ++ r))).
  assert (H2 : ∀ r, consume_front (String c t ++ r) "[" = None).
  { intros r. rewrite consume_front_spec. cbn [String.append stripPrefix].
    by rewrite (proj2 (Ascii.eqb_neq "[" c)) by congruence. }
  unfold parseLine. rewrite H1, H2, take_until_spec, before_all by (by apply noneOf_app).
  rewrite H1, split_spec, after_app, before_app by exact Heq.
  change (" = " ++ v) with (String " " (String "=" (String " " v))).
  cbn [after before Ascii.eqb Bool.eqb isEmpty].
  f_equal.
  - unfold fullKey. do 2 f_equal. by apply (trim_around whitespace "" (String c t) " ").
  - rewrite <- (string_app_nil v) at 1. by apply (trim_around whitespace " " v "").
Qed.

Lemma parseLine_section sec name : goodName name →
  parseLine sec ("[" ++ name ++ "]") = LineSection name.
Proof.
  intros (_ & Hb & Ht & _). unfold parseLine. cbn [String.append].
  rewrite trim_nonempty by done. rewrite consume_front_spec. cbn [stripPrefix Ascii.eqb].
  simpl. rewrite take_until_spec.
  assert (Hb' : noneOf (fun c => Ascii.eqb c "]") name).
  { unfold noneOf in *. clear -Hb. induction name as [|c s IH]; [done|].
    cbn [string_forall] in *. apply andb_true_iff in Hb as [H1 H2].
    by rewrite Ascii.eqb_sym, H1, IH. }
  rewrite before_app by exact Hb'. cbn. rewrite string_app_nil. by rewrite trim_id.
Qed.

Lemma assignments_entries sec es rest : Forall goodEntry es →
  assignments sec (splitLines (renderEntries es rest)) =
  let '(ok, asg) := assignments sec (splitLines rest) in
  (ok, (map (fun e => (fullKey sec (fst e), snd e)) es ++ asg)%list).
Proof.
  intros H. induction H as [|e es He _ IH]; cbn [renderEntries map app].
  - by destruct (assignments sec (splitLines rest)).
  - unfold renderEntry. rewrite !string_app_assoc.
    replace (fst e ++ " = " ++ snd e ++ newline ++ renderEntries es rest)
      with ((fst e ++ " = " ++ snd e) ++ newline ++ renderEntries es rest)
      by (by rewrite !string_app_assoc).
    rewrite splitLines_line.
    + cbn [assignments]. rewrite parseLine_entry by done. rewrite IH.
      by destruct (assignments sec (splitLines rest)).
    + destruct He as ((? & _) & ? & _). by apply noneOf_app, noneOf_app.
Qed.

(** Every entry of every section, under its full key. *)
Definition sectionEntries (secs : list (string * list (string * string))) : list (string * string) :=
  flat_map (fun sec => map (fun e => (fullKey (fst sec) (fst e), snd e)) (snd sec)) secs.

Lemma assignments_sections sec secs : Forall goodSection secs →
  assignments sec (splitLines (renderSections secs)) = (true, sectionEntries secs).
Proof.
  intros H. revert sec. induction H as [|[name es] secs [Hname Hes] _ IH]; intros sec;
    cbn [renderSections]; [done|]. cbn [fst snd] in *.
  replace (("[" ++ name ++ "]" ++ newline) ++ renderEntries es (renderSections secs))
    with (("[" ++ name ++ "]") ++ newline ++ renderEntries es (renderSections secs))
    by (by rewrite !string_app_assoc).
  rewrite splitLines_line by (destruct Hname; by apply noneOf_app, noneOf_app).
  cbn [assignments]. rewrite parseLine_section by done.
  by rewrite assignments_entries, IH by done.
Qed.

(** A rendered configuration is read back: parsing global entries
    followed by named sections succeeds, and assigns every entry, in order and
    untouched, to the lower-cased [section.key] (the bare key for a global). *)
Theorem parseFrom_render globals secs mgr :
  Forall goodEntry globals → Forall goodSection secs →
  parseFrom (renderEntries globals (renderSections secs)) mgr ∅ =
  Some (Success tt, assignAll (sectionEntries (("", globals) :: secs)) ∅).
Proof.
  intros Hg Hs. unfold parseFrom.
  destruct (parseLoop_spec _ mgr 0 (renderEntries globals (renderSections secs)) "" ∅ (le_n _))
    as (r & -> & Hr).
  rewrite assignments_entries, assignments_sections in Hr |- * by done. cbn [fst snd] in *.
  destruct r as [[]|]; done.
Qed.

End Parse.

(** ** Looking a value up *)

Section Lookup.
Context {SR : StringRefOps}.
(** The environment, and [findConfigWithRunfiles] (BazelRunfiles.v). *)
Variable GetEnv : string → option string.
Variable findConfigWithRunfiles : string → option string.

(** [globalOverrides()], shared by the whole process. *)
Definition setGlobalValue (key value : string) (overrides : KV) : KV :=
  <[lower key := value]> overrides.
Definition unsetGlobalValue (key : string) (overrides : KV) : KV :=
  delete (lower key) overrides.
Definition getGlobalValueIfSet (key : string) (overrides : KV) : option string :=
  overrides !! lower key.

Definition underscore (c : ascii) : ascii :=
  if Ascii.eqb c "." || Ascii.eqb c "-" then "_"%char else c.
Definition envName (key : string) : string :=
  "MODULAR_" ++ string_map underscore (upper key).

(** The object's own map is the state: what is found elsewhere is cached. *)
Definition maybeGetValue (overrides : KV) (key : string) : State KV (option string) :=
  match overrides !! lower key with
  | Some value => modify <[lower key := value]>;; mret (Some value)
  | None =>
      match GetEnv (envName key) with
      | Some value => modify <[lower key := value]>
      | None => match findConfigWithRunfiles key with
                | Some runfilesPath => modify <[lower key := runfilesPath]>
                | None => mret tt
                end
      end;;
      gets (fun kv => kv !! lower key)
  end.

Definition getValue (overrides : KV) (key : string) : State KV string :=
  v ← maybeGetValue overrides key; mret (default "" v).

Definition getValueOr (overrides : KV) (key defaultValue : string) : State KV string :=
  stringValue ← getValue overrides key;
  mret (if isEmpty stringValue then defaultValue else stringValue).

Definition getPath (overrides : KV) (key relativePath : string) : State KV string :=
  let keyStr := lower key in
  stringValue ← getValue overrides keyStr;
  if isEmpty stringValue then
    let '(section, _) := split key "." in
    packageRoot ← getValue overrides (section ++ ".package_root");
    let value := packageRoot ++ "/" ++ relativePath in
    modify <[keyStr := value]>;; mret value
  else mret stringValue.

Definition getValueAsBool (overrides : KV) (key : string) (defaultValue : bool) : State KV bool :=
  stringValue ← getValue overrides key;
  mret (if isEmpty stringValue then defaultValue
        else if existsb (String.eqb (lower stringValue)) ["0"; "false"; "no"] then false
        else if existsb (String.eqb (lower stringValue)) ["1"; "true"; "yes"] then true
        else defaultValue).

Definition getValueAsList (overrides : KV) (key sep : string) : State KV (list string) :=
  value ← getValue overrides key;
  mret (if isEmpty value then [] else split_on value sep).

Definition isValueInList (overrides : KV) (key value sep : string) : State KV bool :=
  values ← getValueAsList overrides key sep;
  mret (existsb (String.eqb value) values).

Definition setValue (key value : string) : State KV unit := modify <[lower key := value]>.

(** The layers of a lookup, the strongest first. *)
Definition layers (overrides : KV) (key : string) (kv : KV) : list (option string) :=
  [overrides !! lower key; GetEnv (envName key); findConfigWithRunfiles key; kv !! lower key].

Fixpoint firstSome {A} (l : list (option A)) : option A :=
  match l with [] => None | Some x :: _ => Some x | None :: l => firstSome l end.

Lemma maybeGetValue_eq overrides key kv :
  maybeGetValue overrides key kv =
  (firstSome (layers overrides key kv),
   match firstSome (layers overrides key kv) with
   | Some v => <[lower key := v]> kv
   | None => kv
   end).
Proof.
  unfold maybeGetValue, layers. simpl.
  destruct (overrides !! lower key); [done|]. destruct (GetEnv (envName key)).
  { cbv [mbind State_bind modify gets]. by rewrite lookup_insert_eq. }
  destruct (findConfigWithRunfiles key).
  { cbv [mbind State_bind modify gets]. by rewrite lookup_insert_eq. }
  cbv [mbind State_bind mret State_ret gets].
  destruct (kv !! lower key) eqn:E; [by rewrite insert_id|done].
Qed.

Lemma envName_lower key : envName (lower key) = envName key.
Proof. unfold envName. by rewrite upper_lower. Qed.

(** A lookup answers from the strongest layer that has the key (process
    override, environment, runfiles, file); it caches the answer in the object
    and touches no other key, so repeating it changes nothing; and neither the
    answer nor the effect depends on the letter case of the key. *)
Theorem maybeGetValue_spec overrides key kv :
  (∀ k, findConfigWithRunfiles (lower k) = findConfigWithRunfiles k) →
  let '(value, kv') := maybeGetValue overrides key kv in
  value = firstSome (layers overrides key kv) ∧
  kv' !! lower key = value ∧
  (∀ k, k ≠ lower key → kv' !! k = kv !! k) ∧
  maybeGetValue overrides key kv' = (value, kv') ∧
  ∀ key', lower key' = lower key → maybeGetValue overrides key' kv = (value, kv').
Proof.
  intros Hrf. rewrite maybeGetValue_eq. split; [done|].
  assert (Hlook : (match firstSome (layers overrides key kv) with
                   | Some v => <[lower key := v]> kv | None => kv end) !! lower key =
                  firstSome (layers overrides key kv)).
  { destruct (firstSome _) as [v|] eqn:E; [by rewrite lookup_insert_eq|].
    unfold layers in E. simpl in E. by repeat case_match. }
  split; [done|]. split.
  { intros k Hk. destruct (firstSome _); [by rewrite lookup_insert_ne|done]. }
  split.
  - rewrite maybeGetValue_eq. set (kv' := match firstSome _ with Some v => _ | None => _ end) in *.
    assert (firstSome (layers overrides key kv') = firstSome (layers overrides key kv)) as ->.
    { unfold layers in *. simpl in *. repeat case_match; congruence. }
    f_equal. destruct (firstSome (layers overrides key kv)) as [v|]; [|done].
    unfold kv'. by rewrite insert_insert_eq.
  - intros key' Hk. rewrite maybeGetValue_eq. unfold layers.
    assert (envName key' = envName key) as -> by (by rewrite <- envName_lower, Hk, envName_lower).
    assert (findConfigWithRunfiles key' = findConfigWithRunfiles key) as ->
      by (by rewrite <- Hrf, Hk, Hrf).
    by rewrite Hk.
Qed.

(** Removing an override does not always give the underlying value back:
    an object that read the key while it was overridden, with neither an
    environment variable nor a runfile for it, keeps answering the removed
    value, whatever its file said. *)
Theorem unset_override_sticks overrides key value kv :
  GetEnv (envName key) = None → findConfigWithRunfiles key = None →
  let during := setGlobalValue key value overrides in
  let kv' := snd (maybeGetValue during key kv) in
  getGlobalValueIfSet key (unsetGlobalValue key during) = None ∧
  fst (maybeGetValue (unsetGlobalValue key during) key kv') = Some value ∧
  fst (maybeGetValue (unsetGlobalValue key during) key kv) = kv !! lower key.
Proof.
  intros He Hr. cbv zeta. unfold getGlobalValueIfSet, unsetGlobalValue, setGlobalValue.
  rewrite !maybeGetValue_eq. unfold layers. cbn [fst snd firstSome].
  rewrite lookup_insert_eq, lookup_delete_eq, He, Hr. cbn [firstSome].
  rewrite lookup_insert_eq. split_and!; [done|done|]. by destruct (kv !! lower key).
Qed.

Lemma getValue_eq overrides key kv :
  getValue overrides key kv =
  (default "" (firstSome (layers overrides key kv)),
   match firstSome (layers overrides key kv) with
   | Some v => <[lower key := v]> kv | None => kv end).
Proof. unfold getValue. cbv [mbind State_bind mret State_ret]. by rewrite maybeGetValue_eq. Qed.

Lemma string_app_slash_nonempty s t : isEmpty (s ++ "/" ++ t) = false.
Proof. by destruct s. Qed.

Lemma isEmpty_true s : isEmpty s = true → s = "".
Proof. by destruct s. Qed.

(** [getPath] never answers with an empty path: a configured value is
    returned as it is; otherwise the default is built under the section's
    package root, and becomes the object's value for the key: when no stronger
    layer speaks, later calls return it whatever relative path they ask for. *)
Theorem getPath_spec overrides key relativePath kv :
  let configured := default "" (firstSome (layers overrides (lower key) kv)) in
  let '(value, kv') := getPath overrides key relativePath kv in
  value ≠ "" ∧
  (configured ≠ "" → value = configured) ∧
  (configured = "" →
    value = fst (getValue overrides (fst (split key ".") ++ ".package_root")
                   (snd (getValue overrides (lower key) kv))) ++ "/" ++ relativePath ∧
    kv' !! lower key = Some value ∧
    (overrides !! lower key = None → GetEnv (envName key) = None →
     findConfigWithRunfiles (lower key) = None →
     ∀ relativePath', fst (getPath overrides key relativePath' kv') = value)).
Proof.
  cbv zeta. unfold getPath. cbv [mbind State_bind mret State_ret modify].
  rewrite getValue_eq. set (c := default "" _).
  destruct (isEmpty c) eqn:Ec.
  - destruct (split key ".") as [sec tail]. cbn [fst snd]. rewrite getValue_eq.
    set (root := default "" _). set (value := root ++ "/" ++ relativePath).
    assert (Hv : isEmpty value = false) by apply string_app_slash_nonempty.
    split; [by intros E; rewrite E in Hv|]. split.
    { intros Hc. by apply isEmpty_true in Ec. }
    intros _. split; [done|]. split; [by rewrite lookup_insert_eq|].
    intros Ho He Hr rel'. rewrite getValue_eq. unfold layers.
    rewrite lower_idem, Ho, envName_lower, He, Hr. cbn [firstSome].
    rewrite lookup_insert_eq. cbn [default from_option]. unfold id. by rewrite Hv.
  - cbn [fst snd]. split; [by intros ->|]. split; [done|]. by intros ->.
Qed.

End Lookup.

(** ** MODULAR_DEBUG *)

Section ModularDebug.
Context {SR : StringRefOps}.

(** What the process keeps: the overrides, whether [call_once] has run, and
    the messages printed to [llvm::errs()]. *)
Record Globals := mkGlobals {
  overrides : KV;
  debugParsed : bool;
  errs : list string
}.

Definition setGlobal (key value : string) (g : Globals) : Globals :=
  mkGlobals (setGlobalValue key value (overrides g)) (debugParsed g) (errs g).
Definition complain (token : string) (g : Globals) : Globals :=
  let message := "MODULAR_DEBUG: unknown option '" ++ token ++ "'; ignoring" ++ newline in
  mkGlobals (overrides g) (debugParsed g) (app (errs g) [message]).

Definition sensibleMode : list (string * string) :=
  [("sensible-mode", "true"); ("nan-check", "true"); ("assert-level", "all");
   ("device-sync-mode", "true"); ("stack-trace-on-error", "true");
   ("stack-trace-on-crash", "true"); ("source-tracebacks", "true")].
Definition valueOptions : list string :=
  ["assert-level"; "op-log-level"; "print-style"; "ir-output-dir"].
Definition booleanFlags : list string :=
  ["nan-check"; "uninitialized-read-check"; "device-sync-mode"; "stack-trace-on-error";
   "stack-trace-on-crash"; "source-tracebacks"].

Definition applySensibleMode (g : Globals) : Globals :=
  fold_left (fun g '(k, v) => setGlobal ("max-debug." ++ k) v g) sensibleMode g.

(** One token of the list, after trimming. *)
Definition applyToken (tokenRef : string) (g : Globals) : Globals :=
  let tokenRef := trim [" "; "009"]%char tokenRef in
  if isEmpty tokenRef then g
  else match find_first_of ["="%char] tokenRef with
  | Some eq =>
      let key := take_front tokenRef eq in
      let value := drop_front tokenRef (S eq) in
      if existsb (String.eqb key) valueOptions then setGlobal ("max-debug." ++ key) value g
      else complain key g
  | None =>
      if String.eqb tokenRef "sensible" then applySensibleMode g
      else if existsb (String.eqb tokenRef) booleanFlags
      then setGlobal ("max-debug." ++ tokenRef) "true" g
      else complain tokenRef g
  end.

Fixpoint debugLoop (fuel : nat) (envRef : string) (g : Globals) : option Globals :=
  if isEmpty envRef then Some g
  else match fuel with
  | O => None
  | S fuel => let '(tokenRef, rest) := split envRef "," in debugLoop fuel rest (applyToken tokenRef g)
  end.

(** [std::getenv("MODULAR_DEBUG")] is the argument. *)
Definition parseModularDebugEnv (env : option string) (g : Globals) : option Globals :=
  if debugParsed g then Some g
  else
    let g := mkGlobals (overrides g) true (errs g) in
    match env with
    | None => Some g
    | Some env => debugLoop (String.length env) env g
    end.

(** Every key MODULAR_DEBUG can set. *)
Definition debugKeys : list string :=
  map (fun k => "max-debug." ++ k) (app (map fst sensibleMode) (app valueOptions booleanFlags)).

Lemma pieces_split s c : s ≠ "" →
  pieces (Ascii.eqb c) s =
  match after (Ascii.eqb c) s with
  | Some r => before (Ascii.eqb c) s :: pieces (Ascii.eqb c) r
  | None => [s]
  end.
Proof.
  induction s as [|d s IH]; [done|]. intros _. simpl. destruct (Ascii.eqb c d); [done|].
  destruct s as [|e s]; [done|]. rewrite IH by done. by destruct (after _ _).
Qed.

Lemma applyToken_empty g : applyToken "" g = g.
Proof. unfold applyToken. by rewrite trim_spec. Qed.

Lemma debugLoop_spec fuel envRef g : (String.length envRef ≤ fuel)%nat →
  debugLoop fuel envRef g = Some (fold_left (fun g t => applyToken t g) (pieces (Ascii.eqb ",") envRef) g).
Proof.
  revert envRef g. induction fuel as [|fuel IH]; intros envRef g Hf; cbn [debugLoop].
  { destruct envRef; [|simpl in Hf; lia]. simpl. by rewrite applyToken_empty. }
  destruct (isEmpty envRef) eqn:E.
  { apply isEmpty_true in E as ->. simpl. by rewrite applyToken_empty. }
  assert (Hne : envRef ≠ "") by (by intros ->).
  rewrite split_spec, pieces_split by done.
  pose proof (after_length (Ascii.eqb ",") envRef) as Hl.
  destruct (after (Ascii.eqb ",") envRef) as [r|] eqn:Ea; cbn [fold_left].
  - apply IH. cbn [default from_option] in Hl. unfold id in Hl. destruct envRef; [done|].
    simpl in Hl, Hf. lia.
  - destruct fuel; reflexivity.
Qed.

(** Outside the keys of the list, the overrides stay as they were. *)
Definition changesOnly (keys : list string) (o o' : KV) : Prop :=
  ∀ k, ¬ In k keys → o' !! k = o !! k.

Lemma changesOnly_trans keys o1 o2 o3 :
  changesOnly keys o1 o2 → changesOnly keys o2 o3 → changesOnly keys o1 o3.
Proof. intros H1 H2 k Hk. by rewrite H2, H1. Qed.

Lemma setGlobal_changes key value g : In (lower key) debugKeys →
  changesOnly debugKeys (overrides g) (overrides (setGlobal key value g)).
Proof.
  intros Hin k Hk. cbn [setGlobal overrides]. unfold setGlobalValue.
  apply lookup_insert_ne. by intros <-.
Qed.

(** The keys are written in lower case already. *)
Lemma debugKeys_lower k : In k debugKeys → lower k = k.
Proof.
  rewrite lower_spec. intros Hin.
  assert (Forall (fun k => string_map to_lower k = k) debugKeys) as H
    by (vm_compute; repeat constructor).
  rewrite List.Forall_forall in H. by apply H.
Qed.

Lemma debug_option_key opts key : In key opts → 
  incl opts (app (map fst sensibleMode) (app valueOptions booleanFlags)) →
  In (lower ("max-debug." ++ key)) debugKeys.
Proof.
  intros Hin Hincl. assert (In ("max-debug." ++ key) debugKeys) as H.
  { unfold debugKeys. apply in_map_iff. exists key. auto. }
  by rewrite (debugKeys_lower _ H).
Qed.

Lemma existsb_eqb_In s l : existsb (String.eqb s) l = true → In s l.
Proof. intros (x & Hx & ->%String.eqb_eq)%existsb_exists. done. Qed.

Lemma applyToken_changes t g : changesOnly debugKeys (overrides g) (overrides (applyToken t g)).
Proof.
  unfold applyToken. destruct (isEmpty _); [done|].
  destruct (find_first_of _ _) as [eq|].
  - destruct (existsb _ valueOptions) eqn:E; [|done]. apply existsb_eqb_In in E.
    apply setGlobal_changes. eapply debug_option_key; [exact E|].
    intros x Hx. apply in_or_app. right. apply in_or_app. by left.
  - destruct (String.eqb _ "sensible").
    + unfold applySensibleMode.
      assert (∀ l g, incl (map fst l) (map fst sensibleMode) →
        changesOnly debugKeys (overrides g)
          (overrides (fold_left (fun g '(k, v) => setGlobal ("max-debug." ++ k) v g) l g))) as H.
      { clear. induction l as [|[k v] l IH]; intros g Hincl; simpl; [done|].
        eapply changesOnly_trans; [|apply IH; intros x Hx; apply Hincl; by right].
        apply setGlobal_changes. apply (debug_option_key (map fst sensibleMode)).
        - apply Hincl. by left.
        - intros x Hx. apply in_or_app. by left. }
      apply H. by intros x.
    + destruct (existsb _ booleanFlags) eqn:E; [|done]. apply existsb_eqb_In in E.
      apply setGlobal_changes. eapply debug_option_key; [exact E|].
      intros x Hx. apply in_or_app. right. apply in_or_app. by right.
Qed.

(** MODULAR_DEBUG is processed to its end, one comma-separated token at a
    time from left to right; whatever its text, it can only set the documented
    [max-debug] keys; and a second call does nothing. *)
Theorem parseModularDebugEnv_spec env env' g :
  ∃ g', parseModularDebugEnv env g = Some g' ∧
    (debugParsed g = false →
     overrides g' = overrides (fold_left (fun g t => applyToken t g)
                                 (pieces (Ascii.eqb ",") (default "" env)) g)) ∧
    changesOnly debugKeys (overrides g) (overrides g') ∧
    parseModularDebugEnv env' g' = Some g'.
Proof.
  assert (Hres : ∃ g', parseModularDebugEnv env g = Some g' ∧ debugParsed g' = true ∧
    (debugParsed g = false → overrides g' = overrides (fold_left (fun g t => applyToken t g)
                                 (pieces (Ascii.eqb ",") (default "" env)) g)) ∧
    changesOnly debugKeys (overrides g) (overrides g')).
  { unfold parseModularDebugEnv. destruct (debugParsed g) eqn:Ed; [by exists g|].
    assert (Hfold : ∀ l g1 g2, overrides g1 = overrides g2 → debugParsed g1 = true →
       let r1 := fold_left (fun g t => applyToken t g) l g1 in
       debugParsed r1 = true ∧
       overrides r1 = overrides (fold_left (fun g t => applyToken t g) l g2) ∧
       changesOnly debugKeys (overrides g2) (overrides r1)).
    { induction l as [|t l IH]; intros g1 g2 Ho Hd; simpl; [by rewrite Ho|].
      assert (overrides (applyToken t g1) = overrides (applyToken t g2) ∧
              debugParsed (applyToken t g1) = debugParsed g1) as [Ho' Hd'].
      { unfold applyToken, applySensibleMode, setGlobal, complain. simpl.
        repeat case_match; simpl; rewrite ?Ho; done. }
      destruct (IH (applyToken t g1) (applyToken t g2) Ho') as (H1 & H2 & H3); [congruence|].
      split_and!; [done|done|]. eapply changesOnly_trans; [apply applyToken_changes|exact H3]. }
    destruct env as [env|].
    - rewrite debugLoop_spec by done.
      destruct (Hfold (pieces (Ascii.eqb ",") env) (mkGlobals (overrides g) true (errs g)) g) as (? & ? & ?);
        [done|done|]. eexists. split; [done|]. done.
    - eexists. split; [done|]. split_and!; [done| |done]. intros _.
      simpl. by rewrite applyToken_empty. }
  destruct Hres as (g' & H1 & H2 & H3 & H4). exists g'. split_and!; try done.
  unfold parseModularDebugEnv. by rewrite H2.
Qed.

End ModularDebug.

Lemma parseFrom_spec_witness :
  @wfKV llvm_stringref (assignAll (snd (@assignments llvm_stringref "" (splitLines "A = 1"))) ∅).
Proof.
  destruct (@parseFrom_spec llvm_stringref "A = 1" None ∅) as (r & _ & _ & H). apply H.
  intros k v Hk. by rewrite lookup_empty in Hk.
Defined.

(** Closed well-formedness facts, by evaluation. *)
Ltac good_tokens :=
  repeat match goal with
  | |- Forall _ [] => apply List.Forall_nil
  | |- Forall _ (_ :: _) => apply List.Forall_cons
  | |- goodEntry _ => unfold goodEntry; cbn [fst snd]
  | |- goodSection _ => unfold goodSection, goodName; cbn [fst snd]
  | |- trimmed _ _ => split
  | |- noneOf _ _ => vm_compute; reflexivity
  | |- _ ∧ _ => split
  | |- ex _ => eexists _, _; split; [reflexivity|discriminate]
  | |- _ = _ => vm_compute; reflexivity
  end.

Lemma parseFrom_render_witness :
  @parseFrom llvm_stringref
    (renderEntries [("Key", "x y")] (renderSections [("Max.Log", [("level", "debug"); ("Level", "")])]))
    None ∅ =
  Some (Success tt, {["key" := "x y"; "max.log.level" := ""]}).
Proof.
  rewrite (@parseFrom_render llvm_stringref [("Key", "x y")]
    [("Max.Log", [("level", "debug"); ("Level", "")])] None).
  - vm_compute. reflexivity.
  - by good_tokens.
  - by good_tokens.
Defined.

Lemma maybeGetValue_spec_witness :
  let env := fun n => if String.eqb n "MODULAR_MAX_LOG_LEVEL" then Some "debug" else None in
  fst (@maybeGetValue llvm_stringref env (fun _ => None) ∅ "max.log-level" ∅) = Some "debug".
Proof.
  pose proof (@maybeGetValue_spec llvm_stringref
    (fun n => if String.eqb n "MODULAR_MAX_LOG_LEVEL" then Some "debug" else None)
    (fun _ => None) ∅ "max.log-level" ∅ (fun _ => eq_refl)) as H.
  destruct (maybeGetValue _ _ _ _ _) as [v kv]. destruct H as [-> _]. reflexivity.
Defined.

Lemma unset_override_sticks_witness :
  let during := @setGlobalValue llvm_stringref "a.b" "new" ∅ in
  let kv' := snd (@maybeGetValue llvm_stringref (fun _ => None) (fun _ => None) during "a.b"
                    {["a.b" := "old"]}) in
  fst (@maybeGetValue llvm_stringref (fun _ => None) (fun _ => None)
         (@unsetGlobalValue llvm_stringref "a.b" during) "a.b" kv') = Some "new".
Proof.
  apply (@unset_override_sticks llvm_stringref (fun _ => None) (fun _ => None) ∅ "a.b" "new"
    {["a.b" := "old"]}); reflexivity.
Defined.

End Config.
