(* ===== verification/ConfigPaths.v ===== *)
(** The search for configuration, data and cache directories, the one-time
    reading of the configuration file ([Config::open]) and [isMaxInstalled] of
    Support/lib/Configuration.cpp. *)
From S2P Require Import Prelude StringRef Configuration.

#[local] Open Scope mojo_scope.
#[local] Open Scope string_scope.

Module ConfigPaths.
Import Config.

Inductive FolderType := FolderConfig | FolderData | FolderCache.

#[export] Instance FolderType_eq_dec : EqDecision FolderType.
Proof. solve_decision. Defined.

Section SearchPaths.
Context {SR : StringRefOps}.
(** The preprocessor's platform, and the environment. *)
Variable isWin32 isApple : bool.
Variable GetEnv : string → option string.
(** The file system: [std::filesystem::exists(path, ec)], an error counting as
    absence, and [create_directories] with the message of its error. *)
Variable FS : Type.
Variable exists_ : FS → string → bool.
Variable create_directories : FS → string → FS * option string.

Definition createPath (path : string) (fs : FS) : ErrorOr unit * FS :=
  let '(fs, ec) := create_directories fs path in
  match ec with
  | Some message => (Error (path ++ " could not be created: " ++ message), fs)
  | None => (Success tt, fs)
  end.

(** The directory under a variable that replaces the whole search. *)
Definition rootFor (type : FolderType) (root : string) : string :=
  if decide (type = FolderCache) then root /+/ "cache" else root.

Definition homePaths (type : FolderType) (fs : FS) : list string * bool :=
  match GetEnv "HOME" with
  | Some homeDir =>
      let path := homeDir /+/ ".modular" in
      if exists_ fs path then
        ([if decide (type = FolderCache) then path /+/ ".cache" /+/ "modular"
          else homeDir /+/ ".modular"; path], true)
      else ([], false)
  | None => ([], false)
  end.

Definition xdgVariable (type : FolderType) : string :=
  match type with
  | FolderConfig => "XDG_CONFIG_HOME"
  | FolderData => "XDG_DATA_HOME"
  | FolderCache => "XDG_CACHE_HOME"
  end.

Definition xdgDefault (type : FolderType) (homeDir : string) : string :=
  match type with
  | FolderConfig => homeDir /+/ ".config"
  | FolderData => homeDir /+/ ".local" /+/ "share"
  | FolderCache => homeDir /+/ ".cache"
  end.

Definition xdgPaths (type : FolderType) : list string :=
  match GetEnv (xdgVariable type), GetEnv "HOME" with
  | Some dir, _ => [dir /+/ "modular"]
  | None, Some homeDir => [xdgDefault type homeDir /+/ "modular"]
  | None, None => []
  end.

Definition latePaths (type : FolderType) (addedHome : bool) : list string :=
  match addedHome, GetEnv "HOME" with
  | false, Some homeDir =>
      [if decide (type = FolderCache) then homeDir /+/ ".modular" /+/ "cache"
       else homeDir /+/ ".modular"]
  | _, _ => []
  end.

(** [None]: the assertion that APPDATA is set fails. *)
Definition getSearchPaths (type : FolderType) (fs : FS) : option (list string) :=
  match GetEnv "MODULAR_HOME" with
  | Some modularHome => Some [rootFor type modularHome]
  | None =>
  match GetEnv "MODULAR_DERIVED_PATH" with
  | Some derivedPath => Some [rootFor type derivedPath]
  | None =>
  match GetEnv "TEST_TMPDIR" with
  | Some testTempdir => Some [testTempdir /+/ ".modular"]
  | None =>
      if isWin32 then
        defaultRoot ← GetEnv "APPDATA"; Some [defaultRoot /+/ "Local" /+/ "Modular"]
      else
        let '(first, addedHome) := homePaths type fs in
        Some (first ++ xdgPaths type ++ latePaths type addedHome ++ ["/opt/modular"])%list
  end end end.

(** The second [find_if]: the first path that can be created, keeping the
    first error. *)
Fixpoint createFirst (paths : list string) (firstErr : option string) (fs : FS)
    : ErrorOr string * FS :=
  match paths with
  | [] => (Error (default "no candidates for directory" firstErr), fs)
  | path :: paths =>
      match createPath path fs with
      | (Success _, fs) => (Success path, fs)
      | (Error e, fs) =>
          createFirst paths (match firstErr with None => Some e | _ => firstErr end) fs
      end
  end.

Definition findBestPathForType (type : FolderType) (create : bool) (fs : FS)
    : option (ErrorOr string * FS) :=
  searchPaths ← getSearchPaths type fs;
  match List.find (exists_ fs) searchPaths with
  | Some found => Some (Success found, fs)
  | None =>
      if create then Some (createFirst searchPaths None fs)
      else p ← head searchPaths; Some (Success p, fs)
  end.

Definition getModularConfigFolderPath := findBestPathForType FolderConfig.
Definition getModularDataFolderPath := findBestPathForType FolderData.

Definition getModularCacheFolderPath (cacheDir : string) (create : bool) (fs : FS)
    : option (ErrorOr string * FS) :=
  if isEmpty cacheDir then findBestPathForType FolderCache create fs
  else Some (Success cacheDir, fs).

Definition findModularFile (fileName : string) (fs : FS) : option (option string) :=
  searchPaths ← getSearchPaths FolderConfig fs;
  let searchPaths :=
    (searchPaths ++ (if isWin32 then [] else ["/etc/modular"]) ++
     (if isApple then ["/opt/homebrew/etc/modular"] else []))%list in
  Some (match List.find (fun path => exists_ fs (path /+/ fileName)) searchPaths with
        | Some found => Some (found /+/ fileName)
        | None => None
        end).

Definition kModularConfigFileName : string := "modular.cfg".

Definition getConfigFilePath (create : bool) (fs : FS) : option (ErrorOr string * FS) :=
  configFile ← findModularFile kModularConfigFileName fs;
  match configFile with
  | Some f => Some (Success f, fs)
  | None =>
      '(configFolderOr, fs) ← getModularConfigFolderPath create fs;
      Some (match configFolderOr with
            | Success folder => Success (folder /+/ kModularConfigFileName)
            | Error e => Error e
            end, fs)
  end.

(** ** Specification of the directory choice *)

(** Creation is tried on the paths in order, each on the file system the
    previous failures left: [tried] are those that failed, with their errors. *)
Inductive CreateRun : FS → list string → list string → FS → Prop :=
  | CreateNone fs : CreateRun fs [] [] fs
  | CreateFail fs fs1 fs2 p e ps es :
      createPath p fs = (Error e, fs1) → CreateRun fs1 ps es fs2 →
      CreateRun fs (p :: ps) (e :: es) fs2.

Lemma createFirst_spec paths acc fs :
  (∃ tried es fs1 p rest fs2, paths = (tried ++ p :: rest)%list ∧
     CreateRun fs tried es fs1 ∧ createPath p fs1 = (Success tt, fs2) ∧
     createFirst paths acc fs = (Success p, fs2)) ∨
  (∃ es fs1, CreateRun fs paths es fs1 ∧
     createFirst paths acc fs =
       (Error (default "no candidates for directory" (match acc with Some e => Some e | None => head es end)), fs1)).
Proof.
  revert acc fs. induction paths as [|p paths IH]; intros acc fs; cbn [createFirst].
  - right. exists [], fs. split; [constructor|]. by destruct acc.
  - destruct (createPath p fs) as [[[]|e] fs1] eqn:E.
    + left. exists [], [], fs, p, paths, fs1. split_and!; [done|constructor|done|done].
    + destruct (IH (match acc with None => Some e | _ => acc end) fs1)
        as [(tried & es & fs2 & q & rest & fs3 & -> & Hr & Hq & Hc)|(es & fs2 & Hr & Hc)].
      * left. exists (p :: tried), (e :: es), fs2, q, rest, fs3.
        split_and!; [done|by econstructor|done|done].
      * right. exists (e :: es), fs2. split; [by econstructor|]. rewrite Hc. by destruct acc.
Qed.

Lemma getSearchPaths_total type fs :
  isWin32 = false ∨ is_Some (GetEnv "APPDATA") →
  ∃ p ps, getSearchPaths type fs = Some (p :: ps).
Proof.
  intros Hp. unfold getSearchPaths.
  destruct (GetEnv "MODULAR_HOME"); [eauto|]. destruct (GetEnv "MODULAR_DERIVED_PATH"); [eauto|].
  destruct (GetEnv "TEST_TMPDIR"); [eauto|]. destruct isWin32.
  - destruct Hp as [?|[r ->]]; [done|]. simpl. eauto.
  - destruct (homePaths type fs) as [[|p l] b]; [|simpl; eauto].
    destruct (xdgPaths type) as [|p l]; [|simpl; eauto].
    destruct (latePaths type b) as [|p l]; simpl; eauto.
Qed.

(** On every platform where the search has a root (anywhere but Windows,
    and on Windows when APPDATA is set) the choice of a directory is defined:
    the first candidate that exists, without touching the file system;
    otherwise the first candidate if nothing may be created; otherwise the
    first candidate whose creation succeeds after the earlier ones failed, or
    the error of the first candidate when all of them failed. *)
Theorem findBestPathForType_spec type create fs :
  isWin32 = false ∨ is_Some (GetEnv "APPDATA") →
  ∃ p0 ps r fs', getSearchPaths type fs = Some (p0 :: ps) ∧
    findBestPathForType type create fs = Some (r, fs') ∧
    ((∃ before found rest, (p0 :: ps) = (before ++ found :: rest)%list ∧
        exists_ fs found = true ∧ Forall (fun p => exists_ fs p = false) before ∧
        r = Success found ∧ fs' = fs) ∨
     (Forall (fun p => exists_ fs p = false) (p0 :: ps) ∧
      (create = false → r = Success p0 ∧ fs' = fs) ∧
      (create = true →
        (∃ tried es fs1 p rest, (p0 :: ps) = (tried ++ p :: rest)%list ∧
           CreateRun fs tried es fs1 ∧ createPath p fs1 = (Success tt, fs') ∧ r = Success p) ∨
        (∃ e es, CreateRun fs (p0 :: ps) (e :: es) fs' ∧ r = Error e)))).
Proof.
  intros Hp. destruct (getSearchPaths_total type fs Hp) as (p0 & ps & Hs).
  unfold findBestPathForType. rewrite Hs. cbn [mbind option_bind].
  assert (Hfind : ∀ l, match List.find (exists_ fs) l with
     | Some f => ∃ before rest, l = (before ++ f :: rest)%list ∧ exists_ fs f = true ∧
                   Forall (fun p => exists_ fs p = false) before
     | None => Forall (fun p => exists_ fs p = false) l end).
  { induction l as [|x l IH]; simpl; [constructor|]. destruct (exists_ fs x) eqn:E.
    - exists [], l. by repeat constructor.
    - destruct (List.find _ l) as [f|].
      + destruct IH as (b & r & -> & ? & ?). exists (x :: b), r. by repeat constructor.
      + by constructor. }
  specialize (Hfind (p0 :: ps)). destruct (List.find _ _) as [f|].
  - destruct Hfind as (b & r & He & Hf & Hb). exists p0, ps, (Success f), fs.
    split_and!; [done|done|]. left. by exists b, f, r.
  - destruct create.
    + destruct (createFirst_spec (p0 :: ps) None fs) as
        [(tried & es & fs1 & p & rest & fs2 & He & Hr & Hc & Hcf)|(es & fs1 & Hr & Hcf)].
      * exists p0, ps, (Success p), fs2. rewrite Hcf. split_and!; [done|done|]. right.
        split_and!; [done|done|]. intros _. left. by exists tried, es, fs1, p, rest.
      * inversion Hr; subst. eexists p0, ps, _, fs1. rewrite Hcf. split_and!; [done|done|]. right.
        split_and!; [done|done|]. intros _. right. by eexists _, _.
    + exists p0, ps, (Success p0), fs. split_and!; [done|done|]. right. by split_and!.
Qed.

End SearchPaths.

(** ** [Config::open] and [isMaxInstalled] *)

Section Open.
Context {SR : StringRefOps}.
Variable isWin32 isApple : bool.
Variable FS : Type.
Variable create_directories : FS → string → FS * option string.
(** The source manager's [PrintMessage] at an offset of the file. *)
Variable printMessage : nat → string → string.

(** What the process sees when it opens the configuration. *)
Record World := mkWorld {
  GetEnv : string → option string;
  fs : FS;
  (** [exists(path)] of the throwing and error-code overloads. *)
  existsEC : string → ErrorOr bool;
  (** [access(directory, Write)] returned an error. *)
  noWriteAccess : string → bool;
  getFile : string → ErrorOr string;
  (** [readFileUnderLock]: an error of the lock, or the callback's result. *)
  readFileUnderLock : string → ErrorOr (ErrorOr string);
  runfiles : string → option string
}.

(** The function-local statics, and the process-wide tables. *)
Record OpenState := mkOpenState {
  initFlag : bool;
  cachedKV : KV;
  initError : option string;
  globals : Globals
}.

Definition existsFS (w : World) (_ : FS) (path : string) : bool :=
  match existsEC w path with Success b => b | Error _ => false end.

(** The buffer, read with or without the lock. *)
Definition readConfigFile (w : World) (path : string) : ErrorOr string :=
  if noWriteAccess w (parent_path path) then getFile w path
  else match readFileUnderLock w path with
       | Error e => Error e
       | Success r => r
       end.

(** The body of [call_once]: the map to cache, or the error. *)
Definition initialise (w : World) : option (ErrorOr KV) :=
  '(configFilePathOr, _) ←
    getConfigFilePath isWin32 isApple (GetEnv w) FS (existsFS w) create_directories false (fs w);
  match configFilePathOr with
  | Error _ => Some (Success ∅)
  | Success path =>
      match existsEC w path with
      | Error e => Some (Error e)
      | Success false => Some (Success ∅)
      | Success true =>
          match readConfigFile w path with
          | Error e => Some (Error e)
          | Success buffer =>
              '(r, kv) ← parseFrom buffer (Some printMessage) ∅;
              Some (match r with Success _ => Success kv | Error e => Error e end)
          end
      end
  end.

Definition open (w : World) (st : OpenState) : option (ErrorOr KV * OpenState) :=
  g ← parseModularDebugEnv (GetEnv w "MODULAR_DEBUG") (globals st);
  let st := mkOpenState (initFlag st) (cachedKV st) (initError st) g in
  st ← (if initFlag st then Some st
        else
          r ← initialise w;
          Some (match r with
                | Success kv => mkOpenState true kv (initError st) g
                | Error e => mkOpenState true (cachedKV st) (Some e) g
                end));
  Some (match initError st with Some e => Error e | None => Success (cachedKV st) end, st).

(** [sharedLibraryName] is [PlatformLibrary::getSharedLibraryName("max")]. *)
Definition isMaxInstalled (sharedLibraryName : string) (w : World) (st : OpenState)
    : option (bool * OpenState) :=
  match runfiles w "max.lib_path" with
  | Some _ => Some (true, st)
  | None =>
      '(configOr, st) ← open w st;
      match configOr with
      | Error _ => Some (false, st)
      | Success kv =>
          match fst (maybeGetValue (GetEnv w) (runfiles w) (overrides (globals st))
                       "max.package_root" kv) with
          | Some packageRoot =>
              Some (existsFS w (fs w) (packageRoot /+/ "lib" /+/ sharedLibraryName), st)
          | None => Some (true, st)
          end
      end
  end.

(** A process that has not opened the configuration yet. *)
Definition freshState (g : Globals) : OpenState := mkOpenState false ∅ None g.

(** The states the process can be in later: it opens the configuration, in
    whatever world, and sets overrides. *)
Inductive Later (st : OpenState) : OpenState → Prop :=
  | LaterNow : Later st st
  | LaterOpen st1 w r st2 : Later st st1 → open w st1 = Some (r, st2) → Later st st2
  | LaterOverride st1 key value : Later st st1 →
      Later st (mkOpenState (initFlag st1) (cachedKV st1) (initError st1)
                            (setGlobal key value (globals st1))).

(** Either nothing was read yet, or what was read is a well-formed map, or it
    is an error and the map is empty. *)
Definition OpenInv (st : OpenState) : Prop :=
  wfKV (cachedKV st) ∧
  (initFlag st = false → cachedKV st = ∅ ∧ initError st = None) ∧
  (initError st ≠ None → cachedKV st = ∅).

Lemma initialise_wf w kv : initialise w = Some (Success kv) → wfKV kv.
Proof.
  unfold initialise. intros ([p fs'] & _ & H)%bind_Some.
  repeat case_match; simplify_eq; try apply wfKV_empty.
  apply bind_Some in H as ([r kv'] & Hp & H). destruct r; [|done]. injection H as ->.
  by eapply parseFrom_wf, Hp.
Qed.

Lemma open_shape w st r st' : open w st = Some (r, st') →
  r = (match initError st' with Some e => Error e | None => Success (cachedKV st') end) ∧
  initFlag st' = true ∧
  (initFlag st = true → cachedKV st' = cachedKV st ∧ initError st' = initError st) ∧
  (OpenInv st → OpenInv st').
Proof.
  unfold open. intros (g & _ & (st1 & H1 & [= <- <-])%bind_Some)%bind_Some.
  cbn [initFlag] in H1. split; [done|]. destruct (initFlag st) eqn:Ef.
  - injection H1 as <-. cbn [initFlag cachedKV initError]. split_and!; [done|done|].
    intros (Hw & _ & He). by split_and!.
  - apply bind_Some in H1 as (ri & Hi & [= <-]). split; [by destruct ri|]. split; [done|].
    intros (Hw & Hn & _). destruct (Hn Ef) as [Hc He]. destruct ri as [kv|e]; cbn [cachedKV initError].
    + split_and!; [by eapply initialise_wf|done|]. simpl. by rewrite He.
    + split_and!; [done|done|]. by rewrite Hc.
Qed.

Lemma later_inv g st : Later (freshState g) st → OpenInv st.
Proof.
  induction 1 as [|st w r st' _ IH Ho|st key value _ IH].
  - split_and!; [apply wfKV_empty|done|done].
  - apply open_shape in Ho as (_ & _ & _ & H). by apply H.
  - exact IH.
Qed.

Lemma later_cached st st' : Later st st' → initFlag st = true →
  initFlag st' = true ∧ cachedKV st' = cachedKV st ∧ initError st' = initError st.
Proof.
  intros Hl Hf. induction Hl as [|st1 w r st2 _ IH Ho|st1 key value _ IH]; [done| |done].
  destruct IH as (Hf1 & Hc1 & He1). apply open_shape in Ho as (_ & Hf2 & H & _).
  destruct (H Hf1) as [-> ->]. done.
Qed.

(** The configuration is read once per process: whatever happens to the
    file, the environment or the overrides after a first call of [open], every
    later call returns what the first returned, an error included; and every
    map it returns has lower-case keys and trimmed values. *)
Theorem open_once g st w r st' :
  Later (freshState g) st → open w st = Some (r, st') →
  (∀ kv, r = Success kv → wfKV kv) ∧
  ∀ st2 w2 r2 st2', Later st' st2 → open w2 st2 = Some (r2, st2') → r2 = r.
Proof.
  intros Hr Ho. destruct (open_shape _ _ _ _ Ho) as (-> & Hf & _ & Hinv).
  destruct (Hinv (later_inv _ _ Hr)) as (Hw & _ & _). split.
  { intros kv. destruct (initError st'); [done|]. by intros [= <-]. }
  intros st2 w2 r2 st2' Hl Ho2. destruct (later_cached _ _ Hl Hf) as (Hf2 & Hc & He).
  destruct (open_shape _ _ _ _ Ho2) as (-> & _ & Hsame & _). destruct (Hsame Hf2) as [Hc2 He2].
  by rewrite Hc2, He2, Hc, He.
Qed.

End Open.

#[local] Existing Instance llvm_stringref.

(** A file system as the list of its directories; creation under [/opt]
    fails. *)
Definition listExists (fs : list string) (p : string) : bool := existsb (String.eqb p) fs.
Definition listCreate (fs : list string) (p : string) : list string * option string :=
  match stripPrefix "/opt" p with
  | Some _ => (fs, Some "Permission denied")
  | None => (p :: fs, None)
  end.

Lemma findBestPathForType_spec_witness :
  findBestPathForType false (fun n => if String.eqb n "HOME" then Some "/opt/me" else None)
    (list string) listExists listCreate FolderData true [] =
  Some (Error "/opt/me/.local/share/modular could not be created: Permission denied", []).
Proof.
  destruct (findBestPathForType_spec false
    (fun n => if String.eqb n "HOME" then Some "/opt/me" else None)
    (list string) listExists listCreate FolderData true [] (or_introl eq_refl))
    as (p0 & ps & r & fs' & _ & Hf & _). rewrite Hf. rewrite <- Hf. reflexivity.
Defined.

(** A world whose configuration file has [text], and the one after it is
    deleted. *)
Definition worldWith (text : option string) : World (list string) :=
  mkWorld (list string)
    (fun n => if String.eqb n "MODULAR_HOME" then Some "/m" else None) ["/m"]
    (fun p => Success (if text then String.eqb p "/m/modular.cfg" else false))
    (fun _ => false) (fun _ => Error "no file")
    (fun _ => match text with Some t => Success (Success t) | None => Error "no file" end)
    (fun _ => None).

Lemma open_once_witness :
  ∃ st1 st2,
    open true false (list string) listCreate (fun _ msg => msg) (worldWith (Some "Key = 1")) (freshState (mkGlobals ∅ false [])) =
      Some (Success {["key" := "1"]}, st1) ∧
    open true false (list string) listCreate (fun _ msg => msg) (worldWith None) st1 = Some (Success {["key" := "1"]}, st2).
Proof.
  pose (g := mkGlobals ∅ false []).
  pose (st1 := mkOpenState true {["key" := "1"]} None (mkGlobals ∅ true [])).
  assert (H1 : open true false (list string) listCreate (fun _ msg => msg) (worldWith (Some "Key = 1")) (freshState g) =
    Some (Success {["key" := "1"]}, st1)) by (vm_compute; reflexivity).
  pose proof (LaterNow true false (list string) listCreate (fun _ msg => msg) (freshState g)) as Hr0.
  pose proof (LaterNow true false (list string) listCreate (fun _ msg => msg) st1) as Hr1.
  destruct (open true false (list string) listCreate (fun _ msg => msg) (worldWith None) st1) as [[r2 st2]|] eqn:H2;
    [|vm_compute in H2; discriminate H2].
  rewrite (proj2 (open_once true false (list string) listCreate (fun _ msg => msg) g _ _ _ _ Hr0 H1)
    st1 _ _ _ Hr1 H2) in H2.
  exists st1, st2. split; [exact H1|exact H2].
Defined.

End ConfigPaths.
