(* ===== verification/BazelRunfiles.v ===== *)
(** Support/lib/BazelRunfiles.cpp: where a configuration key's file is when
    the program runs out of a Bazel tree.  The runfiles library, the file
    system and the platform's library naming are parameters. *)
From S2P Require Import Prelude StringRef.

#[local] Open Scope mojo_scope.
#[local] Open Scope string_scope.

Module BazelRunfiles.

Record RunfileMapping := mkMapping {
  configKey : string;
  workspace : string;
  path : string;
  isSharedLibrary : bool;
  libName : string;
  searchExecroot : bool
}.

Section BazelRunfiles.
Context {SR : StringRefOps}.
(** [__aarch64__]; [PlatformLibrary::getSharedLibraryName]; the file system;
    and the two ways the runfiles library creates its object, [None] being a
    null pointer and an object being its [Rlocation]. *)
Variable isAarch64 : bool.
Variable getSharedLibraryName : string → string.
Variable exists_ : string → bool.
Variable createForTest create : option (string → string).

Definition kNVPTXWorkspace : string :=
  if isAarch64 then "nvptxcompiler_aarch64" else "nvptxcompiler_x86_64".

Definition kRunfileMappings : list RunfileMapping :=
  [mkMapping "crash_reporting.handler_path" "crashpad" "modular-crashpad-handler" false "" false;
   mkMapping "mojo-max.driver_path" "" "Mojo/tools/mojo/mojo" false "" false;
   mkMapping "mojo-max.lld_path" "llvm-project" "lld/lld" false "" false;
   mkMapping "mojo-max.lldb_path" "llvm-project" "lldb/lldb" false "" false;
   mkMapping "mojo-max.lsp_server_path" "" "Mojo/tools/mojo-lsp-server/mojo-lsp-server" false "" false;
   mkMapping "mojo-max.repl_entry_point" "" "Mojo/tools/mojo-repl-entry-point/mojo-repl-entry-point"
     false "" false;
   mkMapping "mojo-max.mgprt_path" "" "GraphCompiler" true "MGPRT" false;
   mkMapping "mojo-max.compilerrt_path" "" "Mojo" true "KGENCompilerRTShared" false;
   mkMapping "mojo-max.lldb_plugin_path" "" "Mojo" true "MojoLLDB" false;
   mkMapping "max.lib_path" "" "max/internal" true "max" false;
   mkMapping "nixl_plugin_dir" "nixl_upstream" "cpu/libplugin_UCX.so" false "" false;
   mkMapping "mojo-max.nvptx_path" kNVPTXWorkspace "libNVPTX.so" false "" true].

(** The static: the test-environment object when there is one. *)
Definition getRunfiles : option (string → string) :=
  match createForTest with Some rf => Some rf | None => create end.

(** The variables of the object, null without one. *)
Definition getRunfilesEnvVars (EnvVars : (string → string) → list (string * string)) : option (list (string * string)) :=
  match getRunfiles with None => None | Some rf => Some (EnvVars rf) end.

Definition buildRunfilePath (mapping : RunfileMapping) : string :=
  let result := if isEmpty (workspace mapping) then "_main/" else workspace mapping ++ "/" in
  let result := result ++ path mapping in
  if isSharedLibrary mapping then result ++ "/" ++ getSharedLibraryName (libName mapping)
  else result.

Definition findInExecroot (mapping : RunfileMapping) : option string :=
  if isEmpty (workspace mapping) then None
  else
    let candidate :=
      "bazel-out/cfg/bin/external" /+/ ("+http_archive+" ++ workspace mapping) /+/ path mapping in
    if exists_ candidate then Some candidate else None.

Definition fallback (mapping : RunfileMapping) : option string :=
  if searchExecroot mapping then findInExecroot mapping else None.

Definition locate (mapping : RunfileMapping) : option string :=
  match getRunfiles with
  | None => fallback mapping
  | Some rf =>
      let rlocation := rf (buildRunfilePath mapping) in
      if isEmpty rlocation then fallback mapping
      else if exists_ rlocation then Some rlocation else fallback mapping
  end.

Definition findConfigWithRunfiles (key : string) : option string :=
  let lowerKey := lower key in
  match List.find (fun m => String.eqb (configKey m) lowerKey) kRunfileMappings with
  | None => None
  | Some mapping => locate mapping
  end.

Lemma mappings_lower : map configKey kRunfileMappings = map lower (map configKey kRunfileMappings).
Proof. rewrite (map_ext _ _ lower_spec). reflexivity. Qed.

Lemma mappings_unique : NoDup (map configKey kRunfileMappings).
Proof. apply (bool_decide_unpack _). vm_compute. exact I. Qed.

Lemma find_unique m : In m kRunfileMappings →
  List.find (fun m' => String.eqb (configKey m') (configKey m)) kRunfileMappings = Some m.
Proof.
  pose proof mappings_unique as Hn. revert Hn. generalize kRunfileMappings as l.
  induction l as [|x l IH]; simpl; [done|]. rewrite NoDup_cons. intros [Hx Hn] [->|Hin].
  - by rewrite String.eqb_refl.
  - destruct (String.eqb_spec (configKey x) (configKey m)) as [E|]; [|by apply IH].
    exfalso. apply Hx. rewrite E. apply list_elem_of_In. by apply in_map.
Qed.

Lemma locate_exists m p : locate m = Some p → exists_ p = true.
Proof.
  assert (fallback m = Some p → exists_ p = true) as Hf.
  { unfold fallback, findInExecroot. repeat case_match; congruence. }
  unfold locate. repeat case_match; try done. congruence.
Qed.

(** Every entry of the table can be reached, and only through its own
    key, in any letter case; a key outside the table has no runfile; and an
    answer always names a file that exists. *)
Theorem findConfigWithRunfiles_spec key :
  (∀ m, In m kRunfileMappings → lower key = configKey m →
    findConfigWithRunfiles key = locate m) ∧
  (¬ In (lower key) (map configKey kRunfileMappings) → findConfigWithRunfiles key = None) ∧
  findConfigWithRunfiles (lower key) = findConfigWithRunfiles key ∧
  (∀ p, findConfigWithRunfiles key = Some p → exists_ p = true).
Proof.
  unfold findConfigWithRunfiles; cbv zeta. split_and!.
  - intros m Hin ->. by rewrite find_unique.
  - intros Hn. destruct (List.find _ _) as [m|] eqn:E; [|done].
    apply find_some in E as [Hin He%String.eqb_eq]. destruct Hn. rewrite <- He. by apply in_map.
  - by rewrite lower_idem.
  - intros p. destruct (List.find _ _); [apply locate_exists|done].
Qed.

End BazelRunfiles.
End BazelRunfiles.
