(* ===== verification/MojoConfig.v ===== *)
(** [MojoConfig] of Mojo/lib/Support/Configuration.cpp: the values of the
    [mojo-max] section, each read through [Config] (Configuration.v). *)
From S2P Require Import Prelude StringRef Configuration BazelRunfiles.

#[local] Open Scope string_scope.

Module MojoConfig.
Import Config.

Section MojoConfig.
Context {SR : StringRefOps}.
Variable GetEnv : string → option string.
Variable findConfigWithRunfiles : string → option string.
Variable getSharedLibraryName : string → string.
Variable exists_ : string → bool.

(** The macro pastes the section before the literal. *)
Definition MOJO_CONFIG_SECTION : string := "mojo-max".
Definition mojoKey (path : string) : string := MOJO_CONFIG_SECTION ++ path.

Definition mojoValue (overrides : KV) (path : string) : State KV string :=
  getValue GetEnv findConfigWithRunfiles overrides (mojoKey path).
Definition mojoPath (overrides : KV) (path relativePath : string) : State KV string :=
  getPath GetEnv findConfigWithRunfiles overrides (mojoKey path) relativePath.

(** The configuration an instance owns, or the one it shares. *)
Inductive ConfigSource := OwnedConfig | SharedConfig.

Definition getConfigFilePath (src : ConfigSource) (configFilePath : ErrorOr string) : ErrorOr string :=
  match src with
  | OwnedConfig => configFilePath
  | SharedConfig => Error "Configuration file path unavailable from settings"
  end.

Definition getParserImportPaths (overrides : KV) : State KV (list string) :=
  importPaths ← mojoValue overrides ".import_path"; mret (split_all importPaths "," false).

Definition getPluginPaths (overrides : KV) : State KV (list string) :=
  pluginPaths ← mojoValue overrides ".mojo_plugin_paths"; mret (split_all pluginPaths ";" false).

Definition sharedLibPath (stem : string) : string := "lib/" ++ getSharedLibraryName stem.

Definition getLLDBPluginPath (overrides : KV) : State KV string :=
  mojoPath overrides ".lldb_plugin_path" (sharedLibPath "MojoLLDB").
Definition getLLDBPath (overrides : KV) : State KV string :=
  mojoPath overrides ".lldb_path" "bin/mojo-lldb".
Definition getCompilerRTPath (overrides : KV) : State KV string :=
  mojoPath overrides ".compilerrt_path" (sharedLibPath "KGENCompilerRTShared").
Definition getMGPRTPath (overrides : KV) : State KV string :=
  mojoPath overrides ".mgprt_path" (sharedLibPath "MGPRT").
Definition getDriverPath (overrides : KV) : State KV string :=
  mojoPath overrides ".driver_path" "bin/mojo".
Definition getJupyterPath (overrides : KV) : State KV string :=
  mojoPath overrides ".jupyter_path" (sharedLibPath "MojoJupyter").
Definition getLSPServerPath (overrides : KV) : State KV string :=
  mojoPath overrides ".lsp_server_path" "bin/mojo-lsp-server".
Definition getMBlackPath (overrides : KV) : State KV string :=
  mojoPath overrides ".mblack_path" "bin/mblack".
Definition getREPLEntryPoint (overrides : KV) : State KV string :=
  mojoPath overrides ".repl_entry_point" "lib/mojo-repl-entry-point".
Definition getLinkerDriver (overrides : KV) : State KV string :=
  mojoValue overrides ".linker_driver".
Definition getLLDPath (overrides : KV) : State KV string :=
  mojoPath overrides ".lld_path" "bin/lld".

Definition setLLDPathOverride (path : string) (overrides : KV) : KV :=
  setGlobalValue (mojoKey ".lld_path") path overrides.

(** [maybeGetValue(key)] split at the commas, or nothing. *)
Definition commaSeparated (overrides : KV) (path : string) : State KV (list string) :=
  v ← maybeGetValue GetEnv findConfigWithRunfiles overrides (mojoKey path);
  mret (match v with Some v => split_all v "," false | None => [] end).

Definition appendSystemLibraryLinkArgs (overrides : KV) (libs : list string) : State KV (list string) :=
  new ← commaSeparated overrides ".system_libs"; mret (app libs new).
Definition appendSharedObjectLinkArgs (overrides : KV) (args : list string) : State KV (list string) :=
  new ← commaSeparated overrides ".shared_object_libs"; mret (app args new).
Definition getCompilerRTImportLibraryPath (overrides : KV) : State KV string :=
  mojoPath overrides ".compilerrt_import_lib_path" "lib/KGENCompilerRTShared.lib".

Definition appendSharedLibraryLinkArgs (overrides : KV) (args : list string)
    (nameSharedLibrary : string → string) : State KV (list string) :=
  sharedLibsArg ← mojoValue overrides ".shared_libs";
  args ← (if isEmpty sharedLibsArg then
            lib ← mojoPath overrides ".shared_libs_lib" "lib";
            mret (app args ["-Xlinker"; "-rpath"; "-Xlinker"; lib])
          else mret (app args (split_all sharedLibsArg "," false)));
  bindings ← mojoPath overrides ".shared_libs_artmb" ("lib/" ++ nameSharedLibrary "AsyncRTMojoBindings");
  mret (if exists_ bindings then app args [bindings] else args).

Lemma getPath_override overrides key relativePath kv value :
  overrides !! lower key = Some value → value ≠ "" →
  fst (getPath GetEnv findConfigWithRunfiles overrides key relativePath kv) = value.
Proof.
  intros Ho Hne. unfold getPath. cbv [mbind State_bind mret State_ret].
  rewrite getValue_eq. unfold layers. rewrite lower_idem, Ho. cbn [firstSome default from_option].
  unfold id. by destruct value.
Qed.

(** The override of the linker's path wins over the environment, the
    runfiles and the file in every instance, whatever the instance had read
    before; and a path that was not overridden still comes from its own key. *)
Theorem setLLDPathOverride_spec overrides path kv :
  path ≠ "" →
  fst (getLLDPath (setLLDPathOverride path overrides) kv) = path ∧
  ∀ key, lower key ≠ lower (mojoKey ".lld_path") →
    maybeGetValue GetEnv findConfigWithRunfiles (setLLDPathOverride path overrides) key kv =
    maybeGetValue GetEnv findConfigWithRunfiles overrides key kv.
Proof.
  intros Hne. split.
  - apply getPath_override; [|done]. apply lookup_insert_eq.
  - intros key Hk. rewrite !maybeGetValue_eq. unfold layers, setLLDPathOverride, setGlobalValue.
    by rewrite lookup_insert_ne by done.
Qed.

Lemma filter_nonempty (l : list string) : Forall (fun x => x ≠ "") (List.filter (fun x => negb (isEmpty x)) l).
Proof.
  induction l as [|x l IH]; simpl; [constructor|]. destruct x; simpl; [done|]. by constructor.
Qed.

(** Collecting the link arguments only appends: either the four words of
    the default rpath or the configured words, none of them empty, and after
    them the bindings library exactly when the file it names exists. *)
Theorem appendSharedLibraryLinkArgs_spec overrides args name kv :
  ∃ words bindings kv',
    appendSharedLibraryLinkArgs overrides args name kv =
      (app args (app words (if exists_ bindings then [bindings] else [])), kv') ∧
    bindings ≠ "" ∧ Forall (fun w => w ≠ "") words ∧
    ((∃ lib, words = ["-Xlinker"; "-rpath"; "-Xlinker"; lib]) ∨
     words = split_all (fst (mojoValue overrides ".shared_libs" kv)) "," false).
Proof.
  assert (Hp : ∀ path rel kv, fst (mojoPath overrides path rel kv) ≠ "").
  { intros p rel kv0. unfold mojoPath, getPath. cbv [mbind State_bind mret State_ret modify].
    destruct (getValue _ _ _ _ kv0) as [v kv1]. destruct (isEmpty v) eqn:E; [|cbn [fst]; by intros ->].
    destruct (split _ _) as [sec t]. destruct (getValue _ _ _ _ kv1) as [root kv2]. cbn [fst].
    intros H. by destruct root. }
  unfold appendSharedLibraryLinkArgs. cbv [mbind State_bind mret State_ret].
  destruct (mojoValue overrides ".shared_libs" kv) as [v kv1]. cbn [fst].
  destruct (isEmpty v) eqn:E.
  - pose proof (Hp ".shared_libs_lib" "lib" kv1) as Hlib.
    destruct (mojoPath overrides ".shared_libs_lib" "lib" kv1) as [lib kv2]. cbn [fst] in Hlib.
    pose proof (Hp ".shared_libs_artmb" ("lib/" ++ name "AsyncRTMojoBindings") kv2) as Hb.
    destruct (mojoPath _ _ _ kv2) as [b kv3]. cbn [fst] in Hb.
    exists ["-Xlinker"; "-rpath"; "-Xlinker"; lib], b, kv3. split_and!; [|done|by repeat constructor|eauto].
    rewrite app_assoc. by destruct (exists_ b); rewrite ?app_nil_r.
  - pose proof (Hp ".shared_libs_artmb" ("lib/" ++ name "AsyncRTMojoBindings") kv1) as Hb.
    destruct (mojoPath _ _ _ kv1) as [b kv3]. cbn [fst] in Hb.
    exists (split_all v "," false), b, kv3. split_and!; [|done| |by right].
    + rewrite app_assoc. by destruct (exists_ b); rewrite ?app_nil_r.
    + rewrite split_all_spec. apply filter_nonempty.
Qed.

End MojoConfig.

Lemma setLLDPathOverride_spec_witness :
  fst (@getLLDPath llvm_stringref (fun _ => Some "/env/lld") (fun _ => None)
    (@setLLDPathOverride llvm_stringref "/usr/bin/lld" ∅) ∅) = "/usr/bin/lld".
Proof.
  apply (@setLLDPathOverride_spec llvm_stringref (fun _ => Some "/env/lld") (fun _ => None) ∅
    "/usr/bin/lld" ∅). discriminate.
Defined.

End MojoConfig.
