(* ===== verification/Semaphore.v ===== *)
(** [M::AsyncRT::Semaphore] (AsyncRT/lib/Support/Semaphore.cpp): the three
    implementations of [Semaphore::Impl], one per platform, as the machine that
    threads calling [post] and [wait] run on one semaphore. *)
From S2P Require Import Prelude.

Module Semaphore.

(** The three arms of the [#if]. *)
Inductive Platform := Apple | Windows | Posix.
#[export] Instance Platform_eq_dec : EqDecision Platform.
Proof. solve_decision. Defined.

Inductive Errno := EINTR | ETIMEDOUT | EINVAL.
#[export] Instance Errno_eq_dec : EqDecision Errno.
Proof. solve_decision. Defined.

Record timespec := { tv_sec : Z; tv_nsec : Z }.

(** The calls into the platform's primitive that an arm waits with. *)
Inductive Prim :=
  | dispatch_semaphore_wait (timeout : option Z)    (* None: DISPATCH_TIME_FOREVER *)
  | acquire
  | try_acquire_for (ns : Z)
  | sem_wait
  | sem_timedwait (ts : timespec).

(** What such a call gives back: nothing, a bool, or a code and [errno]. *)
Inductive PrimRet := voidRet | boolRet (b : bool) | rcRet (rc : Z) (errno : Errno).

(** The return that says that the count was taken. *)
Definition taken (p : Prim) (r : PrimRet) : Prop :=
  match p, r with
  | (dispatch_semaphore_wait _ | sem_wait | sem_timedwait _), rcRet rc _ => rc = 0
  | acquire, voidRet => True
  | try_acquire_for _, boolRet b => b = true
  | _, _ => False
  end.

Definition validDeadline (ts : timespec) : Prop := 0 ≤ tv_nsec ts < 10 ^ 9.

(** The returns of a call that did not take the count, when the count is [c]:
    a finite timeout that expires; for the POSIX calls a signal; and for
    [sem_timedwait] a malformed deadline, which is looked at only by a call
    that would block. *)
Definition refused (p : Prim) (c : Z) (r : PrimRet) : Prop :=
  match p, r with
  | dispatch_semaphore_wait (Some _), rcRet rc _ => rc ≠ 0
  | try_acquire_for _, boolRet b => b = false
  | sem_wait, rcRet rc e => rc = -1 ∧ e = EINTR
  | sem_timedwait ts, rcRet rc e =>
      rc = -1 ∧ (e = EINTR ∨ e = ETIMEDOUT ∧ validDeadline ts
                 ∨ e = EINVAL ∧ c = 0 ∧ ¬ validDeadline ts)
  | _, _ => False
  end.

(** The platform's semaphore: how a call on a count of [c] may return and the
    count it leaves, and the largest count. The laws are the manual's. *)
Class KernelSemaphore := {
  returns : Prim → Z → PrimRet → Z → Prop;
  maxCount : Platform → Z;
  maxCount_pos : ∀ pf, 0 < maxCount pf;
  returns_sound : ∀ p c r c', returns p c r c' →
    taken p r ∧ 0 < c ∧ c' = c - 1 ∨ refused p c r ∧ c' = c;
  returns_taken : ∀ p c, 0 < c → ∃ r, taken p r ∧ returns p c r (c - 1);
  returns_invalid : ∀ ts, ¬ validDeadline ts →
    returns (sem_timedwait ts) 0 (rcRet (-1) EINVAL) 0;
}.

(** ** The code of the arms *)

(** The constructor: [None] where the assertion fails, a fatal error where
    [sem_init] refuses the value, which it takes as an [unsigned int]. *)
Definition checkedInitialValue (initialValue : Z) : option Z :=
  if 0 <=? initialValue then Some initialValue else None.

Definition posix_Impl (maxValue initialValue : Z) : option (ErrorOr Z) :=
  if 0 <=? initialValue then
    let value := initialValue mod 2 ^ 32 in
    Some (if value <=? maxValue then Success value
          else Error "Unable to initialize an unnamed semaphore.")
  else None.

Definition Impl (maxCount : Platform → Z) (pf : Platform) (initialValue : Z) : option (ErrorOr Z) :=
  match pf with
  | Apple => if 0 <=? initialValue then Some (Success initialValue) else None
  | Windows => Success <$> checkedInitialValue initialValue
  | Posix => posix_Impl (maxCount Posix) initialValue
  end.

(** [post]. At the largest count [sem_post] fails and its result is dropped;
    the other two have no such behaviour ([None]). *)
Definition post (maxCount : Platform → Z) (pf : Platform) (c : Z) : option Z :=
  if c <? maxCount pf then Some (c + 1)
  else match pf with Posix => Some c | _ => None end.

(** What the code does with a return: go round the loop, return, or abort. *)
Inductive After := Retry | Return (b : bool) | Fatal (msg : string).

(** [wait()]: the primitive it calls and what it makes of the return. *)
Definition waitPrim (pf : Platform) : Prim :=
  match pf with
  | Apple => dispatch_semaphore_wait None
  | Windows => acquire
  | Posix => sem_wait
  end.

Definition apple_wait (r : PrimRet) : option After :=
  match r with rcRet rc _ => Some (Return (negb (0 =? rc))) | _ => None end.
Definition windows_wait (r : PrimRet) : option After :=
  match r with voidRet => Some (Return false) | _ => None end.
Definition posix_wait (r : PrimRet) : option After :=
  match r with
  | rcRet rc errno =>
      Some (if (rc =? -1) && bool_decide (errno = EINTR) then Retry
            else Return (negb (rc =? 0)))
  | _ => None
  end.
Definition wait (pf : Platform) : PrimRet → option After :=
  match pf with Apple => apple_wait | Windows => windows_wait | Posix => posix_wait end.

(** [wait(timeoutNS)]. The POSIX arm reads the clock ([None]: the reading
    fails) and adds to the nanoseconds, an addition that must not overflow
    (the outer [None]). *)
Definition posixDeadline (now : option timespec) (timeoutNS : Z) : option (ErrorOr timespec) :=
  match now with
  | None => Some (Error "Unable to call clock_gettime")
  | Some ts =>
      let nsec := tv_nsec ts + timeoutNS in
      if (- 2 ^ 63 <=? nsec) && (nsec <? 2 ^ 63)
      then Some (Success {| tv_sec := tv_sec ts; tv_nsec := nsec |}) else None
  end.

Definition timedPrim (pf : Platform) (now : option timespec) (timeoutNS : Z)
    : option (ErrorOr Prim) :=
  match pf with
  | Apple => Some (Success (dispatch_semaphore_wait (Some timeoutNS)))
  | Windows => Some (Success (try_acquire_for timeoutNS))
  | Posix => e ← posixDeadline now timeoutNS;
             Some match e with Success ts => Success (sem_timedwait ts) | Error m => Error m end
  end.

Definition windows_timedWait (r : PrimRet) : option After :=
  match r with boolRet b => Some (Return (negb b)) | _ => None end.
Definition posix_timedWait (r : PrimRet) : option After :=
  match r with
  | rcRet rc errno =>
      Some (if (rc =? -1) && bool_decide (errno = EINTR) then Retry
            else if rc =? 0 then Return false
            else if (rc =? -1) && bool_decide (errno = ETIMEDOUT) then Return true
            else Fatal "sem_timedwait failed for a reason other than EINTR or ETIMEDOUT.")
  | _ => None
  end.
Definition timedWait (pf : Platform) : PrimRet → option After :=
  match pf with Apple => apple_wait | Windows => windows_timedWait | Posix => posix_timedWait end.

(** ** Threads that share a semaphore *)

Inductive Call := Post | Wait | WaitFor (timeoutNS : Z).
#[export] Instance Call_eq_dec : EqDecision Call.
Proof. solve_decision. Defined.

(** The calls a thread still makes, the primitive it is in, and what it has
    done: the number of posts and the values its waits returned. *)
Record Thread := {
  todo : list Call;
  calling : option Prim;
  posted : Z;
  results : list bool
}.

Record System := { count : Z; threads : list Thread; aborted : option string }.

(** Entering the head call of a thread. *)
Definition startPrim (pf : Platform) (now : option timespec) (c : Call) : option (ErrorOr Prim) :=
  match c with
  | Post => None
  | Wait => Some (Success (waitPrim pf))
  | WaitFor ns => timedPrim pf now ns
  end.

Definition afterCall (pf : Platform) (c : Call) (r : PrimRet) : option After :=
  match c with Post => None | Wait => wait pf r | WaitFor _ => timedWait pf r end.

Inductive Label :=
  | EvPost (i : nat) | EvStart (i : nat) | EvRetry (i : nat)
  | EvReturn (i : nat) (timed b : bool) | EvAbort (i : nat).

Definition isTimed (c : Call) : bool := match c with WaitFor _ => true | _ => false end.

Definition setThread (i : nat) (th : Thread) (c : Z) (s : System) : System :=
  {| count := c; threads := <[i:=th]> (threads s); aborted := aborted s |}.
Definition abort (msg : string) (s : System) : System :=
  {| count := count s; threads := threads s; aborted := Some msg |}.

Section Machine.
Context {KS : KernelSemaphore} (pf : Platform).

(** One step of one thread. The program is over once it is aborted. *)
Inductive step : Label → System → System → Prop :=
  | step_post s i th rest c' :
      aborted s = None → threads s !! i = Some th →
      todo th = Post :: rest → calling th = None → post maxCount pf (count s) = Some c' →
      step (EvPost i) s
        (setThread i {| todo := rest; calling := None; posted := posted th + 1;
                        results := results th |} c' s)
  | step_start s i th call rest now p :
      aborted s = None → threads s !! i = Some th →
      todo th = call :: rest → calling th = None → startPrim pf now call = Some (Success p) →
      step (EvStart i) s
        (setThread i {| todo := todo th; calling := Some p; posted := posted th;
                        results := results th |} (count s) s)
  | step_start_fatal s i th call rest now msg :
      aborted s = None → threads s !! i = Some th →
      todo th = call :: rest → calling th = None → startPrim pf now call = Some (Error msg) →
      step (EvAbort i) s (abort msg s)
  | step_retry s i th call rest p r :
      aborted s = None → threads s !! i = Some th →
      todo th = call :: rest → calling th = Some p →
      returns p (count s) r (count s) → afterCall pf call r = Some Retry →
      step (EvRetry i) s s
  | step_return s i th call rest p r c' b :
      aborted s = None → threads s !! i = Some th →
      todo th = call :: rest → calling th = Some p →
      returns p (count s) r c' → afterCall pf call r = Some (Return b) →
      step (EvReturn i (isTimed call) b) s
        (setThread i {| todo := rest; calling := None; posted := posted th;
                        results := app (results th) [b] |} c' s)
  | step_fatal s i th call rest p r c' msg :
      aborted s = None → threads s !! i = Some th →
      todo th = call :: rest → calling th = Some p →
      returns p (count s) r c' → afterCall pf call r = Some (Fatal msg) →
      step (EvAbort i) s (abort msg s).

(** Finite executions, with their labels. *)
Inductive steps : list Label → System → System → Prop :=
  | steps_refl s : steps [] s s
  | steps_snoc l ls s1 s2 s3 : steps ls s1 s2 → step l s2 s3 → steps (app ls [l]) s1 s3.

(** The threads before any call, on a fresh semaphore. *)
Definition freshThread (calls : list Call) : Thread :=
  {| todo := calls; calling := None; posted := 0; results := [] |}.
Definition initial (value : Z) (programs : list (list Call)) : System :=
  {| count := value; threads := map freshThread programs; aborted := None |}.


(** ** One return of the primitive *)

(** [p] is a primitive the code may have entered for [call]. *)
Definition inCall (call : Call) (p : Prim) : Prop :=
  ∃ now, startPrim pf now call = Some (Success p).

(** The three kinds of waiting: a code from GCD or POSIX, nothing or a bool
    from the C++ library. *)
Lemma inCall_inv call p : inCall call p →
  match pf, call with
  | Apple, Wait => p = dispatch_semaphore_wait None
  | Apple, WaitFor ns => p = dispatch_semaphore_wait (Some ns)
  | Windows, Wait => p = acquire
  | Windows, WaitFor ns => p = try_acquire_for ns
  | Posix, Wait => p = sem_wait
  | Posix, WaitFor ns => ∃ ts, p = sem_timedwait ts
  | _, Post => False
  end.
Proof.
  intros [now H]. destruct call; simpl in H; [done| |]; destruct pf; simplify_eq/=; try done.
  destruct (posixDeadline now timeoutNS) as [[ts|m]|]; simplify_eq/=. by exists ts.
Qed.

#[local] Ltac destruct_exists H := try match type of H with ∃ _, _ => destruct H end.

Lemma afterCall_taken call p r : inCall call p → taken p r →
  afterCall pf call r = Some (Return false).
Proof.
  intros Hin Ht. apply inCall_inv in Hin.
  destruct pf, call; simpl in *; try done; destruct_exists Hin; subst;
    destruct r as [|b|rc e]; simpl in *; subst; try done.
Qed.

Lemma afterCall_refused call p c r : inCall call p → refused p c r →
  ∃ a, afterCall pf call r = Some a ∧
    (a = Retry ∨ a = Return true ∧ isTimed call = true ∨
     (∃ msg ts, a = Fatal msg ∧ pf = Posix ∧ p = sem_timedwait ts ∧ ¬ validDeadline ts ∧ c = 0)).
Proof.
  intros Hin Hr. apply inCall_inv in Hin.
  destruct pf, call; simpl in *; try done; destruct_exists Hin; subst;
    destruct r as [|b|rc e]; simpl in Hr; try done; simpl.
  - eexists. split; [done|]. right; left. by destruct rc.
  - subst. eexists. split; [done|]. by right; left.
  - destruct Hr as [-> ->]. eauto.
  - destruct Hr as [-> [->|[[-> _]|(-> & -> & Hts)]]]; (eexists; split; [reflexivity|]);
      [by left|by right; left|right; right; eauto 10].
Qed.

(** ** The invariant *)

Definition posts (l : list Call) : Z := total (fun c => match c with Post => 1 | _ => 0 end) l.
Definition waits (l : list Call) : list Call := filter (fun c => c ≠ Post) l.
(** The waits that returned false. *)
Definition acquired (rs : list bool) : Z := total (fun b : bool => if b then 0 else 1) rs.

Definition ThreadInv (prog : list Call) (th : Thread) : Prop :=
  (∀ p, calling th = Some p → ∃ call rest, todo th = call :: rest ∧ inCall call p) ∧
  ∃ finished, prog = app finished (todo th) ∧ posted th = posts finished ∧
    Forall2 (fun call (b : bool) => b = true → isTimed call = true) (waits finished) (results th).

Definition Inv (value : Z) (programs : list (list Call)) (s : System) : Prop :=
  Forall2 ThreadInv programs (threads s) ∧
  count s = value + total posted (threads s) - total (fun th => acquired (results th)) (threads s) ∧
  0 ≤ count s.

Lemma total_app {A} (f : A → Z) l k : total f (app l k) = total f l + total f k.
Proof. induction l as [|x l IH]; simpl; lia. Qed.

Lemma posts_app l k : posts (app l k) = posts l + posts k.
Proof. apply total_app. Qed.
Lemma acquired_app l k : acquired (app l k) = acquired l + acquired k.
Proof. apply total_app. Qed.
Lemma waits_app l k : waits (app l k) = app (waits l) (waits k).
Proof. apply filter_app. Qed.

Lemma posts_nonneg l : 0 ≤ posts l.
Proof. apply total_nonneg. intros [] _; lia. Qed.
Lemma acquired_nonneg l : 0 ≤ acquired l.
Proof. apply total_nonneg. intros [] _; lia. Qed.

Lemma acquired_le_length l : acquired l ≤ Z.of_nat (length l).
Proof. induction l as [|[] l IH]; unfold acquired in *; simpl; lia. Qed.

(** What threads have done is bounded by their programs. *)
Lemma posted_le_posts programs ths : Forall2 ThreadInv programs ths →
  total posted ths ≤ total posts programs.
Proof.
  induction 1 as [|prog th programs ths Hth _ IH]; simpl; [lia|].
  destruct Hth as (_ & fin & -> & -> & _). rewrite posts_app.
  pose proof (posts_nonneg (todo th)). lia.
Qed.

Lemma Inv_initial value programs : 0 ≤ value → Inv value programs (initial value programs).
Proof.
  intros Hv. unfold Inv, initial; simpl. split_and!; try lia.
  - induction programs; simpl; constructor; auto.
    split; [done|]. exists []. repeat split. constructor.
  - assert (total posted (map freshThread programs) = 0 ∧
            total (fun th => acquired (results th)) (map freshThread programs) = 0) as [-> ->];
      [|lia].
    induction programs as [|x l [IH1 IH2]]; simpl; [done|].
    rewrite IH1, IH2. unfold acquired. simpl. lia.
Qed.

(** Replacing one thread. *)
Lemma Inv_setThread value programs s i th th' c' prog :
  Inv value programs s → threads s !! i = Some th → programs !! i = Some prog →
  ThreadInv prog th' →
  c' - count s = (posted th' - posted th) - (acquired (results th') - acquired (results th)) →
  0 ≤ c' → Inv value programs (setThread i th' c' s).
Proof.
  intros (HF & Hc & Hn) Hi Hp Hth' Hd Hc'. unfold Inv, setThread; simpl. split_and!; [|..|done].
  - rewrite <- (list_insert_id programs i prog Hp). by apply Forall2_insert.
  - rewrite (total_insert posted _ _ _ th' Hi), (total_insert _ _ _ _ th' Hi). lia.
Qed.

Lemma ThreadInv_at programs ths i th : Forall2 ThreadInv programs ths → ths !! i = Some th →
  ∃ prog, programs !! i = Some prog ∧ ThreadInv prog th.
Proof. intros HF Hi. destruct (Forall2_lookup_r _ _ _ _ _ HF Hi) as (prog & ? & ?). eauto. Qed.

(** A call leaves the program. *)
Lemma ThreadInv_post prog th rest : ThreadInv prog th → todo th = Post :: rest →
  ThreadInv prog {| todo := rest; calling := None; posted := posted th + 1;
                    results := results th |}.
Proof.
  intros (_ & fin & -> & Hp & HF) ->. split; [done|]. exists (app fin [Post]). simpl.
  rewrite <- app_assoc, posts_app, waits_app, app_nil_r. split_and!; [done| |done].
  rewrite Hp. done.
Qed.

Lemma ThreadInv_return prog th call rest b : ThreadInv prog th → todo th = call :: rest →
  call ≠ Post → (b = true → isTimed call = true) →
  ThreadInv prog {| todo := rest; calling := None; posted := posted th;
                    results := app (results th) [b] |}.
Proof.
  intros (_ & fin & -> & Hp & HF) -> Hne Hb. split; [done|]. exists (app fin [call]). simpl.
  rewrite <- app_assoc, posts_app, waits_app. split_and!; [done| |].
  - rewrite Hp. destruct call; [done|..]; unfold posts; simpl; lia.
  - unfold waits at 2. rewrite filter_cons_True by done. by apply Forall2_app; [|repeat constructor].
Qed.

(** What a return of the primitive does to the count and to the call. *)
Lemma return_cases call p c r c' a : inCall call p → returns p c r c' →
  afterCall pf call r = Some a →
  a = Return false ∧ 0 < c ∧ c' = c - 1 ∨
  c' = c ∧ (a = Retry ∨ a = Return true ∧ isTimed call = true ∨
    (∃ msg ts, a = Fatal msg ∧ pf = Posix ∧ p = sem_timedwait ts ∧ ¬ validDeadline ts ∧ c = 0)).
Proof.
  intros Hin Hret Ha. destruct (returns_sound _ _ _ _ Hret) as [(Ht & ? & ?)|[Hr ->]].
  - left. rewrite (afterCall_taken _ _ _ Hin Ht) in Ha. simplify_eq. done.
  - right. destruct (afterCall_refused _ _ _ _ Hin Hr) as (a' & Ha' & Hc).
    simplify_eq. done.
Qed.

Lemma inCall_not_post call p : inCall call p → call ≠ Post.
Proof. intros [now H] ->. done. Qed.

(** The thread of a step, its program and its call. *)
Lemma ThreadInv_calling prog th call rest p : ThreadInv prog th →
  todo th = call :: rest → calling th = Some p → inCall call p.
Proof. intros [H _] Htd Hc. destruct (H p Hc) as (call0 & rest0 & E & Hin). congruence. Qed.

Section Bounded.
Variables (value : Z) (programs : list (list Call)).
Hypothesis value_nonneg : 0 ≤ value.
(** The posts of the programs cannot take the count past the largest one. *)
Hypothesis posts_fit : value + total posts programs ≤ maxCount pf.

Lemma Inv_count_bound s : Inv value programs s →
  count s ≤ value + total posted (threads s) ≤ maxCount pf.
Proof.
  intros (HF & Hc & Hn). pose proof (posted_le_posts _ _ HF).
  pose proof (total_nonneg (fun th => acquired (results th)) (threads s)
                (fun th _ => acquired_nonneg _)). lia.
Qed.

(** A thread that is still to post leaves room for it. *)
Lemma Inv_post_room s i th rest : Inv value programs s → threads s !! i = Some th →
  todo th = Post :: rest → count s < maxCount pf.
Proof.
  intros HI Hi Htd. pose proof HI as (HF & _ & _).
  destruct (ThreadInv_at _ _ _ _ HF Hi) as (prog & Hp & HT).
  pose proof (ThreadInv_post _ _ _ HT Htd) as HT'.
  assert (Forall2 ThreadInv programs (<[i:={| todo := rest; calling := None;
    posted := posted th + 1; results := results th |}]> (threads s))) as HF'.
  { rewrite <- (list_insert_id programs i prog Hp). by apply Forall2_insert. }
  apply posted_le_posts in HF'. rewrite (total_insert posted _ _ _ _ Hi) in HF'. simpl in HF'.
  pose proof (Inv_count_bound s HI). lia.
Qed.

Lemma Inv_step l s s' : Inv value programs s → step l s s' → Inv value programs s'.
Proof.
  intros HI Hs. pose proof HI as (HF & Hc & Hn).
  destruct Hs as [s i th rest c' _ Hi Htd Hcall Hpost|s i th call rest now p _ Hi Htd Hcall Hst
                 |s i th call rest now msg _ Hi Htd Hcall Hst|s i th call rest p r _ Hi Htd Hcall Hret Ha
                 |s i th call rest p r c' b _ Hi Htd Hcall Hret Ha
                 |s i th call rest p r c' msg _ Hi Htd Hcall Hret Ha]; try done;
    destruct (ThreadInv_at _ _ _ _ HF Hi) as (prog & Hp & HT).
  - pose proof (Inv_post_room _ _ _ _ HI Hi Htd) as Hroom. unfold post in Hpost.
    rewrite (proj2 (Z.ltb_lt _ _) Hroom) in Hpost. simplify_eq.
    eapply Inv_setThread; eauto using ThreadInv_post; simpl; lia.
  - eapply Inv_setThread; eauto; simpl; try lia. destruct HT as [_ HT].
    split; [|done]. simpl. intros p' [= <-]. exists call, rest. split; [done|by exists now].
  - pose proof (ThreadInv_calling _ _ _ _ _ HT Htd Hcall) as Hin.
    assert (call ≠ Post) by eauto using inCall_not_post.
    destruct (return_cases _ _ _ _ _ _ Hin Hret Ha) as [([= ->] & ? & ->)|[-> Hcases]].
    + eapply Inv_setThread; eauto; simpl; [by eapply ThreadInv_return| |lia].
      rewrite acquired_app. unfold acquired at 2. simpl. lia.
    + destruct Hcases as [|[[[= ->] ?]|(? & ? & ? & _)]]; try done.
      eapply Inv_setThread; eauto; simpl; [by eapply ThreadInv_return|].
      rewrite acquired_app. unfold acquired at 2. simpl. lia.
Qed.

Lemma Inv_steps ls s : steps ls (initial value programs) s → Inv value programs s.
Proof.
  intros H. remember (initial value programs) as s0 eqn:E.
  induction H; subst; eauto using Inv_initial, Inv_step.
Qed.

(** ** The contract *)

(** What a client sees of the semaphore: a number of permits. *)
Inductive SpecEvent := Posted | Acquired | TimedOut | Broken.
Inductive specStep : SpecEvent → Z → Z → Prop :=
  | spec_post c : specStep Posted c (c + 1)
  | spec_acquire c : 0 < c → specStep Acquired c (c - 1)
  | spec_timeout c : specStep TimedOut c c.
Inductive specSteps : list SpecEvent → Z → Z → Prop :=
  | specSteps_refl c : specSteps [] c c
  | specSteps_snoc e es c1 c2 c3 :
      specSteps es c1 c2 → specStep e c2 c3 → specSteps (app es [e]) c1 c3.

(** [false] is an acquisition, [true] a timeout, and a plain wait has none. *)
Definition visible (l : Label) : option SpecEvent :=
  match l with
  | EvPost _ => Some Posted
  | EvReturn _ _ false => Some Acquired
  | EvReturn _ true true => Some TimedOut
  | EvReturn _ false true => Some Broken
  | EvStart _ | EvRetry _ | EvAbort _ => None
  end.

(** A step of the code is one of the contract, or invisible. *)
Lemma step_visible l s s' : Inv value programs s → step l s s' →
  match visible l with Some e => specStep e (count s) (count s') | None => count s' = count s end.
Proof.
  intros HI Hs. pose proof HI as (HF & _ & _).
  destruct Hs as [s i th rest c' _ Hi Htd Hcall Hpost| | | |s i th call rest p r c' b _ Hi Htd Hcall Hret Ha|];
    simpl; try done.
  - pose proof (Inv_post_room _ _ _ _ HI Hi Htd) as Hroom. unfold post in Hpost.
    rewrite (proj2 (Z.ltb_lt _ _) Hroom) in Hpost. simplify_eq. constructor.
  - destruct (ThreadInv_at _ _ _ _ HF Hi) as (prog & _ & HT).
    pose proof (ThreadInv_calling _ _ _ _ _ HT Htd Hcall) as Hin.
    destruct (return_cases _ _ _ _ _ _ Hin Hret Ha) as [([= ->] & ? & ->)|[-> Hcases]].
    + destruct (isTimed call); simpl; by constructor.
    + destruct Hcases as [|[[[= ->] ->]|(? & ? & ? & _)]]; try done. simpl. constructor.
Qed.

Lemma step_running l s s' : step l s s' → aborted s = None.
Proof. by destruct 1. Qed.

(** ** The only abort *)

Lemma step_abort l s s' msg : Inv value programs s → step l s s' → aborted s' = Some msg →
  pf = Posix ∧ ∃ i th ns rest, threads s' !! i = Some th ∧ todo th = WaitFor ns :: rest ∧
    (posixDeadline None ns = Some (Error msg) ∨
     ∃ ts, calling th = Some (sem_timedwait ts) ∧ ¬ validDeadline ts ∧ count s' = 0).
Proof.
  intros HI Hs. pose proof HI as (HF & _ & _).
  destruct Hs as [s ??? c' Hab|s ?????? Hab|s i th call rest now msg' _ Hi Htd Hcall Hst|s ?????? Hab
    |s ?????? c' b Hab|s i th call rest p r c' msg' _ Hi Htd Hcall Hret Ha]; simpl; try congruence;
    intros [= ->].
  - destruct call as [| |ns]; simpl in Hst; [done|done|]. destruct pf; simplify_eq/=.
    split; [done|]. exists i, th, ns, rest. split_and!; try done. left.
    destruct now as [ts|]; simpl in Hst; [|by simplify_eq].
    by case_match; simplify_eq/=.
  - destruct (ThreadInv_at _ _ _ _ HF Hi) as (prog & _ & HT).
    pose proof (ThreadInv_calling _ _ _ _ _ HT Htd Hcall) as Hin.
    destruct (return_cases _ _ _ _ _ _ Hin Hret Ha)
      as [(? & _)|[_ [?|[[? _]|(m & ts & _ & Hpf & -> & Hts & Hc)]]]]; try done.
    apply inCall_inv in Hin. rewrite Hpf in Hin. destruct call as [| |ns]; try done.
    split; [done|]. exists i, th, ns, rest. eauto 10.
Qed.

End Bounded.

End Machine.
End Semaphore.
