(* ===== verification/SemaphoreFair.v ===== *)
(** Executions of the threads of Semaphore.v that never end: under a fair
    scheduler every wait returns when the posts suffice.  With the properties
    of the machine and a concrete semaphore for their witnesses. *)
From S2P Require Import Prelude Semaphore.

Module SemaphoreFair.
Import Semaphore.

(** An execution: the states and, where the machine moves, the label. *)
Record Execution := { state : nat → System; label : nat → option Label }.

Definition isPost (c : Call) : bool := match c with Post => true | _ => false end.

(** A thread posts before it waits. *)
Fixpoint postsFirst (l : list Call) : bool :=
  match l with
  | [] => true
  | Post :: l => postsFirst l
  | _ :: l => forallb (fun c => negb (isPost c)) l
  end.

Lemma posts_none l : forallb (fun c => negb (isPost c)) l = true → posts l = 0.
Proof.
  induction l as [|[] l IH]; simpl; intros H; try done; by rewrite <- IH at 2.
Qed.

Lemma postsFirst_app l k : postsFirst (app l k) = true → postsFirst k = true.
Proof.
  induction l as [|[] l IH]; simpl; intros H; try done; [by apply IH|..];
    rewrite forallb_app in H; bool_to_prop;
    (destruct k as [|[] k]; simpl in *; [done|done|by bool_to_prop..]).
Qed.

Lemma postsFirst_head l : postsFirst l = true → (∀ rest, l ≠ Post :: rest) → posts l = 0.
Proof.
  destruct l as [|[] l]; intros H Hne; [done|by destruct (Hne l)|..];
    by apply (posts_none (_ :: l)).
Qed.

(** The work left: two steps for a call, one once it has been entered. *)
Definition work (th : Thread) : Z :=
  2 * Z.of_nat (length (todo th)) - (if calling th then 1 else 0).

Section Fair.
Context {KS : KernelSemaphore} (pf : Platform).

Definition isExecution (ex : Execution) : Prop :=
  ∀ n, match label ex n with
       | Some l => step pf l (state ex n) (state ex (S n))
       | None => state ex (S n) = state ex n
       end.

(** Thread [i] can finish the step it is at without anyone's help. *)
Definition enabled (i : nat) (s : System) : Prop :=
  aborted s = None ∧ ∃ th, threads s !! i = Some th ∧
    match todo th, calling th with
    | [], _ => False
    | Post :: _, None => count s < maxCount pf
    | _ :: _, None => True
    | _ :: _, Some _ => 0 < count s
    end.

(** Thread [i] moves; going round the loop after a signal is no move. *)
Definition moves (i : nat) (l : Label) : Prop :=
  match l with
  | EvPost j | EvStart j | EvReturn j _ _ => i = j
  | EvRetry _ | EvAbort _ => False
  end.

(** Weak fairness: a thread does not stay enabled for ever without moving. *)
Definition fair (ex : Execution) : Prop :=
  ∀ i n, enabled i (state ex n) → ∃ m, (n ≤ m)%nat ∧
    (¬ enabled i (state ex m) ∨ ∃ l, label ex m = Some l ∧ moves i l).

Definition finished (prog : list Call) (th : Thread) : Prop :=
  todo th = [] ∧
  Forall2 (fun call (b : bool) => b = true → isTimed call = true) (waits prog) (results th).

(** Every move uses up work; a step that is no move changes nothing. *)
Lemma step_work value programs l s s' : Inv pf value programs s → step pf l s s' →
  aborted s' = None →
  (s' = s ∧ ¬ ∃ i, moves i l) ∨ total work (threads s') < total work (threads s).
Proof.
  intros (HF & _) Hs Hab.
  destruct Hs as [s i th rest c' _ Hi Htd Hcall _|s i th call rest now p _ Hi Htd Hcall _
                 |?????????|s i th call rest p r _ Hi Htd Hcall _ _
                 |s i th call rest p r c' b _ Hi Htd Hcall _ _|??????????]; simpl in *; try done.
  1,2,4: right; rewrite (total_insert work _ _ _ _ Hi); unfold work; simpl;
    rewrite ?Hcall, ?Htd; simpl; lia.
  left. split; [done|]. by intros [? ?].
Qed.

Lemma work_nonneg value programs s : Inv pf value programs s → 0 ≤ total work (threads s).
Proof.
  intros (HF & _). apply total_nonneg. intros th Hth.
  apply list_elem_of_lookup in Hth as [i Hi].
  destruct (ThreadInv_at _ _ _ _ _ HF Hi) as (prog & _ & HT & _). unfold work.
  destruct (calling th) as [p|]; [|lia].
  destruct (HT p eq_refl) as (call & rest & -> & _). simpl. lia.
Qed.

Section Balanced.
Variables (value : Z) (programs : list (list Call)).
Hypothesis value_nonneg : 0 ≤ value.
Hypothesis posts_fit : value + total posts programs ≤ maxCount pf.
(** There is a permit for every wait. *)
Hypothesis supply :
  total (fun prog => Z.of_nat (length (waits prog))) programs ≤ value + total posts programs.
Hypothesis posts_first : ∀ prog, prog ∈ programs → postsFirst prog = true.
(** The timed waits of the POSIX arm can abort. *)
Hypothesis no_timed : pf = Posix → ∀ prog ns, prog ∈ programs → WaitFor ns ∉ prog.

Lemma acquired_waits ps ths : Forall2 (ThreadInv pf) ps ths →
  total (fun th => acquired (results th)) ths + total (fun th => Z.of_nat (length (waits (todo th)))) ths
  ≤ total (fun prog => Z.of_nat (length (waits prog))) ps.
Proof using.
  induction 1 as [|prog th ps ths Hth _ IH]; simpl; [lia|].
  destruct Hth as (_ & fin & -> & _ & HF). apply Forall2_length in HF.
  pose proof (acquired_le_length (results th)). rewrite waits_app, length_app. lia.
Qed.

Lemma posted_all ps ths : Forall2 (ThreadInv pf) ps ths →
  (∀ prog, prog ∈ ps → postsFirst prog = true) →
  (∀ th rest, th ∈ ths → todo th ≠ Post :: rest) → total posted ths = total posts ps.
Proof using.
  induction 1 as [|prog th ps ths Hth _ IH]; intros Hpf Hne; simpl; [done|].
  rewrite IH; [|intros; apply Hpf; by right|intros; apply Hne; by right].
  destruct Hth as (_ & fin & -> & -> & _).
  assert (postsFirst (todo th) = true) as H.
  { apply (postsFirst_app fin). apply Hpf. left. }
  apply postsFirst_head in H; [|intros; apply Hne; left].
  rewrite posts_app. lia.
Qed.

(** Until all is done, some thread is enabled. *)
Lemma some_enabled s : Inv pf value programs s → aborted s = None →
  Exists (fun th => todo th ≠ []) (threads s) → ∃ i, enabled i s.
Proof using All.
  intros HI Hab Hex. pose proof HI as (HF & Hc & _).
  destruct (decide (Exists (fun th => head (todo th) = Some Post) (threads s))) as [Hp|Hp].
  - apply Exists_exists in Hp as (th & Hin & Hh).
    apply list_elem_of_lookup in Hin as [i Hi]. exists i. split; [done|]. exists th. split; [done|].
    destruct (todo th) as [|[] rest] eqn:Htd; simplify_eq/=.
    destruct (ThreadInv_at _ _ _ _ _ HF Hi) as (prog & _ & HT & _).
    destruct (calling th) as [p|].
    + destruct (HT p eq_refl) as (call & rest' & E & Hin). rewrite Htd in E.
      injection E as <- <-. by apply inCall_not_post in Hin.
    + by eapply Inv_post_room.
  - assert (∀ th rest, th ∈ threads s → todo th ≠ Post :: rest) as Hne.
    { intros th rest Hin E. apply Hp, Exists_exists. exists th. by rewrite E. }
    pose proof (posted_all _ _ HF posts_first Hne) as Hall.
    pose proof (acquired_waits _ _ HF) as Hacq.
    apply Exists_exists in Hex as (th & Hin & Htd).
    assert (1 ≤ total (fun th => Z.of_nat (length (waits (todo th)))) (threads s)).
    { pose proof (total_ge (fun th => Z.of_nat (length (waits (todo th)))) _ th
        ltac:(intros; cbv beta; lia) Hin) as Hge. simpl in Hge.
      destruct (todo th) as [|call rest] eqn:E; [done|].
      assert (1 ≤ Z.of_nat (length (waits (call :: rest)))); [|lia].
      unfold waits. rewrite filter_cons_True; [simpl; lia|].
      intros ->. by destruct (Hne th rest Hin). }
    pose proof Hin as Hin'. apply list_elem_of_lookup in Hin' as [i Hi].
    exists i. split; [done|]. exists th. split; [done|].
    destruct (todo th) as [|[] rest] eqn:E; [done|by destruct (Hne th rest Hin)|..];
      (destruct (calling th); [lia|done]).
Qed.

Section Run.
Variable ex : Execution.
Hypothesis execution : isExecution ex.
Hypothesis start : state ex O = initial value programs.

Lemma run_Inv n : Inv pf value programs (state ex n) ∧ aborted (state ex n) = None.
Proof using All.
  induction n as [|n [IH1 IH2]]; [rewrite start; split; [by apply Inv_initial|done]|].
  pose proof (execution n) as Hs. destruct (label ex n) as [l|]; [|by rewrite Hs].
  assert (Inv pf value programs (state ex (S n))) as HI by by eapply Inv_step.
  split; [done|]. destruct (aborted (state ex (S n))) as [msg|] eqn:E; [|done].
  destruct (step_abort _ _ _ posts_fit _ _ _ _ IH1 Hs E) as (Hpf & i & th & ns & rest & Hi & Htd & _).
  destruct HI as (HF & _). destruct (ThreadInv_at _ _ _ _ _ HF Hi) as (prog & Hp & _ & fin & -> & _).
  apply list_elem_of_lookup_2 in Hp. destruct (no_timed Hpf _ ns Hp).
  rewrite Htd. apply elem_of_app. right. left.
Qed.

(** Between two points no work is gained, and none is lost only if the state
    stays as it is and no thread moves. *)
Lemma run_work n k : total work (threads (state ex (k + n))) < total work (threads (state ex n)) ∨
  state ex (k + n) = state ex n.
Proof using All.
  induction k as [|k IH]; [by right|]. simpl.
  destruct (run_Inv (k + n)%nat) as [HI _]. destruct (run_Inv (S (k + n))) as [_ Hab].
  pose proof (execution (k + n)%nat) as Hs. destruct (label ex (k + n)%nat) as [l|].
  - destruct (step_work _ _ _ _ _ HI Hs Hab) as [[E _]|Hlt].
    + simpl in E. rewrite E. done.
    + left. simpl in Hlt. destruct IH as [|E]; [lia|]. by rewrite E in Hlt.
  - by rewrite Hs.
Qed.

Lemma run_finishes (w : nat) : fair ex → ∀ n, total work (threads (state ex n)) ≤ Z.of_nat w →
  ∃ m, Forall (fun th => todo th = []) (threads (state ex m)).
Proof using All.
  intros Hfair. induction w as [w IH] using lt_wf_ind. intros n Hw.
  destruct (run_Inv n) as [HI Hab].
  destruct (decide (Exists (fun th => todo th ≠ []) (threads (state ex n)))) as [Hex|Hex].
  2:{ exists n. apply Forall_forall. intros th Hth. destruct (todo th) eqn:E; [done|].
      destruct Hex. apply Exists_exists. exists th. by rewrite E. }
  destruct (some_enabled _ HI Hab Hex) as [i Hi].
  destruct (Hfair i n Hi) as (m & Hm & Hstop).
  assert (∃ m', total work (threads (state ex m')) < total work (threads (state ex n)))
    as [m' Hlt].
  { destruct (run_work n (m - n)) as [|Hsame]; [by eexists|].
    replace (m - n + n)%nat with m in Hsame by lia.
    destruct Hstop as [Hne|(l & Hl & Hmv)]; [by rewrite Hsame in Hne|]. exists (S m).
    destruct (run_Inv m) as [HIm _]. destruct (run_Inv (S m)) as [_ Habm].
    pose proof (execution m) as Hs. rewrite Hl in Hs.
    destruct (step_work _ _ _ _ _ HIm Hs Habm) as [[_ Hno]|]; [by destruct Hno; exists i|].
    by rewrite <- Hsame. }
  pose proof (work_nonneg _ _ _ (proj1 (run_Inv m'))).
  apply (IH (Z.to_nat (total work (threads (state ex m'))))) with m'; lia.
Qed.

Lemma run_served : fair ex → ∃ n, Forall2 finished programs (threads (state ex n)).
Proof using All.
  intros Hfair.
  destruct (run_finishes (Z.to_nat (total work (threads (state ex O)))) Hfair O) as [n Hn]; [lia|].
  exists n. destruct (run_Inv n) as [(HF & _) _].
  apply Forall2_same_length_lookup. split; [by eapply Forall2_length|].
  intros i prog th Hp Hi. pose proof (Forall_lookup_1 _ _ _ _ Hn Hi) as Htd. simpl in Htd.
  destruct (Forall2_lookup_lr _ _ _ _ _ _ HF Hp Hi) as (_ & fin & -> & _ & H).
  unfold finished. by rewrite Htd, app_nil_r.
Qed.

End Run.
End Balanced.
End Fair.

(** ** The properties *)

Section Properties.
Context {KS : KernelSemaphore}.

Lemma steps_refine pf value programs ls s s' : value + total posts programs ≤ maxCount pf →
  Inv pf value programs s → steps pf ls s s' → specSteps (omap visible ls) (count s) (count s').
Proof.
  intros Hfit HI Hs.
  enough (Inv pf value programs s' ∧ specSteps (omap visible ls) (count s) (count s')) by tauto.
  induction Hs as [|l ls s1 s2 s3 _ IH Hs]; [split; [done|constructor]|].
  destruct (IH HI) as [HI2 Hsp]. split; [by eapply Inv_step|].
  pose proof (step_visible _ _ _ Hfit _ _ _ HI2 Hs) as Hv.
  rewrite omap_app. simpl. destruct (visible l) as [e|].
  - by econstructor.
  - by rewrite app_nil_r, Hv.
Qed.

(** C15: every execution of threads on any of the three implementations is one
    of a plain counter of permits: a post adds one; a wait that returns false
    takes one, which was there; only a timed wait returns true, and takes
    none; going round the loop after a signal is invisible. *)
Theorem semaphore_refines_permits pf value programs ls s :
  0 ≤ value → value + total posts programs ≤ maxCount pf →
  steps pf ls (initial value programs) s → specSteps (omap visible ls) value (count s).
Proof.
  intros Hv Hfit Hs. apply (steps_refine pf value programs ls (initial value programs)); try done.
  by apply Inv_initial.
Qed.

(** at every moment the count is the initial value plus the posts done
    minus the waits that returned false; it is never negative and never above
    the largest count; and a plain wait has never returned true. *)
Theorem semaphore_count pf value programs ls s :
  0 ≤ value → value + total posts programs ≤ maxCount pf →
  steps pf ls (initial value programs) s →
  count s = value + total posted (threads s)
            - total (fun th => acquired (results th)) (threads s) ∧
  0 ≤ count s ≤ maxCount pf ∧
  Forall2 (fun prog th => ∃ fin, prog = app fin (todo th) ∧ posted th = posts fin ∧
    Forall2 (fun call (b : bool) => b = true → isTimed call = true) (waits fin) (results th))
    programs (threads s).
Proof.
  intros Hv Hfit Hs. pose proof (Inv_steps _ _ _ Hv Hfit _ _ Hs) as HI.
  pose proof (Inv_count_bound _ _ _ Hfit _ HI). destruct HI as (HF & Hc & Hn).
  split_and!; [done|done|lia|]. eapply Forall2_impl; [done|]. by intros ? ? [_ ?].
Qed.

(** the program is aborted only on POSIX and only inside a timed wait: the
    clock could not be read, or the count was zero and the deadline has a
    number of nanoseconds that is not below 10^9. *)
Theorem semaphore_abort_cause pf value programs ls s msg :
  0 ≤ value → value + total posts programs ≤ maxCount pf →
  steps pf ls (initial value programs) s → aborted s = Some msg →
  pf = Posix ∧ ∃ i th ns rest, threads s !! i = Some th ∧ todo th = WaitFor ns :: rest ∧
    (msg = "Unable to call clock_gettime" ∨
     ∃ ts, calling th = Some (sem_timedwait ts) ∧ ¬ (0 ≤ tv_nsec ts < 10 ^ 9) ∧ count s = 0).
Proof.
  intros Hv Hfit Hs Hab. inversion Hs as [|l ls' s1 s2 s3 Hs2 Hl]; subst; [done|].
  pose proof (Inv_steps _ _ _ Hv Hfit _ _ Hs2) as HI.
  destruct (step_abort _ _ _ Hfit _ _ _ _ HI Hl Hab)
    as (Hpf & i & th & ns & rest & Hi & Htd & [Hm|Hm]); (split; [done|]);
    exists i, th, ns, rest; split_and!; auto.
  left. by injection Hm.
Qed.

(** the deadline is not normalised: where the nanoseconds of the clock and
    the timeout add up to a second or more, a timed wait on an empty POSIX
    semaphore can abort the program instead of waiting. *)
Theorem posix_timed_wait_aborts now ns :
  validDeadline now → 10 ^ 9 ≤ tv_nsec now + ns < 2 ^ 63 →
  ∃ s, steps Posix [EvStart 0; EvAbort 0] (initial 0 [[WaitFor ns]]) s ∧
    aborted s = Some "sem_timedwait failed for a reason other than EINTR or ETIMEDOUT.".
Proof.
  intros Hnow Hns. set (ts := {| tv_sec := tv_sec now; tv_nsec := tv_nsec now + ns |}).
  assert (timedPrim Posix (Some now) ns = Some (Success (sem_timedwait ts))) as Hp.
  { unfold timedPrim, posixDeadline. rewrite (proj2 (Z.leb_le _ _)), (proj2 (Z.ltb_lt _ _)) by lia.
    done. }
  set (mid := {| count := 0; aborted := None; threads :=
    [{| todo := [WaitFor ns]; calling := Some (sem_timedwait ts); posted := 0; results := [] |}] |}).
  eexists. split.
  - apply (steps_snoc _ _ [EvStart 0] _ mid); [apply (steps_snoc _ _ [] _ _ _ (steps_refl _ _))|].
    + by eapply (step_start _ (initial 0 [[WaitFor ns]]) 0 (freshThread [WaitFor ns])
               (WaitFor ns) [] (Some now) (sem_timedwait ts)).
    + eapply (step_fatal _ mid 0 _ (WaitFor ns) [] _ (rcRet (-1) EINVAL) 0); try done.
      apply returns_invalid. unfold validDeadline. simpl. lia.
  - done.
Qed.

(** C16: no waiter starves. Threads share a semaphore, each posting before it
    waits; the initial value and the posts make at least as many permits as
    there are waits (untimed ones on POSIX). Then, however the calls interleave
    and however often signals interrupt them, a fair scheduler brings every
    thread to the end of its calls, and every plain wait has returned false. *)
Theorem waits_served pf value programs ex :
  0 ≤ value → value + total posts programs ≤ maxCount pf →
  total (fun prog => Z.of_nat (length (waits prog))) programs ≤ value + total posts programs →
  (∀ prog, prog ∈ programs → postsFirst prog = true) →
  (pf = Posix → ∀ prog ns, prog ∈ programs → WaitFor ns ∉ prog) →
  isExecution pf ex → state ex O = initial value programs → fair pf ex →
  ∃ n, Forall2 finished programs (threads (state ex n)).
Proof. intros. by eapply run_served. Qed.

(** [sem_init] takes an [unsigned int]: a larger value loses its high bits. *)
Lemma posix_Impl_truncates m v : 0 ≤ m → 0 ≤ v →
  posix_Impl m (v * 2 ^ 32) = Some (Success 0).
Proof.
  intros Hm Hv. unfold posix_Impl. rewrite (proj2 (Z.leb_le 0 _)) by lia.
  rewrite Z_mod_mult. simpl. by rewrite (proj2 (Z.leb_le _ _)).
Qed.

End Properties.

(** ** Concrete executions *)

(** The semaphore that does all that the manuals allow. *)
Definition freeReturns (p : Prim) (c : Z) (r : PrimRet) (c' : Z) : Prop :=
  taken p r ∧ 0 < c ∧ c' = c - 1 ∨ refused p c r ∧ c' = c.

Lemma freeReturns_taken p c : 0 < c → ∃ r, taken p r ∧ freeReturns p c r (c - 1).
Proof.
  intros Hc. assert (∃ r, taken p r) as [r Hr]; [|exists r; unfold freeReturns; auto].
  destruct p; [by exists (rcRet 0 EINTR)|by exists voidRet|by exists (boolRet true)|
    by exists (rcRet 0 EINTR)..].
Qed.

Definition freeSemaphore : KernelSemaphore.
Proof.
  refine {| returns := freeReturns;
            maxCount := fun pf => match pf with Posix => 2 ^ 31 - 1 | _ => 2 ^ 63 - 1 end |}.
  - by intros [].
  - done.
  - apply freeReturns_taken.
  - intros ts H. right. simpl. auto 10.
Defined.

(** One waiter, interrupted once, and one poster. *)
Definition demoPrograms : list (list Call) := [[Wait]; [Post]].
Definition demoThread (c : list Call) (p : option Prim) (n : Z) (rs : list bool) : Thread :=
  {| todo := c; calling := p; posted := n; results := rs |}.
Definition demoState (n : nat) : System :=
  match n with
  | 0%nat => initial 0 demoPrograms
  | 1%nat | 2%nat => {| count := 0; aborted := None;
      threads := [demoThread [Wait] (Some sem_wait) 0 []; demoThread [Post] None 0 []] |}
  | 3%nat => {| count := 1; aborted := None;
      threads := [demoThread [Wait] (Some sem_wait) 0 []; demoThread [] None 1 []] |}
  | _ => {| count := 0; aborted := None;
      threads := [demoThread [] None 0 [false]; demoThread [] None 1 []] |}
  end.
Definition demoLabel (n : nat) : option Label :=
  match n with
  | 0%nat => Some (EvStart 0) | 1%nat => Some (EvRetry 0) | 2%nat => Some (EvPost 1)
  | 3%nat => Some (EvReturn 0 false false) | _ => None
  end.
Definition demo : Execution := {| state := demoState; label := demoLabel |}.

Lemma demo_execution : @isExecution freeSemaphore Posix demo.
Proof.
  intros [|[|[|[|n]]]]; simpl.
  - by eapply (step_start _ (initial 0 demoPrograms) 0 (freshThread [Wait]) Wait [] None sem_wait).
  - eapply (step_retry _ (demoState 1) 0 _ Wait [] sem_wait (rcRet (-1) EINTR)); try done. right. simpl. auto.
  - by eapply (step_post _ (demoState 2) 1 (demoThread [Post] None 0 []) [] 1).
  - eapply (step_return _ (demoState 3) 0 (demoThread [Wait] (Some sem_wait) 0 []) Wait [] sem_wait
              (rcRet 0 EINTR) 0 false); try done. left. by split_and!.
  - done.
Qed.

Lemma demo_fair : @fair freeSemaphore Posix demo.
Proof.
  intros i n _. exists (4 + n)%nat. split; [lia|]. left. intros (_ & th & Hi & H). simpl in *.
  by destruct i as [|[|i]]; simplify_eq/=.
Qed.

Lemma demo_steps : @steps freeSemaphore Posix
  [EvStart 0; EvRetry 0; EvPost 1; EvReturn 0 false false] (initial 0 demoPrograms) (demoState 4).
Proof.
  apply (steps_snoc _ _ [EvStart 0; EvRetry 0; EvPost 1] _ (demoState 3)); [|apply (demo_execution 3%nat)].
  apply (steps_snoc _ _ [EvStart 0; EvRetry 0] _ (demoState 2)); [|apply (demo_execution 2%nat)].
  apply (steps_snoc _ _ [EvStart 0] _ (demoState 1)); [|apply (demo_execution 1%nat)].
  apply (steps_snoc _ _ [] _ (demoState 0)); [apply steps_refl|apply (demo_execution 0%nat)].
Qed.

Lemma semaphore_refines_permits_witness : specSteps [Posted; Acquired] 0 0.
Proof.
  apply (@semaphore_refines_permits freeSemaphore Posix 0 demoPrograms _ _
           ltac:(done) ltac:(vm_compute; discriminate) demo_steps).
Defined.

Lemma semaphore_count_witness : 0 = 0 + 1 - 1.
Proof.
  apply (proj1 (@semaphore_count freeSemaphore Posix 0 demoPrograms _ _
           ltac:(done) ltac:(vm_compute; discriminate) demo_steps)).
Defined.

Lemma posix_timed_wait_aborts_witness : ∃ s,
  @steps freeSemaphore Posix [EvStart 0; EvAbort 0] (initial 0 [[WaitFor (10 ^ 9)]]) s ∧
  aborted s = Some "sem_timedwait failed for a reason other than EINTR or ETIMEDOUT.".
Proof.
  apply (@posix_timed_wait_aborts freeSemaphore {| tv_sec := 5; tv_nsec := 0 |} (10 ^ 9));
    unfold validDeadline; simpl; lia.
Defined.

Definition overdue : System :=
  {| count := 0; aborted := Some "sem_timedwait failed for a reason other than EINTR or ETIMEDOUT.";
     threads := [demoThread [WaitFor (10 ^ 9)]
       (Some (sem_timedwait {| tv_sec := 5; tv_nsec := 10 ^ 9 |})) 0 []] |}.

Lemma overdue_steps : @steps freeSemaphore Posix [EvStart 0; EvAbort 0]
  (initial 0 [[WaitFor (10 ^ 9)]]) overdue.
Proof.
  apply (steps_snoc _ _ [EvStart 0] _
    {| count := 0; aborted := None; threads := threads overdue |});
    [apply (steps_snoc _ _ [] _ _ _ (steps_refl _ _))|].
  - by eapply (step_start _ (initial 0 [[WaitFor (10 ^ 9)]]) 0 (freshThread [WaitFor (10 ^ 9)])
               (WaitFor (10 ^ 9)) [] (Some {| tv_sec := 5; tv_nsec := 0 |})
               (sem_timedwait {| tv_sec := 5; tv_nsec := 10 ^ 9 |})).
  - eapply (step_fatal _ {| count := 0; aborted := None; threads := threads overdue |} 0 _ _ []
              _ (rcRet (-1) EINVAL) 0); try done.
    right. simpl. split; [|done]. split; [done|]. right; right.
    split_and!; [done..|]. intros [_ H]. by apply Z.lt_irrefl in H.
Qed.

Lemma semaphore_abort_cause_witness : Posix = Posix ∧ ∃ i th ns rest,
  threads overdue !! i = Some th ∧ todo th = WaitFor ns :: rest ∧
  (("sem_timedwait failed for a reason other than EINTR or ETIMEDOUT." : string)
     = "Unable to call clock_gettime" ∨
   ∃ ts, calling th = Some (sem_timedwait ts) ∧ ¬ (0 ≤ tv_nsec ts < 10 ^ 9) ∧ count overdue = 0).
Proof.
  apply (@semaphore_abort_cause freeSemaphore Posix 0 [[WaitFor (10 ^ 9)]] _ _ _
           ltac:(done) ltac:(vm_compute; discriminate) overdue_steps eq_refl).
Defined.

Lemma waits_served_witness : ∃ n, Forall2 finished demoPrograms (threads (demoState n)).
Proof.
  apply (@waits_served freeSemaphore Posix 0 demoPrograms demo); try done.
  - intros prog H. unfold demoPrograms in H.
    repeat (apply elem_of_cons in H as [->|H]; [done|]). by apply not_elem_of_nil in H.
  - intros _ prog ns H Hw. unfold demoPrograms in H.
    repeat (apply elem_of_cons in H as [->|H];
      [apply elem_of_cons in Hw as [?|Hw]; [done|by apply not_elem_of_nil in Hw]|]).
    by apply not_elem_of_nil in H.
  - apply demo_execution.
  - apply demo_fair.
Defined.

End SemaphoreFair.
