(* ===== verification/Globals.v ===== *)
(** The process-wide state of AsyncRT (AsyncRT/lib/Runtime/Globals/Globals.cpp):
    the counter of task ids, the table of devices and the current device of a
    thread, and the choice of allocator per platform. *)
From S2P Require Import Prelude Semaphore.

Module Globals.
Import Semaphore.

(** [globalUniqueTaskIdCounter] is a 64-bit atomic: [fetch_add] returns the
    value it adds to, and wraps. *)
Definition getUniqueTaskIdForWorkItem : State Z Z := fun counter =>
  (counter, (counter + 1) mod 2 ^ 64).

(** Calls by several threads: the atomic makes them happen one after another,
    in the order of the schedule. *)
Fixpoint taskIds {Th} (schedule : list Th) (counter : Z) : list (Th * Z) :=
  match schedule with
  | [] => []
  | t :: schedule =>
      let '(id, counter) := getUniqueTaskIdForWorkItem counter in
      (t, id) :: taskIds schedule counter
  end.

(** [static thread_local CompactCPUDevicePtr]: a default for every thread,
    reached by reference. *)
Definition getCurrentCPUDeviceInTLS {D} (noDevice : D) (tls : gmap nat D) (thread : nat) : D :=
  default noDevice (tls !! thread).
Definition setCurrentCPUDeviceInTLS {D} (tls : gmap nat D) (thread : nat) (d : D) : gmap nat D :=
  <[thread := d]> tls.

(** [static CPUDeviceTable *table = ctor()]: the first call constructs. [W] is
    what the constructors act on. *)
Definition getCPUDeviceTableSingleton {W T} (ctor : State W T) : State (option T * W) T :=
  fun '(table, w) =>
  match table with
  | Some t => (t, (table, w))
  | None => let '(t, w) := ctor w in (t, (Some t, w))
  end.

Fixpoint tableCalls {W T} (ctors : list (State W T)) (s : option T * W) : list T * (option T * W) :=
  match ctors with
  | [] => ([], s)
  | ctor :: ctors =>
      let '(t, s) := getCPUDeviceTableSingleton ctor s in
      let '(ts, s) := tableCalls ctors s in (t :: ts, s)
  end.

(** A call into an allocator: which one, and the bytes, the alignment and the
    NUMA partition that it is asked for. The positions of the arguments differ:
    [tc_memalign(alignment, size)], [mi_malloc_aligned(size, alignment)]. *)
Inductive AllocCall :=
  | tc_memalign (alignment size : Z)
  | mi_malloc_aligned (size alignment : Z)
  | TCMallocInternalMemalign (alignment size : Z)
  | TCMallocInternalMemalignNumaPartition (alignment size numaPartition : Z).

Definition tc_new (pf : Platform) (alignment size : Z) : AllocCall :=
  match pf with
  | Apple => tc_memalign alignment size
  | Windows => mi_malloc_aligned size alignment
  | Posix => TCMallocInternalMemalign alignment size
  end.

Definition tc_new_numa (pf : Platform) (alignment size numaPartition : Z) : AllocCall :=
  match pf with
  | Apple => tc_memalign alignment size
  | Windows => mi_malloc_aligned size alignment
  | Posix => TCMallocInternalMemalignNumaPartition alignment size numaPartition
  end.

(** What the allocators' manuals say of their arguments. *)
Definition requestedSize (c : AllocCall) : Z :=
  match c with
  | tc_memalign _ s | mi_malloc_aligned s _ | TCMallocInternalMemalign _ s
  | TCMallocInternalMemalignNumaPartition _ s _ => s
  end.
Definition requestedAlignment (c : AllocCall) : Z :=
  match c with
  | tc_memalign a _ | mi_malloc_aligned _ a | TCMallocInternalMemalign a _
  | TCMallocInternalMemalignNumaPartition a _ _ => a
  end.

(** Freeing, and which allocator a call belongs to. *)
Inductive FreeCall := tc_free (ptr : Z) | mi_free (ptr : Z) | TCMallocInternalFree (ptr : Z).
Definition tc_delete (pf : Platform) (ptr : Z) : FreeCall :=
  match pf with Apple => tc_free ptr | Windows => mi_free ptr | Posix => TCMallocInternalFree ptr end.
Inductive Allocator := Gperftools | Mimalloc | TCMalloc.
Definition allocates (c : AllocCall) : Allocator :=
  match c with
  | tc_memalign _ _ => Gperftools
  | mi_malloc_aligned _ _ => Mimalloc
  | TCMallocInternalMemalign _ _ | TCMallocInternalMemalignNumaPartition _ _ _ => TCMalloc
  end.
Definition frees (c : FreeCall) : Allocator :=
  match c with tc_free _ => Gperftools | mi_free _ => Mimalloc | TCMallocInternalFree _ => TCMalloc end.

(** Memory goes back to the allocator it came from, with a partition or not. *)
Lemma tc_delete_matches pf alignment size numa ptr :
  frees (tc_delete pf ptr) = allocates (tc_new pf alignment size)
  ∧ frees (tc_delete pf ptr) = allocates (tc_new_numa pf alignment size numa).
Proof. by destruct pf. Qed.

Lemma tc_new_request pf alignment size numa :
  requestedSize (tc_new pf alignment size) = size ∧
  requestedAlignment (tc_new pf alignment size) = alignment ∧
  requestedSize (tc_new_numa pf alignment size numa) = size ∧
  requestedAlignment (tc_new_numa pf alignment size numa) = alignment.
Proof. by destruct pf. Qed.

Lemma tls_separate {D} (noDevice : D) tls t u d : t ≠ u →
  getCurrentCPUDeviceInTLS noDevice (setCurrentCPUDeviceInTLS tls t d) t = d ∧
  getCurrentCPUDeviceInTLS noDevice (setCurrentCPUDeviceInTLS tls t d) u
    = getCurrentCPUDeviceInTLS noDevice tls u.
Proof.
  intros Hne. unfold getCurrentCPUDeviceInTLS, setCurrentCPUDeviceInTLS.
  by rewrite lookup_insert_eq, lookup_insert_ne.
Qed.

Lemma taskIds_lookup {Th} (schedule : list Th) c i t : 0 ≤ c < 2 ^ 64 →
  taskIds schedule c !! i = Some t → t.2 = (c + Z.of_nat i) mod 2 ^ 64.
Proof.
  revert c i. induction schedule as [|x l IH]; intros c [|i] Hc H; simplify_eq/=.
  - by rewrite Z.add_0_r, Z.mod_small.
  - rewrite (IH _ _ (Z.mod_pos_bound (c + 1) (2 ^ 64) ltac:(done)) H), Zplus_mod_idemp_l. f_equal. lia.
Qed.

Lemma taskIds_length {Th} (schedule : list Th) c : length (taskIds schedule c) = length schedule.
Proof. revert c. induction schedule; intros; simpl; auto. Qed.

(** task ids are unique in the process: whichever threads ask and in
    whatever order, no two of up to 2^64 requests get the same id. *)
Theorem taskIds_unique {Th} (schedule : list Th) c : 0 ≤ c < 2 ^ 64 →
  Z.of_nat (length schedule) ≤ 2 ^ 64 → NoDup (map snd (taskIds schedule c)).
Proof.
  intros Hc Hlen. apply NoDup_alt. intros i j x Hi Hj.
  rewrite !lookup_map in Hi, Hj.
  destruct (taskIds schedule c !! i) as [ti|] eqn:Ei; [|done].
  destruct (taskIds schedule c !! j) as [tj|] eqn:Ej; [|done].
  assert (ti.2 = tj.2) as E by (simpl in *; congruence).
  pose proof (lookup_lt_Some _ _ _ Ei) as Li. pose proof (lookup_lt_Some _ _ _ Ej) as Lj.
  rewrite taskIds_length in Li, Lj.
  apply taskIds_lookup in Ei, Ej; try done. rewrite Ei, Ej in E.
  assert ((Z.of_nat j - Z.of_nat i) mod 2 ^ 64 = 0) as H.
  { replace (Z.of_nat j - Z.of_nat i) with ((c + Z.of_nat j) - (c + Z.of_nat i)) by lia.
    rewrite Zminus_mod, E, Z.sub_diag. done. }
  apply Z.mod_divide in H as [k Hk]; [|done].
  assert (k = 0) by nia. lia.
Qed.

Lemma taskIds_unique_witness : NoDup [2 ^ 64 - 1; 0; 1].
Proof. apply (taskIds_unique [true; false; true] (2 ^ 64 - 1)); simpl; lia. Defined.

(** Once the table is there every call returns it, and constructs nothing. *)
Lemma tableCalls_built {W T} (ctors : list (State W T)) t w :
  tableCalls ctors (Some t, w) = (replicate (length ctors) t, (Some t, w)).
Proof. induction ctors as [|ctor ctors IH]; simpl; [done|]. by rewrite IH. Qed.

(** All callers share the table of the first one; its constructor alone runs. *)
Lemma getCPUDeviceTable_once {W T} (ctor : State W T) ctors w :
  tableCalls (ctor :: ctors) (None, w)
  = (replicate (S (length ctors)) (ctor w).1, (Some (ctor w).1, (ctor w).2)).
Proof.
  simpl. destruct (ctor w) as [t w'] eqn:E. simpl. by rewrite tableCalls_built.
Qed.

End Globals.
