(* ===== verification/Xlinker.v ===== *)
(** [resolveXlinkerLibraries] (Mojo/tools/mojo/Common/XlinkerResolution.cpp):
    the -Xlinker arguments of an in-process run, turned into the shared
    libraries to load. *)
From S2P Require Import Prelude StringRef Semaphore.

Module Xlinker.
Import Semaphore.

(** What the pass over the arguments accumulates; [warnings] are the calls of
    [state.reportWarning]. *)
Record LinkState := {
  searchDirs : list string;
  libraries : list string;
  deferredLibs : list string;
  warnings : list string
}.

Definition addDir (d : string) (st : LinkState) : LinkState :=
  {| searchDirs := app (searchDirs st) [d]; libraries := libraries st;
     deferredLibs := deferredLibs st; warnings := warnings st |}.
Definition addLibrary (l : string) (st : LinkState) : LinkState :=
  {| searchDirs := searchDirs st; libraries := app (libraries st) [l];
     deferredLibs := deferredLibs st; warnings := warnings st |}.
Definition deferLib (l : string) (st : LinkState) : LinkState :=
  {| searchDirs := searchDirs st; libraries := libraries st;
     deferredLibs := app (deferredLibs st) [l]; warnings := warnings st |}.
Definition warn (w : string) (st : LinkState) : LinkState :=
  {| searchDirs := searchDirs st; libraries := libraries st;
     deferredLibs := deferredLibs st; warnings := app (warnings st) [w] |}.
Definition emptyState : LinkState := {| searchDirs := []; libraries := []; deferredLibs := []; warnings := [] |}.

Section Resolve.
Context {SR : StringRefOps} (pf : Platform).
(** [PlatformLibrary::getSharedLibraryName], [path(dir) / name] as a string,
    and [exists(path, ec) && !ec]. *)
Variable getSharedLibraryName : string → string.
Variable joinPath : string → string → string.
Variable exists_ : string → bool.

Definition hasSharedLibraryExtension (path : string) : bool :=
  match pf with
  | Windows => ends_with_insensitive path ".dll"
  | _ => ends_with path ".so" || ends_with path ".dylib" || contains path ".so."
  end.

Definition candidates (libName : string) : list string :=
  app [getSharedLibraryName libName]
      match pf with Apple => ["lib" ++ libName ++ ".so"] | _ => [] end.

Fixpoint findInDir (dir : string) (names : list string) : option string :=
  match names with
  | [] => None
  | name :: names =>
      let candidate := joinPath dir name in
      if exists_ candidate then Some candidate else findInDir dir names
  end.
Fixpoint findInDirs (dirs : list string) (names : list string) : option string :=
  match dirs with
  | [] => None
  | dir :: dirs =>
      match findInDir dir names with Some c => Some c | None => findInDirs dirs names end
  end.
Definition findLibraryByName (libName : string) (dirs : list string) : option string :=
  findInDirs dirs (candidates libName).

(** [consumeNext]: the argument after [i], with the index moved to it. *)
Definition consumeNext (xlinkerArgs : list string) (i : nat) : option string * nat :=
  match xlinkerArgs !! (i + 1)%nat with
  | Some next => (Some next, (i + 1)%nat)
  | None => (None, i)
  end.

Definition orElse {A} (a b : option A) : option A := match a with Some _ => a | None => b end.

(** A flag's value: what follows it in the argument, or the next argument. *)
Definition valueOrNext (add : string → LinkState → LinkState) (xlinkerArgs : list string)
    (i : nat) (value : string) (st : LinkState) : LinkState * nat :=
  if negb (isEmpty value) then (add value st, i)
  else match consumeNext xlinkerArgs i with
       | (Some next, i) => (add next st, i)
       | (None, i) => (st, i)
       end.

(** One turn of the loop, with the index it leaves. *)
Definition argument (xlinkerArgs : list string) (i : nat) (arg : string) (st : LinkState)
    : LinkState * nat :=
  match orElse (consume_front arg "-L") (consume_front arg "--library-path=") with
  | Some v => valueOrNext addDir xlinkerArgs i v st
  | None =>
  if String.eqb arg "--library-path" then valueOrNext addDir xlinkerArgs i "" st else
  match consume_front arg "-l" with
  | Some v => valueOrNext deferLib xlinkerArgs i v st
  | None =>
  match orElse (consume_front arg "-rpath=") (consume_front arg "--rpath=") with
  | Some v => (addDir v st, i)
  | None =>
  if String.eqb arg "-rpath" || String.eqb arg "--rpath" then valueOrNext addDir xlinkerArgs i "" st else
  if hasSharedLibraryExtension arg then
    if exists_ arg then (addLibrary arg st, i)
    else (warn ("shared library does not exist for `-Xlinker` argument: '" ++ arg ++ "'") st, i)
  else (warn ("-Xlinker argument has no effect on `mojo run`: '" ++ arg ++ "'") st, i)
  end end end.

(** [for (size_t i = 0; i < xlinkerArgs.size(); ++i)]. *)
Fixpoint argumentsFrom (fuel : nat) (xlinkerArgs : list string) (i : nat) (st : LinkState)
    : option LinkState :=
  match xlinkerArgs !! i with
  | None => Some st
  | Some arg =>
      match fuel with
      | O => None
      | S fuel => let '(st, i) := argument xlinkerArgs i arg st in
                  argumentsFrom fuel xlinkerArgs (i + 1) st
      end
  end.

Definition resolveDeferred (st : LinkState) (libName : string) : LinkState :=
  match findLibraryByName libName (searchDirs st) with
  | Some resolved => addLibrary resolved st
  | None => warn ("could not locate shared library for '-l" ++ libName
                  ++ "' on the linker search path") st
  end.

(** The libraries, and the warnings reported. *)
Definition resolveXlinkerLibraries (xlinkerArgs : list string) : option (list string * list string) :=
  st ← argumentsFrom (List.length xlinkerArgs) xlinkerArgs 0 emptyState;
  let st := foldl resolveDeferred st (deferredLibs st) in
  Some (libraries st, warnings st).

(** ** The forms the header documents *)

(** An argument list as the header reads it. *)
Inductive Item := ItemDir (d : string) | ItemLib (name : string) | ItemOther (arg : string).

(** What an argument starts: a directory or a library with its value attached,
    one whose value is the next argument, or a file. *)
Inductive Form := FDir (d : string) | FLib (l : string) | FDirNext | FLibNext | FOther.

Definition attached (some : string → Form) (next : Form) (v : string) : Form :=
  if isEmpty v then next else some v.

Definition form (arg : string) : Form :=
  match stripPrefix "-L" arg, stripPrefix "--library-path=" arg with
  | Some v, _ | None, Some v => attached FDir FDirNext v
  | None, None =>
  match stripPrefix "-l" arg, stripPrefix "-rpath=" arg, stripPrefix "--rpath=" arg with
  | Some v, _, _ => attached FLib FLibNext v
  | None, Some v, _ | None, None, Some v => FDir v
  | None, None, None =>
      if bool_decide (arg ∈ ["--library-path"; "-rpath"; "--rpath"]) then FDirNext else FOther
  end end.

Fixpoint items (args : list string) : list Item :=
  match args with
  | [] => []
  | arg :: args =>
      match form arg, args with
      | FDir d, _ => ItemDir d :: items args
      | FLib l, _ => ItemLib l :: items args
      | FDirNext, next :: args => ItemDir next :: items args
      | FLibNext, next :: args => ItemLib next :: items args
      | FDirNext, [] | FLibNext, [] => []
      | FOther, _ => ItemOther arg :: items args
      end
  end.

Definition itemDirs (l : list Item) : list string :=
  omap (fun it => match it with ItemDir d => Some d | _ => None end) l.
Definition itemLibs (l : list Item) : list string :=
  omap (fun it => match it with ItemLib n => Some n | _ => None end) l.
Definition itemOthers (l : list Item) : list string :=
  omap (fun it => match it with ItemOther a => Some a | _ => None end) l.

(** A direct path is loaded when it looks like a library and exists. *)
Definition loadable (arg : string) : bool := hasSharedLibraryExtension arg && exists_ arg.
Definition otherWarning (arg : string) : string :=
  if hasSharedLibraryExtension arg
  then "shared library does not exist for `-Xlinker` argument: '" ++ arg ++ "'"
  else "-Xlinker argument has no effect on `mojo run`: '" ++ arg ++ "'".
Definition missingWarning (libName : string) : string :=
  "could not locate shared library for '-l" ++ libName ++ "' on the linker search path".

(** The first existing candidate, directories before names. *)
Definition firstMatch (dirs : list string) (libName : string) : option string :=
  head (List.filter exists_ (flat_map (fun d => map (joinPath d) (candidates libName)) dirs)).

(** ** The pass is a fold over the items *)

Definition applyItem (st : LinkState) (it : Item) : LinkState :=
  match it with
  | ItemDir d => addDir d st
  | ItemLib l => deferLib l st
  | ItemOther a => if loadable a then addLibrary a st else warn (otherWarning a) st
  end.

Lemma argument_form args i arg st : argument args i arg st =
  match form arg with
  | FDir d => (addDir d st, i)
  | FLib l => (deferLib l st, i)
  | FDirNext => valueOrNext addDir args i "" st
  | FLibNext => valueOrNext deferLib args i "" st
  | FOther => (applyItem st (ItemOther arg), i)
  end.
Proof using Type.
  unfold argument, form. rewrite !consume_front_spec.
  assert (∀ add mk next v, (∀ d, mk d = FDir d ∧ add = addDir ∨ mk d = FLib d ∧ add = deferLib) →
    next = (match mk "" with FLib _ => FLibNext | _ => FDirNext end) →
    valueOrNext add args i v st = match attached mk next v with
      | FDir d => (addDir d st, i) | FLib l => (deferLib l st, i)
      | FDirNext => valueOrNext addDir args i "" st
      | FLibNext => valueOrNext deferLib args i "" st
      | FOther => (applyItem st (ItemOther arg), i) end) as Hval.
  { intros add mk next v Hmk ->. unfold attached. destruct v as [|c v]; simpl isEmpty; cbv iota.
    - by destruct (Hmk "") as [[-> ->]|[-> ->]].
    - unfold valueOrNext. simpl isEmpty. cbv iota beta zeta delta [negb].
      by destruct (Hmk (String c v)) as [[-> ->]|[-> ->]]. }
  destruct (stripPrefix "-L" arg) as [v|]; [apply Hval; auto|].
  destruct (stripPrefix "--library-path=" arg) as [v|]; [apply Hval; auto|]. cbn [orElse].
  destruct (stripPrefix "-l" arg) as [v|] eqn:El.
  { destruct (String.eqb_spec arg "--library-path") as [->|_]; [done|]. apply Hval; auto. }
  destruct (stripPrefix "-rpath=" arg) as [v|] eqn:Er.
  { destruct (String.eqb_spec arg "--library-path") as [->|_]; [done|]. done. }
  destruct (stripPrefix "--rpath=" arg) as [v|] eqn:Err.
  { destruct (String.eqb_spec arg "--library-path") as [->|_]; [done|]. done. }
  cbn [orElse].
  destruct (String.eqb_spec arg "--library-path") as [->|H1]; [done|].
  destruct (String.eqb_spec arg "-rpath") as [->|H2]; [done|].
  destruct (String.eqb_spec arg "--rpath") as [->|H3]; [done|]. cbn [orb].
  rewrite bool_decide_eq_false_2 by (clear -H1 H2 H3; set_solver). simpl. unfold loadable, otherWarning.
  by destruct (hasSharedLibraryExtension arg), (exists_ arg).
Qed.

Lemma argumentsFrom_items fuel args i st : (List.length (drop i args) ≤ fuel)%nat →
  argumentsFrom fuel args i st = Some (foldl applyItem st (items (drop i args))).
Proof using Type.
  revert i st. induction fuel as [|fuel IH]; intros i st Hf; simpl.
  - rewrite length_drop in Hf. rewrite lookup_ge_None_2 by lia.
    by rewrite drop_ge by lia.
  - destruct (args !! i) as [arg|] eqn:Ei; [|by rewrite drop_ge by (by apply lookup_ge_None)].
    rewrite (drop_S _ _ _ Ei) in *. rewrite argument_form. simpl in Hf.
    assert (∀ st, argumentsFrom fuel args (i + 1) st = Some (foldl applyItem st (items (drop (S i) args))))
      as IH1 by (intros st'; rewrite Nat.add_1_r; apply IH; lia).
    simpl items. destruct (form arg) as [d|l| | |] eqn:Ef; [apply IH1|apply IH1|..|apply IH1];
      unfold valueOrNext, consumeNext; simpl isEmpty; cbv iota beta zeta delta [negb];
      rewrite Nat.add_1_r; (destruct (args !! S i) as [next|] eqn:En;
        [rewrite (drop_S _ _ _ En) in *; simpl in Hf; rewrite Nat.add_1_r; apply IH; lia
        |rewrite (drop_ge _ (S i)) by (by apply lookup_ge_None)]);
      rewrite Nat.add_1_r in IH1; rewrite Nat.add_1_r, IH1;
      by rewrite (drop_ge _ (S i)) by (by apply lookup_ge_None).
Qed.

Lemma foldl_applyItem its st :
  searchDirs (foldl applyItem st its) = app (searchDirs st) (itemDirs its) ∧
  deferredLibs (foldl applyItem st its) = app (deferredLibs st) (itemLibs its) ∧
  libraries (foldl applyItem st its)
    = app (libraries st) (List.filter loadable (itemOthers its)) ∧
  warnings (foldl applyItem st its)
    = app (warnings st) (map otherWarning (List.filter (fun a => negb (loadable a)) (itemOthers its))).
Proof using Type.
  revert st. induction its as [|it its IH]; intros st; simpl; [by rewrite !app_nil_r|].
  destruct (IH (applyItem st it)) as (-> & -> & -> & ->).
  unfold itemDirs, itemLibs, itemOthers.
  destruct it as [d|l|a]; simpl; rewrite <- ?app_assoc; [done|done|].
  destruct (loadable a); simpl; by rewrite <- ?app_assoc.
Qed.

Lemma head_filter_app {A} (p : A → bool) l k :
  head (List.filter p (app l k)) =
    match head (List.filter p l) with Some x => Some x | None => head (List.filter p k) end.
Proof using Type. rewrite List.filter_app. by destruct (List.filter p l). Qed.

Lemma findLibraryByName_first l dirs : findLibraryByName l dirs = firstMatch dirs l.
Proof using Type.
  unfold findLibraryByName, firstMatch. induction dirs as [|d dirs IH]; [done|].
  cbn [findInDirs flat_map]. rewrite head_filter_app, <- IH.
  assert (findInDir d (candidates l) = head (List.filter exists_ (map (joinPath d) (candidates l))))
    as ->; [|done].
  clear IH. induction (candidates l) as [|c cs IHc]; simpl; [done|].
  destruct (exists_ (joinPath d c)); [done|apply IHc].
Qed.

Definition unresolved (dirs : list string) (l : string) : bool :=
  match firstMatch dirs l with Some _ => false | None => true end.

Lemma foldl_resolveDeferred names st :
  let st' := foldl resolveDeferred st names in
  libraries st' = app (libraries st) (omap (firstMatch (searchDirs st)) names) ∧
  warnings st' = app (warnings st) (map missingWarning (List.filter (unresolved (searchDirs st)) names)).
Proof using Type.
  cbv zeta. revert st. induction names as [|n names IH]; intros st; simpl; [by rewrite !app_nil_r|].
  destruct (IH (resolveDeferred st n)) as [-> ->].
  assert (searchDirs (resolveDeferred st n) = searchDirs st) as ->.
  { unfold resolveDeferred. by case_match. }
  unfold resolveDeferred, unresolved. rewrite findLibraryByName_first.
  destruct (firstMatch (searchDirs st) n) as [r|]; simpl; by rewrite <- ?app_assoc.
Qed.

(** the -Xlinker arguments are resolved as the header documents, whatever
    their number and order: the pass ends; the flags and their values, attached
    or in the next argument, are read as the grammar [items] reads them, a flag
    without a value being dropped; every -l is looked up in all the directories
    given, those that come after it included; the result lists the loadable
    paths and then the libraries found, each the first existing candidate; and
    every other argument or missing library gets exactly one warning. *)
Theorem resolveXlinkerLibraries_spec args :
  let its := items args in
  let dirs := itemDirs its in
  resolveXlinkerLibraries args = Some
    (app (List.filter loadable (itemOthers its)) (omap (firstMatch dirs) (itemLibs its)),
     app (map otherWarning (List.filter (fun a => negb (loadable a)) (itemOthers its)))
         (map missingWarning (List.filter (unresolved dirs) (itemLibs its)))).
Proof using Type.
  cbv zeta. unfold resolveXlinkerLibraries.
  rewrite argumentsFrom_items by (rewrite drop_0; lia). rewrite drop_0. simpl.
  destruct (foldl_applyItem (items args) emptyState) as (Hd & Hl & Hlib & Hw).
  destruct (foldl_resolveDeferred (deferredLibs (foldl applyItem emptyState (items args)))
              (foldl applyItem emptyState (items args))) as [-> ->].
  by rewrite Hd, Hl, Hlib, Hw.
Qed.

(** The two forms of a flag and its value are the same. *)
Lemma items_separate v args : v ≠ "" →
  items ("-L" :: v :: args) = items (("-L" ++ v) :: args) ∧
  items ("--library-path" :: v :: args) = items (("--library-path=" ++ v) :: args) ∧
  items ("-l" :: v :: args) = items (("-l" ++ v) :: args) ∧
  items ("-rpath" :: v :: args) = items (("-rpath=" ++ v) :: args) ∧
  items ("--rpath" :: v :: args) = items (("--rpath=" ++ v) :: args).
Proof using Type. intros Hv. by destruct v as [|c v]. Qed.

End Resolve.

(** ** Where the code and its comments differ *)

(** [path.contains(".so.")] looks at the whole path: off Windows an object file
    below a directory named like a versioned library is taken for a library. *)
Lemma object_file_taken_for_library : 
  @hasSharedLibraryExtension llvm_stringref Posix "/opt/libx.so.1.d/part.o" = true ∧
  @resolveXlinkerLibraries llvm_stringref Posix (fun n => "lib" ++ n ++ ".so") (fun d n => d ++ "/" ++ n)
    (fun _ => true) ["/opt/libx.so.1.d/part.o"] = Some (["/opt/libx.so.1.d/part.o"], []).
Proof. done. Qed.

(** A relative directory gives a relative path. *)
Lemma relative_result :
  @resolveXlinkerLibraries llvm_stringref Posix (fun n => "lib" ++ n ++ ".so") (fun d n => d ++ "/" ++ n)
    (fun p => String.eqb p "out/libfoo.so") ["-lfoo"; "-L"; "out"] = Some (["out/libfoo.so"], []).
Proof. done. Qed.

End Xlinker.
