(* ===== verification/FileSystemExtras.v ===== *)
(** Support/lib/FileSystemExtras.cpp: operations under a lock file, as the loop
    of one process and as a step relation of several, the search for a
    directory in an environment variable, and temporary files. *)
From stdpp Require Import gmap.
From S2P Require Import Prelude StringRef.

#[local] Open Scope string_scope.
#[local] Open Scope Z_scope.

Module FileSystemExtras.

(** ** The loop of one process *)

Definition kLockMaxRetriesOnError : Z := 1000.

(** What one turn of the loop meets: [tryLock] fails, the lock is taken, or
    another process has it and the wait ends in one of three ways. *)
Inductive WaitForUnlockResult := Success_ | OwnerDied | Timeout_.
Inductive Attempt := LockError (msg : string) | Owned | NotOwned (r : WaitForUnlockResult).

(** The message for too many errors: the error, its codes, and the parent. *)
Definition lockErrorMessage (filePath msg codes parentMsg : string) : string :=
  "unable to take lock file for '" ++ filePath ++ "': " ++ msg ++ " " ++ codes ++ parentMsg.

(** [None]: still in the loop when the attempts end. *)
Fixpoint doLockedFileOperation {T} (filePath : string) (codes : string → string) (parentMsg : string)
    (callable : ErrorOr T) (retries : Z) (attempts : list Attempt) : option (ErrorOr T) :=
  match attempts with
  | [] => None
  | LockError msg :: attempts =>
      if kLockMaxRetriesOnError <? retries
      then Some (Error (lockErrorMessage filePath msg (codes msg) parentMsg))
      else doLockedFileOperation filePath codes parentMsg callable (retries + 1) attempts
  | Owned :: _ | NotOwned Success_ :: _ => Some callable
  | NotOwned OwnerDied :: attempts => doLockedFileOperation filePath codes parentMsg callable retries attempts
  | NotOwned Timeout_ :: _ => Some (Error ("timed out waiting for lock file for '" ++ filePath ++ "'"))
  end.

(** ** Several processes and one lock file *)

Abbreviation Pid := nat.
(** Where a process is: before [tryLock], with its errors so far; waiting;
    in the operation, with the lock or without; after it. *)
Inductive Phase := Trying (retries : Z) | Waiting (retries : Z) | Operating (holds : bool) | Finished.
#[export] Instance Phase_eq_dec : EqDecision Phase.
Proof. solve_decision. Defined.
Record System := mkSystem { owner : option Pid; phases : gmap Pid Phase }.

Definition setPhase (s : System) (p : Pid) (ph : Phase) : System := mkSystem (owner s) (<[p := ph]> (phases s)).

(** The lock manager is created anew in each turn, and its destructor releases
    the lock of the process that took it.  The lock of a process that died is
    free to take, but not gone: one that waits for it is told so. *)
Inductive step : System → System → Prop :=
  | step_error s p r : phases s !! p = Some (Trying r) →
      step s (setPhase s p (if kLockMaxRetriesOnError <? r then Finished else Trying (r + 1)))
  | step_owned s p r : phases s !! p = Some (Trying r) →
      (∀ q, owner s = Some q → phases s !! q = None) →
      step s (mkSystem (Some p) (<[p := Operating true]> (phases s)))
  | step_notOwned s p q r : phases s !! p = Some (Trying r) → owner s = Some q →
      step s (setPhase s p (Waiting r))
  | step_unlocked s p r : phases s !! p = Some (Waiting r) → owner s = None →
      step s (setPhase s p (Operating false))
  | step_ownerDied s p q r : phases s !! p = Some (Waiting r) → owner s = Some q → phases s !! q = None →
      step s (setPhase s p (Trying r))
  | step_timeout s p r : phases s !! p = Some (Waiting r) → step s (setPhase s p Finished)
  | step_done s p holds : phases s !! p = Some (Operating holds) →
      step s (mkSystem (if holds then None else owner s) (<[p := Finished]> (phases s)))
  | step_die s p : step s (mkSystem (owner s) (delete p (phases s))).

Definition initial (s : System) : Prop := owner s = None ∧ ∀ p ph, phases s !! p = Some ph → ph = Trying 0.
(** What processes that start together can come to. *)
Definition reachable (s0 s : System) : Prop := initial s0 ∧ rtc step s0 s.

(** ** findDirInEnvPath *)

Section FindDir.
Context {SR : StringRefOps}.
Variable GetEnv : string → option string.
Variables exists_ is_directory : string → bool.

Fixpoint firstDir (subdirName : string) (dirs : list string) : option string :=
  match dirs with
  | [] => None
  | dir :: dirs =>
      if isEmpty dir then firstDir subdirName dirs
      else let dirPath := path_div dir subdirName in
           if exists_ dirPath && is_directory dirPath then Some dirPath else firstDir subdirName dirs
  end.
(** [None]: the assertion on an absolute name. *)
Definition findDirInEnvPath (subdirName envName : string) (separator : ascii) : option (option string) :=
  match subdirName with
  | String "/" _ => None
  | _ => Some (optPath ← GetEnv envName; firstDir subdirName (split_on optPath (String separator "")))
  end.
End FindDir.

(** ** Temporary files *)

(** [fd] is -1 once closed or moved from. *)
Record TempFile := mkTempFile { fd : Z; path : string; keepFile : bool }.
(** The open descriptors and the files of the machine. *)
Record Machine := mkMachine { open_ : list Z; files : list string }.

Definition createPath (tempDir : ErrorOr string) (model : string) : ErrorOr string :=
  match model with
  | String "/" _ => Success model
  | _ => dir ← tempDir; Success (path_div dir model)
  end.
(** The new object and the one it was moved from, whose path is left empty. *)
Definition moveTempFile (other : TempFile) : TempFile * TempFile :=
  (mkTempFile (fd other) (path other) (keepFile other), mkTempFile (-1) "" (keepFile other)).
Definition remove (t : TempFile) (m : Machine) : Machine :=
  if keepFile t then m else mkMachine (open_ m) (List.filter (fun f => negb (String.eqb f (path t))) (files m)).
Definition close (t : TempFile) (m : Machine) : TempFile * Machine :=
  if fd t =? -1 then (t, m)
  else (mkTempFile (-1) (path t) (keepFile t), mkMachine (List.filter (fun d => negb (d =? fd t)) (open_ m)) (files m)).
Definition destroy (t : TempFile) (m : Machine) : Machine := let '(t, m) := close t m in remove t m.

(** Creating a unique file opens it; [writeTempFile] closes it and moves the
    object out, and both objects are destroyed in the end. *)
Definition createFile (descriptor : Z) (name : string) (m : Machine) : TempFile * Machine :=
  (mkTempFile descriptor name false, mkMachine (descriptor :: open_ m) (name :: files m)).
Definition writeTempFile (descriptor : Z) (name : string) (m : Machine) : TempFile * Machine :=
  let '(t, m) := createFile descriptor name m in
  let '(t, m) := close t m in
  let '(result, rest) := moveTempFile t in
  (result, destroy rest m).

(** ** Properties *)

Definition isLockError (a : Attempt) : bool := match a with LockError _ => true | _ => false end.
Definition isOwnerDied (a : Attempt) : bool := match a with NotOwned OwnerDied => true | _ => false end.

(** Unless owners of the lock keep dying, the loop ends: 1002 attempts
    always give a result, whatever they meet.  The limit is one more than its
    name says: 1001 failed attempts, the first and 1000 retries, are retried
    again. *)
Theorem lock_attempts_bounded {T} filePath codes parentMsg (callable : ErrorOr T) attempts :
  Forall (fun a => isOwnerDied a = false) attempts →
  ((1002 ≤ List.length attempts)%nat →
     ∃ r, doLockedFileOperation filePath codes parentMsg callable 0 attempts = Some r)
  ∧ (Forall (fun a => isLockError a = true) attempts → (List.length attempts ≤ 1001)%nat →
     doLockedFileOperation filePath codes parentMsg callable 0 attempts = None).
Proof.
  intros Ha.
  assert (H1 : ∀ retries, 0 ≤ retries → 1002 - retries ≤ Z.of_nat (List.length attempts) → attempts ≠ [] →
    ∃ r, doLockedFileOperation filePath codes parentMsg callable retries attempts = Some r).
  { induction Ha as [|a l Ha _ IH]; intros retries H0 Hn Hne; [done|].
    destruct a as [msg| |[]]; simpl; eauto; [|done]. unfold kLockMaxRetriesOnError.
    destruct (1000 <? retries) eqn:E; [eauto|]. bool_to_prop. simpl List.length in Hn. apply IH; [lia|lia|].
    intros ->. simpl in Hn. lia. }
  assert (H2 : ∀ retries, Forall (fun a => isLockError a = true) attempts →
    Z.of_nat (List.length attempts) ≤ 1001 - retries →
    doLockedFileOperation filePath codes parentMsg callable retries attempts = None).
  { clear. induction attempts as [|a l IH]; intros retries Hl Hn; [done|].
    apply Forall_cons in Hl as [Ha Hl]. destruct a; try done. simpl. unfold kLockMaxRetriesOnError.
    simpl List.length in Hn. rewrite (proj2 (Z.ltb_ge _ _)) by lia. apply IH; [done|lia]. }
  split; [|intros Hl Hn; apply H2; [done|lia]].
  intros Hn. apply H1; [lia|lia|]. intros ->. simpl in Hn. lia.
Qed.

(** The lock is that of a process that holds it in its operation, or that
    died. *)
Definition OwnerHolds (s : System) : Prop :=
  (∀ p, owner s = Some p → phases s !! p = Some (Operating true) ∨ phases s !! p = None)
  ∧ ∀ p, phases s !! p = Some (Operating true) → owner s = Some p.

Lemma OwnerHolds_set s p ph ph' : phases s !! p = Some ph → ph ≠ Operating true → ph' ≠ Operating true →
  OwnerHolds s → OwnerHolds (setPhase s p ph').
Proof.
  intros Hp Hn Hn' [H1 H2]. split; simpl; intros q Hq.
  - assert (q ≠ p) by (intros ->; destruct (H1 _ Hq); congruence). rewrite lookup_insert_ne by done. auto.
  - apply lookup_insert_Some in Hq as [[<- Hq]|[_ Hq]]; [congruence|auto].
Qed.

Lemma OwnerHolds_step s s' : step s s' → OwnerHolds s → OwnerHolds s'.
Proof.
  intros Hs Ho. destruct Hs as [s p r Hp|s p r Hp Hn|s p q r Hp Hq|s p r Hp Hn|s p q r Hp Hq Hd|s p r Hp|s p holds Hp|s p].
  - apply (OwnerHolds_set _ _ (Trying r)); try done. by case_match.
  - destruct Ho as [H1 H2]. split; simpl; intros q Hq.
    + injection Hq as <-. left. apply lookup_insert_eq.
    + apply lookup_insert_Some in Hq as [[<- _]|[_ Hq]]; [done|]. pose proof (Hn _ (H2 _ Hq)). congruence.
  - by apply (OwnerHolds_set _ _ (Trying r)).
  - by apply (OwnerHolds_set _ _ (Waiting r)).
  - by apply (OwnerHolds_set _ _ (Waiting r)).
  - by apply (OwnerHolds_set _ _ (Waiting r)).
  - destruct holds.
    + destruct Ho as [H1 H2]. split; simpl; intros q Hq; [done|].
      apply lookup_insert_Some in Hq as [[_ ?]|[Hne Hq]]; [done|]. apply H2 in Hq, Hp. congruence.
    + by apply (OwnerHolds_set _ _ (Operating false)).
  - destruct Ho as [H1 H2]. split; simpl; intros q Hq.
    + destruct (decide (q = p)) as [->|Hne]; [right; apply lookup_delete_eq|]. rewrite lookup_delete_ne by done. auto.
    + apply lookup_delete_Some in Hq as [_ Hq]. auto.
Qed.

Lemma OwnerHolds_reachable s0 s : reachable s0 s → OwnerHolds s.
Proof.
  intros [[Ho Hp] Hr]. refine (rtc_ind_r OwnerHolds s0 _ _ s Hr); [|intros; by eapply OwnerHolds_step].
  split; [by rewrite Ho|]. intros p Hop. by apply Hp in Hop.
Qed.

(** With two processes, one that waits or goes on without the lock has left
    the other in its operation or behind it; once the lock is free, behind it. *)
Definition behind (s : System) (p : Pid) : Prop := phases s !! p = None ∨ phases s !! p = Some Finished.
Definition Exclusive (a b : Pid) (s : System) : Prop :=
  ∀ p q, p ≠ q → p = a ∨ p = b → q = a ∨ q = b →
    (phases s !! q = Some (Operating false) → behind s p)
    ∧ (∀ r, phases s !! q = Some (Waiting r) → behind s p ∨ phases s !! p = Some (Operating true)).
Definition onlyTwo (a b : Pid) (s : System) : Prop :=
  (∀ p ph, phases s !! p = Some ph → p = a ∨ p = b) ∧ (∀ p, owner s = Some p → p = a ∨ p = b).

Lemma onlyTwo_step a b s s' : step s s' → onlyTwo a b s → onlyTwo a b s'.
Proof.
  intros Hs [Ho Hw]. split; [|destruct Hs; simpl; try done; try (intros ? [= <-]; by eapply Ho); by destruct holds].
  destruct Hs; simpl; intros p' ph Hp';
    try (apply lookup_insert_Some in Hp' as [[<- _]|[_ Hp']]; [by eapply Ho|by eapply Ho]).
  apply lookup_delete_Some in Hp' as [_ Hp']. by eapply Ho.
Qed.

(** A step gives one process [x] a phase; the other one's stays. *)
Lemma Exclusive_insert a b s o x y ph : x ≠ y → x = a ∨ x = b → y = a ∨ y = b →
  (∀ z, z = a ∨ z = b → z = x ∨ z = y) →
  (ph = Operating false → behind s y) →
  (∀ r, ph = Waiting r → behind s y ∨ phases s !! y = Some (Operating true)) →
  (phases s !! y = Some (Operating false) → ph = Finished) →
  (∀ r, phases s !! y = Some (Waiting r) → ph = Finished ∨ ph = Operating true) →
  Exclusive a b (mkSystem o (<[x := ph]> (phases s))).
Proof.
  intros Hxy Hx Hy Hz H1 H2 H3 H4 p q Hpq Hp Hq. unfold behind in *. simpl.
  destruct (Hz _ Hp) as [-> | ->], (Hz _ Hq) as [-> | ->]; try done;
    rewrite lookup_insert_eq, lookup_insert_ne by done; split.
  - intros Hw. right. f_equal. auto.
  - intros r Hw. destruct (H4 r Hw) as [-> | ->]; auto.
  - intros [= ->]. auto.
  - intros r [= ->]. eauto.
Qed.

Lemma Exclusive_step a b s s' : a ≠ b → step s s' → onlyTwo a b s → OwnerHolds s → Exclusive a b s → Exclusive a b s'.
Proof.
  intros Hab Hs [Htwo Hw] [O1 O2] He.
  assert (Hins : ∀ o x ph0 ph, phases s !! x = Some ph0 → (∀ y, y ≠ x → y = a ∨ y = b →
      (ph = Operating false → behind s y)
      ∧ (∀ r, ph = Waiting r → behind s y ∨ phases s !! y = Some (Operating true))
      ∧ (phases s !! y = Some (Operating false) → ph = Finished)
      ∧ (∀ r, phases s !! y = Some (Waiting r) → ph = Finished ∨ ph = Operating true)) →
    Exclusive a b (mkSystem o (<[x := ph]> (phases s)))).
  { intros o x ph0 ph Hx Hall. destruct (Htwo _ _ Hx) as [-> | ->].
    - destruct (Hall b) as (?&?&?&?); auto. by apply (Exclusive_insert a b s o a b); auto; intros ? [-> | ->]; auto.
    - destruct (Hall a) as (?&?&?&?); auto. by apply (Exclusive_insert a b s o b a); auto; intros ? [-> | ->]; auto. }
  assert (Hfree : ∀ x r ph, phases s !! x = Some (Trying r) → ph ≠ Operating false → (∀ r, ph ≠ Waiting r) →
    ∀ o, Exclusive a b (mkSystem o (<[x := ph]> (phases s)))).
  { intros x r ph Hx Hn1 Hn2 o. apply (Hins _ _ _ _ Hx). intros y Hyx Hy. pose proof (Htwo _ _ Hx) as Hxab.
    destruct (He x y ltac:(done) Hxab Hy) as [E1 E2]. unfold behind in *. rewrite Hx in E1, E2.
    split; [done|]. split; [intros r' Hr; by destruct (Hn2 r')|].
    split; [intros Hy1; destruct (E1 Hy1); congruence|intros r' Hy1; destruct (E2 _ Hy1) as [[|]|]; congruence]. }
  assert (Hleave : ∀ x ph0 ph o, phases s !! x = Some ph0 → ph = Finished →
    Exclusive a b (mkSystem o (<[x := ph]> (phases s)))).
  { intros x ph0 ph o Hx ->. apply (Hins _ _ _ _ Hx). intros y _ _. repeat split; auto; done. }
  unfold setPhase.
  destruct Hs as [s x r Hx|s x r Hx Hn|s x y r Hx Hy|s x r Hx Hn|s x y r Hx Hy Hd|s x r Hx|s x holds Hx|s x].
  - eapply Hfree; [done| |]; case_match; done.
  - by eapply Hfree.
  - apply (Hins _ _ _ _ Hx). intros z Hz Hzab.
    assert (y = z) as ->.
    { destruct (O1 _ Hy) as [Ho|Ho]; [assert (y ≠ x) by congruence|assert (y ≠ x) by congruence];
        pose proof (Htwo _ _ Hx); pose proof (Hw _ Hy); intuition congruence. }
    unfold behind. destruct (O1 _ Hy) as [Ho|Ho]; rewrite Ho; naive_solver.
  - apply (Hins _ _ _ _ Hx). intros y Hyx Hy. pose proof (Htwo _ _ Hx) as Hxab.
    destruct (He y x ltac:(done) Hy Hxab) as [_ F2]. destruct (F2 _ Hx) as [Hb|Ht].
    + unfold behind in *. repeat split; intros; auto; destruct Hb; congruence.
    + apply O2 in Ht. congruence.
  - apply (Hins _ _ _ _ Hx). intros z Hzx Hz. pose proof (Htwo _ _ Hx) as Hxab.
    destruct (He z x ltac:(done) Hz Hxab) as [_ F2]. destruct (F2 _ Hx) as [Hb|Ht]; unfold behind in *.
    + repeat split; intros; auto; destruct Hb; congruence.
    + repeat split; intros; congruence.
  - by eapply Hleave.
  - by eapply Hleave.
  - intros p q Hpq Hp Hq. destruct (He p q Hpq Hp Hq) as [E1 E2]. unfold behind in *. simpl.
    destruct (decide (x = p)) as [->|Hxp].
    { rewrite lookup_delete_eq. auto. }
    rewrite (lookup_delete_ne _ x p) by done. destruct (decide (x = q)) as [->|Hxq].
    { by rewrite lookup_delete_eq. }
    by rewrite lookup_delete_ne.
Qed.

Lemma Exclusive_reachable a b s0 s : a ≠ b → onlyTwo a b s0 → reachable s0 s → Exclusive a b s.
Proof.
  intros Hab Htwo [Hi Hr].
  refine (proj2 (proj2 (rtc_ind_r (fun s => reachable s0 s ∧ onlyTwo a b s ∧ Exclusive a b s) s0 _ _ s Hr))).
  - split; [split; [done|apply rtc_refl]|]. split; [done|]. destruct Hi as [_ Hp].
    intros p q _ _ _. split; [intros Hq|intros r Hq]; by apply Hp in Hq.
  - intros y z _ Hs (Hy & Hyt & Hye). split; [split; [done|by eapply rtc_r; [apply Hy|]]|].
    split; [by eapply onlyTwo_step|]. eapply Exclusive_step; eauto using OwnerHolds_reachable.
Qed.

Definition threeProcesses : System := mkSystem None {[ 0%nat := Trying 0; 1%nat := Trying 0; 2%nat := Trying 0 ]}.
Definition twoOperate : System :=
  mkSystem None {[ 0%nat := Finished; 1%nat := Operating false; 2%nat := Operating false ]}.

(** The first takes the lock, the two others wait and both go on when it is
    done. *)
Lemma threeProcesses_twoOperate : rtc step threeProcesses twoOperate.
Proof.
  eapply rtc_l; [apply (step_owned _ 0%nat 0); [reflexivity|done]|].
  eapply rtc_l; [apply (step_notOwned _ 1%nat 0%nat 0); reflexivity|].
  eapply rtc_l; [apply (step_notOwned _ 2%nat 0%nat 0); reflexivity|].
  eapply rtc_l; [apply (step_done _ 0%nat true); reflexivity|].
  eapply rtc_l; [apply (step_unlocked _ 1%nat 0); reflexivity|].
  eapply rtc_l; [apply (step_unlocked _ 2%nat 0); reflexivity|].
  apply rtc_refl.
Qed.


Definition twoProcesses : System := mkSystem None {[ 0%nat := Trying 0; 1%nat := Trying 0 ]}.
Definition oneOperates : System := mkSystem (Some 0%nat) {[ 0%nat := Operating true; 1%nat := Waiting 0 ]}.

Lemma twoProcesses_reachable : onlyTwo 0%nat 1%nat twoProcesses ∧ reachable twoProcesses oneOperates.
Proof.
  assert (Hp : ∀ p ph, phases twoProcesses !! p = Some ph → ph = Trying 0 ∧ (p = 0%nat ∨ p = 1%nat)).
  { intros p ph Hp. unfold twoProcesses in Hp. simpl in Hp.
    apply lookup_insert_Some in Hp as [[<- <-]|[_ Hp]]; [auto|]. apply lookup_singleton_Some in Hp as [<- <-]. auto. }
  split; [split; [intros p ph Hph; apply (Hp _ _ Hph)|done]|].
  split; [split; [done|intros p ph Hph; apply (Hp _ _ Hph)]|].
  eapply rtc_l; [apply (step_owned _ 0%nat 0); [reflexivity|done]|].
  eapply rtc_l; [apply (step_notOwned _ 1%nat 0%nat 0); reflexivity|].
  apply rtc_refl.
Qed.


(** ** Temporary files *)

Lemma filter_fresh {A} (f : A → bool) l : (∀ x, In x l → f x = true) → List.filter f l = l.
Proof.
  induction l as [|x l IH]; intros Hf; simpl; [done|]. rewrite (Hf x) by (by left).
  f_equal. apply IH. intros y Hy. apply Hf. by right.
Qed.

Lemma fresh_names name l : ¬ In name l → List.filter (fun f => negb (String.eqb f name)) l = l.
Proof.
  intros Hn. apply filter_fresh. intros x Hx. apply negb_true_iff, String.eqb_neq. by intros ->.
Qed.

(** A temporary file that is written and returned is closed but still on
    disk, although the object it was moved from has been destroyed; the
    destruction of the one returned, and only that, restores the machine, and
    a second one changes nothing.  The objects that a file is moved out of
    never close or remove it, because they are left without its path. *)
Theorem temp_file_lifetime d name m :
  d ≠ -1 → ¬ In d (open_ m) → ¬ In name (files m) → name ≠ "" → ¬ In "" (files m) →
  let '(t, m') := writeTempFile d name m in
  m' = mkMachine (open_ m) (name :: files m) ∧ path t = name
  ∧ destroy t m' = m ∧ destroy t (destroy t m') = m
  ∧ (let '(t', rest) := moveTempFile t in destroy rest m' = m' ∧ destroy t' (destroy rest m') = m)
  ∧ destroy (mkTempFile (fd t) name true) m' = m'.
Proof.
  intros Hd Ho Hf Hn He. destruct m as [o f]. unfold writeTempFile. simpl in *.
  apply Z.eqb_neq in Hd as Hd'. unfold close at 1. simpl. rewrite Hd'. simpl. rewrite Z.eqb_refl. simpl.
  rewrite (filter_fresh _ o).
  2:{ intros x Hx. apply negb_true_iff, Z.eqb_neq. by intros ->. }
  assert (Hne : String.eqb name "" = false) by by apply String.eqb_neq.
  unfold destroy, remove, moveTempFile. simpl. rewrite Hne. simpl. rewrite String.eqb_refl. simpl.
  rewrite !fresh_names, Hne by done. simpl. rewrite String.eqb_refl. simpl. rewrite !fresh_names by done. repeat split.
Qed.

Lemma temp_file_lifetime_witness :
  let '(t, m) := writeTempFile 3 "/tmp/a-1" (mkMachine [1] ["/tmp/b"]) in
  files m = ["/tmp/a-1"; "/tmp/b"] ∧ files (destroy t m) = ["/tmp/b"].
Proof.
  pose proof (temp_file_lifetime 3 "/tmp/a-1" (mkMachine [1] ["/tmp/b"]) ltac:(done) ltac:(intros [|[]]; discriminate)
    ltac:(intros [|[]]; discriminate) ltac:(done) ltac:(intros [|[]]; discriminate)) as H.
  destruct (writeTempFile _ _ _) as [t m]. destruct H as (-> & _ & -> & _). done.
Defined.

End FileSystemExtras.
