(* ===== verification/FileStreams.v ===== *)
(** The rest of Support/lib/FileSystemExtras.cpp: what is read, written and
    appended under a lock, the streams it is written with, and temporary
    directories, of one process and of two. *)
From stdpp Require Import gmap sets.
From S2P Require Import Prelude StringRef FileSystemExtras.

#[local] Open Scope string_scope.
#[local] Open Scope Z_scope.

Module FileStreams.
Import FileSystemExtras.

#[local] Abbreviation length := List.length (only parsing).

(** The codes of an error, its value, category and message each. *)
Definition errorCode (e : Z * string * string) : string :=
  let '(value, category, message) := e in
  "ErrorCode value: " ++ decimal value ++ " category: " ++ category ++ " message: " ++ message.
Fixpoint errorCodeToString (errors : list (Z * string * string)) : string :=
  match errors with
  | [] => ""
  | [e] => errorCode e
  | e :: errors => errorCode e ++ String "010" "" ++ errorCodeToString errors
  end.

(** ** Streams *)

(** raw_fd_ostream, as its header documents it: what is written may stay in
    the buffer; the destructor writes it out, and a stream that then has an
    error that was not cleared ends the process. *)
Class FdStream (Stream : Type) := {
  write : string → Stream → Stream;
  flush : Stream → Stream;
  error : Stream → option string;
  (** [None]: the process ends with a fatal error. *)
  destructor : Stream → option unit;
  error_kept : ∀ s m, error s = Some m → ∃ m', error (flush s) = Some m';
  destructor_spec : ∀ s, destructor s = None ↔ ∃ m, error (flush s) = Some m
}.

Section Streams.
Context {Stream : Type} {FD : FdStream Stream}.

(** The function that [appendFileUnderLock] runs under the lock. *)
Definition appendFile (opened : ErrorOr Stream) (appendContent : Stream → Stream) : option (ErrorOr unit) :=
  match opened with
  | Error ec => Some (Error ec)
  | Success stream =>
      let stream := appendContent stream in
      let result := match error stream with Some message => Error message | None => Success tt end in
      _ ← destructor stream; Some result
  end.

(** [writeTempFile], with the file that was created: it is closed and
    returned whatever the stream says. *)
Definition writeTempContent (tmpFileOr : ErrorOr (TempFile * Stream)) (writeFn : Stream → Stream) : option (ErrorOr TempFile) :=
  match tmpFileOr with
  | Error msg => Some (Error msg)
  | Success (file, tmpOS) =>
      let tmpOS := flush (writeFn tmpOS) in
      _ ← destructor tmpOS; Some (Success (mkTempFile (-1) (path file) (keepFile file)))
  end.

(** The function that [writeFileUnderLock] hands to [writeToOutput], for the two
    streams without errors and for files. *)
Definition writeOutput (filePath : string) (writeContent : Stream → Stream) (os : Stream) : ErrorOr unit * Stream :=
  if String.eqb filePath "/dev/null" || String.eqb filePath "-" then (Success tt, flush (writeContent os))
  else let os := flush (writeContent os) in
       (match error os with Some message => Error message | None => Success tt end, os).

(** The operations under the lock; the outer [None] is still waiting. *)
Definition appendFileUnderLock (filePath : string) (codes : string → string) (parentMsg : string) (attempts : list Attempt)
    (opened : ErrorOr Stream) (appendContent : Stream → Stream) : option (option (ErrorOr unit)) :=
  match appendFile opened appendContent with
  | None => (fun _ => None) <$> doLockedFileOperation filePath codes parentMsg (Success tt) 0 attempts
  | Some r => Some <$> doLockedFileOperation filePath codes parentMsg r 0 attempts
  end.
Definition readFileUnderLock (filePath : string) (codes : string → string) (parentMsg : string) (attempts : list Attempt)
    : option (ErrorOr unit) :=
  doLockedFileOperation filePath codes parentMsg (Success tt) 0 attempts.
Definition writeFileUnderLock (filePath : string) (codes : string → string) (parentMsg : string) (attempts : list Attempt)
    (writeToOutput : ErrorOr unit) : option (ErrorOr string) :=
  doLockedFileOperation filePath codes parentMsg (match writeToOutput with Error err => Error err | Success _ => Success filePath end)
    0 attempts.

(** C33: The result of appending, once there is one, is the error of opening the file
    or success: an error of writing is never returned, it ends the process,
    whether it shows before the stream is flushed or after.  The same
    holds of temporary files. *)
Theorem write_errors_end_process (opened : ErrorOr Stream) (tmpFileOr : ErrorOr (TempFile * Stream)) content :
  (∀ msg, appendFile opened content = Some (Error msg) ↔ opened = Error msg)
  ∧ (appendFile opened content = None ↔ ∃ s m, opened = Success s ∧ error (flush (content s)) = Some m)
  ∧ (∀ msg, writeTempContent tmpFileOr content = Some (Error msg) ↔ tmpFileOr = Error msg)
  ∧ (writeTempContent tmpFileOr content = None ↔
       ∃ file s m, tmpFileOr = Success (file, s) ∧ error (flush (flush (content s))) = Some m).
Proof.
  assert (Hfatal : ∀ s, destructor s = None ↔ ∃ m, error (flush s) = Some m) by apply destructor_spec.
  split_and!.
  - intros msg. unfold appendFile. destruct opened as [s|ec]; [|split; congruence]. split; [|done].
    destruct (error (content s)) as [m|] eqn:Em; [|by destruct (destructor (content s))].
    rewrite (proj2 (Hfatal (content s)) (error_kept _ _ Em)). done.
  - unfold appendFile. destruct opened as [s|ec]; [|split; [done|by intros (?&?&?&?)]].
    destruct (destructor (content s)) as [[]|] eqn:Ed.
    + split; [done|]. intros (s' & m & [= <-] & Hm). by rewrite (proj2 (Hfatal _) (ex_intro _ m Hm)) in Ed.
    + split; [|done]. intros _. apply Hfatal in Ed as [m Hm]. by exists s, m.
  - intros msg. unfold writeTempContent. destruct tmpFileOr as [[file s]|e]; [|split; congruence]. split; [|done].
    by destruct (destructor _).
  - unfold writeTempContent. destruct tmpFileOr as [[file s]|e]; [|split; [done|by intros (?&?&?&?&?)]].
    destruct (destructor (flush (content s))) as [[]|] eqn:Ed.
    + split; [done|]. intros (f & s' & m & [= <- <-] & Hm). by rewrite (proj2 (Hfatal _) (ex_intro _ m Hm)) in Ed.
    + split; [|done]. intros _. apply Hfatal in Ed as [m Hm]. by exists file, s, m.
Qed.

End Streams.

(** ** Other operations *)

(** [uintmax_t] of -1 is the error of [file_size]. *)
Definition getSize (size : Z) (message : string) : ErrorOr Z := if size =? 2 ^ 64 - 1 then Error message else Success size.
(** The buffer, or the message that [mlir::openInputFile] leaves. *)
Definition openInputFile {Buffer} (align : option Z) (openAligned : Z → option Buffer) (open : option Buffer) (errorMsg : string)
    : ErrorOr Buffer :=
  match (match align with Some a => openAligned a | None => open end) with
  | Some result => Success result
  | None => Error errorMsg
  end.

(** ** Temporary directories *)

(** The files and directories of the machine, by their paths. *)
Record Disk := mkDisk { diskFiles : gset string; diskDirs : gset string }.
Record TempDir := mkTempDir { dirPath : string; keepDir : bool }.

(** createUniqueFile makes a file that is new; removing it; and
    [create_directory], for which a directory that exists is no error. *)
Definition createUnique (name : string) (d : Disk) : option Disk :=
  if bool_decide (name ∈ diskFiles d ∪ diskDirs d) then None else Some (mkDisk ({[name]} ∪ diskFiles d) (diskDirs d)).
Definition removeFile (name : string) (d : Disk) : Disk := mkDisk (diskFiles d ∖ {[name]}) (diskDirs d).
Definition create_directory (name : string) (d : Disk) : option Disk :=
  if bool_decide (name ∈ diskFiles d) then None else Some (mkDisk (diskFiles d) ({[name]} ∪ diskDirs d)).
Definition remove_all (name : string) (d : Disk) : Disk := mkDisk (diskFiles d ∖ {[name]}) (diskDirs d ∖ {[name]}).

(** The move, which copies the path only, and the destructor. *)
Definition keep (t : TempDir) : TempDir := mkTempDir (dirPath t) true.
Definition moveTempDir (other : TempDir) : TempDir * TempDir := (mkTempDir (dirPath other) false, keep other).
Definition removeDir (t : TempDir) (d : Disk) : Disk := if keepDir t then d else remove_all (dirPath t) d.

(** Where a process is in [TempFile::create] or [TempDir::create]. *)
Inductive Making := Start | HasFile (name : string) | HasName (name : string) | HasDir (t : TempDir) | Failed.
(** Steps of one process: a file with a new name; for a directory, removing
    it again and making the directory. *)
Inductive fileStep : Making * Disk → Making * Disk → Prop :=
  | file_create name d d' : createUnique name d = Some d' → fileStep (Start, d) (HasFile name, d').
Inductive dirStep : Making * Disk → Making * Disk → Prop :=
  | dir_create name d d' : createUnique name d = Some d' → dirStep (Start, d) (HasFile name, d')
  | dir_remove name d : dirStep (HasFile name, d) (HasName name, removeFile name d)
  | dir_make name d : dirStep (HasName name, d)
      (match create_directory name d with Some d' => (HasDir (mkTempDir name false), d') | None => (Failed, d) end).

(** Two processes that take turns on one disk. *)
Inductive both (R : Making * Disk → Making * Disk → Prop) : Making * Making * Disk → Making * Making * Disk → Prop :=
  | both_left a a' b d d' : R (a, d) (a', d') → both R (a, b, d) (a', b, d')
  | both_right a b b' d d' : R (b, d) (b', d') → both R (a, b, d) (a, b', d').

(** The files of two processes are on the disk and are different. *)
Definition filesApart (s : Making * Making * Disk) : Prop :=
  let '(a, b, d) := s in
  (∀ n, a = HasFile n → n ∈ diskFiles d) ∧ (∀ n, b = HasFile n → n ∈ diskFiles d) ∧ (∀ n m, a = HasFile n → b = HasFile m → n ≠ m).

Lemma createUnique_spec name d d' : createUnique name d = Some d' →
  name ∉ diskFiles d ∧ name ∉ diskDirs d ∧ diskFiles d' = {[name]} ∪ diskFiles d ∧ diskDirs d' = diskDirs d.
Proof. unfold createUnique. case_bool_decide; [done|]. intros [= <-]. cbn. set_solver. Qed.

Lemma filesApart_step s s' : both fileStep s s' → filesApart s → filesApart s'.
Proof.
  assert (Hone : ∀ a b d d' n, createUnique n d = Some d' → filesApart (a, b, d) → filesApart (HasFile n, b, d') ∧ filesApart (a, HasFile n, d')).
  { intros a b d d' n (Hn & _ & Hf & _)%createUnique_spec (Ha & Hb & Hab). unfold filesApart. rewrite Hf. split.
    - split_and!; [intros m [= <-]; set_solver|intros m Hm; specialize (Hb m Hm); set_solver|].
      intros m k [= <-] Hk ->. by apply Hn, Hb.
    - split_and!; [intros m Hm; specialize (Ha m Hm); set_solver|intros m [= <-]; set_solver|].
      intros m k Hm [= <-] ->. by apply Hn, Ha. }
  intros [a a' b d d' H|a b b' d d' H] Hs; inversion H; subst; by eapply (Hone _ _ _ _ _ ltac:(eassumption)).
Qed.

(** C34: Two processes that make temporary files at the same time never get the same
    one.  Temporary directories have no such promise: each process removes
    the file that reserved its name before it makes the directory, and both can
    end with the same directory, which the first to end removes under the
    other. *)
Theorem temp_names_exclusive d :
  (∀ s n m d', rtc (both fileStep) (Start, Start, d) s → s = (HasFile n, HasFile m, d') → n ≠ m)
  ∧ ∀ name, name ∉ diskFiles d → name ∉ diskDirs d →
      ∃ d' t, rtc (both dirStep) (Start, Start, d) (HasDir t, HasDir t, d')
        ∧ dirPath t = name ∧ name ∈ diskDirs d' ∧ name ∉ diskDirs (removeDir t d').
Proof.
  split.
  - intros s n m d' Hr ->. assert (Hs : filesApart (HasFile n, HasFile m, d')).
    { refine (rtc_ind_r filesApart _ _ _ _ Hr); [by unfold filesApart|intros y z _ Hs Hy; by eapply filesApart_step]. }
    destruct Hs as (_ & _ & H). by apply H.
  - intros name Hf Hd. set (d1 := mkDisk ({[name]} ∪ diskFiles d) (diskDirs d)).
    assert (H1 : createUnique name d = Some d1).
    { unfold createUnique. rewrite bool_decide_false by set_solver. done. }
    set (d2 := removeFile name d1).
    assert (Hf2 : diskFiles d2 = diskFiles d) by (apply leibniz_equiv; cbn; set_solver).
    assert (H2 : createUnique name d2 = Some (mkDisk ({[name]} ∪ diskFiles d2) (diskDirs d))).
    { unfold createUnique. rewrite bool_decide_false; [done|]. rewrite Hf2. cbn. set_solver. }
    set (d3 := removeFile name (mkDisk ({[name]} ∪ diskFiles d2) (diskDirs d))).
    assert (Hn3 : name ∉ diskFiles d3) by (cbn; set_solver).
    set (d4 := mkDisk (diskFiles d3) ({[name]} ∪ diskDirs d)).
    assert (Hm : ∀ d0, diskFiles d0 = diskFiles d3 → create_directory name d0 = Some (mkDisk (diskFiles d0) ({[name]} ∪ diskDirs d0))).
    { intros d0 E. unfold create_directory. rewrite bool_decide_false; [done|]. by rewrite E. }
    exists (mkDisk (diskFiles d4) ({[name]} ∪ diskDirs d4)), (mkTempDir name false). split; [|cbn; set_solver].
    eapply rtc_l; [by apply both_left, dir_create, H1|].
    eapply rtc_l; [apply both_left, dir_remove|].
    eapply rtc_l; [by apply both_right, dir_create, H2|].
    eapply rtc_l; [apply both_right, dir_remove|]. fold d3.
    eapply rtc_l; [apply both_left; pose proof (dir_make name d3) as Hs; rewrite Hm in Hs by done; exact Hs|].
    eapply rtc_l; [apply both_right; pose proof (dir_make name d4) as Hs; rewrite Hm in Hs by done; exact Hs|].
    apply rtc_refl.
Qed.

(** A directory that is moved is removed once, by the object it was moved to,
    and that object removes it although it was to be kept. *)
Lemma moved_dir_not_kept t d :
  let '(result, other) := moveTempDir t in
  removeDir other d = d ∧ removeDir result d = remove_all (dirPath t) d ∧ removeDir (keep t) d = d
  ∧ removeDir (fst (moveTempDir (keep t))) d = remove_all (dirPath t) d.
Proof. by unfold moveTempDir. Qed.

(** ** Examples *)

(** A stream to a full disk: what is written stays in the buffer. *)
Record exampleStream := mkStream { buffer : string; failed : option string }.
Definition exampleFd : FdStream exampleStream.
Proof.
  refine (Build_FdStream exampleStream
    (fun t s => mkStream (buffer s ++ t) (failed s))
    (fun s => mkStream "" (if isEmpty (buffer s) then failed s else Some "No space left on device"))
    failed
    (fun s => if isEmpty (buffer s) then match failed s with Some _ => None | None => Some tt end else None) _ _).
  - intros [b f] m H. cbn in *. destruct (isEmpty b); eauto.
  - intros [b f]. cbn. destruct (isEmpty b); [|by split; [eexists|]].
    destruct f; (split; [try done; by eexists|intros [? [=]]]); done.
Defined.

Lemma write_errors_end_process_witness :
  appendFile (FD := exampleFd) (Success (mkStream "" None)) (fun s => write (FdStream := exampleFd) "line" s) = None.
Proof.
  apply (proj2 (proj1 (proj2 (write_errors_end_process (FD := exampleFd) (Success (mkStream "" None)) (Error "unused")
    (fun s => write (FdStream := exampleFd) "line" s))))).
  by exists (mkStream "" None), "No space left on device".
Defined.

Lemma temp_names_exclusive_witness :
  ∃ d' t, rtc (both dirStep) (Start, Start, mkDisk ∅ ∅) (HasDir t, HasDir t, d') ∧ dirPath t = "/tmp/a".
Proof.
  destruct (proj2 (temp_names_exclusive (mkDisk ∅ ∅)) "/tmp/a" ltac:(apply not_elem_of_empty) ltac:(apply not_elem_of_empty))
    as (d' & t & H1 & H2 & _).
  exists d', t. split; [exact H1|exact H2].
Defined.

End FileStreams.
