(* ===== verification/PackageClone.v ===== *)
(** [buildPackageModule] of Mojo/tools/mojo/Precompile/mojo-precompile.cpp: the
    package that is written to a .mojoc file, cloned from the parsed one with a
    worklist of operations and insertion points over a store of blocks. *)
From S2P Require Import Prelude StringRef.

#[local] Open Scope string_scope.
#[local] Open Scope nat_scope.

Module PackageClone.

#[local] Abbreviation length := List.length (only parsing).

(** ** Operations *)

Inductive Kind := PackageOp | FileModuleOp | StructDeclOp | UnresolvedImportOp | ImportOp | FnOp | TraitDeclOp | OtherOp.
#[export] Instance Kind_eq_dec : EqDecision Kind.
Proof. solve_decision. Defined.

(** LIT::DocStringAttr: the text and where it was written. *)
Record DocStringAttr := mkDoc { docText : string; docLocation : option Z }.

(** The attributes that packaging looks at; [rest] is everything else that an
    operation refers to. *)
Record Attrs {Ref : Type} := mkAttrs {
  symName : string; isASTDecl : bool; docStringAttr : option DocStringAttr;
  thunkKeyAttr : bool; closureSignature : bool; rest : list Ref
}.
Arguments Attrs : clear implicits.
Arguments mkAttrs {Ref} symName isASTDecl docStringAttr thunkKeyAttr closureSignature rest.

(** The operations of its regions, in order, follow an operation. *)
Inductive Operation {Ref : Type} := mkOp (kind : Kind) (attrs : Attrs Ref) (body : list Operation).
Arguments Operation : clear implicits.
Arguments mkOp {Ref} kind attrs body.

Section Clone.
Context {Ref : Type}.
Abbreviation Op := (Operation Ref).

Definition kindOf (op : Op) : Kind := let '(mkOp k _ _) := op in k.
Definition attrsOf (op : Op) : Attrs Ref := let '(mkOp _ a _) := op in a.
Definition getOps (op : Op) : list Op := let '(mkOp _ _ b) := op in b.

Fixpoint opSize (op : Op) : nat :=
  let '(mkOp _ _ b) := op in S (foldr (fun o n => opSize o + n) 0 b).
Definition opsSize (ops : list Op) : nat := foldr (fun o n => opSize o + n) 0 ops.

Lemma Operation_ind' (P : Op → Prop) :
  (∀ k a body, Forall P body → P (mkOp k a body)) → ∀ op, P op.
Proof.
  intros H. fix IH 1. intros [k a body]. apply H. induction body as [|op body IHb]; constructor; [apply IH|exact IHb].
Qed.

(** ** The builder *)

(** What a block holds: an operation cloned whole, or one whose body is a block
    of its own. *)
Inductive Item := Cloned (op : Op) | Opened (kind : Kind) (attrs : Attrs Ref) (block : nat).
(** All insertion points are ends of blocks: one is taken at the end of the
    module, the others at the start of blocks that are still empty. *)
Record Builder := mkBuilder { blocks : list (list Item); insertPoint : nat }.

Definition insert_item (it : Item) (b : Builder) : Builder :=
  mkBuilder (alter (fun l => (l ++ [it])%list) (insertPoint b) (blocks b)) (insertPoint b).

(** With each operation, the kind of its parent. *)
Inductive WorkItem := WorkOp (parent : Kind) (op : Op) | InsertPoint (block : nat).
Abbreviation Worklist := (list WorkItem).

Definition cloneWithoutRegions (op : Op) (b : Builder) (worklist : Worklist) : Builder * Worklist :=
  let worklist := InsertPoint (insertPoint b) :: worklist in
  let block := length (blocks b) in
  let b := insert_item (Opened (kindOf op) (attrsOf op) block) b in
  (mkBuilder (blocks b ++ [[]])%list block, worklist).

(** Through a temporary stack, which reverses them twice. *)
Definition pushOpsOntoWorklist (parent : Kind) (opList : list Op) (worklist : Worklist) : Worklist :=
  let tmp := foldl (fun tmp op => op :: tmp) [] opList in
  foldl (fun worklist op => WorkOp parent op :: worklist) worklist tmp.

Definition process (parent : Kind) (op : Op) (b : Builder) (worklist : Worklist) : Builder * Worklist :=
  match kindOf op with
  | PackageOp | FileModuleOp | StructDeclOp =>
      let '(b, worklist) := cloneWithoutRegions op b worklist in
      (b, pushOpsOntoWorklist (kindOf op) (getOps op) worklist)
  | UnresolvedImportOp | ImportOp =>
      if bool_decide (parent = PackageOp) then (b, worklist) else (insert_item (Cloned op) b, worklist)
  | _ => (insert_item (Cloned op) b, worklist)
  end.

(** [None]: out of fuel. *)
Fixpoint drain (fuel : nat) (b : Builder) (worklist : Worklist) : option Builder :=
  match worklist, fuel with
  | [], _ => Some b
  | _, O => None
  | InsertPoint block :: worklist, S fuel => drain fuel (mkBuilder (blocks b) block) worklist
  | WorkOp parent op :: worklist, S fuel =>
      let '(b, worklist) := process parent op b worklist in drain fuel b worklist
  end.

(** The operations that a block stands for. *)
Fixpoint readBlock (fuel : nat) (s : list (list Item)) (block : nat) : list Op :=
  match fuel with
  | O => []
  | S fuel =>
      map (fun it => match it with Cloned op => op | Opened k a b => mkOp k a (readBlock fuel s b) end)
        (default [] (s !! block))
  end.

Definition stripDoc (a : Attrs Ref) : Attrs Ref :=
  match isASTDecl a, docStringAttr a with
  | true, Some (mkDoc text (Some _)) =>
      mkAttrs (symName a) (isASTDecl a) (Some (mkDoc text None)) (thunkKeyAttr a) (closureSignature a) (rest a)
  | _, _ => a
  end.
(** [thePackage.walk]. *)
Fixpoint strip (op : Op) : Op := let '(mkOp k a body) := op in mkOp k (stripDoc a) (map strip body).

(** The operations of the module and the package it holds; the outer [None]
    is the assertion that functions at the top are thunks. *)
Definition topLevel (theModule : list Op) : option Worklist :=
  let fns := List.filter (fun op => bool_decide (kindOf op = FnOp)) theModule in
  let traits := List.filter (fun op => bool_decide (kindOf op = TraitDeclOp) && closureSignature (attrsOf op)) theModule in
  if forallb (fun op => thunkKeyAttr (attrsOf op)) fns
  then Some (foldl (fun w op => pushOpsOntoWorklist OtherOp [op] w) [] (fns ++ traits)%list) else None.

Definition buildPackageModule (theModule : list Op) (parsedPackageOp : Op) : option (list Op) :=
  worklist ← topLevel theModule;
  let '(b, worklist) := cloneWithoutRegions parsedPackageOp (mkBuilder [[]] 0) worklist in
  let worklist := pushOpsOntoWorklist PackageOp (getOps parsedPackageOp) worklist in
  b ← drain (2 * (opSize parsedPackageOp + opsSize theModule)) b worklist;
  match readBlock (length (blocks b)) (blocks b) 0 with
  | thePackage :: thunks => Some (strip thePackage :: thunks)
  | [] => None
  end.

(** ** The package by recursion on the tree *)

(** What is left of an operation under a parent. *)
Fixpoint kept (parent : Kind) (op : Op) : list Op :=
  let '(mkOp k a body) := op in
  match k with
  | PackageOp | FileModuleOp | StructDeclOp => [mkOp k a (flat_map (kept k) body)]
  | UnresolvedImportOp | ImportOp => if bool_decide (parent = PackageOp) then [] else [op]
  | _ => [op]
  end.
Definition packaged (op : Op) : Op := mkOp (kindOf op) (attrsOf op) (flat_map (kept PackageOp) (getOps op)).

(** ** The store shows the tree *)

(** [items] stand for [ops] through the blocks from [lo] to [hi]; the blocks of
    a body come after the block of its operation. *)
Inductive Shows (s : list (list Item)) (hi : nat) : nat → list Item → list Op → Prop :=
  | Shows_nil lo : Shows s hi lo [] []
  | Shows_cloned lo op items ops : Shows s hi lo items ops → Shows s hi lo (Cloned op :: items) (op :: ops)
  | Shows_opened lo k a b inner body items ops :
      lo ≤ b < hi → s !! b = Some inner → Shows s hi (S b) inner body → Shows s hi lo items ops →
      Shows s hi lo (Opened k a b :: items) (mkOp k a body :: ops).

Lemma Shows_mono s s' hi hi' lo lo' items ops : Shows s hi lo items ops →
  (∀ i, lo ≤ i < hi → s' !! i = s !! i) → lo' ≤ lo → hi ≤ hi' → Shows s' hi' lo' items ops.
Proof.
  intros H. revert lo'. induction H as [lo|lo op items ops _ IH|lo k a b inner body items ops Hb Hs _ IHb _ IH];
    intros lo' Hi Hlo Hhi.
  - constructor.
  - constructor. auto.
  - apply (Shows_opened _ _ _ _ _ _ inner); [lia| | |].
    + rewrite Hi by lia. done.
    + apply IHb; [intros; apply Hi; lia|lia|done].
    + apply IH; [done|lia|done].
Qed.

Lemma Shows_app s hi lo items ops items' ops' :
  Shows s hi lo items ops → Shows s hi lo items' ops' → Shows s hi lo (items ++ items')%list (ops ++ ops')%list.
Proof. induction 1; intros; [done|constructor; auto|econstructor; eauto]. Qed.

Lemma Shows_read s hi lo items ops fuel : Shows s hi lo items ops → hi - lo ≤ fuel →
  map (fun it => match it with Cloned op => op | Opened k a b => mkOp k a (readBlock fuel s b) end) items = ops.
Proof.
  intros H. revert fuel. induction H as [lo|lo op items ops _ IH|lo k a b inner body items ops Hb Hs _ IHb _ IH];
    intros fuel Hf; simpl; [done|by rewrite IH|].
  rewrite (IH fuel Hf). destruct fuel as [|fuel]; [lia|]. simpl. rewrite Hs. simpl. by rewrite IHb by lia.
Qed.

(** ** What a run of the worklist adds *)

Definition Adds (b b' : Builder) (ops : list Op) : Prop :=
  insertPoint b' = insertPoint b ∧ length (blocks b) ≤ length (blocks b')
  ∧ (∀ i, i < length (blocks b) → i ≠ insertPoint b → blocks b' !! i = blocks b !! i)
  ∧ ∃ old items, blocks b !! insertPoint b = Some old ∧ blocks b' !! insertPoint b = Some (old ++ items)%list
      ∧ Shows (blocks b') (length (blocks b')) (length (blocks b)) items ops.

Lemma Adds_nil b : insertPoint b < length (blocks b) → Adds b b [].
Proof.
  intros H. apply lookup_lt_is_Some in H as [old Hold]. repeat split; [lia|].
  exists old, []. rewrite app_nil_r. repeat split; [done|done|constructor].
Qed.

Lemma Adds_trans b b1 b2 ops1 ops2 : Adds b b1 ops1 → Adds b1 b2 ops2 → Adds b b2 (ops1 ++ ops2)%list.
Proof.
  intros (Hp & Hl & Hi & old & items & Ho & Ho1 & Hs) (Hp' & Hl' & Hi' & old' & items' & Ho' & Ho2 & Hs').
  pose proof (lookup_lt_Some _ _ _ Ho) as Hlt. rewrite Hp in Ho', Ho2, Hi'. split; [congruence|]. split; [lia|]. split.
  - intros i H1 H2. rewrite Hi' by lia. auto.
  - exists old, (items ++ items')%list. rewrite Ho1 in Ho'. injection Ho' as <-.
    split; [done|]. split; [by rewrite app_assoc|]. apply Shows_app.
    + apply (Shows_mono _ _ _ _ _ _ _ _ Hs); [intros; apply Hi'; lia|lia|lia].
    + apply (Shows_mono _ _ _ _ _ _ _ _ Hs'); [done|lia|lia].
Qed.

Lemma Adds_cloned b op : insertPoint b < length (blocks b) → Adds b (insert_item (Cloned op) b) [op].
Proof.
  intros H. apply lookup_lt_is_Some in H as [old Hold]. unfold insert_item. split; [done|].
  cbn [blocks insertPoint]. rewrite length_alter. split; [done|]. split.
  - intros i _ Hi. by rewrite list_lookup_alter_ne by done.
  - exists old, [Cloned op]. rewrite list_lookup_alter_eq, Hold. repeat split; repeat constructor.
Qed.

Lemma pushOps_eq parent ops worklist :
  pushOpsOntoWorklist parent ops worklist = (map (WorkOp parent) ops ++ worklist)%list.
Proof.
  unfold pushOpsOntoWorklist. assert (H : ∀ tmp : list Op, foldl (fun tmp op => op :: tmp) tmp ops = (rev ops ++ tmp)%list).
  { induction ops as [|op ops IH]; intros tmp; simpl; [done|]. by rewrite IH, <- app_assoc. }
  rewrite H, app_nil_r. clear H. induction ops as [|op ops IH]; simpl; [done|]. by rewrite foldl_app, IH.
Qed.

(** A run of [n] steps that leaves the worklist below as it was. *)
Definition Runs (n : nat) (b : Builder) (top : Worklist) (b' : Builder) (ops : list Op) : Prop :=
  (∀ fuel worklist, drain (n + fuel) b (top ++ worklist)%list = drain fuel b' worklist) ∧ Adds b b' ops.

Lemma Runs_app n1 n2 b b1 b2 top1 top2 ops1 ops2 :
  Runs n1 b top1 b1 ops1 → Runs n2 b1 top2 b2 ops2 → Runs (n1 + n2) b (top1 ++ top2)%list b2 (ops1 ++ ops2)%list.
Proof.
  intros [H1 A1] [H2 A2]. split; [|by eapply Adds_trans]. intros fuel worklist.
  by rewrite <- app_assoc, <- Nat.add_assoc, H1, H2.
Qed.

Definition drains (parent : Kind) (op : Op) : Prop :=
  ∀ b, insertPoint b < length (blocks b) →
    ∃ n b', n ≤ 2 * opSize op ∧ Runs n b [WorkOp parent op] b' (kept parent op).

Lemma Runs_cloned b parent op : insertPoint b < length (blocks b) →
  process parent op b = (fun worklist => (insert_item (Cloned op) b, worklist)) →
  Runs 1 b [WorkOp parent op] (insert_item (Cloned op) b) [op].
Proof.
  intros Hb Hp. split; [|by apply Adds_cloned]. intros fuel worklist. simpl. by rewrite Hp.
Qed.

Lemma Adds_lt b b' ops : Adds b b' ops → insertPoint b < length (blocks b) → insertPoint b' < length (blocks b').
Proof. intros (-> & Hl & _) Hb. lia. Qed.

Lemma drains_list parent ops : Forall (drains parent) ops → ∀ b, insertPoint b < length (blocks b) →
  ∃ n b', n ≤ 2 * opsSize ops ∧ Runs n b (map (WorkOp parent) ops) b' (flat_map (kept parent) ops).
Proof.
  induction 1 as [|op ops Hop _ IH]; intros b Hb; simpl.
  - exists 0, b. split; [lia|]. split; [done|by apply Adds_nil].
  - destruct (Hop b Hb) as (n1 & b1 & Hn1 & R1). destruct (IH b1) as (n2 & b2 & Hn2 & R2).
    { eapply Adds_lt; [apply R1|done]. }
    exists (n1 + n2), b2. split; [unfold opsSize in *; lia|]. apply (Runs_app _ _ _ _ _ [_] _ _ _ R1 R2).
Qed.

(** Entering a new block, filling it, and leaving it. *)
Lemma Adds_opened b k a b1 ops : insertPoint b < length (blocks b) →
  (let b0 := insert_item (Opened k a (length (blocks b))) b in
   Adds (mkBuilder (blocks b0 ++ [[]])%list (length (blocks b))) b1 ops) →
  Adds b (mkBuilder (blocks b1) (insertPoint b)) [mkOp k a ops].
Proof.
  intros Hb. pose proof Hb as Hlt. apply lookup_lt_is_Some in Hb as [old Hold].
  cbn zeta. intros (Hp & Hl & Hi & old' & items & Ho & Ho1 & Hs).
  cbn [blocks insertPoint insert_item] in *. rewrite length_app, length_alter in *. simpl in Hl, Hi, Hs.
  rewrite lookup_app_r, length_alter, Nat.sub_diag in Ho by (rewrite length_alter; lia). injection Ho as <-.
  split; [done|]. split; [simpl; lia|]. cbn [blocks insertPoint]. split.
  - intros i H1 H2. rewrite Hi by lia. rewrite lookup_app_l by (rewrite length_alter; lia).
    by rewrite list_lookup_alter_ne by done.
  - exists old, [Opened k a (length (blocks b))]. split; [done|]. split.
    + rewrite Hi by lia. rewrite lookup_app_l by (rewrite length_alter; lia).
      by rewrite list_lookup_alter_eq, Hold.
    + apply (Shows_opened _ _ _ _ _ _ items); [lia|done| |constructor].
      by replace (S (length (blocks b))) with (length (blocks b) + 1) by lia.
Qed.

Lemma Runs_container parent k a body b : (k = PackageOp ∨ k = FileModuleOp ∨ k = StructDeclOp) →
  Forall (drains k) body → insertPoint b < length (blocks b) →
  ∃ n b', n ≤ 2 * opSize (mkOp k a body) ∧ Runs n b [WorkOp parent (mkOp k a body)] b' [mkOp k a (flat_map (kept k) body)].
Proof.
  intros Hk Hbody Hb.
  set (b0 := mkBuilder (blocks (insert_item (Opened k a (length (blocks b))) b) ++ [[]])%list (length (blocks b))).
  destruct (drains_list k body Hbody b0) as (n & b1 & Hn & R1 & A1).
  { unfold b0, insert_item. cbn [blocks insertPoint]. rewrite length_app, length_alter. simpl. lia. }
  exists (S (n + 1)), (mkBuilder (blocks b1) (insertPoint b)). split; [simpl; unfold opsSize in Hn; lia|].
  split; [|by apply Adds_opened]. intros fuel worklist.
  change (drain (S (n + 1) + fuel) b ([WorkOp parent (mkOp k a body)] ++ worklist)%list) with
    (let '(b, worklist) := process parent (mkOp k a body) b worklist in drain (n + 1 + fuel) b worklist).
  unfold process, cloneWithoutRegions. cbn [kindOf attrsOf getOps].
  destruct Hk as [-> | [-> | ->]]; rewrite pushOps_eq; fold b0; rewrite <- Nat.add_assoc, R1; reflexivity.
Qed.

Lemma drains_all op : ∀ parent, drains parent op.
Proof.
  induction op as [k a body IH] using Operation_ind'. intros parent b Hb.
  assert (Hc : ∀ k, Forall (drains k) body) by (intros k'; eapply Forall_impl; [exact IH|auto]).
  assert (Hclone : process parent (mkOp k a body) b = (fun worklist => (insert_item (Cloned (mkOp k a body)) b, worklist)) →
    kept parent (mkOp k a body) = [mkOp k a body] →
    ∃ n b', n ≤ 2 * opSize (mkOp k a body) ∧ Runs n b [WorkOp parent (mkOp k a body)] b' (kept parent (mkOp k a body))).
  { intros Hp ->. eexists 1, _. split; [simpl; lia|]. by apply Runs_cloned. }
  assert (Hdrop : process parent (mkOp k a body) b = (fun worklist => (b, worklist)) → kept parent (mkOp k a body) = [] →
    ∃ n b', n ≤ 2 * opSize (mkOp k a body) ∧ Runs n b [WorkOp parent (mkOp k a body)] b' (kept parent (mkOp k a body))).
  { intros Hp ->. exists 1, b. split; [simpl; lia|]. split; [|by apply Adds_nil].
    intros fuel worklist. simpl. by rewrite Hp. }
  destruct k; try (by apply Hclone); try (apply Runs_container; [auto|apply Hc|done]).
  - simpl. unfold process in Hclone, Hdrop. simpl in Hclone, Hdrop. case_bool_decide; [by apply Hdrop|by apply Hclone].
  - simpl. unfold process in Hclone, Hdrop. simpl in Hclone, Hdrop. case_bool_decide; [by apply Hdrop|by apply Hclone].
Qed.

(** ** Theorems *)

Lemma drain_done fuel b : drain fuel b [] = Some b.
Proof. by destruct fuel. Qed.

Lemma topLevel_eq theModule worklist : topLevel theModule = Some worklist →
  ∃ thunks, worklist = map (WorkOp OtherOp) (rev thunks) ∧ opsSize thunks ≤ opsSize theModule
    ∧ flat_map (kept OtherOp) (rev thunks) = rev thunks
    ∧ ∀ op, op ∈ thunks ↔ op ∈ theModule ∧ (kindOf op = FnOp ∨ kindOf op = TraitDeclOp ∧ closureSignature (attrsOf op) = true).
Proof.
  unfold topLevel. case_match; [|done]. intros [= <-].
  set (fns := List.filter _ theModule). set (traits := List.filter _ theModule). exists (fns ++ traits)%list. split_and!.
  - generalize (fns ++ traits)%list as l. intros l. rewrite <- (app_nil_r (map _ _)). generalize (@nil WorkItem).
    induction l as [|op l IH]; intros w; simpl; [done|]. rewrite IH, pushOps_eq, map_app, <- app_assoc. done.
  - subst fns traits. clear. induction theModule as [|op l IH]; simpl; [done|].
    assert (Happ : ∀ l l', opsSize (l ++ l')%list = opsSize l + opsSize l').
    { intros l1 l2. induction l1 as [|x l1 IH1]; simpl; [done|]. unfold opsSize in *. lia. }
    rewrite Happ in *. unfold opsSize in *. case_bool_decide as Hk; simpl.
    + rewrite bool_decide_false by congruence. simpl. lia.
    + case_match; simpl; lia.
  - assert (Hk : ∀ op, op ∈ (fns ++ traits)%list → kept OtherOp op = [op]).
    { intros op Hop. apply elem_of_app in Hop as [Hop|Hop]; apply list_elem_of_In, filter_In in Hop as [_ Hop];
        destruct op as [k a body]; simpl in Hop; bool_to_prop; subst; done. }
    assert (Hrev : ∀ op, op ∈ rev (fns ++ traits) → kept OtherOp op = [op]).
    { intros op Hop. apply Hk. by apply list_elem_of_In, in_rev, list_elem_of_In. }
    revert Hrev. generalize (rev (fns ++ traits)) as l. clear. induction l as [|op l IH]; intros H; simpl; [done|].
    rewrite (H op) by left. rewrite IH; [done|]. intros. apply H. by right.
  - intros op. rewrite elem_of_app, !list_elem_of_In. unfold fns, traits. rewrite !filter_In.
    rewrite andb_true_iff, !bool_decide_eq_true. tauto.
Qed.

Lemma buildPackageModule_eq theModule pkg worklist : topLevel theModule = Some worklist →
  ∃ thunks, buildPackageModule theModule pkg = Some (strip (packaged pkg) :: rev thunks)
    ∧ ∀ op, op ∈ thunks ↔ op ∈ theModule ∧ (kindOf op = FnOp ∨ kindOf op = TraitDeclOp ∧ closureSignature (attrsOf op) = true).
Proof.
  intros Htop. destruct (topLevel_eq _ _ Htop) as (thunks & -> & Hsize & Hkept & Hin). exists thunks. split; [|done].
  unfold buildPackageModule. rewrite Htop. cbn [mbind option_bind].
  destruct (cloneWithoutRegions pkg _ _) as [b worklist] eqn:E. unfold cloneWithoutRegions in E. cbn in E.
  injection E as <- <-. rewrite pushOps_eq. destruct pkg as [k a body]. cbn [kindOf attrsOf getOps].
  destruct (drains_list PackageOp body) with (b := mkBuilder [[Opened k a 1]; []] 1) as (n1 & b1 & Hn1 & R1 & A1).
  { apply Forall_forall. intros; apply drains_all. } { simpl. lia. }
  assert (A1' : Adds (mkBuilder [[]] 0) (mkBuilder (blocks b1) 0) [mkOp k a (flat_map (kept PackageOp) body)]).
  { apply (Adds_opened (mkBuilder [[]] 0)); [simpl; lia|exact A1]. }
  destruct (drains_list OtherOp (rev thunks)) with (b := mkBuilder (blocks b1) 0) as (n2 & b2 & Hn2 & R2 & A2).
  { apply Forall_forall. intros; apply drains_all. } { eapply (Adds_lt _ _ _ A1'). simpl. lia. }
  assert (Hrev : opsSize (rev thunks) = opsSize thunks).
  { clear. induction thunks as [|op l IH]; simpl; [done|]. unfold opsSize in *. rewrite foldr_app. simpl.
    assert (H : ∀ l n, foldr (fun (o : Op) n => opSize o + n) n l = foldr (fun o n => opSize o + n) 0 l + n).
    { clear. induction l as [|x l IH]; intros n; simpl; [done|]. rewrite IH. lia. }
    rewrite H, IH. lia. }
  assert (Hfuel : ∃ fuel, 2 * (opSize (mkOp k a body) + opsSize theModule) = n1 + (1 + (n2 + fuel))).
  { exists (2 * (opSize (mkOp k a body) + opsSize theModule) - n1 - 1 - n2). simpl opSize. unfold opsSize in *. lia. }
  destruct Hfuel as [fuel ->]. rewrite R1.
  change (drain (1 + (n2 + fuel)) b1 (InsertPoint 0 :: ?w)) with (drain (n2 + fuel) (mkBuilder (blocks b1) 0) w).
  rewrite <- (app_nil_r (map _ _)), R2. rewrite drain_done. cbn [mbind option_bind].
  pose proof (Adds_trans _ _ _ _ _ A1' A2) as (Hp & Hl & _ & old & items & Ho & Ho2 & Hs).
  simpl in Ho, Ho2. injection Ho as <-. simpl in Hl.
  destruct (length (blocks b2)) as [|m] eqn:Em; [lia|]. cbn [readBlock].
  rewrite Ho2. change (default [] (Some ([] ++ items)%list)) with items. rewrite (Shows_read _ _ _ _ _ m Hs) by (simpl; lia).
  rewrite Hkept. done.
Qed.

(** Packaging keeps what it kept, and strips once. *)
Lemma kept_strip op : ∀ parent, flat_map (kept parent) (map strip (kept parent op)) = map strip (kept parent op).
Proof.
  induction op as [k a body IH] using Operation_ind'. intros parent.
  assert (Hbody : flat_map (kept k) (map strip (flat_map (kept k) body)) = map strip (flat_map (kept k) body)).
  { induction IH as [|op l Hop _ IHl]; simpl; [done|]. by rewrite map_app, flat_map_app, Hop, IHl. }
  destruct k; simpl; try done; try (by f_equal; f_equal).
  - case_bool_decide as Hp; simpl; [done|]. by rewrite bool_decide_false.
  - case_bool_decide as Hp; simpl; [done|]. by rewrite bool_decide_false.
Qed.

Lemma strip_idem (op : Op) : strip (strip op) = strip op.
Proof.
  induction op as [k a body IH] using Operation_ind'. simpl. f_equal.
  - destruct a as [n d [[t [l|]]|] th c r]; destruct d; reflexivity.
  - rewrite map_map. induction IH as [|op l Hop _ IHl]; simpl; [done|]. by rewrite Hop, IHl.
Qed.

Lemma packaged_strip_idem (op : Op) : strip (packaged (strip (packaged op))) = strip (packaged op).
Proof.
  destruct op as [k a body]. unfold packaged. simpl. f_equal.
  - pose proof (strip_idem (mkOp k a [])) as [= H]. exact H.
  - assert (H : flat_map (kept PackageOp) (map strip (flat_map (kept PackageOp) body)) = map strip (flat_map (kept PackageOp) body)).
    { induction body as [|op l IH]; simpl; [done|]. by rewrite map_app, flat_map_app, kept_strip, IH. }
    rewrite H, map_map. apply map_ext. apply strip_idem.
Qed.

(** C25: The loop over the worklist, with its builder that jumps between blocks,
    writes the package that recursion on the tree gives: packages, modules and
    structs are rebuilt around what is kept of them, imports directly under a
    package are dropped, everything else is copied, and no doc string keeps its
    location.  The thunks and closure traits of the module follow it.  It is
    what packaging that package again gives. *)
Theorem buildPackageModule_spec theModule parsedPackageOp :
  Forall (fun op => kindOf op = FnOp → thunkKeyAttr (attrsOf op) = true) theModule →
  ∃ thunks : list Op,
    buildPackageModule theModule parsedPackageOp = Some (strip (packaged parsedPackageOp) :: thunks)
    ∧ (∀ op, op ∈ thunks ↔
         op ∈ theModule ∧ (kindOf op = FnOp ∨ kindOf op = TraitDeclOp ∧ closureSignature (attrsOf op) = true))
    ∧ buildPackageModule [] (strip (packaged parsedPackageOp)) = Some [strip (packaged parsedPackageOp)].
Proof.
  intros Hthunk. destruct (topLevel theModule) as [worklist|] eqn:Htop.
  - destruct (buildPackageModule_eq _ parsedPackageOp _ Htop) as (thunks & Hb & Hin).
    exists (rev thunks). split; [done|]. split.
    + intros op. rewrite <- Hin, !list_elem_of_In. by rewrite <- in_rev.
    + destruct (buildPackageModule_eq [] (strip (packaged parsedPackageOp)) [] eq_refl) as (none & -> & Hn).
      rewrite packaged_strip_idem. destruct none as [|op none]; [done|].
      destruct (proj1 (Hn op) ltac:(left)) as [Hop _]. by apply not_elem_of_nil in Hop.
  - exfalso. unfold topLevel in Htop. case_match eqn:E; [done|]. apply not_true_iff_false in E. apply E.
    apply forallb_forall. intros op Hop. apply filter_In in Hop as [Hop Hk]. bool_to_prop.
    rewrite Forall_forall in Hthunk. apply Hthunk; [by apply list_elem_of_In|done].
Qed.

End Clone.

(** A package with two imports, of which one is inside a module, a struct whose
    method is documented, and a thunk beside it. *)
Definition attrs (name : string) (doc : option DocStringAttr) : Attrs unit := mkAttrs name true doc false false [].
Definition thunk : Operation unit := mkOp FnOp (mkAttrs "thunk" true None true false []) [].
Definition structDecl (location : option Z) : Operation unit :=
  mkOp StructDeclOp (attrs "S" None) [mkOp FnOp (attrs "m" (Some (mkDoc "does it" location))) []].
Definition import : Operation unit := mkOp ImportOp (attrs "i" None) [].
Definition parsedPackage : Operation unit :=
  mkOp PackageOp (attrs "pkg" None) [import; mkOp FileModuleOp (attrs "mod" None) [import; structDecl (Some 7%Z)]].

Lemma buildPackageModule_spec_witness :
  buildPackageModule [parsedPackage; thunk] parsedPackage
  = Some [mkOp PackageOp (attrs "pkg" None) [mkOp FileModuleOp (attrs "mod" None) [import; structDecl None]]; thunk].
Proof.
  destruct (buildPackageModule_spec [parsedPackage; thunk] parsedPackage) as (thunks & Hb & Hin & _).
  - repeat constructor. simpl. discriminate.
  - rewrite Hb. assert (H : buildPackageModule [parsedPackage; thunk] parsedPackage = Some [strip (packaged parsedPackage); thunk]).
    { reflexivity. }
    rewrite H in Hb. injection Hb as <-. reflexivity.
Defined.

End PackageClone.
