(* ===== verification/PackageRename.v ===== *)
(** [buildPackage] of Mojo/tools/mojo/Precompile/mojo-precompile.cpp: the link
    dependencies of a package, its renaming from the directory it was parsed in
    to its output name, and the bitcode it carries. *)
From S2P Require Import Prelude StringRef PackageClone.

#[local] Open Scope string_scope.
#[local] Open Scope Z_scope.

Module PackageRename.
Import PackageClone.

#[local] Abbreviation length := List.length (only parsing).

(** ** Attributes *)

Inductive SourceNameKind := PackageKind | OtherKind (n : Z).
#[export] Instance SourceNameKind_eq_dec : EqDecision SourceNameKind.
Proof. solve_decision. Defined.

(** Symbol references, the names and import paths of debug information and
    imports, a resource, and any other attribute, type or location by its
    elements. *)
Inductive Attribute :=
  | SymbolRefAttr (root : string) (nested : list string)
  | SourceNameAttr (name : string) (kind : SourceNameKind) (parent : option Attribute)
      (paramTypes argTypes : list Attribute) (paramValues decorators : list string)
  | ImportPathAttr (relativeLevel : Z) (components : list string)
  | ResourceAttr (name data : string)
  | OtherAttr (name : string) (elements : list Attribute).

Definition sumOf (f : Attribute → nat) (l : list Attribute) : nat := foldr (fun a n => (f a + n)%nat) O l.
Fixpoint attrSize (a : Attribute) : nat :=
  S match a with
    | SourceNameAttr _ _ parent pts ats _ _ =>
        match parent with Some p => attrSize p | None => O end
        + (foldr (fun a n => attrSize a + n) O pts + foldr (fun a n => attrSize a + n) O ats)
    | OtherAttr _ es => foldr (fun a n => attrSize a + n) O es
    | _ => O
    end%nat.

(** The immediate elements. *)
Definition mapElements (f : Attribute → Attribute) (a : Attribute) : Attribute :=
  match a with
  | SourceNameAttr n k parent pts ats vs ds => SourceNameAttr n k (option_map f parent) (map f pts) (map f ats) vs ds
  | OtherAttr n es => OtherAttr n (map f es)
  | _ => a
  end.

Lemma mapElements_ext f g a : (∀ b, (attrSize b < attrSize a)%nat → f b = g b) → mapElements f a = mapElements g a.
Proof.
  intros H. assert (Hl : ∀ l, (sumOf attrSize l < attrSize a)%nat → map f l = map g l).
  { induction l as [|x l IH]; intros Hl; simpl in *; [done|]. rewrite H by lia. by rewrite IH by lia. }
  destruct a as [| n k p pts ats vs ds | | |n es]; simpl in *; try done.
  - assert (Hp : option_map f p = option_map g p) by (destruct p; simpl; [rewrite H by lia|]; done).
    unfold sumOf in Hl. rewrite Hp, (Hl pts), (Hl ats); [done|destruct p; lia|destruct p; lia].
  - unfold sumOf in Hl. rewrite Hl by lia. done.
Qed.

Inductive WalkResult := advance | skip.

(** mlir::AttrTypeReplacer: "the replacement function returns the new attribute
    and whether to advance into its elements or skip them".  The law is asked
    for replacements that do not grow an attribute. *)
Class AttrTypeReplacer := {
  replace : (Attribute → Attribute * WalkResult) → Attribute → Attribute;
  replace_spec : ∀ f, (∀ a, (attrSize (fst (f a)) ≤ attrSize a)%nat) → ∀ a,
    replace f a = match f a with (a, skip) => a | (a, advance) => mapElements (replace f) a end
}.

Fixpoint replaceFuel (fuel : nat) (f : Attribute → Attribute * WalkResult) (a : Attribute) : Attribute :=
  match fuel with
  | O => a
  | S fuel => match f a with (a, skip) => a | (a, advance) => mapElements (replaceFuel fuel f) a end
  end.
Lemma replaceFuel_enough f : (∀ a, (attrSize (fst (f a)) ≤ attrSize a)%nat) →
  ∀ n m a, (attrSize a ≤ n)%nat → (attrSize a ≤ m)%nat → replaceFuel n f a = replaceFuel m f a.
Proof.
  intros Hf. induction n as [|n IH]; intros [|m] a Hn Hm; simpl; try done;
    [destruct a; simpl in Hn; lia|destruct a; simpl in Hm; lia|].
  pose proof (Hf a) as Ha. destruct (f a) as [a' []]; [|done]. simpl in Ha.
  apply mapElements_ext. intros b Hb. apply IH; lia.
Qed.
Definition mlir_replacer : AttrTypeReplacer.
Proof.
  refine {| replace := fun f a => replaceFuel (attrSize a) f a |}. intros f Hf a.
  assert (∃ n, attrSize a = S n) as [n Hn] by (destruct a; simpl; eauto). rewrite Hn. simpl.
  pose proof (Hf a) as Ha. destruct (f a) as [a' []]; [|done]. simpl in Ha.
  apply mapElements_ext. intros b Hb. apply replaceFuel_enough; [done|lia|done].
Defined.

(** ** The text of names *)

Section Rename.
Context {SR : StringRefOps}.
Variables sourceName newName : string.

Definition sourceToken : string := "@" ++ sourceName ++ "::".
Definition newToken : string := "@" ++ newName ++ "::".

(** [None]: out of fuel. *)
Fixpoint rewriteLoop (fuel : nat) (text rewritten : string) : option string :=
  match find_string text sourceToken, fuel with
  | None, _ => Some (rewritten ++ text)
  | Some _, O => None
  | Some pos, S fuel =>
      let prefix := take_front text pos in
      rewriteLoop fuel (drop_front text (pos + String.length sourceToken))
        (rewritten ++ prefix ++ (if ends_with prefix "::" then sourceToken else newToken))
  end.
Definition rewriteNameText (text : string) : option string :=
  if contains text sourceToken then rewriteLoop (String.length text) text "" else Some text.

(** ** The replacements *)

Definition replaceSymbolRef (root : string) (nested : list string) : Attribute * WalkResult :=
  if String.eqb root sourceName then (SymbolRefAttr newName nested, skip) else (SymbolRefAttr root nested, skip).

Definition rewriteName (s : string) : string := default s (rewriteNameText s).
Definition isPackageRoot (name : string) (kind : SourceNameKind) (parent : option Attribute) : bool :=
  bool_decide (kind = PackageKind) && (match parent with None => true | Some _ => false end)
  && String.eqb name sourceName.
Definition replaceSourceName (n : string) (kind : SourceNameKind) (parent : option Attribute)
    (paramTypes argTypes : list Attribute) (paramValues decorators : list string) : Attribute * WalkResult :=
  let name := if isPackageRoot n kind parent then newName else rewriteName n in
  let values := map rewriteName paramValues in
  if String.eqb name n && bool_decide (values = paramValues)
  then (SourceNameAttr n kind parent paramTypes argTypes paramValues decorators, advance)
  else (SourceNameAttr name kind parent paramTypes argTypes values decorators, advance).

Definition replaceImportPath (relativeLevel : Z) (components : list string) : Attribute * WalkResult :=
  match components with
  | front :: components' =>
      if negb (relativeLevel =? 0) || negb (String.eqb front sourceName)
      then (ImportPathAttr relativeLevel components, advance)
      else (ImportPathAttr 0 (newName :: components'), advance)
  | [] => (ImportPathAttr relativeLevel components, advance)
  end.

(** Each replacement is registered for its class of attributes. *)
Definition replacement (a : Attribute) : Attribute * WalkResult :=
  match a with
  | SymbolRefAttr root nested => replaceSymbolRef root nested
  | SourceNameAttr n k p pts ats vs ds => replaceSourceName n k p pts ats vs ds
  | ImportPathAttr level components => replaceImportPath level components
  | _ => (a, advance)
  end.
End Rename.

(** ** buildPackage *)

(** Operations refer to attributes by name. *)
Definition NamedAttr : Type := string * Attribute.
Abbreviation Op := (Operation NamedAttr).

Definition setAttr (key : string) (v : Attribute) (op : Op) : Op :=
  let '(mkOp k a body) := op in
  mkOp k (mkAttrs (symName a) (isASTDecl a) (docStringAttr a) (thunkKeyAttr a) (closureSignature a)
            ((key, v) :: List.filter (fun x => negb (String.eqb (fst x) key)) (rest a))) body.
Definition setSymbolName (op : Op) (name : string) : Op :=
  let '(mkOp k a body) := op in
  mkOp k (mkAttrs name (isASTDecl a) (docStringAttr a) (thunkKeyAttr a) (closureSignature a) (rest a)) body.
(** [recursivelyReplaceElementsIn], on one operation and those inside it. *)
Fixpoint replaceIn (f : Attribute → Attribute) (op : Op) : Op :=
  let '(mkOp k a body) := op in
  mkOp k (mkAttrs (symName a) (isASTDecl a) (docStringAttr a) (thunkKeyAttr a) (closureSignature a)
            (map (fun x => (fst x, f (snd x))) (rest a))) (map (replaceIn f) body).

Record PrecompileArgs := mkArgs { name : string; sourceName_ : string; bitcodeLibs : list string }.

Section Build.
Context {SR : StringRefOps} {AR : AttrTypeReplacer}.
(** [MemoryBuffer::getFile]; xxh3 of a buffer, in hexadecimal; the check
    passes on the module. *)
Variable getFile : string → option string.
Variable hashHex : string → string.
Variable runCheckLITPipeline : list Op → bool.

(** The other packages of the module; the one that is compiled is at [self]. *)
Definition isDependency (args : PrecompileArgs) (self : nat) (i : nat) (op : Op) : bool :=
  bool_decide (kindOf op = PackageOp)
  && negb (Nat.eqb i self || String.eqb (symName (attrsOf op)) (sourceName_ args)
           || String.eqb (symName (attrsOf op)) (name args)).
Definition dependencies (args : PrecompileArgs) (theModule : list Op) (self : nat) : list string :=
  map (fun x => symName (attrsOf (snd x)))
    (List.filter (fun x => isDependency args self (fst x) (snd x)) (imap pair theModule)).
Definition setDependencies (deps : list string) (op : Op) : Op :=
  match deps with
  | [] => op
  | _ => setAttr "dependencies" (OtherAttr "link_dependencies" (map (fun d => SymbolRefAttr d []) deps)) op
  end.

Definition writeLLVMBitcodeToDenseAttr (bitcodeFile : string) : option Attribute :=
  data ← getFile bitcodeFile; Some (ResourceAttr ("llvm_bitcode_" ++ hashHex data) data).
Fixpoint bitcodeAttrs (files : list string) : ErrorOr (list Attribute) :=
  match files with
  | [] => Success []
  | file :: files =>
      match writeLLVMBitcodeToDenseAttr file with
      | None => Error ("failed to load bitcode library: " ++ file)
      | Some a => attrs ← bitcodeAttrs files; Success (a :: attrs)
      end
  end.

(** The outer [None] is a module without the package, or an assertion of
    [buildPackageModule]. *)
Definition buildPackage (args : PrecompileArgs) (theModule : list Op) (self : nat) : option (ErrorOr (list Op)) :=
  parsedPackageOp ← theModule !! self;
  let parsedPackageOp := setDependencies (dependencies args theModule self) parsedPackageOp in
  let theModule := <[self := parsedPackageOp]> theModule in
  packageModule ← buildPackageModule theModule parsedPackageOp;
  let packageModule :=
    if String.eqb (name args) (sourceName_ args) then packageModule
    else match map (replaceIn (replace (replacement (sourceName_ args) (name args)))) packageModule with
         | thePackage :: thunks => setSymbolName thePackage (name args) :: thunks
         | [] => []
         end in
  let finish packageModule : ErrorOr (list Op) :=
    if runCheckLITPipeline theModule then Success packageModule else Error "errors occurred during compilation" in
  Some match bitcodeLibs args, packageModule with
       | [], _ | _, [] => finish packageModule
       | libs, thePackage :: thunks =>
           attrs ← bitcodeAttrs libs;
           finish (setAttr "externLLVMBitcodeModules" (OtherAttr "array" attrs) thePackage :: thunks)
       end.
End Build.

(** ** The text of names, by its pieces *)

Section Text.
Context {SR : StringRefOps}.
Variables sourceName newName : string.
Abbreviation token := (sourceToken sourceName).
Abbreviation rewriteNameText' := (rewriteNameText sourceName newName).

(** What the comment asks for: a token that "::" precedes in the text stays. *)
Fixpoint renamePieces (seen : string) (ps : list string) : string :=
  match ps with
  | [] => ""
  | [p] => p
  | p :: ps => p ++ (if hasSuffix "::" (seen ++ p) then token else newToken newName)
                 ++ renamePieces (seen ++ p ++ token) ps
  end.
Definition renamedText (text : string) : string := renamePieces "" (piecesOn (String.length text) token text).

(** What the loop does: it looks no further back than the last token. *)
Fixpoint codePieces (ps : list string) : string :=
  match ps with
  | [] => ""
  | [p] => p
  | p :: ps => p ++ (if hasSuffix "::" p then token else newToken newName) ++ codePieces ps
  end.

Lemma splitAt_token_nil : splitAt token "" = None.
Proof. done. Qed.

Lemma piecesOn_cons fuel sep s : ∃ p ps, piecesOn fuel sep s = p :: ps.
Proof. destruct fuel as [|fuel]; simpl; [eauto|]. destruct (splitAt sep s) as [[]|]; eauto. Qed.

Lemma find_token text : find_string text token = String.length ∘ fst <$> splitAt token text.
Proof. apply find_string_spec. Qed.

Lemma rewriteLoop_pieces fuel : ∀ text rewritten, (String.length text ≤ fuel)%nat →
  rewriteLoop sourceName newName fuel text rewritten = Some (rewritten ++ codePieces (piecesOn fuel token text)).
Proof.
  induction fuel as [|fuel IH]; intros text rewritten Hn.
  - destruct text; [|simpl in Hn; lia]. simpl. by rewrite find_token.
  - cbn [rewriteLoop piecesOn]. rewrite find_token.
    destruct (splitAt token text) as [[a r]|] eqn:E; cbn [fmap option_fmap option_map compose fst]; [|done].
    pose proof (splitAt_app _ _ _ _ E) as ->. rewrite take_front_spec, drop_front_spec, ends_with_spec.
    rewrite string_take_app.
    replace (string_drop (String.length a + String.length token) (a ++ token ++ r)) with r
      by (by rewrite <- string_app_assoc, <- string_length_app, string_drop_app).
    rewrite IH by (rewrite !string_length_app in Hn; unfold sourceToken in Hn; simpl in Hn; lia).
    destruct (piecesOn_cons fuel token r) as (p & ps & ->). f_equal. by rewrite !string_app_assoc.
Qed.

Lemma rewriteNameText_pieces text :
  rewriteNameText' text = Some (codePieces (piecesOn (String.length text) token text)).
Proof.
  unfold rewriteNameText. rewrite contains_spec. unfold hasInfix. destruct (splitAt token text) eqn:E.
  - by rewrite rewriteLoop_pieces.
  - f_equal. destruct text; [done|]. simpl String.length. cbn [piecesOn]. by rewrite E.
Qed.

Definition separate (p : string) : Prop := p ≠ "" ∧ p ≠ ":".

Lemma hasSuffix_separate seen p : separate p → hasSuffix "::" ((seen ++ token) ++ p) = hasSuffix "::" p.
Proof.
  intros [H1 H2]. destruct p as [|c [|c' p]]; [done| |apply hasSuffix_app_long; simpl; lia].
  unfold sourceToken. replace ((seen ++ "@" ++ sourceName ++ "::") ++ String c "")
    with ((seen ++ "@" ++ sourceName ++ ":") ++ String ":" (String c "")) by (by rewrite !string_app_assoc).
  rewrite hasSuffix_app_long by (simpl; lia). unfold hasSuffix. simpl.
  destruct (Ascii.eqb_spec c ":"); [by subst|done].
Qed.

Lemma codePieces_separate ps : ∀ seen, Forall separate (removelast ps) →
  codePieces ps = renamePieces (seen ++ token) ps.
Proof.
  induction ps as [|p ps IH]; intros seen Hs; [done|]. destruct ps as [|p' ps]; [done|].
  change (removelast (p :: p' :: ps)) with (p :: removelast (p' :: ps)) in Hs. apply Forall_cons in Hs as [Hp Hs].
  change (codePieces (p :: p' :: ps)) with (p ++ (if hasSuffix "::" p then token else newToken newName) ++ codePieces (p' :: ps)).
  change (renamePieces (seen ++ token) (p :: p' :: ps)) with (p ++ (if hasSuffix "::" ((seen ++ token) ++ p) then token
    else newToken newName) ++ renamePieces ((seen ++ token) ++ p ++ token) (p' :: ps)).
  rewrite hasSuffix_separate by done. rewrite <- (string_app_assoc (seen ++ token) p). by rewrite <- IH.
Qed.


Lemma splitAt_self r : splitAt token (token ++ r) = Some ("", r).
Proof.
  pose proof (stripPrefix_self token r) as H. unfold sourceToken in *. simpl append in *.
  cbn [splitAt]. by rewrite H.
Qed.

(** The loop over a name's text ends, and replaces the package wherever its
    token roots a reference, as the comment says, when no two tokens touch.
    The loop cuts the text behind each token, so it no longer sees that "::"
    precedes a second one: a module that has the name of its own package is
    renamed as well. *)
Theorem rewriteNameText_spec text :
  (∃ r, rewriteNameText' text = Some r)
  ∧ (Forall separate (removelast (tail (piecesOn (String.length text) token text))) →
       rewriteNameText' text = Some (renamedText text))
  ∧ rewriteNameText' (token ++ token) = Some (newToken newName ++ newToken newName)
  ∧ renamedText (token ++ token) = newToken newName ++ token.
Proof.
  assert (Hpieces : piecesOn (String.length (token ++ token)) token (token ++ token) = [""; ""; ""]).
  { assert (Hself : splitAt token token = Some ("", "")).
    { rewrite <- (splitAt_self ""). by rewrite string_app_nil. }
    assert (Hlen : ∃ n, String.length (token ++ token) = S (S n)).
    { rewrite string_length_app. unfold sourceToken at 1. simpl String.length.
      exists (String.length (sourceName ++ "::") + pred (String.length token))%nat. unfold sourceToken. simpl. lia. }
    destruct Hlen as [n ->]. cbn [piecesOn]. rewrite splitAt_self, Hself. destruct n; cbn [piecesOn]; [done|].
    by rewrite splitAt_token_nil. }
  split_and!.
  - rewrite rewriteNameText_pieces. eauto.
  - intros Hs. rewrite rewriteNameText_pieces. f_equal. unfold renamedText.
    destruct (piecesOn_cons (String.length text) token text) as (p & ps & E). rewrite E in *. simpl in Hs.
    destruct ps as [|p' ps]; [done|].
    change (codePieces (p :: p' :: ps)) with (p ++ (if hasSuffix "::" p then token else newToken newName) ++ codePieces (p' :: ps)).
    by rewrite (codePieces_separate (p' :: ps) p) by done.
  - rewrite rewriteNameText_pieces, Hpieces. simpl. by rewrite string_app_nil.
  - unfold renamedText. rewrite Hpieces. simpl. rewrite string_app_nil. f_equal.
    change (String "@" ((sourceName ++ "::") ++ "")) with (token ++ "").
    replace (hasSuffix "::" (token ++ "")) with true; [done|]. symmetry. rewrite string_app_nil.
    unfold sourceToken. rewrite <- string_app_assoc. apply hasSuffix_app.
Qed.
End Text.

Lemma rewriteNameText_spec_witness :
  rewriteNameText (SR := llvm_stringref) "foo" "bar" "@foo::@mod::@S[@other::@foo::@T]"
  = Some "@bar::@mod::@S[@other::@foo::@T]".
Proof.
  rewrite (proj1 (proj2 (rewriteNameText_spec (SR := llvm_stringref) "foo" "bar" "@foo::@mod::@S[@other::@foo::@T]"))).
  - vm_compute. reflexivity.
  - vm_compute. repeat constructor; discriminate.
Defined.

(** ** The renaming of attributes *)

Section Attributes.
Context {SR : StringRefOps} {AR : AttrTypeReplacer}.
Variables sourceName newName : string.
Abbreviation rewriteName' := (rewriteName sourceName newName).

Fixpoint renamed (a : Attribute) : Attribute :=
  match a with
  | SymbolRefAttr root nested => SymbolRefAttr (if String.eqb root sourceName then newName else root) nested
  | SourceNameAttr n k p pts ats vs ds =>
      SourceNameAttr (if isPackageRoot sourceName n k p then newName else rewriteName' n) k (option_map renamed p)
        (map renamed pts) (map renamed ats) (map rewriteName' vs) ds
  | ImportPathAttr level components =>
      ImportPathAttr level
        match components with
        | front :: rest => (if (level =? 0) && String.eqb front sourceName then newName else front) :: rest
        | [] => []
        end
  | ResourceAttr n d => ResourceAttr n d
  | OtherAttr n es => OtherAttr n (map renamed es)
  end.

Lemma replacement_size a : (attrSize (fst (replacement sourceName newName a)) ≤ attrSize a)%nat.
Proof.
  destruct a as [r n|n k p pts ats vs ds|l [|f c]| |]; simpl; try lia.
  - unfold replaceSymbolRef. by case_match.
  - unfold replaceSourceName. by case_match.
  - by case_match.
Qed.

Abbreviation replace' := (replace (replacement sourceName newName)).

Lemma replace_step a :
  replace' a = match replacement sourceName newName a with (a, skip) => a | (a, advance) => mapElements replace' a end.
Proof. apply replace_spec, replacement_size. Qed.

Lemma replaceSourceName_eq n k p pts ats vs ds :
  replaceSourceName sourceName newName n k p pts ats vs ds
  = (SourceNameAttr (if isPackageRoot sourceName n k p then newName else rewriteName' n) k p pts ats (map rewriteName' vs) ds,
     advance).
Proof.
  unfold replaceSourceName. set (name := if isPackageRoot sourceName n k p then newName else rewriteName' n).
  destruct (String.eqb_spec name n) as [Hn|]; simpl; [|done].
  case_bool_decide as Hv; [|done]. by rewrite Hn, Hv.
Qed.

Lemma replace_renamed a : replace' a = renamed a.
Proof.
  remember (attrSize a) as n eqn:Hn. assert (H : (attrSize a ≤ n)%nat) by lia. clear Hn. revert a H.
  induction n as [|n IH]; intros a Hn; [destruct a; simpl in Hn; lia|].
  assert (Hl : ∀ l, (sumOf attrSize l ≤ n)%nat → map replace' l = map renamed l).
  { induction l as [|x l IHl]; intros Hl; simpl in *; [done|]. rewrite IH by lia. by rewrite IHl by lia. }
  unfold sumOf in Hl. rewrite replace_step. destruct a as [r ns|nm k p pts ats vs ds|l [|f c]|nm d|nm es].
  - simpl. unfold replaceSymbolRef. by destruct (String.eqb r sourceName).
  - cbn [replacement]. rewrite replaceSourceName_eq. simpl in *.
    rewrite (Hl pts), (Hl ats) by (destruct p; lia). f_equal. destruct p; simpl; [|done]. f_equal. apply IH. lia.
  - done.
  - simpl. destruct (l =? 0) eqn:El; simpl; [|done]. destruct (String.eqb f sourceName); simpl; [|done].
    apply Z.eqb_eq in El. by subst.
  - done.
  - simpl in *. by rewrite Hl by lia.
Qed.

(** What still names the source package. *)
Fixpoint mentions (a : Attribute) : bool :=
  match a with
  | SymbolRefAttr root _ => String.eqb root sourceName
  | SourceNameAttr n k p pts ats _ _ =>
      isPackageRoot sourceName n k p || match p with Some p => mentions p | None => false end
      || existsb mentions pts || existsb mentions ats
  | ImportPathAttr level (front :: _) => (level =? 0) && String.eqb front sourceName
  | ImportPathAttr _ [] | ResourceAttr _ _ => false
  | OtherAttr _ es => existsb mentions es
  end.

Lemma countChar_app c s t : countChar c (s ++ t) = (countChar c s + countChar c t)%nat.
Proof. induction s as [|d s IH]; simpl; [done|]. case_match; rewrite IH; done. Qed.

Lemma codePieces_count ps : (2 ≤ length ps)%nat → (1 ≤ countChar "@" (codePieces sourceName newName ps))%nat.
Proof.
  destruct ps as [|p [|p' ps]]; simpl; [lia|lia|]. intros _. rewrite !countChar_app. case_match; simpl; lia.
Qed.

(** A name without '@' only comes out of the rewriting if it went in. *)
Lemma rewriteName_source n : countChar "@" sourceName = O → rewriteName' n = sourceName → n = sourceName.
Proof.
  intros Hat. unfold rewriteName. rewrite rewriteNameText_pieces. simpl. intros H.
  destruct (piecesOn (String.length n) (sourceToken sourceName) n) as [|p [|p' ps]] eqn:E.
  - destruct (piecesOn_cons (String.length n) (sourceToken sourceName) n) as (? & ? & ?). congruence.
  - simpl in H. subst p. destruct (String.length n) as [|len] eqn:El; simpl in E; [by injection E|].
    destruct (splitAt (sourceToken sourceName) n) as [[a r]|]; [|by injection E].
    destruct (piecesOn_cons len (sourceToken sourceName) r) as (? & ? & E'). rewrite E' in E. discriminate.
  - pose proof (codePieces_count (p :: p' :: ps) ltac:(simpl; lia)) as Hc. rewrite H in Hc. lia.
Qed.

Lemma renamed_mentions a : newName ≠ sourceName → countChar "@" sourceName = O → mentions (renamed a) = false.
Proof.
  intros Hne Hat. remember (attrSize a) as n eqn:Hn. assert (H : (attrSize a ≤ n)%nat) by lia. clear Hn. revert a H.
  apply String.eqb_neq in Hne as Hneb.
  induction n as [|n IH]; intros a Hn; [destruct a; simpl in Hn; lia|].
  assert (Hl : ∀ l, (sumOf attrSize l ≤ n)%nat → existsb mentions (map renamed l) = false).
  { induction l as [|x l IHl]; intros Hl; simpl in *; [done|]. rewrite IH by lia. by rewrite IHl by lia. }
  unfold sumOf in Hl. destruct a as [r ns|nm k p pts ats vs ds|l [|f c]|nm d|nm es]; simpl in *; try done.
  - destruct (String.eqb r sourceName) eqn:E; [done|exact E].
  - rewrite (Hl pts), (Hl ats) by (destruct p; lia). rewrite !orb_false_r. destruct p as [p|]; simpl.
    + rewrite IH by lia. unfold isPackageRoot. by rewrite andb_false_r.
    + rewrite orb_false_r. unfold isPackageRoot. case_bool_decide; simpl; [|done].
      destruct (String.eqb_spec nm sourceName) as [|Hnm]; [done|]. apply String.eqb_neq. intros Hs.
      by apply Hnm, rewriteName_source.
  - destruct (l =? 0); simpl; [|done]. destruct (String.eqb f sourceName) eqn:E; [done|exact E].
  - by rewrite Hl by lia.
Qed.

End Attributes.

(** ** The package that is written *)

Section Package.
Context {SR : StringRefOps} {AR : AttrTypeReplacer}.
Variable getFile : string → option string.
Variable hashHex : string → string.
Variable runCheckLITPipeline : list Op → bool.

Fixpoint mentionsOp (source : string) (op : Op) : bool :=
  let '(mkOp _ a body) := op in
  existsb (fun x => mentions source (snd x)) (rest a) || existsb (mentionsOp source) body.

Lemma replaceIn_mentions source f op : (∀ a, mentions source (f a) = false) → mentionsOp source (replaceIn f op) = false.
Proof.
  intros Hf. induction op as [k a body IH] using Operation_ind'. simpl. apply orb_false_iff. split.
  - induction (rest a) as [|x l IHl]; simpl; [done|]. by rewrite Hf.
  - induction IH as [|op l Hop _ IHl]; simpl; [done|]. by rewrite Hop.
Qed.

Lemma setSymbolName_mentions source op n : mentionsOp source (setSymbolName op n) = mentionsOp source op.
Proof. by destruct op as [k a body]. Qed.

Lemma setAttr_mentions source key v op : mentions source v = false → mentionsOp source op = false →
  mentionsOp source (setAttr key v op) = false.
Proof.
  intros Hv. destruct op as [k a body]. simpl. rewrite Hv. simpl. intros H. apply orb_false_iff in H as [H ->].
  rewrite orb_false_r. induction (rest a) as [|x l IH]; simpl in *; [done|]. apply orb_false_iff in H as [Hx H].
  destruct (negb _); simpl; [by rewrite Hx, IH|auto].
Qed.

Lemma bitcodeAttrs_spec files :
  match bitcodeAttrs getFile hashHex files with
  | Success attrs => Forall2 (fun file a => ∃ data, getFile file = Some data
                                ∧ a = ResourceAttr ("llvm_bitcode_" ++ hashHex data) data) files attrs
  | Error msg => ∃ file, file ∈ files ∧ getFile file = None ∧ msg = "failed to load bitcode library: " ++ file
  end.
Proof.
  induction files as [|file files IH]; [by constructor|]. simpl. unfold writeLLVMBitcodeToDenseAttr.
  destruct (getFile file) as [data|] eqn:E; simpl; [|exists file; split; [left|done]].
  destruct (bitcodeAttrs getFile hashHex files) as [attrs|msg]; simpl; [constructor; eauto|].
  destruct IH as (file' & Hin & ?). exists file'. split; [by right|done].
Qed.

Lemma setDependencies_ops deps op : getOps (setDependencies deps op) = getOps op
  ∧ symName (attrsOf (setDependencies deps op)) = symName (attrsOf op)
  ∧ kindOf (setDependencies deps op) = kindOf op
  ∧ thunkKeyAttr (attrsOf (setDependencies deps op)) = thunkKeyAttr (attrsOf op).
Proof. destruct op as [k a body]. by destruct deps. Qed.

(** The operations of the package, and its name, as they are written. *)
Definition writtenOps (args : PrecompileArgs) (pkg : Op) : list Op :=
  let ops := map strip (flat_map (kept PackageOp) (getOps pkg)) in
  if String.eqb (name args) (sourceName_ args) then ops
  else map (replaceIn (renamed (sourceName_ args) (name args))) ops.

Lemma replaceIn_ext f g op : (∀ a, f a = g a) → replaceIn f op = replaceIn g op.
Proof.
  intros H. induction op as [k a body IH] using Operation_ind'. simpl. f_equal.
  - f_equal. apply map_ext. intros x. by rewrite H.
  - induction IH as [|op l Hop _ IHl]; simpl; [done|]. by rewrite Hop, IHl.
Qed.

Lemma stripDoc_symName (a : Attrs NamedAttr) : symName (stripDoc a) = symName a.
Proof. destruct a as [n d [[t [l|]]|] th c r]; destruct d; done. Qed.

Definition renamedModule (args : PrecompileArgs) (packageModule : list Op) : list Op :=
  if String.eqb (name args) (sourceName_ args) then packageModule
  else match map (replaceIn (replace (replacement (sourceName_ args) (name args)))) packageModule with
       | thePackage :: thunks => setSymbolName thePackage (name args) :: thunks
       | [] => []
       end.

Lemma renamedModule_spec args pkg thunks :
  ∃ thePackage thunks', renamedModule args (strip (packaged pkg) :: thunks) = thePackage :: thunks'
    ∧ getOps thePackage = writtenOps args pkg
    ∧ (symName (attrsOf pkg) = sourceName_ args → symName (attrsOf thePackage) = name args)
    ∧ (name args ≠ sourceName_ args → countChar "@" (sourceName_ args) = O →
         existsb (mentionsOp (sourceName_ args)) (thePackage :: thunks') = false).
Proof.
  unfold renamedModule, writtenOps. destruct (String.eqb_spec (name args) (sourceName_ args)) as [He|He].
  - exists (strip (packaged pkg)), thunks. destruct pkg as [k a body]. simpl. rewrite stripDoc_symName.
    split_and!; [done|done|congruence|done].
  - eexists _, _. split; [reflexivity|]. split; [|split].
    + destruct pkg as [k a body]. simpl. apply map_ext. intros op. apply replaceIn_ext, replace_renamed.
    + by destruct pkg as [k a body].
    + intros _ Hat. cbn [existsb]. rewrite setSymbolName_mentions.
      assert (Hr : ∀ op, mentionsOp (sourceName_ args)
        (replaceIn (replace (replacement (sourceName_ args) (name args))) op) = false).
      { intros op. apply replaceIn_mentions. intros a. rewrite replace_renamed. by apply renamed_mentions. }
      rewrite Hr. simpl. induction thunks as [|op l IH]; simpl; [done|]. by rewrite Hr.
Qed.

(** Packaging ends in one of three ways: a bitcode library cannot be read,
    the checks fail, or the module is written: first the package, with the name
    it is written under, exactly the operations that packaging keeps and the
    bytes of every library, in which nothing names the directory it was parsed
    in any more (no reference, import path, or root of a debug name). *)
Theorem buildPackage_spec args theModule self pkg :
  theModule !! self = Some pkg → symName (attrsOf pkg) = sourceName_ args →
  Forall (fun op => kindOf op = FnOp → thunkKeyAttr (attrsOf op) = true) theModule →
  let theModule' := <[self := setDependencies (dependencies args theModule self) pkg]> theModule in
  match buildPackage getFile hashHex runCheckLITPipeline args theModule self with
  | None => False
  | Some (Error msg) =>
      (∃ file, file ∈ bitcodeLibs args ∧ getFile file = None ∧ msg = "failed to load bitcode library: " ++ file)
      ∨ runCheckLITPipeline theModule' = false ∧ msg = "errors occurred during compilation"
  | Some (Success m) =>
      runCheckLITPipeline theModule' = true
      ∧ ∃ thePackage thunks attrs, m = thePackage :: thunks
          ∧ symName (attrsOf thePackage) = name args ∧ getOps thePackage = writtenOps args pkg
          ∧ Forall2 (fun file a => ∃ data, getFile file = Some data
                       ∧ a = ResourceAttr ("llvm_bitcode_" ++ hashHex data) data) (bitcodeLibs args) attrs
          ∧ (bitcodeLibs args ≠ [] → ("externLLVMBitcodeModules", OtherAttr "array" attrs) ∈ rest (attrsOf thePackage))
          ∧ (name args ≠ sourceName_ args → countChar "@" (sourceName_ args) = O →
               existsb (mentionsOp (sourceName_ args)) m = false)
  end.
Proof.
  intros Hself Hname Hthunk. cbn zeta. unfold buildPackage. rewrite Hself. cbn [mbind option_bind].
  set (pkg' := setDependencies _ pkg). set (theModule' := <[self := pkg']> theModule).
  destruct (setDependencies_ops (dependencies args theModule self) pkg) as (Hops & Hsym & Hkind & Hth). fold pkg' in Hops, Hsym, Hkind, Hth.
  assert (Hthunk' : Forall (fun op => kindOf op = FnOp → thunkKeyAttr (attrsOf op) = true) theModule').
  { apply Forall_insert; [done|]. rewrite Hkind, Hth. rewrite Forall_lookup in Hthunk. eauto. }
  destruct (buildPackageModule_spec theModule' pkg' Hthunk') as (thunks & -> & _). cbn [mbind option_bind].
  destruct (renamedModule_spec args pkg' thunks) as (thePackage & thunks' & Hm & Hget & Hn & Hmentions).
  unfold renamedModule in Hm. rewrite Hm. rewrite Hsym in Hn. specialize (Hn Hname).
  unfold writtenOps in Hget. rewrite Hops in Hget. fold (writtenOps args pkg) in Hget.
  pose proof (bitcodeAttrs_spec (bitcodeLibs args)) as Hbit.
  destruct (bitcodeLibs args) as [|file files] eqn:Elibs.
  - destruct (runCheckLITPipeline theModule'); [|by right]. split; [done|].
    exists thePackage, thunks', []. split_and!; done.
  - destruct (bitcodeAttrs getFile hashHex (file :: files)) as [attrs|msg]; cbn [mbind ErrorOr_bind]; [|by left].
    destruct (runCheckLITPipeline theModule'); [|by right]. split; [done|].
    exists (setAttr "externLLVMBitcodeModules" (OtherAttr "array" attrs) thePackage), thunks', attrs.
    split_and!; [done|by destruct thePackage|by destruct thePackage|done| |].
    + intros _. destruct thePackage as [k a body]. left.
    + intros H1 H2. specialize (Hmentions H1 H2). cbn [existsb] in *. apply orb_false_iff in Hmentions as [H3 ->].
      rewrite setAttr_mentions; [done| |done]. simpl.
      clear -Hbit. induction Hbit as [|f a fs l (data & _ & ->) _ IH]; simpl; [done|exact IH].
Qed.

(** A package is never a dependency of itself, under either of its names. *)
Lemma dependencies_spec args theModule self d :
  d ∈ dependencies args theModule self ↔
  ∃ i op, theModule !! i = Some op ∧ kindOf op = PackageOp ∧ symName (attrsOf op) = d
    ∧ i ≠ self ∧ d ≠ sourceName_ args ∧ d ≠ name args.
Proof.
  unfold dependencies. rewrite list_elem_of_In, in_map_iff. split.
  - intros ([i op] & <- & Hin). apply filter_In in Hin as [Hin Hd]. apply list_elem_of_In, elem_of_lookup_imap in Hin
      as (i' & op' & [= <- <-] & Hl). unfold isDependency in Hd. simpl in *.
    apply andb_true_iff in Hd as [Hk Hd]. apply negb_true_iff, orb_false_iff in Hd as [Hd H3].
    apply orb_false_iff in Hd as [H1 H2]. apply bool_decide_eq_true in Hk.
    exists i, op. apply Nat.eqb_neq in H1. apply String.eqb_neq in H2, H3. done.
  - intros (i & op & Hl & Hk & Hd & Hi & Hs & Hn). exists (i, op). split; [done|]. apply filter_In. split.
    + apply list_elem_of_In, elem_of_lookup_imap. eauto.
    + unfold isDependency. simpl. rewrite Hk, Hd. rewrite bool_decide_true by done. simpl.
      apply Nat.eqb_neq in Hi. apply String.eqb_neq in Hs, Hn. by rewrite Hi, Hs, Hn.
Qed.

End Package.

(** A package in the directory "src", written as "lib", that imports itself and
    refers to a module of another package which is called "src" too. *)
Definition exampleArgs : PrecompileArgs := mkArgs "lib" "src" ["x.bc"].
Definition opNamed (k : Kind) (n : string) (refs : list Attribute) (body : list Op) : Op :=
  mkOp k (mkAttrs n true None false false (map (pair "ref") refs)) body.
Definition examplePackage (self : string) : Op :=
  opNamed PackageOp self [] [opNamed FileModuleOp "m" [SymbolRefAttr self ["m"; "S"]; SymbolRefAttr "std" ["src"]]
    [opNamed ImportOp "i" [ImportPathAttr 0 [self; "m"]; ImportPathAttr 1 ["src"]] []]].

Lemma buildPackage_spec_witness :
  ∃ thePackage, buildPackage (SR := llvm_stringref) (AR := mlir_replacer) (fun _ => Some "BC") (fun _ => "0f") (fun _ => true)
    exampleArgs [examplePackage "src"] 0%nat = Some (Success [thePackage])
  ∧ symName (attrsOf thePackage) = "lib" ∧ getOps thePackage = getOps (examplePackage "lib").
Proof.
  pose proof (@buildPackage_spec llvm_stringref mlir_replacer (fun _ => Some "BC") (fun _ => "0f") (fun _ => true)
    exampleArgs [examplePackage "src"] 0%nat (examplePackage "src") eq_refl eq_refl ltac:(repeat constructor; discriminate)) as H.
  cbn zeta in H. destruct (buildPackage _ _ _ _ _ _) as [[m|msg]|] eqn:E; [|vm_compute in E; discriminate|done].
  destruct H as (_ & thePackage & thunks & attrs & -> & Hn & Hops & _). vm_compute in E. injection E as <- <-.
  eexists. split; [reflexivity|]. split; reflexivity.
Defined.

End PackageRename.
