(* ===== verification/CPUCache.v ===== *)
(** The cache sizes of Support/lib/CPUCache.cpp: [getHostCPUCacheSize] on
    Linux over the files of sysfs and a table of open file descriptors, on
    Windows over GetLogicalProcessorInformation, and on Apple systems. *)
From stdpp Require Import gmap.
From S2P Require Import Prelude StringRef.

#[local] Open Scope string_scope.
#[local] Open Scope Z_scope.

Module CPUCache.

#[local] Abbreviation length := List.length (only parsing).

(** ** Files and descriptors *)

(** What reading a file gives: an errno, or its bytes. *)
Inductive FileData := ReadFails (errno : Z) | Contents (s : string).
(** A file, or a directory: the errno or the node a name opens. *)
Inductive Node := File (data : FileData) | Directory (entries : string → Z + Node).
Definition ENOENT : Z := 2.
Definition EBADF : Z := 9.
Definition ENOTDIR : Z := 20.
Definition EISDIR : Z := 21.

Abbreviation Descriptors := (gmap Z Node).

(** The number the kernel gives a new descriptor: non-negative and not open. *)
Class DescriptorAllocation := {
  nextFD : Descriptors → Z;
  nextFD_nonneg : ∀ fds, 0 ≤ nextFD fds;
  nextFD_free : ∀ fds, fds !! nextFD fds = None
}.

(** [None]: an assertion fails, or the fuel of the loop is used up. *)
Definition FD (A : Type) : Type := Descriptors → option (A * Descriptors).
#[export] Instance FD_ret : MRet FD := fun A a fds => Some (a, fds).
#[export] Instance FD_bind : MBind FD := fun A B f m fds =>
  match m fds with Some (a, fds) => f a fds | None => None end.

(** ** Caches *)

Inductive CacheType := Data | Instruction | Unified.
#[export] Instance CacheType_eq_dec : EqDecision CacheType.
Proof. solve_decision. Defined.
Definition holdsData (t : CacheType) : bool :=
  match t with Data | Unified => true | Instruction => false end.
(** One cache; [sizeK] is the size in units of 1024 bytes, when it is known. *)
Record Cache := mkCache { level : Z; type : CacheType; sizeK : option Z }.

(** How one iteration of the Linux loop ends. *)
Inductive Iteration := Continue | Return (r : ErrorOr Z).

Section CPUCache.
Context {SR : StringRefOps} {DA : DescriptorAllocation}.
Variable strerror : Z → string.

(** ** Linux *)

(** What a name in a directory opens, with [O_DIRECTORY] or not. *)
Definition openEntry (e : Z + Node) (directory : bool) : Z + Node :=
  match e with inr (File _) => if directory then inl ENOTDIR else e | _ => e end.
Definition lookupEntry (dir : Node) (name : string) (directory : bool) : Z + Node :=
  match dir with Directory entries => openEntry (entries name) directory | File _ => inl ENOTDIR end.
Definition dataOf (n : Node) : FileData :=
  match n with File data => data | Directory _ => ReadFails EISDIR end.

Definition install (e : Z + Node) : FD (Z + Z) := fun fds =>
  match e with
  | inl errno => Some (inl errno, fds)
  | inr node => let fd := nextFD fds in Some (inr fd, <[fd := node]> fds)
  end.
Definition openat (dirFD : Z) (relPath : string) (directory : bool) : FD (Z + Z) := fun fds =>
  match fds !! dirFD with
  | Some dir => install (lookupEntry dir relPath directory) fds
  | None => Some (inl EBADF, fds)
  end.
Definition read (fd : Z) (bufferSize : nat) : FD (Z + string) := fun fds =>
  match dataOf <$> fds !! fd with
  | Some (Contents s) => Some (inr (string_take bufferSize s), fds)
  | Some (ReadFails errno) => Some (inl errno, fds)
  | None => Some (inl EBADF, fds)
  end.
(** The destructor of a [FileDescriptorCloser], which asserts success. *)
Definition closeFD (fd : Z) : FD unit := fun fds =>
  match fds !! fd with Some _ => Some (tt, delete fd fds) | None => None end.
Definition withCloser {A} (fd : Z) (body : FD A) : FD A :=
  r ← body; _ ← closeFD fd; mret r.

(** The buffer and the length read. *)
Definition readSmallFileFromDirFD (dirFD : Z) (relPath fileDescription : string) (bufferSize : nat)
    : FD (ErrorOr string) :=
  fd ← openat dirFD relPath false;
  match fd with
  | inl errno => mret (Error ("Could not open " ++ fileDescription ++ ": " ++ strerror errno))
  | inr fd =>
      withCloser fd (
        nRead ← read fd bufferSize;
        mret match nRead with
             | inl errno => Error ("Could not read " ++ fileDescription ++ ": " ++ strerror errno)
             | inr buffer =>
                 if (String.length buffer =? bufferSize)%nat
                 then Error ("File for " ++ fileDescription ++ " too large to read into fixed-size buffer")
                 else Success buffer
             end)
  end.

(** What is decided from the three files of a cache. *)
Definition considerCache (cacheLevel index : Z) (levelBuf typeBuf sizeBuf : string) : Iteration :=
  let levelStr := trim whitespace levelBuf in
  let typeStr := trim whitespace typeBuf in
  let sizeStr := trim whitespace sizeBuf in
  match getAsInteger_size levelStr with
  | None => Return (Error ("Could not parse cache index " ++ decimal index ++ " level"))
  | Some level =>
      if negb (level =? cacheLevel) then Continue
      else if negb (String.eqb typeStr "Data") && negb (String.eqb typeStr "Unified") then Continue
      else match consume_back sizeStr "K" with
           | None => Return (Error ("Cache size at index " ++ decimal index ++ " is not specified in K"))
           | Some sizeStr =>
               match getAsInteger_size sizeStr with
               | None => Return (Error ("Could not parse cache index " ++ decimal index ++ " size"))
               | Some sizeInK => Return (Success (sizeInK * 1024 mod 2 ^ 64))
               end
           end
  end.

Definition cacheFile (index : Z) (what : string) : string :=
  "cache index " ++ decimal index ++ " " ++ what.
Definition readCache (cacheLevel index cacheDirIndexFD : Z) : FD Iteration :=
  levelLenOr ← readSmallFileFromDirFD cacheDirIndexFD "level" (cacheFile index "level") 32;
  match levelLenOr with
  | Error e => mret (Return (Error e))
  | Success levelBuf =>
      typeLenOr ← readSmallFileFromDirFD cacheDirIndexFD "type" (cacheFile index "type") 32;
      match typeLenOr with
      | Error e => mret (Return (Error e))
      | Success typeBuf =>
          sizeLenOr ← readSmallFileFromDirFD cacheDirIndexFD "size" (cacheFile index "size") 32;
          mret match sizeLenOr with
               | Error _ => Continue
               | Success sizeBuf => considerCache cacheLevel index levelBuf typeBuf sizeBuf
               end
      end
  end.

Definition indexName (index : Z) : string := "index" ++ decimal index.
Fixpoint searchCaches (fuel : nat) (cacheLevel index cacheDirFD : Z) : FD (ErrorOr Z) :=
  match fuel with
  | O => fun _ => None
  | S fuel =>
      cacheDirIndexFD ← openat cacheDirFD (indexName index) true;
      match cacheDirIndexFD with
      | inl errno =>
          mret (if errno =? ENOENT then Success 0
                else Error ("Could not open cache index directory at index " ++ decimal index ++ ": "
                            ++ strerror errno))
      | inr fd =>
          r ← withCloser fd (readCache cacheLevel index fd);
          match r with
          | Continue => searchCaches fuel cacheLevel (index + 1) cacheDirFD
          | Return r => mret r
          end
      end
  end.

(** [cacheDir]: what /sys/devices/system/cpu/cpu0/cache opens. *)
Definition getHostCPUCacheSize_linux (fuel : nat) (cacheDir : Z + Node) (cacheLevel : Z) : FD (ErrorOr Z) :=
  cacheDirFD ← install (openEntry cacheDir true);
  match cacheDirFD with
  | inl errno =>
      mret (if errno =? ENOENT then Success 0
            else Error ("Could not open CPU0 cache directory: " ++ strerror errno))
  | inr fd => withCloser fd (searchCaches fuel cacheLevel 0 fd)
  end.

(** ** Windows *)

Inductive PROCESSOR_CACHE_TYPE := CacheUnified | CacheInstruction | CacheData | CacheTrace.
(** SYSTEM_LOGICAL_PROCESSOR_INFORMATION, 32 bytes; the cache descriptor is
    meant when the relationship is RelationCache. *)
Record ProcessorInfo := mkInfo { Relationship : Z; Level : Z; Type_ : PROCESSOR_CACHE_TYPE; Size : Z }.
Definition RelationCache : Z := 2.
Definition infoBytes : Z := 32.
Definition zeroInfo : ProcessorInfo := mkInfo 0 0 CacheUnified 0.
Definition ERROR_INSUFFICIENT_BUFFER : Z := 122.

(** A call fails with an error code and leaves the length it needs, or fills
    the buffer. *)
Inductive Query := QueryFails (lastError bufferLength : Z) | Fills (infos : list ProcessorInfo).

Fixpoint findCache (cacheLevel : Z) (infos : list ProcessorInfo) : Z :=
  match infos with
  | [] => 0
  | i :: infos =>
      if (Relationship i =? RelationCache) && (Level i =? cacheLevel)
         && match Type_ i with CacheData | CacheUnified => true | _ => false end
      then Size i else findCache cacheLevel infos
  end.

(** The queries of the two calls, by the length of the buffer. *)
Definition getHostCPUCacheSize_windows (GetLogicalProcessorInformation : nat → Z → Query)
    (message : Z → string) (cacheLevel : Z) : ErrorOr Z :=
  if 4 <=? cacheLevel then Success 0
  else match GetLogicalProcessorInformation 0%nat 0 with
       | Fills _ => Success 0
       | QueryFails lastError bufferLength =>
           if negb (lastError =? ERROR_INSUFFICIENT_BUFFER) then Error (message lastError)
           else
             let n := (bufferLength + infoBytes - 1) / infoBytes in
             match GetLogicalProcessorInformation 1%nat bufferLength with
             | QueryFails lastError _ => Error (message lastError)
             | Fills infos =>
                 Success (findCache cacheLevel
                   (infos ++ replicate (Z.to_nat n - length infos) zeroInfo)%list)
             end
       end.

(** ** Apple *)

Definition getHostCPUCacheSize_apple (sysctlbyname : string → option Z) (cacheLevel : Z) : ErrorOr Z :=
  if cacheLevel =? 1 then
    match sysctlbyname "hw.l1dcachesize" with
    | None => Error "unable to query the hw.l1dcachesize"
    | Some result => Success result
    end
  else if cacheLevel =? 2 then
    match sysctlbyname "hw.l2cachesize" with
    | None => Error "unable to query the hw.l2cachesize"
    | Some result => Success result
    end
  else Success 0.

(** ** Reading is a function of the directory *)

Definition dataView (data : FileData) (fileDescription : string) (bufferSize : nat) : ErrorOr string :=
  match data with
  | ReadFails errno => Error ("Could not read " ++ fileDescription ++ ": " ++ strerror errno)
  | Contents s =>
      if (bufferSize <=? String.length s)%nat
      then Error ("File for " ++ fileDescription ++ " too large to read into fixed-size buffer")
      else Success s
  end.
Definition fileView (dir : Node) (relPath fileDescription : string) (bufferSize : nat) : ErrorOr string :=
  match lookupEntry dir relPath false with
  | inl errno => Error ("Could not open " ++ fileDescription ++ ": " ++ strerror errno)
  | inr file => dataView (dataOf file) fileDescription bufferSize
  end.

Lemma withCloser_run {A} fd (body : FD A) a fds n :
  fds !! fd = None → body (<[fd := n]> fds) = Some (a, <[fd := n]> fds) →
  withCloser fd body (<[fd := n]> fds) = Some (a, fds).
Proof.
  intros Hfree Hb. unfold withCloser, mbind, FD_bind. rewrite Hb. unfold closeFD.
  rewrite lookup_insert_eq. by rewrite delete_insert_id.
Qed.

Lemma readSmallFile_run dirFD dir relPath what n fds : fds !! dirFD = Some dir →
  readSmallFileFromDirFD dirFD relPath what n fds = Some (fileView dir relPath what n, fds).
Proof.
  intros Hd. unfold readSmallFileFromDirFD, fileView, openat, mbind, FD_bind. rewrite Hd.
  destruct (lookupEntry dir relPath false) as [errno|node]; [done|]. unfold install.
  apply withCloser_run; [apply nextFD_free|].
  - unfold read, mbind, FD_bind. rewrite lookup_insert_eq. simpl.
    destruct (dataOf node) as [errno|s]; [done|]. simpl.
    do 2 f_equal. destruct (n <=? String.length s)%nat eqn:E.
    + apply Nat.leb_le in E. assert (String.length (string_take n s) = n) as ->; [|by rewrite Nat.eqb_refl].
      clear -E. revert s E. induction n as [|n IH]; intros [|c s] E; simpl in *; try lia. rewrite IH; lia.
    + apply Nat.leb_gt in E. rewrite string_take_all by lia. by rewrite (proj2 (Nat.eqb_neq _ _)) by lia.
Qed.

Definition cacheView (cacheLevel index : Z) (dir : Node) : Iteration :=
  match fileView dir "level" (cacheFile index "level") 32, fileView dir "type" (cacheFile index "type") 32,
        fileView dir "size" (cacheFile index "size") 32 with
  | Error e, _, _ | Success _, Error e, _ => Return (Error e)
  | Success _, Success _, Error _ => Continue
  | Success levelBuf, Success typeBuf, Success sizeBuf =>
      considerCache cacheLevel index levelBuf typeBuf sizeBuf
  end.

Lemma readCache_run cacheLevel index fd dir fds : fds !! fd = Some dir →
  readCache cacheLevel index fd fds = Some (cacheView cacheLevel index dir, fds).
Proof.
  intros Hd. unfold readCache, cacheView, mbind, FD_bind.
  repeat (rewrite (readSmallFile_run _ _ _ _ _ _ Hd); case_match; [|done]).
  done.
Qed.

Definition decision (i : Iteration) : option (ErrorOr Z) :=
  match i with Continue => None | Return r => Some r end.
Definition noCache (index errno : Z) : ErrorOr Z :=
  if errno =? ENOENT then Success 0
  else Error ("Could not open cache index directory at index " ++ decimal index ++ ": " ++ strerror errno).
(** The index directories of a cache directory, and why there are no more. *)
Definition Listing (entries : string → Z + Node) (dirs : list Node) (errno : Z) : Prop :=
  (∀ i dir, dirs !! i = Some dir → openEntry (entries (indexName (Z.of_nat i))) true = inr dir)
  ∧ openEntry (entries (indexName (Z.of_nat (length dirs)))) true = inl errno.
Definition firstDecision (cacheLevel : Z) (dirs : list Node) (errno : Z) : ErrorOr Z :=
  default (noCache (Z.of_nat (length dirs)) errno)
    (head (omap decision (imap (fun i dir => cacheView cacheLevel (Z.of_nat i) dir) dirs))).

Lemma searchCaches_run cacheLevel fd entries dirs errno :
  Listing entries dirs errno → ∀ fuel done fds,
  (length dirs < fuel + length done)%nat → fds !! fd = Some (Directory entries) →
  ∀ rest, dirs = (done ++ rest)%list →
  searchCaches fuel cacheLevel (Z.of_nat (length done)) fd fds
  = Some (default (noCache (Z.of_nat (length dirs)) errno)
            (head (omap decision (imap (fun i dir => cacheView cacheLevel (Z.of_nat (length done + i)) dir) rest))), fds).
Proof.
  intros [Hdirs Hend]. induction fuel as [|fuel IH]; intros done fds Hfuel Hfd rest Hr.
  { rewrite Hr, length_app in Hfuel. lia. }
  cbn [searchCaches]. unfold mbind at 1, FD_bind at 1. unfold openat. rewrite Hfd. unfold lookupEntry, install.
  destruct rest as [|dir rest].
  - rewrite app_nil_r in Hr. subst done. by rewrite Hend.
  - rewrite (Hdirs (length done) dir) by (by rewrite Hr, list_lookup_middle).
    cbv zeta beta iota. unfold mbind, FD_bind.
    rewrite (withCloser_run _ _ (cacheView cacheLevel (Z.of_nat (length done)) dir));
      [|apply nextFD_free|apply readCache_run; by rewrite lookup_insert_eq].
    cbn [imap omap list_omap]. rewrite Nat.add_0_r.
    destruct (cacheView _ _ dir) as [|r]; cbn [decision head default]; [|done].
    assert (Hd : length (done ++ [dir])%list = S (length done)) by (rewrite length_app; simpl; lia).
    specialize (IH (done ++ [dir])%list fds). rewrite Hd in IH.
    replace (Z.of_nat (length done) + 1) with (Z.of_nat (S (length done))) by lia.
    rewrite (IH ltac:(lia) Hfd rest) by (by rewrite Hr, <- app_assoc).
    do 2 f_equal. apply (f_equal (fun l => default _ (head (omap decision l)))).
    apply imap_ext. intros i x _. simpl. by rewrite Nat.add_succ_r.
Qed.

Lemma getHostCPUCacheSize_linux_run entries dirs errno fuel cacheLevel fds :
  Listing entries dirs errno → (length dirs < fuel)%nat →
  getHostCPUCacheSize_linux fuel (inr (Directory entries)) cacheLevel fds
  = Some (firstDecision cacheLevel dirs errno, fds).
Proof.
  intros Hl Hf. unfold getHostCPUCacheSize_linux, install, openEntry, mbind, FD_bind.
  apply withCloser_run; [apply nextFD_free|].
  rewrite (searchCaches_run cacheLevel _ entries dirs errno Hl fuel [] _) with (rest := dirs).
  - done.
  - simpl; lia.
  - apply lookup_insert_eq.
  - done.
Qed.

(** ** The files of a described machine *)

Definition newline : string := String "010" "".
Definition typeName (t : CacheType) : string :=
  match t with Data => "Data" | Instruction => "Instruction" | Unified => "Unified" end.
Definition file (s : string) : Z + Node := inr (File (Contents s)).
Definition indexNode (c : Cache) : Node := Directory (fun name =>
  if String.eqb name "level" then file (decimal (level c) ++ newline)
  else if String.eqb name "type" then file (typeName (type c) ++ newline)
  else if String.eqb name "size" then
    match sizeK c with Some k => file (decimal k ++ ("K" ++ newline)) | None => inl ENOENT end
  else inl ENOENT).
Definition validCache (c : Cache) : Prop :=
  0 ≤ level c < 2 ^ 64 ∧ ∀ k, sizeK c = Some k → 0 ≤ k < 2 ^ 64.

(** The answer meant: the size in bytes of the first data or unified cache of
    the level. *)
Fixpoint firstSize (cacheLevel : Z) (caches : list Cache) : Z :=
  match caches with
  | [] => 0
  | c :: caches =>
      match sizeK c with
      | Some k =>
          if (level c =? cacheLevel) && holdsData (type c) then k * 1024 mod 2 ^ 64
          else firstSize cacheLevel caches
      | None => firstSize cacheLevel caches
      end
  end.

Lemma digits_trimmed s : string_forall isDigit s = true → trimmed (charIn whitespace) s.
Proof.
  intros H. assert (Hc : ∀ c, isDigit c = true → charIn whitespace c = false).
  { intros [[] [] [] [] [] [] [] []]; vm_compute; congruence. }
  split; induction s as [|c s IH]; simpl in *; try done; apply andb_true_iff in H as [Hd H].
  - by rewrite (Hc c Hd).
  - rewrite (IH H). rewrite (Hc c Hd). by destruct s.
Qed.

Lemma trim_line s : trimmed (charIn whitespace) s → trim whitespace (s ++ newline) = s.
Proof. intros H. exact (trim_around whitespace "" s newline eq_refl eq_refl H). Qed.

Lemma sizeK_trimmed k : 0 ≤ k < 2 ^ 64 → trimmed (charIn whitespace) (decimal k ++ "K").
Proof.
  intros Hk. destruct (decimal_spec k Hk) as (_ & _ & Hd). apply digits_trimmed in Hd as [H1 H2].
  split.
  - apply dropLeading_head in H1 as [->|(c & t & -> & Hc)]; [done|]. apply dropLeading_head. right. eauto.
  - clear -H2. induction (decimal k) as [|c s IH]; [done|]. simpl in *.
    assert (dropTrailing (charIn whitespace) s = s) as Hs.
    { destruct (dropTrailing (charIn whitespace) s) eqn:E; [|by injection H2].
      case_match; [done|by injection H2]. }
    rewrite (IH Hs). by destruct s.
Qed.

Lemma fileView_file dir name what s : lookupEntry dir name false = file s → (String.length s < 32)%nat →
  fileView dir name what 32 = Success s.
Proof.
  intros H Hl. unfold fileView. rewrite H. unfold file, dataView, dataOf.
  by rewrite (proj2 (Nat.leb_gt _ _)).
Qed.

Lemma cacheView_indexNode cacheLevel index c : validCache c →
  cacheView cacheLevel index (indexNode c)
  = match sizeK c with
    | Some k =>
        if (level c =? cacheLevel) && holdsData (type c) then Return (Success (k * 1024 mod 2 ^ 64))
        else Continue
    | None => Continue
    end.
Proof.
  intros [Hl Hk]. destruct (decimal_spec _ Hl) as (_ & Hlen & Hdig). unfold cacheView.
  rewrite (fileView_file _ "level" _ (decimal (level c) ++ newline));
    [|done|rewrite string_length_app; simpl; lia].
  rewrite (fileView_file _ "type" _ (typeName (type c) ++ newline)); [|done|destruct (type c); simpl; lia].
  destruct (sizeK c) as [k|] eqn:E.
  - specialize (Hk k eq_refl). destruct (decimal_spec _ Hk) as (_ & Hlen' & _).
    rewrite (fileView_file _ "size" _ (decimal k ++ ("K" ++ newline)));
      [|unfold indexNode; by rewrite E|rewrite string_length_app; simpl; lia].
    unfold considerCache. rewrite <- (string_app_assoc (decimal k) "K").
    rewrite (trim_line (decimal k ++ "K")) by (by apply sizeK_trimmed).
    rewrite (trim_line (decimal (level c))) by (by apply digits_trimmed).
    rewrite (trim_line (typeName (type c))) by (destruct (type c); done).
    rewrite (getAsInteger_decimal _ Hl), consume_back_app, (getAsInteger_decimal _ Hk).
    destruct (level c =? cacheLevel); [|done]. by destruct (type c).
  - assert (fileView (indexNode c) "size" (cacheFile index "size") 32
            = Error ("Could not open " ++ cacheFile index "size" ++ ": " ++ strerror ENOENT)) as ->; [|done].
    unfold fileView, indexNode. simpl. by rewrite E.
Qed.

Lemma firstDecision_rendered cacheLevel caches : Forall validCache caches →
  firstDecision cacheLevel (map indexNode caches) ENOENT = Success (firstSize cacheLevel caches).
Proof.
  intros H. unfold firstDecision. generalize (Z.of_nat (length (map indexNode caches))).
  assert (Hg : ∀ (j : nat) z, default (noCache z ENOENT) (head (omap decision
      (imap (fun i dir => cacheView cacheLevel (Z.of_nat (j + i)) dir) (map indexNode caches))))
      = Success (firstSize cacheLevel caches)); [|exact (Hg O)].
  induction H as [|c caches Hc _ IH]; intros j z; [done|].
  cbn [map imap omap list_omap firstSize]. rewrite cacheView_indexNode by done.
  assert (Hrest : default (noCache z ENOENT) (head (omap decision
      (imap ((fun i dir => cacheView cacheLevel (Z.of_nat (j + i)) dir) ∘ S) (map indexNode caches))))
      = Success (firstSize cacheLevel caches)).
  { rewrite <- (IH (S j) z). apply (f_equal (fun l => default _ (head (omap decision l)))).
    apply imap_ext. intros i x _. simpl. by rewrite Nat.add_succ_r. }
  destruct (sizeK c) as [k|]; [|exact Hrest].
  destruct ((level c =? cacheLevel) && holdsData (type c)); [done|exact Hrest].
Qed.

(** ** Properties *)

(** On Linux [getHostCPUCacheSize] returns for every directory of caches
    and every open descriptor it starts with: the loop ends at the first index
    whose directory cannot be opened, the answer is that of the first index
    whose files decide one (a cache of the level, or an error), and every
    descriptor opened on the way, and no other, is closed without tripping the
    destructor's assertion.  Without the directory it answers 0, or an error
    when it exists but does not open. *)
Theorem linux_cache_search entries dirs errno fuel cacheLevel fds :
  Listing entries dirs errno → (length dirs < fuel)%nat →
  getHostCPUCacheSize_linux fuel (inr (Directory entries)) cacheLevel fds
    = Some (firstDecision cacheLevel dirs errno, fds)
  ∧ (∀ n e, getHostCPUCacheSize_linux n (inl e) cacheLevel fds
       = Some (if e =? ENOENT then Success 0
               else Error ("Could not open CPU0 cache directory: " ++ strerror e), fds)).
Proof.
  intros Hl Hf. split; [by apply getHostCPUCacheSize_linux_run|done].
Qed.

(** The caches Windows reports, as Linux lists them; it has no trace caches. *)
Definition cacheOf (i : ProcessorInfo) : option Cache :=
  if Relationship i =? RelationCache then
    match Type_ i with
    | CacheData => Some (mkCache (Level i) Data (Some (Size i / 1024)))
    | CacheInstruction => Some (mkCache (Level i) Instruction (Some (Size i / 1024)))
    | CacheUnified => Some (mkCache (Level i) Unified (Some (Size i / 1024)))
    | CacheTrace => None
    end
  else None.
Definition wholeSize (i : ProcessorInfo) : Prop :=
  0 ≤ Level i < 2 ^ 8 ∧ 0 ≤ Size i < 2 ^ 32 ∧ Size i mod 1024 = 0.

Lemma cacheOf_valid i c : wholeSize i → cacheOf i = Some c → validCache c.
Proof.
  intros (Hl & Hs & _) H. assert (0 ≤ Size i / 1024 < 2 ^ 64).
  { split; [apply Z.div_pos; lia|apply Z.div_lt_upper_bound; lia]. }
  unfold cacheOf in H. repeat case_match; simplify_eq; (split; simpl; [lia|by intros k [= <-]]).
Qed.

Lemma findCache_app cacheLevel infos n :
  findCache cacheLevel (infos ++ replicate n zeroInfo)%list = findCache cacheLevel infos.
Proof.
  induction infos as [|i infos IH]; simpl; [by induction n|]. by rewrite IH.
Qed.

Lemma findCache_firstSize cacheLevel infos : Forall wholeSize infos →
  findCache cacheLevel infos = firstSize cacheLevel (omap cacheOf infos).
Proof.
  induction 1 as [|i infos (Hl & Hs & Hm) _ IH]; [done|]. cbn [findCache omap list_omap]. rewrite IH.
  assert (Size i / 1024 * 1024 mod 2 ^ 64 = Size i) as He.
  { rewrite Z.mul_comm. pose proof (Z.div_mod (Size i) 1024 ltac:(lia)).
    rewrite Z.mod_small; lia. }
  unfold cacheOf. destruct (Relationship i =? RelationCache); [|done].
  destruct (Type_ i); simpl; rewrite ?andb_false_r, ?andb_true_r; rewrite ?He; done.
Qed.

(** The Linux and the Windows arm of [getHostCPUCacheSize] agree: on one
    machine, described by its sysfs files and by
    GetLogicalProcessorInformation (which fails with ERROR_INSUFFICIENT_BUFFER
    and the length it needs until the buffer has that length), both give for a
    level up to 3 the size in bytes of the first data or unified cache of that
    level, and 0 when there is none. *)
Theorem cache_size_platforms_agree infos glpi message entries fuel cacheLevel fds :
  Forall wholeSize infos →
  (∀ call len, glpi call len =
     if len <? infoBytes * Z.of_nat (length infos)
     then QueryFails ERROR_INSUFFICIENT_BUFFER (infoBytes * Z.of_nat (length infos))
     else Fills infos) →
  Listing entries (map indexNode (omap cacheOf infos)) ENOENT →
  (length infos < fuel)%nat → cacheLevel < 4 →
  getHostCPUCacheSize_windows glpi message cacheLevel
    = Success (firstSize cacheLevel (omap cacheOf infos))
  ∧ getHostCPUCacheSize_linux fuel (inr (Directory entries)) cacheLevel fds
    = Some (Success (firstSize cacheLevel (omap cacheOf infos)), fds).
Proof.
  intros Hw Hq Hl Hf Hc. split.
  - unfold getHostCPUCacheSize_windows. rewrite (proj2 (Z.leb_gt _ _) Hc), Hq.
    rewrite <- findCache_firstSize by done. destruct infos as [|i infos]; [done|].
    rewrite (proj2 (Z.ltb_lt 0 _)) by (unfold infoBytes; simpl length; lia).
    rewrite Z.eqb_refl. cbn [negb]. rewrite Hq, Z.ltb_irrefl. by rewrite findCache_app.
  - rewrite (getHostCPUCacheSize_linux_run _ _ _ _ _ _ Hl).
    + do 2 f_equal. rewrite firstDecision_rendered; [done|].
      apply Forall_forall. intros c (i & Hi & Hci)%list_elem_of_omap.
      rewrite Forall_forall in Hw. by apply (cacheOf_valid i c); [apply Hw|].
    + rewrite length_map. assert (length (omap cacheOf infos) ≤ length infos)%nat; [|lia].
      clear. induction infos as [|i infos IH]; [done|]. cbn [omap list_omap].
      destruct (cacheOf i); cbn [List.length]; lia.
Qed.

End CPUCache.

(** ** A kernel, and witnesses *)

#[export] Instance aboveAll : DescriptorAllocation.
Proof.
  refine {| nextFD := fun fds => map_fold (fun k _ a => Z.max a (k + 1)) 0 fds |}.
  - intros fds. apply (map_fold_weak_ind (fun a _ => 0 ≤ a)); [done|]. lia.
  - intros fds. apply eq_None_not_Some. intros [n Hn].
    assert (∀ k x, fds !! k = Some x → k < map_fold (fun k _ a => Z.max a (k + 1)) 0 fds) as H.
    { apply (map_fold_weak_ind (fun a m => ∀ k x, m !! k = Some x → k < a)); [by intros k x []%lookup_empty_Some|].
      intros j x m a Hj IH k y [[-> <-]|[Hne Hk]]%lookup_insert_Some; [lia|]. specialize (IH _ _ Hk). lia. }
    specialize (H _ _ Hn). lia.
Defined.

Definition machine : list ProcessorInfo :=
  [mkInfo 0 0 CacheUnified 0; mkInfo 2 1 CacheInstruction 65536; mkInfo 2 1 CacheData 32768;
   mkInfo 2 2 CacheUnified 1048576].
Definition machineEntries (name : string) : Z + Node :=
  match list_find (fun i => name = indexName (Z.of_nat i)) [0; 1; 2]%nat with
  | Some (_, i) => match omap cacheOf machine !! i with Some c => inr (indexNode c) | None => inl ENOENT end
  | None => inl ENOENT
  end.
Definition machineQuery (_ : nat) (len : Z) : Query :=
  if len <? infoBytes * Z.of_nat (length machine)
  then QueryFails ERROR_INSUFFICIENT_BUFFER (infoBytes * Z.of_nat (length machine)) else Fills machine.
Definition strerrorText (errno : Z) : string := decimal errno.

Lemma machine_listing : Listing machineEntries (map indexNode (omap cacheOf machine)) ENOENT.
Proof.
  split; [|reflexivity].
  replace (omap cacheOf machine)
    with [mkCache 1 Instruction (Some 64); mkCache 1 Data (Some 32); mkCache 2 Unified (Some 1024)] by reflexivity.
  intros [|[|[|i]]] dir H; cbn in H; [apply (inj Some) in H; subst dir; reflexivity..|discriminate H].
Defined.

Lemma linux_cache_search_witness :
  getHostCPUCacheSize_linux (SR := llvm_stringref) strerrorText 4 (inr (Directory machineEntries)) 1 ∅ = Some (Success 32768, ∅).
Proof.
  refine (eq_trans (proj1 (linux_cache_search (SR := llvm_stringref) strerrorText machineEntries
    (map indexNode (omap cacheOf machine)) ENOENT 4 1 ∅ machine_listing _)) _); [simpl; lia|].
  vm_compute. reflexivity.
Defined.

Lemma cache_size_platforms_agree_witness :
  getHostCPUCacheSize_windows machineQuery strerrorText 2 = Success 1048576
  ∧ getHostCPUCacheSize_linux (SR := llvm_stringref) strerrorText 5 (inr (Directory machineEntries)) 2 ∅ = Some (Success 1048576, ∅).
Proof.
  apply (cache_size_platforms_agree (SR := llvm_stringref) strerrorText machine machineQuery strerrorText machineEntries 5 2 ∅).
  - repeat constructor; simpl; lia.
  - reflexivity.
  - exact machine_listing.
  - simpl; lia.
  - lia.
Defined.

End CPUCache.
