(* ===== verification/ResourceFile.v ===== *)
(** The Windows resource file of Mojo/tools/mojo/Build/mojo-build.cpp: the
    bytes [buildWindowsManifestResource] writes, the manifest it is given, and
    a reader of the .res format they are checked against. *)
From S2P Require Import Prelude StringRef.

#[local] Open Scope string_scope.
#[local] Open Scope Z_scope.

Module ResourceFile.

(** ** Writing *)

(** [static_cast<char>(v & 0xFF)]. *)
Definition byte (v : Z) : ascii := ascii_of_nat (Z.to_nat (Z.land v 255)).
Definition u16 (value : Z) : string :=
  let value := value mod 2 ^ 16 in
  String (byte value) (String (byte (Z.shiftr value 8)) "").
Definition u32 (value : Z) : string :=
  let value := value mod 2 ^ 32 in
  u16 (Z.land value 65535) ++ u16 (Z.shiftr value 16).

Definition header (dataSize type id memoryFlags language : Z) : string :=
  u32 dataSize ++ u32 32 ++ u16 65535 ++ u16 type ++ u16 65535 ++ u16 id ++ u32 0
  ++ u16 memoryFlags ++ u16 language ++ u32 0 ++ u32 0.

Definition kResourceTypeManifest : Z := 24.
Definition kProcessManifestId : Z := 1.
Definition kLangEnglishUS : Z := 1033.
Definition kMemoryFlags : Z := 4144.

Definition zeros (n : Z) : string := Nat.iter (Z.to_nat n) (String "000") "".

Definition buildWindowsManifestResource (manifest : string) : string :=
  let size := Z.of_nat (String.length manifest) in
  header 0 0 0 0 0
  ++ header size kResourceTypeManifest kProcessManifestId kMemoryFlags kLangEnglishUS
  ++ manifest ++ zeros ((4 - size mod 4) mod 4).

(** The text of the manifest; its double quotes are written as single ones. *)
Definition quoted (s : string) : string :=
  string_map (fun c => if Ascii.eqb c "'" then "034"%char else c) s.
Definition kWindowsManifest : string := quoted
"<?xml version='1.0' encoding='UTF-8' standalone='yes'?>
<assembly xmlns='urn:schemas-microsoft-com:asm.v1' manifestVersion='1.0'>
  <trustInfo xmlns='urn:schemas-microsoft-com:asm.v3'>
    <security>
      <requestedPrivileges>
        <requestedExecutionLevel level='asInvoker' uiAccess='false'/>
      </requestedPrivileges>
    </security>
  </trustInfo>
  <application xmlns='urn:schemas-microsoft-com:asm.v3'>
    <windowsSettings>
      <activeCodePage
        xmlns='http://schemas.microsoft.com/SMI/2019/WindowsSettings'
        >UTF-8</activeCodePage>
      <longPathAware
        xmlns='http://schemas.microsoft.com/SMI/2016/WindowsSettings'
        >true</longPathAware>
    </windowsSettings>
  </application>
</assembly>
".

(** ** Reading: the RESOURCEHEADER format *)

Record Resource := mkResource {
  TYPE : Z; NAME : Z; DataVersion : Z; MemoryFlags : Z; LanguageId : Z; Version : Z;
  Characteristics : Z; data : string
}.

Definition byteVal (c : ascii) : Z := Z.of_nat (nat_of_ascii c).
Definition readU16 (s : string) : option (Z * string) :=
  match s with
  | String a (String b s) => Some (byteVal a + 256 * byteVal b, s)
  | _ => None
  end.
Definition readU32 (s : string) : option (Z * string) :=
  '(lo, s) ← readU16 s; '(hi, s) ← readU16 s; Some (lo + 65536 * hi, s).
(** A type or a name given by its number. *)
Definition readOrdinal (s : string) : option (Z * string) :=
  '(mark, s) ← readU16 s; if mark =? 65535 then readU16 s else None.
Definition takeExactly (n : Z) (s : string) : option (string * string) :=
  if Z.of_nat (String.length s) <? n then None
  else Some (string_take (Z.to_nat n) s, string_drop (Z.to_nat n) s).

(** One record: the header, the data, and what pads it to four bytes. *)
Definition readRecord (s : string) : option (Resource * string) :=
  '(dataSize, s) ← readU32 s;
  '(headerSize, s) ← readU32 s;
  if negb (headerSize =? 32) then None else
  '(type, s) ← readOrdinal s;
  '(name, s) ← readOrdinal s;
  '(dataVersion, s) ← readU32 s;
  '(memoryFlags, s) ← readU16 s;
  '(language, s) ← readU16 s;
  '(version, s) ← readU32 s;
  '(characteristics, s) ← readU32 s;
  '(data, s) ← takeExactly dataSize s;
  '(_, s) ← takeExactly (- dataSize mod 4) s;
  Some (mkResource type name dataVersion memoryFlags language version characteristics data, s).

Fixpoint readRecords (fuel : nat) (s : string) : option (list Resource) :=
  match s, fuel with
  | "", _ => Some []
  | _, O => None
  | _, S fuel => '(r, s) ← readRecord s; rs ← readRecords fuel s; Some (r :: rs)
  end.
(** Every record takes at least the 32 bytes of its header. *)
Definition readResourceFile (s : string) : option (list Resource) := readRecords (String.length s) s.

Definition emptyRecord : Resource := mkResource 0 0 0 0 0 0 0 "".
Definition manifestRecord (manifest : string) : Resource :=
  mkResource kResourceTypeManifest kProcessManifestId 0 kMemoryFlags kLangEnglishUS 0 0 manifest.

(** ** Lemmas *)

#[local] Arguments u16 : simpl never.
#[local] Arguments u32 : simpl never.
#[local] Arguments readU16 : simpl never.
#[local] Arguments readU32 : simpl never.
#[local] Arguments readOrdinal : simpl never.
#[local] Arguments takeExactly : simpl never.

Lemma byteVal_byte v : byteVal (byte v) = v mod 256.
Proof.
  unfold byteVal, byte. change 255 with (Z.ones 8). rewrite Z.land_ones by lia.
  change (2 ^ 8) with 256. pose proof (Z.mod_pos_bound v 256 ltac:(lia)).
  rewrite nat_ascii_embedding by lia. lia.
Qed.

Lemma readU16_u16 v s : 0 ≤ v < 65536 → readU16 (u16 v ++ s) = Some (v, s).
Proof.
  intros Hv. unfold u16, readU16. cbn [append]. rewrite !byteVal_byte.
  change (2 ^ 16) with 65536. rewrite (Z.mod_small v 65536), Z.shiftr_div_pow2 by lia. change (2 ^ 8) with 256.
  rewrite (Z.mod_small (v / 256)).
  - do 2 f_equal. pose proof (Z.div_mod v 256). lia.
  - split; [apply Z.div_pos; lia|apply Z.div_lt_upper_bound; lia].
Qed.

Lemma readU32_u32 v s : 0 ≤ v < 2 ^ 32 → readU32 (u32 v ++ s) = Some (v, s).
Proof.
  intros Hv. unfold readU32, u32. rewrite string_app_assoc.
  rewrite (Z.mod_small v (2 ^ 32)) by lia. change 65535 with (Z.ones 16). rewrite Z.land_ones by lia.
  rewrite readU16_u16 by (change (2 ^ 16) with 65536; apply Z.mod_pos_bound; lia). cbn [mbind option_bind].
  rewrite Z.shiftr_div_pow2 by lia. change (2 ^ 16) with 65536.
  rewrite readU16_u16 by (split; [apply Z.div_pos; lia|apply Z.div_lt_upper_bound; lia]). cbn [mbind option_bind].
  do 2 f_equal. pose proof (Z.div_mod v 65536). lia.
Qed.

Lemma readOrdinal_u16 v s : 0 ≤ v < 65536 → readOrdinal (u16 65535 ++ u16 v ++ s) = Some (v, s).
Proof. intros Hv. unfold readOrdinal. rewrite readU16_u16 by lia. cbn [mbind option_bind]. by rewrite readU16_u16. Qed.

Lemma takeExactly_app a s n : n = Z.of_nat (String.length a) → takeExactly n (a ++ s) = Some (a, s).
Proof.
  intros ->. unfold takeExactly. rewrite string_length_app, Nat2Z.id, string_take_app, string_drop_app.
  by rewrite (proj2 (Z.ltb_ge _ _)) by lia.
Qed.

Lemma zeros_length n : 0 ≤ n → Z.of_nat (String.length (zeros n)) = n.
Proof.
  intros Hn. unfold zeros. rewrite <- (Z2Nat.id n Hn) at 2. f_equal.
  induction (Z.to_nat n) as [|k IH]; simpl; [done|]. by rewrite IH.
Qed.

(** What is written for a record is read back, and its length is a multiple
    of four. *)
Definition record (type id memoryFlags language : Z) (data : string) : string :=
  header (Z.of_nat (String.length data)) type id memoryFlags language
  ++ data ++ zeros ((4 - Z.of_nat (String.length data) mod 4) mod 4).

Lemma padding n : (4 - n mod 4) mod 4 = - n mod 4.
Proof. pose proof (Z.div_mod n 4). rewrite <- (Z.mod_add (- n) (n / 4 + 1) 4) by lia. f_equal. lia. Qed.

Lemma readRecord_record type id flags language data s :
  0 ≤ type < 65536 → 0 ≤ id < 65536 → 0 ≤ flags < 65536 → 0 ≤ language < 65536 →
  Z.of_nat (String.length data) < 2 ^ 32 →
  readRecord (record type id flags language data ++ s) = Some (mkResource type id 0 flags language 0 0 data, s).
Proof.
  intros H1 H2 H3 H4 H5. unfold record, header, readRecord. rewrite !string_app_assoc.
  rewrite readU32_u32 by lia. cbn [mbind option_bind]. rewrite readU32_u32 by lia. cbn [mbind option_bind].
  rewrite readOrdinal_u16 by done. cbn [mbind option_bind]. rewrite readOrdinal_u16 by done. cbn [mbind option_bind].
  rewrite readU32_u32 by lia. cbn [mbind option_bind]. rewrite readU16_u16 by done. cbn [mbind option_bind]. rewrite readU16_u16 by done. cbn [mbind option_bind].
  rewrite readU32_u32 by lia. cbn [mbind option_bind]. rewrite readU32_u32 by lia. cbn [mbind option_bind].
  rewrite takeExactly_app by done. cbn [mbind option_bind]. rewrite padding.
  rewrite takeExactly_app; [done|].
  rewrite zeros_length; [done|apply Z.mod_pos_bound; lia].
Qed.

Lemma header_length size type id flags language : String.length (header size type id flags language) = 32%nat.
Proof. reflexivity. Qed.

Lemma record_length type id flags language data :
  let n := Z.of_nat (String.length (record type id flags language data)) in n mod 4 = 0 ∧ 32 ≤ n.
Proof.
  cbv zeta. unfold record. rewrite !string_length_app, header_length, !Nat2Z.inj_add.
  rewrite padding. rewrite zeros_length by (apply Z.mod_pos_bound; lia).
  pose proof (Z.mod_pos_bound (- Z.of_nat (String.length data)) 4 ltac:(lia)). split; [|lia].
  rewrite !Z.add_assoc. rewrite Zplus_mod_idemp_r.
  replace (_ + _ + - _) with (8 * 4) by lia. reflexivity.
Qed.

Lemma readRecords_cons fuel type id flags language data s :
  0 ≤ type < 65536 → 0 ≤ id < 65536 → 0 ≤ flags < 65536 → 0 ≤ language < 65536 →
  Z.of_nat (String.length data) < 2 ^ 32 →
  readRecords (S fuel) (record type id flags language data ++ s) =
  (rs ← readRecords fuel s; Some (mkResource type id 0 flags language 0 0 data :: rs)).
Proof.
  intros. cbn [readRecords]. rewrite readRecord_record by done.
  pose proof (proj2 (record_length type id flags language data)) as Hl.
  destruct (record type id flags language data ++ s) as [|c t] eqn:E; [|done].
  apply (f_equal String.length) in E. rewrite string_length_app in E. simpl in E. lia.
Qed.

Lemma readRecords_nil fuel : readRecords fuel "" = Some [].
Proof. by destruct fuel. Qed.

Lemma build_records manifest :
  buildWindowsManifestResource manifest =
  record 0 0 0 0 "" ++ record kResourceTypeManifest kProcessManifestId kMemoryFlags kLangEnglishUS manifest ++ "".
Proof. unfold buildWindowsManifestResource, record. by rewrite !string_app_nil. Qed.

(** C39: A reader of the resource format gets the manifest back: the bytes
    [buildWindowsManifestResource] writes are the empty record every resource
    file opens with and one record of type RT_MANIFEST and the id of a process
    manifest that holds the text unchanged; and the file ends on a boundary of
    four bytes, as the format wants every record to. *)
Theorem resource_roundtrip manifest :
  Z.of_nat (String.length manifest) < 2 ^ 32 →
  readResourceFile (buildWindowsManifestResource manifest) = Some [emptyRecord; manifestRecord manifest]
  ∧ Z.of_nat (String.length (buildWindowsManifestResource manifest)) mod 4 = 0.
Proof.
  intros Hm. rewrite build_records. split.
  - unfold readResourceFile.
    assert (∃ k, String.length (record 0 0 0 0 "" ++ record kResourceTypeManifest kProcessManifestId kMemoryFlags
      kLangEnglishUS manifest ++ "") = S (S k)) as [k ->].
    { pose proof (record_length 0 0 0 0 "") as [_ H]. rewrite string_length_app.
      exists (String.length (record 0 0 0 0 "") - 2 + String.length (record kResourceTypeManifest kProcessManifestId
        kMemoryFlags kLangEnglishUS manifest ++ ""))%nat. lia. }
    rewrite readRecords_cons by (cbn; lia). rewrite readRecords_cons by (done || (cbv; lia) || lia).
    by rewrite readRecords_nil.
  - rewrite !string_length_app, !Nat2Z.inj_add, Z.add_0_r.
    rewrite Z.add_mod, (proj1 (record_length _ _ _ _ _)), (proj1 (record_length _ _ _ _ _)) by lia. done.
Qed.

Lemma resource_roundtrip_witness :
  readResourceFile (buildWindowsManifestResource kWindowsManifest) = Some [emptyRecord; manifestRecord kWindowsManifest]
  ∧ Z.of_nat (String.length (buildWindowsManifestResource kWindowsManifest)) mod 4 = 0.
Proof. apply (resource_roundtrip kWindowsManifest). vm_compute. reflexivity. Defined.

End ResourceFile.
