(* ===== verification/LinkOutput.v ===== *)
(** [linkOutput] of Mojo/tools/mojo/Build/mojo-build.cpp: from the archive of a
    program to an executable, a shared library or an object file.  The paths
    are those of a POSIX host, the target is any triple. *)
From S2P Require Import Prelude StringRef Configuration MojoConfig ResourceFile.

#[local] Open Scope string_scope.
#[local] Open Scope Z_scope.

Module LinkOutput.
Import Config MojoConfig.

#[local] Abbreviation length := List.length (only parsing).

Inductive OutputType := executable | sharedLibrary | object | llvm | llvmBitcode | assembly.
#[export] Instance OutputType_eq_dec : EqDecision OutputType.
Proof. solve_decision. Defined.

(** The members of [CompilationOptions] and the arguments used here. *)
Record Options := mkOptions {
  targetTriple : string; debugInfo : bool; sanitizeAddress : bool; sanitizeThread : bool;
  externalLibasan : string; sharedLibasan : bool
}.
Record Arguments := mkArguments { input : string; output : option string; xlinker : list string }.

(** What the compiler does to the machine, in order. *)
Inductive Event :=
  | ReportError (msg : string)
  | Print (text : string)
  | PrintError (text : string)
  | OpenOutput (path : string)
  | WriteOutput (path data : string)
  | DiscardOutput (path : string)
  | CreateTemp (path data : string)
  | RemoveTemp (path : string)
  | Run (program : string) (args : list string).

(** The values the configuration has read, and the events so far.  [inr]: the
    function has returned an exit code. *)
Record World := mkWorld { config : KV; log : list Event }.
Definition Build (A : Type) : Type := World → (A + Z) * World.
#[export] Instance Build_ret : MRet Build := fun A a w => (inl a, w).
#[export] Instance Build_bind : MBind Build := fun A B f m w =>
  match m w with (inl a, w) => f a w | (inr code, w) => (inr code, w) end.

Definition emit (e : Event) : Build unit := fun w => (inl tt, mkWorld (config w) (log w ++ [e])).
Definition exit {A} (code : Z) : Build A := fun w => (inr code, w).
Definition query {A} (q : State KV A) : Build A := fun w =>
  let '(a, kv) := q (config w) in (inl a, mkWorld kv (log w)).
(** A scope that owns a temporary file, which its destructor removes. *)
Definition scoped {A} (path : string) (body : Build A) : Build A := fun w =>
  let '(r, w) := body w in (r, mkWorld (config w) (log w ++ [RemoveTemp path])).

(** ** Names, by target *)

Section Names.
Context {SR : StringRefOps}.
(** llvm::Triple. *)
Variables isOSWindows isOSDarwin isX86_64 : string → bool.
Variable getArchName : string → string.

Definition getExecutableExtension (triple : string) : string :=
  if isOSWindows triple then ".exe" else "".
Definition getStaticArchiveExtension (triple : string) : string :=
  if isOSWindows triple then ".lib" else ".a".
Definition getSharedLibraryFileName (triple stem : string) : string :=
  if isOSWindows triple then stem ++ ".dll"
  else if isOSDarwin triple then "lib" ++ stem ++ ".dylib"
  else "lib" ++ stem ++ ".so".

Definition defaultOutputName (outputType : OutputType) (triple inputName : string) : string :=
  let base := fileStem inputName in
  filename match outputType with
           | executable => base ++ getExecutableExtension triple
           | sharedLibrary => getSharedLibraryFileName triple base
           | llvm => base ++ ".ll"
           | llvmBitcode => base ++ ".bc"
           | object => base ++ ".o"
           | assembly => base ++ ".asm"
           end.

(** ** The command line of the linker *)

Definition kWindowsCRTLibs : list string := ["msvcrt.lib"; "msvcrtd.lib"; "libcmt.lib"; "libcmtd.lib"].
Definition equals_insensitive (a b : string) : bool := String.eqb (lower a) (lower b).
Definition haveCRT (systemLibs : list string) : bool :=
  existsb (fun lib => existsb (equals_insensitive lib) kWindowsCRTLibs) systemLibs.

Definition initialArgs (outputType : OutputType) (triple linker archivePath compilerRTPath : string)
    : list string :=
  match outputType with
  | executable => [linker; archivePath; compilerRTPath]
  | _ =>
      [linker] ++
      (if isOSWindows triple then ["/DLL"; ("/WHOLEARCHIVE:" ++ archivePath)%string; archivePath]
       else if isOSDarwin triple then ["-shared"; "-Wl,-force_load"; archivePath]
       else ["-shared"; "-Wl,--whole-archive"; archivePath; "-Wl,--no-whole-archive"])
      ++ [compilerRTPath]
  end%list.

(** The loop over the shared libraries. *)
Fixpoint keepShared (isWindows : bool) (args : list string) : list string :=
  match args with
  | [] => []
  | a :: rest =>
      if isWindows && String.eqb a "-Xlinker"
         && match rest with b :: _ => String.eqb b "-rpath" | [] => false end
      then match rest with _ :: _ :: _ :: rest => keepShared isWindows rest | _ => [] end
      else a :: keepShared isWindows rest
  end.

Definition windowsArgs (options : Options) (outputName manifestPath : string) (systemLibs : list string)
    : ErrorOr (list string) :=
  _ ← check (isX86_64 (targetTriple options))
        ("linking for Windows is only supported for x86_64, not '" ++ getArchName (targetTriple options) ++ "'");
  _ ← check (negb (sanitizeAddress options || sanitizeThread options))
        "sanitizers are not supported when targeting Windows";
  Success ([("/out:" ++ outputName)%string; "/nologo"; "/SUBSYSTEM:CONSOLE"]
    ++ (if isEmpty manifestPath then [] else [manifestPath])
    ++ ["/IGNORE:4001"]
    ++ (if haveCRT systemLibs then []
        else ["libcmt.lib"; "libvcruntime.lib"; "libucrt.lib"; "oldnames.lib"])
    ++ ["/machine:X64"]
    ++ (if debugInfo options then ["/DEBUG"] else []))%list.

Definition unixArgs (options : Options) (outputName : string) : list string :=
  (["-o"; outputName]
   ++ (if sanitizeAddress options then
         if isEmpty (externalLibasan options)
         then "-fsanitize=address" :: (if sharedLibasan options then ["-shared-libasan"] else [])
         else [externalLibasan options]
       else [])
   ++ (if sanitizeThread options then ["-fsanitize=thread"] else []))%list.

Definition stripArgs (triple : string) : list string :=
  ((if isOSDarwin triple then ["-Wl,-dead_strip"]
    else if isOSWindows triple then ["/OPT:REF"] else ["-Wl,--gc-sections"])
   ++ (if negb (isOSDarwin triple) && negb (isOSWindows triple) then ["-lm"] else []))%list.

Definition userArgs (extraLinkerArgs : list string) : list string :=
  List.concat (map (fun a => ["-Xlinker"; a]) extraLinkerArgs).

Definition linkerArgs (outputType : OutputType) (options : Options)
    (linker archivePath compilerRTPath outputName manifestPath : string)
    (systemLibs sharedLibArgs extraLinkerArgs : list string) : ErrorOr (list string) :=
  let triple := targetTriple options in
  let isWindows := isOSWindows triple in
  platform ← (if isWindows then windowsArgs options outputName manifestPath systemLibs
              else Success (unixArgs options outputName));
  Success (initialArgs outputType triple linker archivePath compilerRTPath
    ++ keepShared isWindows sharedLibArgs ++ platform ++ stripArgs triple ++ systemLibs
    ++ userArgs extraLinkerArgs)%list.

(** ** linkOutput *)

Section Link.
(** The environment, the runfiles and the overrides of the configuration. *)
Variable GetEnv : string → option string.
Variable findConfigWithRunfiles : string → option string.
Variable overrides : KV.
Variable getSharedLibraryName : string → string.
(** The file system, the programs in PATH (or in one directory), and running
    one: its exit code and error message. *)
Variable exists_ : string → bool.
Variable current_path : option string.
Variable findProgramByName : string → option string → option string.
Variable writeTempFile : string → string → ErrorOr string.
Variable writeToOutput : string → string → option string.
Variable ExecuteAndWait : string → list string → Z * string.
(** The code [State::reportError] returns; the host of the compiler. *)
Variable failure : Z.
Variable hostIsApple : bool.

Definition report {A} (msg : string) : Build A := _ ← emit (ReportError msg); exit failure.
Definition orReport {A} (e : ErrorOr A) (describe : string → string) : Build A :=
  match e with Success a => mret a | Error msg => report (describe msg) end.

Definition withTempFile {A} (pattern data : string) (describe : string → string)
    (body : string → Build A) : Build A :=
  path ← orReport (writeTempFile pattern data) describe;
  _ ← emit (CreateTemp path data);
  scoped path (body path).

(** [std::filesystem::absolute]; empty when the working directory is unknown. *)
Definition absolute (p : string) : string :=
  match p, current_path with
  | String "/" _, _ => p
  | _, Some cwd => path_div cwd p
  | _, None => ""
  end.

Definition resolveOutputName (outputType : OutputType) (triple : string) (args : Arguments) : string :=
  let name := defaultOutputName outputType triple (input args) in
  default match current_path with Some cwd => path_div cwd name | None => name end (output args).

Definition findBundledLinker (linkerFilename : string) : Build (option string) :=
  lld ← query (getLLDPath GetEnv findConfigWithRunfiles overrides);
  let installBin := parent_path lld in
  mret (if isEmpty installBin then findProgramByName linkerFilename None
        else match findProgramByName linkerFilename (Some installBin) with
             | Some found => Some found
             | None => findProgramByName linkerFilename None
             end).

Definition resolveLinker (triple : string) : Build string :=
  let linkerFilename := if isOSWindows triple then "lld-link" else "cc" in
  configured ← query (getLinkerDriver GetEnv findConfigWithRunfiles overrides);
  if negb (isEmpty configured) then mret configured else
  found ← (if isOSWindows triple then findBundledLinker linkerFilename
           else mret (findProgramByName linkerFilename None));
  match found with
  | Some linker => mret linker
  | None => report ("unable to find '" ++ linkerFilename ++ "' for linking")
  end.

Definition runTool (program : string) (args : list string) : Build (Z * string) :=
  _ ← emit (Run program args); mret (ExecuteAndWait program args).
Definition colon (errorMsg : string) : string := if isEmpty errorMsg then "" else ": " ++ errorMsg.

Definition generateDSYM (binaryOutputPath : string) : Build Z :=
  match findProgramByName "xcrun" None with
  | None => report "unable to find xcrun"
  | Some xcrun =>
      '(code, errorMsg) ← runTool xcrun
        [xcrun; "dsymutil"; binaryOutputPath; "-o"; binaryOutputPath ++ ".dSYM"];
      if negb (code =? 0) then report ("failed to create dSYM bundle" ++ colon errorMsg) else mret 0
  end.

(** What follows once the temporary files are written. *)
Definition invokeLinker (outputType : OutputType) (options : Options) (extraLinkerArgs : list string)
    (linker outputName archivePath manifestPath : string) : Build Z :=
  let triple := targetTriple options in
  compilerRTPath ← query (if isOSWindows triple
                          then getCompilerRTImportLibraryPath GetEnv findConfigWithRunfiles overrides
                          else getCompilerRTPath GetEnv findConfigWithRunfiles getSharedLibraryName overrides);
  if negb (exists_ compilerRTPath)
  then report ("unable to locate Mojo CompilerRT library at '" ++ compilerRTPath ++ "'") else
  systemLibs ← query (appendSystemLibraryLinkArgs GetEnv findConfigWithRunfiles overrides []);
  sharedLibArgs ← query (appendSharedLibraryLinkArgs GetEnv findConfigWithRunfiles exists_ overrides []
                           (getSharedLibraryFileName triple));
  command ← orReport (linkerArgs outputType options linker archivePath compilerRTPath outputName
                        manifestPath systemLibs sharedLibArgs extraLinkerArgs) id;
  '(linkExitCode, errorMsg) ← runTool linker command;
  if negb (linkExitCode =? 0) then
    report ((if bool_decide (outputType = executable) then "failed to link executable"
             else "failed to produce dynamic library") ++ colon errorMsg)
  else if hostIsApple && isOSDarwin triple && debugInfo options then generateDSYM outputName
  else mret 0.

Definition linkOutput (outputType : OutputType) (args : Arguments) (options : Options) (archive : string)
    (configOr : ErrorOr KV) : Build Z :=
  let triple := targetTriple options in
  kv ← orReport configOr (fun msg => "failed to parse 'modular.cfg': " ++ msg);
  _ ← (fun w => (inl tt, mkWorld kv (log w)) : (unit + Z) * World);
  let outputName := resolveOutputName outputType triple args in
  let outputDirPath := parent_path (absolute outputName) in
  if negb (exists_ outputDirPath)
  then report ("unable to write file. The path '" ++ outputDirPath ++ "' does not exist.") else
  linker ← resolveLinker triple;
  if bool_decide (outputType = object) then
    match writeToOutput outputName archive with
    | Some msg => report ("unable to write object file: " ++ msg)
    | None => _ ← emit (WriteOutput outputName archive); mret 0
    end
  else
    withTempFile ("mojo_archive-%%%%%%%" ++ getStaticArchiveExtension triple) archive
      (fun msg => "unable to write temporary files for linking: " ++ msg) (fun archivePath =>
    if isOSWindows triple && bool_decide (outputType = executable) then
      withTempFile "mojo_manifest-%%%%%%%.res"
        (ResourceFile.buildWindowsManifestResource ResourceFile.kWindowsManifest)
        (fun msg => "unable to write a temporary manifest resource for linking: " ++ msg)
        (invokeLinker outputType options (xlinker args) linker outputName archivePath)
    else invokeLinker outputType options (xlinker args) linker outputName archivePath "").

(** The exit code: returned early or at the end. *)
Definition exitCode (r : (Z + Z) * World) : Z := match fst r with inl c | inr c => c end.

End Link.
End Names.
End LinkOutput.
