(* ===== verification/LinkProps.v ===== *)
(** Properties of LinkOutput.v: what is reported and returned, the life of the
    temporary files, and the command line for Windows. *)
From S2P Require Import Prelude StringRef Configuration MojoConfig ResourceFile LinkOutput.

#[local] Open Scope string_scope.
#[local] Open Scope Z_scope.

Module LinkProps.
Import Config MojoConfig LinkOutput.

#[local] Abbreviation length := List.length (only parsing).

(** ** Computations and the events they add *)

(** [m] ends with a result and new events that satisfy [post]. *)
Definition Emits {A} (m : Build A) (post : A + Z → list Event → Prop) : Prop :=
  ∀ w, ∃ new, log (snd (m w)) = (log w ++ new)%list ∧ post (fst (m w)) new.

(** A condition that holds of no events and of two runs, one after the other. *)
Class Composes (post : ∀ A : Type, A + Z → list Event → Prop) := {
  post_ret : ∀ A (a : A), post A (inl a) [];
  post_seq : ∀ A B (a : A) (r : B + Z) new new',
    post A (inl a) new → post B r new' → post B r (new ++ new')%list;
  post_exit : ∀ A B c new, post A (inr c) new → post B (inr c) new
}.

Section Composed.
Context (post : ∀ A : Type, A + Z → list Event → Prop) `{Composes post}.

Lemma Emits_ret {A} (a : A) : Emits (mret a) (post _).
Proof. intros w. exists []. rewrite app_nil_r. split; [done|apply post_ret]. Qed.

Lemma Emits_bind {A B} (m : Build A) (f : A → Build B) :
  Emits m (post _) → (∀ a, Emits (f a) (post _)) → Emits (m ≫= f) (post _).
Proof.
  intros Hm Hf w. destruct (Hm w) as (new & Hl & Hp). unfold mbind, Build_bind.
  destruct (m w) as [[a|c] w'] eqn:E; simpl in *.
  - destruct (Hf a w') as (new' & Hl' & Hp'). exists (new ++ new')%list.
    rewrite Hl', Hl, app_assoc. split; [done|]. eapply post_seq; eauto.
  - exists new. split; [done|]. eapply post_exit; eauto.
Qed.

Lemma Emits_query {A} (q : State KV A) : Emits (query q) (post _).
Proof.
  intros w. unfold query. destruct (q (config w)) as [a kv]. exists []. simpl. rewrite app_nil_r.
  split; [done|apply post_ret].
Qed.

Lemma Emits_emit (e : Event) : post _ (inl tt) [e] → Emits (emit e) (post _).
Proof. intros He w. by exists [e]. Qed.

Lemma Emits_report {A} failure msg :
  post A (inr failure) [ReportError msg] → Emits (report failure msg : Build A) (post _).
Proof. intros He w. by exists [ReportError msg]. Qed.

Lemma Emits_orReport {A} failure (e : ErrorOr A) describe :
  (∀ msg, post A (inr failure) [ReportError msg]) → Emits (orReport failure e describe) (post _).
Proof. intros He. destruct e; simpl; [apply Emits_ret|by apply Emits_report]. Qed.

Lemma Emits_load kv : Emits (fun w => (inl tt, mkWorld kv (log w))) (post _).
Proof. intros w. exists []. simpl. rewrite app_nil_r. split; [done|apply post_ret]. Qed.

End Composed.

(** ** Errors and exit codes *)

Definition errors (new : list Event) : list string :=
  omap (fun e => match e with ReportError msg => Some msg | _ => None end) new.

(** Going on without an error, or returning [failure] after one. *)
Definition Reported (failure : Z) {A} (r : A + Z) (new : list Event) : Prop :=
  match r with
  | inl _ => errors new = []
  | inr code => code = failure ∧ ∃ msg, errors new = [msg]
  end.

#[export] Instance Reported_composes failure : Composes (@Reported failure).
Proof.
  split; [done| |done]. intros A B a r new new' H1 H2. unfold Reported, errors in *.
  destruct r; rewrite omap_app, H1; exact H2.
Qed.

Lemma Reported_scoped failure {A} path (body : Build A) :
  Emits body (Reported failure) → Emits (scoped path body) (Reported failure).
Proof.
  intros Hb w. destruct (Hb w) as (new & Hl & Hp). unfold scoped. destruct (body w) as [r w']. simpl in *.
  exists (new ++ [RemoveTemp path])%list. rewrite Hl, app_assoc. split; [done|].
  unfold Reported, errors in *. destruct r; rewrite omap_app, app_nil_r; exact Hp.
Qed.

(** ** Temporary files *)

(** The live temporary files, the newest first, through a run: each is removed
    when it is the newest. *)
Fixpoint replay (live : list string) (events : list Event) : option (list string) :=
  match events with
  | [] => Some live
  | CreateTemp path _ :: events => replay (path :: live) events
  | RemoveTemp path :: events =>
      match live with
      | newest :: live => if String.eqb newest path then replay live events else None
      | [] => None
      end
  | _ :: events => replay live events
  end.

Definition isTemp (e : Event) : bool := match e with CreateTemp _ _ | RemoveTemp _ => true | _ => false end.
Definition isRemoval (e : Event) : bool := match e with RemoveTemp _ => true | _ => false end.
Definition Plain {A} (_ : A + Z) (new : list Event) : Prop := Forall (fun e => isTemp e = false) new.

#[export] Instance Plain_composes : Composes (@Plain).
Proof. split; [constructor| |done]. intros A B a r new new'. apply Forall_app_2. Qed.

(** Every file created is removed, newest first, and after everything else. *)
Definition Owned {A} (_ : A + Z) (new : list Event) : Prop :=
  (∀ live, replay live new = Some live)
  ∧ ∃ pre post, new = (pre ++ post)%list
      ∧ Forall (fun e => isRemoval e = false) pre ∧ Forall (fun e => isRemoval e = true) post.

Lemma replay_app live l k :
  replay live (l ++ k)%list = match replay live l with Some live' => replay live' k | None => None end.
Proof.
  revert live. induction l as [|[] l IH]; intros live; simpl; try done.
  destruct live as [|newest live]; [done|]. by destruct (String.eqb newest path).
Qed.

Lemma replay_plain live l : Forall (fun e => isTemp e = false) l → replay live l = Some live.
Proof. induction 1 as [|[] l He Hl IH]; simpl in *; done. Qed.

Lemma plain_no_removal l : Forall (fun e => isTemp e = false) l → Forall (fun e => isRemoval e = false) l.
Proof. intros H. eapply Forall_impl; [exact H|]. by intros []. Qed.

Lemma Plain_Owned {A} (m : Build A) : Emits m Plain → Emits m Owned.
Proof.
  intros Hm w. destruct (Hm w) as (new & Hl & Hp). exists new. split; [done|]. split.
  - intros live. by apply replay_plain.
  - exists new, []. rewrite app_nil_r. split_and!; [done|by apply plain_no_removal|done].
Qed.

Lemma Owned_bind {A B} (m : Build A) (f : A → Build B) :
  Emits m Plain → (∀ a, Emits (f a) Owned) → Emits (m ≫= f) Owned.
Proof.
  intros Hm Hf w. destruct (Hm w) as (new & Hl & Hp). unfold mbind, Build_bind.
  destruct (m w) as [[a|c] w'] eqn:E; simpl in *.
  - destruct (Hf a w') as (new' & Hl' & Hr & pre & post & -> & Hpre & Hpost).
    exists (new ++ pre ++ post)%list. rewrite Hl', Hl. split; [by rewrite <- app_assoc|]. split.
    + intros live. rewrite replay_app, replay_plain by exact Hp. exact (Hr live).
    + exists (new ++ pre)%list, post. rewrite app_assoc. split_and!; [done| |done].
      apply Forall_app_2; [by apply plain_no_removal|done].
  - exists new. split; [done|]. split; [intros live; by apply replay_plain|].
    exists new, []. rewrite app_nil_r. split_and!; [done|by apply plain_no_removal|done].
Qed.

Lemma Owned_temp {A} path data (body : Build A) :
  Emits body Owned → Emits (_ ← emit (CreateTemp path data); scoped path body) Owned.
Proof.
  intros Hb w. unfold mbind, Build_bind, emit, scoped.
  destruct (Hb (mkWorld (config w) (log w ++ [CreateTemp path data])%list))
    as (new & Hl & Hr & pre & post & -> & Hpre & Hpost).
  destruct (body _) as [r w']. simpl in *.
  exists (CreateTemp path data :: (pre ++ post) ++ [RemoveTemp path])%list. split; [|split].
  - rewrite Hl, <- !app_assoc. done.
  - intros live. cbn [replay]. rewrite replay_app, Hr. simpl. by rewrite String.eqb_refl.
  - exists (CreateTemp path data :: pre), (post ++ [RemoveTemp path])%list. split_and!.
    + by rewrite <- app_assoc.
    + by constructor.
    + apply Forall_app_2; [done|by repeat constructor].
Qed.

(** ** linkOutput *)

Section Link.
Context {SR : StringRefOps}.
Variables isOSWindows isOSDarwin isX86_64 : string → bool.
Variable getArchName : string → string.
Variable GetEnv : string → option string.
Variable findConfigWithRunfiles : string → option string.
Variable overrides : KV.
Variable getSharedLibraryName : string → string.
Variable exists_ : string → bool.
Variable current_path : option string.
Variable findProgramByName : string → option string → option string.
Variable writeTempFile : string → string → ErrorOr string.
Variable writeToOutput : string → string → option string.
Variable ExecuteAndWait : string → list string → Z * string.
Variable failure : Z.
Variable hostIsApple : bool.

Abbreviation invokeLinker' := (invokeLinker isOSWindows isOSDarwin isX86_64 getArchName GetEnv
  findConfigWithRunfiles overrides getSharedLibraryName exists_ findProgramByName ExecuteAndWait failure hostIsApple).
Abbreviation linkOutput' := (linkOutput isOSWindows isOSDarwin isX86_64 getArchName GetEnv
  findConfigWithRunfiles overrides getSharedLibraryName exists_ current_path findProgramByName writeTempFile
  writeToOutput ExecuteAndWait failure hostIsApple).

(** The rules for one post-condition of the events. *)
Section Rules.
Context (post : ∀ A : Type, A + Z → list Event → Prop) `{Composes post}.
Hypothesis post_error : ∀ A msg, post A (inr failure) [ReportError msg].
Hypothesis post_run : ∀ program args, post _ (inl tt) [Run program args].
Hypothesis post_write : ∀ path data, post _ (inl tt) [WriteOutput path data].

Local Ltac step :=
  first
    [ apply Emits_ret; assumption | apply Emits_query; assumption
    | apply Emits_report; apply post_error | apply Emits_orReport; [assumption|intros; apply post_error]
    | apply Emits_emit; auto | apply Emits_load; assumption
    | apply Emits_bind; [assumption| |intros] ].
Local Ltac steps := repeat first [step | case_match].

Lemma Emits_runTool program args : Emits (runTool ExecuteAndWait program args) (post _).
Proof. unfold runTool. steps. Qed.

Lemma Emits_resolveLinker triple : Emits (resolveLinker isOSWindows GetEnv findConfigWithRunfiles overrides
  findProgramByName failure triple) (post _).
Proof. unfold resolveLinker, findBundledLinker. steps. Qed.

Lemma Emits_invokeLinker ot options extra linker out archivePath manifestPath :
  Emits (invokeLinker' ot options extra linker out archivePath manifestPath) (post _).
Proof.
  unfold invokeLinker, generateDSYM. apply Emits_bind; [done|steps|intros rt]. case_match; [steps|].
  repeat (apply Emits_bind; [done|first [apply Emits_runTool|steps]|intros]).
  case_match. case_match; [steps|]. case_match; [|steps]. case_match; [|steps].
  apply Emits_bind; [done|apply Emits_runTool|]. intros []. steps.
Qed.

Lemma Emits_linkOutput_object args options archive configOr :
  Emits (linkOutput' object args options archive configOr) (post _).
Proof.
  unfold linkOutput. apply Emits_bind; [done|steps|intros kv]. apply Emits_bind; [done|steps|intros _].
  case_match; [steps|]. apply Emits_bind; [done|apply Emits_resolveLinker|intros linker].
  rewrite bool_decide_true by done. steps.
Qed.

End Rules.

(** ** Success *)

(** A computation that ends well has done [goal] and returns 0. *)
Definition Built (goal : Event → Prop) (r : Z + Z) (new : list Event) : Prop :=
  match r with inl code => code = 0 ∧ Exists goal new | inr _ => True end.
Definition Zero (r : Z + Z) (_ : list Event) : Prop :=
  match r with inl code => code = 0 | inr _ => True end.
Definition Any {A} (_ : A + Z) (_ : list Event) : Prop := True.
#[local] Instance Any_composes : Composes (@Any).
Proof. by split. Qed.

Lemma Built_bind {A} goal (m : Build A) (f : A → Build Z) :
  Emits m Any → (∀ a, Emits (f a) (Built goal)) → Emits (m ≫= f) (Built goal).
Proof.
  intros Hm Hf w. destruct (Hm w) as (new & Hl & _). unfold mbind, Build_bind.
  destruct (m w) as [[a|c] w'] eqn:E; simpl in *; [|by exists new].
  destruct (Hf a w') as (new' & Hl' & Hp). exists (new ++ new')%list.
  rewrite Hl', Hl. split; [by rewrite <- app_assoc|].
  destruct (fst (f a w')); [|done]. destruct Hp as [-> He]. split; [done|]. apply Exists_app. by right.
Qed.

Lemma Built_exit {A} goal (m : Build A) (f : A → Build Z) : Emits m Any →
  (∀ w, ∃ c, fst (m w) = inr c) → Emits (m ≫= f) (Built goal).
Proof.
  intros Hm Hc w. destruct (Hm w) as (new & Hl & _), (Hc w) as [c Hr]. unfold mbind, Build_bind.
  destruct (m w) as [r w']. simpl in *. subst r. by exists new.
Qed.

Lemma Built_report goal msg : Emits (report failure msg) (Built goal).
Proof. intros w. by exists [ReportError msg]. Qed.

Lemma Built_scoped goal path (body : Build Z) : Emits body (Built goal) → Emits (scoped path body) (Built goal).
Proof.
  intros Hb w. destruct (Hb w) as (new & Hl & Hp). unfold scoped. destruct (body w) as [r w']. simpl in *.
  exists (new ++ [RemoveTemp path])%list. rewrite Hl, app_assoc. split; [done|].
  destruct r; [|done]. destruct Hp as [-> He]. split; [done|]. apply Exists_app. by left.
Qed.

Lemma Built_done (goal : Event → Prop) e (rest : Build Z) :
  goal e → Emits rest Zero →
  Emits (_ ← emit e; rest) (Built goal).
Proof.
  intros He Hr w. unfold mbind, Build_bind, emit.
  destruct (Hr (mkWorld (config w) (log w ++ [e])%list)) as (new & Hl & Hp). exists (e :: new).
  rewrite Hl. simpl. rewrite <- app_assoc. split; [done|]. destruct (fst (rest _)); [|done].
  subst. split; [done|]. by constructor.
Qed.

(** A run of the linker that succeeded. *)
Definition linked (e : Event) : Prop :=
  match e with Run program args => fst (ExecuteAndWait program args) = 0 | _ => False end.
Definition written (archive : string) (e : Event) : Prop :=
  match e with WriteOutput _ data => data = archive | _ => False end.

Ltac any :=
  repeat first
    [ apply Emits_ret; apply _ | apply Emits_query; apply _ | apply Emits_report; done
    | apply Emits_orReport; [apply _|done] | apply Emits_emit; done | apply Emits_load; apply _
    | apply Emits_bind; [apply _| |intros] | case_match ].

Lemma Zero_bind {A} (m : Build A) (f : A → Build Z) :
  Emits m Any → (∀ a, Emits (f a) Zero) → Emits (m ≫= f) Zero.
Proof.
  intros Hm Hf w. destruct (Hm w) as (new & Hl & _). unfold mbind, Build_bind.
  destruct (m w) as [[a|c] w'] eqn:E; simpl in *; [|by exists new].
  destruct (Hf a w') as (new' & Hl' & Hp). exists (new ++ new')%list.
  rewrite Hl', Hl. split; [by rewrite <- app_assoc|done].
Qed.

Lemma Zero_ret : Emits (mret 0) Zero.
Proof. intros w. exists []. by rewrite app_nil_r. Qed.
Lemma Zero_report msg : Emits (report failure msg) Zero.
Proof. intros w. by exists [ReportError msg]. Qed.

Lemma Zero_generateDSYM out : Emits (generateDSYM findProgramByName ExecuteAndWait failure out) Zero.
Proof.
  unfold generateDSYM. case_match; [|apply Zero_report].
  apply Zero_bind; [any|]. intros [code errorMsg]. case_match; [apply Zero_report|apply Zero_ret].
Qed.

Lemma Built_run program args (k : Z * string → Build Z) :
  let result := ExecuteAndWait program args in
  (fst result = 0 → Emits (k result) Zero) → (fst result ≠ 0 → ∃ msg, k result = report failure msg) →
  Emits (runTool ExecuteAndWait program args ≫= k) (Built linked).
Proof.
  cbv zeta. intros Hok Hbad w.
  assert ((runTool ExecuteAndWait program args ≫= k) w
    = k (ExecuteAndWait program args) (mkWorld (config w) (log w ++ [Run program args]))) as -> by done.
  destruct (decide (fst (ExecuteAndWait program args) = 0)) as [He|He].
  - destruct (Hok He (mkWorld (config w) (log w ++ [Run program args])%list)) as (new & Hl & Hp).
    exists (Run program args :: new). rewrite Hl. cbn [log]. rewrite <- app_assoc. split; [done|].
    destruct (fst (k _ _)); [|done]. simpl in Hp. subst. split; [done|]. by constructor.
  - destruct (Hbad He) as [msg ->]. exists ([Run program args] ++ [ReportError msg])%list.
    split; [|done]. rewrite app_assoc. done.
Qed.

Lemma Built_invokeLinker ot options extra linker out archivePath manifestPath :
  Emits (invokeLinker' ot options extra linker out archivePath manifestPath) (Built linked).
Proof.
  unfold invokeLinker. apply Built_bind; [any|intros rt]. case_match; [apply Built_report|].
  do 3 (apply Built_bind; [any|intros ?]).
  apply Built_run; destruct (ExecuteAndWait _ _) as [code errorMsg]; simpl fst; intros Hcode.
  - subst code. cbn [Z.eqb negb]. case_match; [apply Zero_generateDSYM|apply Zero_ret].
  - rewrite (proj2 (Z.eqb_neq _ _) Hcode). by eexists.
Qed.

Definition goalOf (ot : OutputType) (archive : string) : Event → Prop :=
  if bool_decide (ot = object) then written archive else linked.

Lemma Built_linkOutput ot args options archive configOr :
  Emits (linkOutput' ot args options archive configOr) (Built (goalOf ot archive)).
Proof.
  unfold linkOutput, goalOf. apply Built_bind; [any|intros kv]. apply Built_bind; [any|intros _].
  case_match; [apply Built_report|].
  apply Built_bind; [apply (Emits_resolveLinker (@Any)); done|intros linker].
  case_bool_decide.
  - case_match; [apply Built_report|]. apply Built_done; [done|apply Zero_ret].
  - unfold withTempFile. apply Built_bind; [any|intros path]. apply Built_bind; [any|intros _].
    apply Built_scoped. case_match; [|apply Built_invokeLinker].
    apply Built_bind; [any|intros mpath]. apply Built_bind; [any|intros _].
    apply Built_scoped, Built_invokeLinker.
Qed.

(** ** Properties *)

Lemma Reported_temp {A} pattern data describe (body : string → Build A) :
  (∀ path, Emits (body path) (Reported failure)) →
  Emits (withTempFile writeTempFile failure pattern data describe body) (Reported failure).
Proof.
  intros Hb. unfold withTempFile. apply (Emits_bind (@Reported failure)); [|intros path].
  - apply (Emits_orReport (@Reported failure)). intros msg. split; [done|]. by exists msg.
  - apply (Emits_bind (@Reported failure)); [by apply (Emits_emit (@Reported failure))|intros _]. by apply Reported_scoped.
Qed.

Lemma Reported_linkOutput ot args options archive configOr :
  Emits (linkOutput' ot args options archive configOr) (Reported failure).
Proof.
  assert (Herr : ∀ A msg, @Reported failure A (inr failure) [ReportError msg]).
  { intros A msg. split; [done|]. by exists msg. }
  destruct (decide (ot = object)) as [->|Hne]; [apply (Emits_linkOutput_object (@Reported failure)); done|].
  unfold linkOutput. apply (Emits_bind (@Reported failure)); [apply (Emits_orReport (@Reported failure)); auto|intros kv].
  apply (Emits_bind (@Reported failure)); [apply (Emits_load (@Reported failure))|intros _].
  case_match; [by apply (Emits_report (@Reported failure))|].
  apply (Emits_bind (@Reported failure)); [by apply (Emits_resolveLinker (@Reported failure))|intros linker].
  rewrite bool_decide_false by done. apply Reported_temp. intros path.
  case_match; [apply Reported_temp; intros mpath|]; by apply (Emits_invokeLinker (@Reported failure)).
Qed.

Lemma Owned_linkOutput ot args options archive configOr :
  Emits (linkOutput' ot args options archive configOr) Owned.
Proof.
  assert (Herr : ∀ A msg, @Plain A (inr failure) [ReportError msg]) by (intros; by repeat constructor).
  assert (Hrun : ∀ program args, Plain (inl tt : unit + Z) [Run program args]) by (intros; by repeat constructor).
  destruct (decide (ot = object)) as [->|Hne].
  { apply Plain_Owned, (Emits_linkOutput_object (@Plain)); try done. intros. by repeat constructor. }
  unfold linkOutput. apply Owned_bind; [apply (Emits_orReport (@Plain)); auto|intros kv].
  apply Owned_bind; [apply (Emits_load (@Plain))|intros _].
  case_match; [apply Plain_Owned, (Emits_report (@Plain)); auto|].
  apply Owned_bind; [by apply (Emits_resolveLinker (@Plain))|intros linker].
  rewrite bool_decide_false by done.
  assert (Htemp : ∀ pattern data describe (body : string → Build Z), (∀ path, Emits (body path) Owned) →
    Emits (withTempFile writeTempFile failure pattern data describe body) Owned).
  { intros pattern data describe body Hb. unfold withTempFile.
    apply Owned_bind; [apply (Emits_orReport (@Plain)); auto|intros path]. by apply Owned_temp. }
  apply Htemp. intros path.
  case_match; [apply Htemp; intros mpath|]; by apply Plain_Owned, (Emits_invokeLinker (@Plain)).
Qed.

(** C38: [linkOutput] returns 0 exactly when it has reported nothing, and then
    it has done its work: for an object file the archive is written to the
    output; otherwise a linker was run and returned 0.  In every other case it
    returns the failure code after reporting exactly one error. *)
Theorem link_exit_code ot args options archive configOr w :
  failure ≠ 0 →
  let r := linkOutput' ot args options archive configOr w in
  ∃ new, log (snd r) = (log w ++ new)%list
  ∧ (exitCode r = 0 ↔ errors new = [])
  ∧ (exitCode r = 0 → Exists (goalOf ot archive) new)
  ∧ (exitCode r ≠ 0 → exitCode r = failure ∧ ∃ msg, errors new = [msg]).
Proof.
  intros Hf r. subst r. destruct (Reported_linkOutput ot args options archive configOr w) as (new & Hl & Hp).
  destruct (Built_linkOutput ot args options archive configOr w) as (new' & Hl' & Hb).
  assert (new' = new) as -> by (rewrite Hl in Hl'; by apply app_inv_head in Hl').
  exists new. split; [done|]. unfold exitCode. destruct (fst _) as [c|c]; simpl in *.
  - destruct Hb as [-> He]. split_and!; [done|done|done].
  - destruct Hp as [-> [msg Hm]]. split_and!; [split; [done|by rewrite Hm]|done|eauto].
Qed.

(** Whatever happens in [linkOutput], errors included, the temporary files
    it created are removed again, the newest first, and only after everything
    else it does: the linker never runs on an archive or a manifest that is
    already gone, and none is left behind. *)
Theorem link_temp_files ot args options archive configOr w :
  ∃ pre post, log (snd (linkOutput' ot args options archive configOr w)) = (log w ++ pre ++ post)%list
  ∧ Forall (fun e => isRemoval e = false) pre ∧ Forall (fun e => isRemoval e = true) post
  ∧ replay [] (pre ++ post) = Some [].
Proof.
  destruct (Owned_linkOutput ot args options archive configOr w) as (new & Hl & Hr & pre & post & -> & H1 & H2).
  exists pre, post. rewrite Hl. split_and!; [done|done|done|apply Hr].
Qed.

End Link.

(** ** The command line for Windows *)

Section CommandLine.
Context {SR : StringRefOps}.
Variables isOSWindows isOSDarwin isX86_64 : string → bool.
Variable getArchName : string → string.

Definition isCRT (lib : string) : bool := existsb (equals_insensitive lib) kWindowsCRTLibs.
Definition crtChoices (args : list string) : list string := List.filter isCRT args.

Lemma isCRT_eq lib : isCRT lib =
  existsb (fun crt => String.eqb (string_map to_lower lib) (string_map to_lower crt)) kWindowsCRTLibs.
Proof. unfold isCRT, equals_insensitive. simpl. by rewrite !lower_spec. Qed.

Lemma crtChoices_none args : Forall (fun a => isCRT a = false) args → crtChoices args = [].
Proof. induction 1 as [|a args Ha _ IH]; [done|]. unfold crtChoices. simpl. by rewrite Ha. Qed.

Lemma crtChoices_app a b : crtChoices (a ++ b)%list = (crtChoices a ++ crtChoices b)%list.
Proof. apply List.filter_app. Qed.

Lemma keepShared_default lib bindings :
  "-Xlinker" ∉ bindings → keepShared true (["-Xlinker"; "-rpath"; "-Xlinker"; lib] ++ bindings) = bindings.
Proof.
  intros Hb. cbn [keepShared app]. simpl. induction bindings as [|b bindings IH]; [done|].
  apply not_elem_of_cons in Hb as [Hne Hb]. cbn [keepShared].
  rewrite (proj2 (String.eqb_neq b "-Xlinker")) by done. simpl. by rewrite IH.
Qed.

Lemma userArgs_Xlinker extra : "-Xlinker" ∈ userArgs extra ↔ extra ≠ [].
Proof. destruct extra; simpl; [by rewrite elem_of_nil|]. split; [done|]. intros _. left. Qed.

(** A word that names no runtime and is not meant for a compiler driver. *)
Definition plainArg (a : string) : Prop := isCRT a = false ∧ a ≠ "-Xlinker".
Local Ltac plain_word := split; [rewrite isCRT_eq; reflexivity|discriminate].
Local Ltac words :=
  repeat (apply Forall_cons_2; [first [assumption|plain_word]|]); apply Forall_nil_2.

Lemma plain_crtChoices args : Forall plainArg args → crtChoices args = [] ∧ "-Xlinker" ∉ args.
Proof.
  intros H. split.
  - apply crtChoices_none. eapply Forall_impl; [exact H|]. by intros ? [].
  - intros Hin. rewrite Forall_forall in H. by destruct (H _ Hin).
Qed.

Lemma plain_initial ot triple linker archivePath compilerRTPath : isOSWindows triple = true →
  Forall plainArg [linker; archivePath; ("/WHOLEARCHIVE:" ++ archivePath)%string; compilerRTPath] →
  Forall plainArg (initialArgs isOSWindows isOSDarwin ot triple linker archivePath compilerRTPath).
Proof.
  intros Hw H. rewrite !Forall_cons in H. destruct H as (H1 & H2 & H3 & H4 & _). unfold initialArgs. rewrite Hw.
  assert (plainArg "/DLL") by plain_word. destruct ot; words.
Qed.

Lemma plain_platform options outputName manifestPath systemLibs platform :
  plainArg ("/out:" ++ outputName) → plainArg manifestPath →
  windowsArgs isX86_64 getArchName options outputName manifestPath systemLibs = Success platform →
  crtChoices platform = (if haveCRT systemLibs then [] else ["libcmt.lib"]) ∧ "-Xlinker" ∉ platform.
Proof.
  intros Ho Hm H. unfold windowsArgs, check in H. destruct (isX86_64 _); [|done].
  destruct (negb _); [|done]. cbn [mbind ErrorOr_bind] in H.
  apply (f_equal (fun r => match r with Success l => l | Error _ => [] end)) in H. cbv beta iota in H. subst platform.
  assert (Hpre : Forall plainArg ([("/out:" ++ outputName)%string; "/nologo"; "/SUBSYSTEM:CONSOLE"]
    ++ (if isEmpty manifestPath then [] else [manifestPath]) ++ ["/IGNORE:4001"])%list).
  { destruct (isEmpty manifestPath); words. }
  assert (Hpost : Forall plainArg (["/machine:X64"] ++ (if debugInfo options then ["/DEBUG"] else []))%list).
  { destruct (debugInfo options); words. }
  apply plain_crtChoices in Hpre as [P1 P2], Hpost as [Q1 Q2].
  rewrite !crtChoices_app in P1. rewrite crtChoices_app in Q1. rewrite !crtChoices_app.
  apply app_eq_nil in P1 as [-> [-> ->]%app_eq_nil]. rewrite Q1.
  rewrite !elem_of_app in *.
  destruct (haveCRT systemLibs).
  - split; [done|set_solver].
  - split; [|set_solver]. unfold crtChoices. simpl. by rewrite !isCRT_eq.
Qed.

Lemma plain_strip triple : isOSWindows triple = true → isOSDarwin triple = false →
  Forall plainArg (stripArgs isOSWindows isOSDarwin triple).
Proof. intros Hw Hd. unfold stripArgs. rewrite Hw, Hd. words. Qed.

(** Linking for Windows fails for an architecture other than x86_64 and for
    a sanitizer, and only then.  Otherwise one C runtime is chosen: those that
    the configured system libraries name, in any case of letters, or libcmt
    when they name none (the user's own flags come after both).  The rpath
    words of the default configuration are gone; but "-Xlinker", a word for a
    compiler driver and none that lld-link knows, is still in the command
    exactly when the user passes a linker flag. *)
Theorem windows_link_line ot options linker archivePath compilerRTPath outputName manifestPath
    systemLibs lib bindings extra :
  isOSWindows (targetTriple options) = true → isOSDarwin (targetTriple options) = false →
  Forall plainArg [linker; archivePath; ("/WHOLEARCHIVE:" ++ archivePath)%string; compilerRTPath] →
  Forall plainArg (("/out:" ++ outputName)%string :: manifestPath :: bindings) →
  "-Xlinker" ∉ systemLibs →
  match linkerArgs isOSWindows isOSDarwin isX86_64 getArchName ot options linker archivePath compilerRTPath
          outputName manifestPath systemLibs (["-Xlinker"; "-rpath"; "-Xlinker"; lib] ++ bindings) extra with
  | Error _ => isX86_64 (targetTriple options) = false ∨ sanitizeAddress options || sanitizeThread options = true
  | Success command =>
      isX86_64 (targetTriple options) = true ∧ sanitizeAddress options || sanitizeThread options = false
      ∧ crtChoices command
        = ((if haveCRT systemLibs then crtChoices systemLibs else ["libcmt.lib"]) ++ crtChoices (userArgs extra))%list
      ∧ ("-Xlinker" ∈ command ↔ extra ≠ [])
  end.
Proof.
  intros Hw Hd Hp Hq Hs. unfold linkerArgs. rewrite Hw.
  destruct (windowsArgs _ _ _ _ _ _) as [platform|msg] eqn:E; cbn [mbind ErrorOr_bind].
  - assert (isX86_64 (targetTriple options) = true ∧ sanitizeAddress options || sanitizeThread options = false)
      as [Hx Hsan].
    { unfold windowsArgs, check in E. destruct (isX86_64 _); [|done].
      by destruct (sanitizeAddress options || sanitizeThread options). }
    split_and!; [done|done| |]; apply Forall_cons in Hq as [Ho [Hm Hb]%Forall_cons];
      apply plain_crtChoices in Hb as [B1 B2]; rewrite keepShared_default by done;
      pose proof (plain_platform _ _ _ _ _ Ho Hm E) as [P1 P2];
      destruct (plain_crtChoices _ (plain_initial ot _ _ _ _ Hw Hp)) as [I1 I2];
      destruct (plain_crtChoices _ (plain_strip _ Hw Hd)) as [S1 S2].
    + rewrite !crtChoices_app, I1, B1, P1, S1. cbn [app]. destruct (haveCRT systemLibs) eqn:Hh; [done|].
      rewrite (crtChoices_none systemLibs); [done|]. clear -Hh. unfold haveCRT in Hh.
      induction systemLibs as [|l ls IH]; [done|]. simpl in Hh. apply orb_false_iff in Hh as [H1 H2].
      constructor; [exact H1|auto].
    + rewrite !elem_of_app, userArgs_Xlinker. tauto.
  - unfold windowsArgs, check in E. destruct (isX86_64 _) eqn:Hx; [|by left]. right.
    by destruct (sanitizeAddress options || sanitizeThread options).
Qed.
End CommandLine.

(** ** Witnesses *)

(** A Linux host that links for Windows with everything in place. *)
Definition windowsTriple (triple : string) : bool := hasSuffix "windows-msvc" triple.
Definition noTool (_ : string) : bool := false.
Definition everyTriple (_ : string) : bool := true.
Definition noEnv (_ : string) : option string := None.
Definition toolAt (name : string) (dir : option string) : option string :=
  Some (default "/usr/bin" dir ++ "/" ++ name)%string.
Definition tempAt (pattern _ : string) : ErrorOr string := Success ("/tmp/" ++ pattern)%string.
Definition runsWell (_ : string) (_ : list string) : Z * string := (0, "").
Definition writesWell (_ _ : string) : option string := None.
Definition release : Options := mkOptions "x86_64-pc-windows-msvc" true false false "" false.
Definition hello : Arguments := mkArguments "src/hello.mojo" None [].

Lemma link_exit_code_witness :
  let r := @linkOutput llvm_stringref windowsTriple noTool everyTriple id noEnv noEnv ∅ id everyTriple
    (Some "/work") toolAt tempAt writesWell runsWell 1 false executable hello release "!<arch>" (Success ∅)
    (mkWorld ∅ []) in
  ∃ new, log (snd r) = new ∧ exitCode r = 0
  ∧ Exists (goalOf runsWell executable "!<arch>") new.
Proof.
  destruct (@link_exit_code llvm_stringref windowsTriple noTool everyTriple id noEnv noEnv ∅ id everyTriple
    (Some "/work") toolAt tempAt writesWell runsWell 1 false executable hello release "!<arch>" (Success ∅)
    (mkWorld ∅ []) ltac:(discriminate)) as (new & Hl & _ & Hgoal & _).
  exists new. split; [exact Hl|]. split; [vm_compute; reflexivity|].
  apply Hgoal. vm_compute. reflexivity.
Defined.

Lemma windows_link_line_witness :
  ∃ command, @linkerArgs llvm_stringref windowsTriple noTool everyTriple id executable release
    "/usr/bin/lld-link" "/tmp/a.lib" "/lib/rt.lib" "hello.exe" "/tmp/m.res" ["MSVCRT.LIB"]
    ["-Xlinker"; "-rpath"; "-Xlinker"; "/lib"] ["/VERBOSE"] = Success command
  ∧ crtChoices (SR := llvm_stringref) command = ["MSVCRT.LIB"] ∧ "-Xlinker" ∈ command.
Proof.
  assert (H := @windows_link_line llvm_stringref windowsTriple noTool everyTriple id executable release
    "/usr/bin/lld-link" "/tmp/a.lib" "/lib/rt.lib" "hello.exe" "/tmp/m.res" ["MSVCRT.LIB"] "/lib" [] ["/VERBOSE"]).
  specialize (H eq_refl eq_refl).
  destruct (linkerArgs _ _ _ _ _ _ _ _ _ _ _ _ _ _) as [command|msg] eqn:E; [|vm_compute in E; discriminate E].
  exists command. split; [reflexivity|].
  destruct H as (_ & _ & H1 & H2).
  - repeat (constructor; [split; [vm_compute; reflexivity|discriminate]|]). constructor.
  - repeat (constructor; [split; [vm_compute; reflexivity|discriminate]|]). constructor.
  - intros H. apply list_elem_of_singleton in H. discriminate H.
  - split; [rewrite H1; vm_compute; reflexivity|]. apply H2. discriminate.
Defined.

End LinkProps.
