(* ===== verification/MojoBuild.v ===== *)
(** [mojo build] of Mojo/tools/mojo/Build/mojo-build.cpp around [linkOutput]
    (LinkOutput.v): the options that only print, the compilation of a module to
    each kind of output, and the subcommand itself.  The parser, the compiler
    and the registries of targets are parameters. *)
From stdpp Require Import sorting.
From S2P Require Import Prelude StringRef Configuration LinkOutput.

#[local] Open Scope string_scope.
#[local] Open Scope Z_scope.

Module MojoBuild.
Import Config LinkOutput.

(** ** Options that print and stop *)

(** The flags of the command line that [parseArgs] looks at itself. *)
Record Flags := mkFlags {
  help : bool; helpHidden : bool; printEffective : bool; printTargets : bool; printCpus : bool;
  printAccelerators : bool; userTriple : string
}.
Record TargetInfo := mkTargetInfo {
  tripleStr : string; arch : string; features : string; abi : string; acceleratorArch : string
}.
(** The parsed arguments, options and target, or an exit code. *)
Record Parsed := mkParsed { arguments : Arguments; options : Options; target : TargetInfo }.
Inductive CommonParseResult := ExitWith (code : Z) | ParsedArgs (p : Parsed).

(** TargetTraits: the name, the title of its section, and its architectures. *)
Record TargetTraits := mkTraits { traitsName : string; sectionTitle : string; archs : list (string * string) }.

Definition pair_le (a b : string * string) : Prop :=
  String.ltb (fst a) (fst b) || (String.eqb (fst a) (fst b) && String.leb (snd a) (snd b)) = true.
#[export] Instance pair_le_dec a b : Decision (pair_le a b).
Proof. unfold pair_le. apply _. Defined.
Definition name_le (a b : TargetTraits) : Prop := String.leb (traitsName a) (traitsName b) = true.
#[export] Instance name_le_dec a b : Decision (name_le a b).
Proof. unfold name_le. apply _. Defined.

Definition newline : string := String "010" "".
Definition spaces (n : nat) : string := Nat.iter n (String " ") "".
Definition left_justify (s : string) (width : nat) : string := s ++ spaces (width - String.length s).
Definition cat (l : list string) : string := foldr append "" l.

Section Printing.
Context {SR : StringRefOps}.
(** llvm::Triple: normalization, and the names of the components. *)
Variable normalize : string → string.
Variables archName vendorName osName envName : string → string.
(** The registries: the targets LLVM has, those with a backend here, the CPUs
    clang knows, the accelerators. *)
Variable targets : list (string * string).
Variable hasBackend : string → bool.
Variable getValidCPUsForTarget : string → list string.
Variable traits : list TargetTraits.
Variable failure : Z.

Definition normalizeTriple (tripleStr : string) : string :=
  let triple := normalize tripleStr in
  let orUnknown s := if isEmpty s then "unknown" else s in
  archName triple ++ "-" ++ orUnknown (vendorName triple) ++ "-" ++ orUnknown (osName triple)
  ++ (if isEmpty (envName triple) then "" else "-" ++ envName triple).

Definition printSupportedTargets : Build Z :=
  let found := merge_sort pair_le (List.filter (fun t => hasBackend (fst t)) targets) in
  _ ← emit (Print ("Registered Targets:" ++ newline));
  _ ← emit (Print (match found with
                   | [] => "  No targets found." ++ newline
                   | _ => cat (map (fun '(name, desc) => "  " ++ name ++ " - " ++ desc ++ newline) found)
                   end));
  mret 0.

Definition seeTargets : string := "Use --print-supported-targets to see available architectures." ++ newline.
Definition printSupportedCpus (userTriple : string) : Build Z :=
  if isEmpty userTriple then
    _ ← emit (PrintError ("error: --print-supported-cpus requires --target-triple to be specified" ++ newline));
    _ ← emit (PrintError seeTargets); mret 1
  else
    let normalized := normalizeTriple userTriple in
    match getValidCPUsForTarget normalized with
    | [] => _ ← emit (PrintError seeTargets); mret 1
    | cpus =>
        _ ← emit (Print ("Available CPUs for target " ++ normalized ++ ":" ++ newline));
        _ ← emit (Print (cat (map (fun cpu => "  " ++ cpu ++ newline) cpus))); mret 0
    end.

(** The column of one target's architectures. *)
Definition archWidth (t : TargetTraits) : nat :=
  foldl (fun width a => Nat.max width (String.length (fst a) + 2)) 12%nat (archs t).
Definition section (t : TargetTraits) : string :=
  sectionTitle t ++ newline
  ++ cat (map (fun '(a, desc) => "  " ++ left_justify a (archWidth t) ++ "- " ++ desc ++ newline) (archs t)).
Definition printSupportedAccelerators : Build Z :=
  let sections := map section
    (merge_sort name_le (List.filter (fun t => negb (isEmpty (sectionTitle t))) traits)) in
  _ ← emit (Print ("Supported Accelerator Architectures:" ++ newline ++ newline ++ "#" ++ newline));
  _ ← emit (Print (match sections with
                   | [] => ""
                   | s :: rest => s ++ cat (map (append newline) rest)
                   end));
  _ ← emit (Print ("#" ++ newline));
  _ ← emit (Print (newline ++ "Usage: mojo build --target-accelerator <arch> file.mojo" ++ newline));
  mret 0.

Definition optionLine (name value : string) : string :=
  if isEmpty value then "" else "  --target-" ++ name ++ " " ++ value ++ newline.
Definition printEffectiveTarget (t : TargetInfo) : Build Z :=
  _ ← emit (Print ("Effective target configuration:" ++ newline));
  _ ← emit (Print ("  --target-triple " ++ normalizeTriple (tripleStr t) ++ newline
                   ++ "  --target-cpu " ++ arch t ++ newline
                   ++ optionLine "features" (features t) ++ optionLine "abi" (abi t)
                   ++ optionLine "accelerator" (acceleratorArch t)));
  mret 0.

(** [State::printHelp], and the parser of the common arguments, by whether one
    input file is required. *)
Variable printHelp : bool → Z.
Variable parseCommonMojoArguments : bool → ErrorOr CommonParseResult.

Definition printOptionCount (flags : Flags) : Z :=
  Z.b2z (printEffective flags) + Z.b2z (printTargets flags) + Z.b2z (printCpus flags)
  + Z.b2z (printAccelerators flags).

(** The exit code, or what was parsed. *)
Definition parseArgs (flags : Flags) : Build Parsed :=
  let stop (m : Build Z) : Build Parsed := code ← m; exit code in
  if help flags then stop (mret (printHelp false))
  else if helpHidden flags then stop (mret (printHelp true))
  else if printOptionCount flags >? 1 then
    report failure "only one --print-* option can be specified at a time"
  else if printTargets flags then stop printSupportedTargets
  else if printAccelerators flags then stop printSupportedAccelerators
  else if printCpus flags then stop (printSupportedCpus (userTriple flags))
  else
    result ← orReport failure (parseCommonMojoArguments (negb (printOptionCount flags >? 0))) id;
    match result with
    | ExitWith code => exit code
    | ParsedArgs p => if printEffective flags then stop (printEffectiveTarget (target p)) else mret p
    end.

End Printing.

(** ** Output files *)

Section Outputs.
Context {SR : StringRefOps}.
Variable failure : Z.
(** Opening a [ToolOutputFile]: the message of the error, if any. *)
Variable openOutput : string → option string.

Definition deriveOutputPath (args : Arguments) (fileExtension : string) : string :=
  let inputBaseName := match rfind (input args) "." with
                       | Some n => take_front (input args) n
                       | None => input args
                       end in
  default (inputBaseName ++ fileExtension) (output args).

(** [None] is the null pointer, after an error was reported. *)
Definition createOutputFile (args : Arguments) (fileExtension : string) : Build (option string) :=
  if isEmpty (input args) then _ ← emit (ReportError "no input file provided"); mret None
  else
    let outputPath := deriveOutputPath args fileExtension in
    match openOutput outputPath with
    | Some msg => _ ← emit (ReportError ("could not open output file: " ++ msg)); mret None
    | None => _ ← emit (OpenOutput outputPath); mret (Some outputPath)
    end.

(** The output file's destructor removes it unless it was kept. *)
Definition fillOutput (path : string) (contents : ErrorOr string) (describe : string → string) : Build string :=
  match contents with
  | Error msg => _ ← emit (ReportError (describe msg)); _ ← emit (DiscardOutput path); exit failure
  | Success data => _ ← emit (WriteOutput path data); exit 0
  end.

(** ** compileModuleToArchive *)

(** [EmitAs] for the kernels of offload targets. *)
Inductive EmitAs := EmitLLVM | EmitASM.
Record Offload := mkOffload { offloadOutputPrefix : string; offloadOutputKind : EmitAs }.

(** [path::replace_extension(path, "")]. *)
Definition dropExtension (path : string) : string :=
  match rfind (filename path) "." with
  | Some n => take_front path (String.length path - String.length (filename path) + n)
  | None => path
  end.
Definition effectiveOffload (args : Arguments) (outputType : OutputType) : option Offload :=
  match outputType with
  | llvm => Some (mkOffload (dropExtension (deriveOutputPath args ".ll")) EmitLLVM)
  | assembly => Some (mkOffload (dropExtension (deriveOutputPath args ".s")) EmitASM)
  | _ => None
  end.

(** The compiler: the object compiler, the pipeline, which leaves the symbols
    of the module, and the emitters; assembly fails without a message. *)
Variable createObjectCompiler : option Offload → ErrorOr unit.
Variable runKGENPipeline : option Offload → ErrorOr (list string).
Variable lowerAllFuncsToLLVM : ErrorOr string.
Variable emitBitcode : ErrorOr string.
Variable emitAssembly : option string.
Variable emitArchive : bool → ErrorOr string.

(** The archive, or an early exit. *)
Definition compileModuleToArchive (outputType : OutputType) (args : Arguments) : Build string :=
  let offload := effectiveOffload args outputType in
  _ ← orReport failure (createObjectCompiler offload) id;
  symtab ← orReport failure (runKGENPipeline offload) id;
  let hasMain := existsb (String.eqb "main") symtab in
  _ ← (match outputType with
       | executable => if hasMain then mret tt else report failure "module does not contain a 'main' function"
       | sharedLibrary =>
           if hasMain then report failure "shared library should not contain a 'main' function" else mret tt
       | llvm | llvmBitcode =>
           module ← orReport failure lowerAllFuncsToLLVM (append "could not lower funcs to LLVM: ");
           outFile ← createOutputFile args (if bool_decide (outputType = llvm) then ".ll" else ".bc");
           match outFile with
           | None => report failure "could not open .ll output file"
           | Some path =>
               _ ← fillOutput path (if bool_decide (outputType = llvm) then Success module else emitBitcode) id;
               mret tt
           end
       | assembly =>
           outFile ← createOutputFile args ".s";
           match outFile with
           | None => report failure "could not open .s output file"
           | Some path =>
               _ ← fillOutput path (match emitAssembly with Some s => Success s | None => Error "" end)
                     (fun _ => "could not emit assembly");
               mret tt
           end
       | object => mret tt
       end : Build unit);
  orReport failure (emitArchive (bool_decide (outputType = sharedLibrary)))
    (append "failed to produce an archive for the module: ").

(** ** build *)

Definition parseEmit (emitFileType : string) : ErrorOr OutputType :=
  if String.eqb emitFileType "exe" then Success executable
  else if String.eqb emitFileType "shared-lib" then Success sharedLibrary
  else if String.eqb emitFileType "llvm" then Success llvm
  else if String.eqb emitFileType "llvm-bitcode" then Success llvmBitcode
  else if String.eqb emitFileType "object" then Success object
  else if String.eqb emitFileType "asm" then Success assembly
  else Error ("Unrecognized value for `--emit`. Missing case for: " ++ emitFileType).

(** The steps around: the arguments, the context, the timing options, the
    parser, which gives no module after applying fixes, whether a warning was
    promoted, and [linkOutput]. *)
Variable parse : Build Parsed.
Variable createContext : ErrorOr unit.
Variable configureTiming : ErrorOr unit.
Variable invokeMojoParser : ErrorOr bool.
Variable wasErrorEmitted : bool.
Variable link : OutputType → Arguments → Options → string → Build Z.

Definition build (emitted_file_type : option string) : Build Z :=
  p ← parse;
  _ ← orReport failure createContext id;
  outputType ← orReport failure (parseEmit (default "exe" emitted_file_type)) id;
  _ ← orReport failure configureTiming id;
  hasModule ← orReport failure invokeMojoParser id;
  if negb hasModule then mret 0 else
  archive ← compileModuleToArchive outputType (arguments p);
  if wasErrorEmitted then mret 1
  else link outputType (arguments p) (options p) archive.

End Outputs.
End MojoBuild.
