(* ===== verification/MojoBuildProps.v ===== *)
(** Properties of MojoBuild.v: what an exit code of 0 means, which outputs are
    linked, the options that only print, and the default names. *)
From S2P Require Import Prelude StringRef Configuration ResourceFile LinkOutput LinkProps MojoBuild.

#[local] Open Scope string_scope.
#[local] Open Scope Z_scope.

Module MojoBuildProps.
Import Config LinkOutput LinkProps MojoBuild.

#[local] Abbreviation length := List.length (only parsing).

(** ** What [build] needs of the linker *)

(** Linking that returns 0 has linked, or written the object file. *)
Class LinkContract (ExecuteAndWait : string → list string → Z * string)
    (link : OutputType → Arguments → Options → string → Build Z) : Prop :=
  link_built : ∀ ot args options archive, Emits (link ot args options archive)
    (fun r new => match r with inl code | inr code => code = 0 → Exists (goalOf ExecuteAndWait ot archive) new end).

Class NonZero (z : Z) : Prop := nonzero : z ≠ 0.

#[export] Instance linkOutput_contract `{StringRefOps} isOSWindows isOSDarwin isX86_64 getArchName GetEnv
    findConfigWithRunfiles overrides getSharedLibraryName exists_ current_path findProgramByName writeTempFile
    writeToOutput ExecuteAndWait failure hostIsApple configOr `{NonZero failure} :
  LinkContract ExecuteAndWait (fun ot args options archive =>
    linkOutput isOSWindows isOSDarwin isX86_64 getArchName GetEnv findConfigWithRunfiles overrides
      getSharedLibraryName exists_ current_path findProgramByName writeTempFile writeToOutput ExecuteAndWait
      failure hostIsApple ot args options archive configOr).
Proof.
  intros ot args options archive w.
  destruct (Built_linkOutput isOSWindows isOSDarwin isX86_64 getArchName GetEnv findConfigWithRunfiles overrides
    getSharedLibraryName exists_ current_path findProgramByName writeTempFile writeToOutput ExecuteAndWait
    failure hostIsApple ot args options archive configOr w) as (new & Hl & Hb).
  destruct (Reported_linkOutput isOSWindows isOSDarwin isX86_64 getArchName GetEnv findConfigWithRunfiles overrides
    getSharedLibraryName exists_ current_path findProgramByName writeTempFile writeToOutput ExecuteAndWait
    failure hostIsApple ot args options archive configOr w) as (new' & Hl' & Hp).
  exists new. split; [exact Hl|]. destruct (fst _); [by destruct Hb|]. destruct Hp as [-> _].
  intros Hz. by apply nonzero in Hz.
Qed.

(** ** Exit codes *)

(** A computation that exits early with 0 has done [goal]; one that goes on
    has reported nothing. *)
Definition Exits (goal : Event → Prop) {A} (r : A + Z) (new : list Event) : Prop :=
  match r with
  | inl _ => errors new = []
  | inr code => code = 0 ∧ errors new = [] ∧ Exists goal new ∨ code ≠ 0 ∧ errors new ≠ []
  end.

#[export] Instance Exits_composes goal : Composes (@Exits goal).
Proof.
  split; [done| |done]. intros A B a r new new' H1 H2. unfold Exits, errors in *. rewrite omap_app, H1.
  destruct r; [exact H2|]. rewrite Exists_app. destruct H2 as [(? & ? & ?)|?]; [left|right]; tauto.
Qed.

Section Build.
Context {SR : StringRefOps}.
Variable failure : Z.
Hypothesis failure_nonzero : failure ≠ 0.
Variable openOutput : string → option string.
Variable createObjectCompiler : option Offload → ErrorOr unit.
Variable runKGENPipeline : option Offload → ErrorOr (list string).
Variable lowerAllFuncsToLLVM : ErrorOr string.
Variable emitBitcode : ErrorOr string.
Variable emitAssembly : option string.
Variable emitArchive : bool → ErrorOr string.

Abbreviation compile := (compileModuleToArchive failure openOutput createObjectCompiler runKGENPipeline
  lowerAllFuncsToLLVM emitBitcode emitAssembly emitArchive).

(** The file a text output goes to, and what is written there. *)
Definition textOutput (ot : OutputType) (args : Arguments) (e : Event) : Prop :=
  match ot, e with
  | llvm, WriteOutput path data => path = deriveOutputPath args ".ll" ∧ lowerAllFuncsToLLVM = Success data
  | llvmBitcode, WriteOutput path data => path = deriveOutputPath args ".bc" ∧ emitBitcode = Success data
  | assembly, WriteOutput path data => path = deriveOutputPath args ".s" ∧ emitAssembly = Some data
  | _, _ => False
  end.

Lemma Exits_report {A} goal msg : Emits (report failure msg : Build A) (Exits goal).
Proof. intros w. exists [ReportError msg]. split; [done|]. by right. Qed.

Lemma Exits_orReport {A} goal (e : ErrorOr A) describe : Emits (orReport failure e describe) (Exits goal).
Proof. apply (Emits_orReport (@Exits goal)). intros msg. by right. Qed.

Lemma Exits_fill goal path contents describe :
  (∀ data, contents = Success data → goal (WriteOutput path data)) →
  Emits (fillOutput failure path contents describe) (Exits goal).
Proof.
  intros Hg w. destruct contents as [data|msg].
  - exists [WriteOutput path data]. split; [done|]. left. split_and!; [done|done|]. constructor. by apply Hg.
  - exists ([ReportError (describe msg)] ++ [DiscardOutput path])%list. split; [by rewrite app_assoc|]. by right.
Qed.

(** A file that does not open is reported twice, here and by the caller. *)
Lemma Exits_createOutput {A} goal args ext (k : option string → Build A) describe :
  k None = report failure describe →
  (Emits (k (Some (deriveOutputPath args ext))) (Exits goal)) →
  Emits (createOutputFile openOutput args ext ≫= k) (Exits goal).
Proof.
  intros Hn Hs w. unfold createOutputFile. case_match.
  - exists ([ReportError "no input file provided"] ++ [ReportError describe])%list.
    unfold mbind, Build_bind, emit, mret, Build_ret. rewrite Hn. split; [by rewrite app_assoc|]. by right.
  - destruct (openOutput _) as [msg|].
    + exists ([ReportError ("could not open output file: " ++ msg)] ++ [ReportError describe])%list.
      unfold mbind, Build_bind, emit, mret, Build_ret. rewrite Hn. split; [by rewrite app_assoc|]. by right.
    + unfold mbind, Build_bind, emit, mret, Build_ret.
      destruct (Hs (mkWorld (config w) (log w ++ [OpenOutput (deriveOutputPath args ext)])%list)) as (new & Hl & Hp).
      exists (OpenOutput (deriveOutputPath args ext) :: new). rewrite Hl. cbn [log].
      split; [by rewrite <- app_assoc|]. unfold Exits, errors in *. destruct (fst _); [exact Hp|].
      simpl. rewrite Exists_cons. destruct Hp as [(? & ? & ?)|?]; [left|right]; tauto.
Qed.

Lemma Exits_bind {A B} goal (m : Build A) (f : A → Build B) :
  Emits m (Exits goal) → (∀ a, Emits (f a) (Exits goal)) → Emits (m ≫= f) (Exits goal).
Proof. apply (Emits_bind (@Exits goal)). Qed.

Lemma Exits_ret {A} goal (a : A) : Emits (mret a) (Exits goal).
Proof. apply (Emits_ret (@Exits goal)). Qed.

Lemma Exits_report_bind {A B} goal msg (f : A → Build B) :
  Emits (report failure msg ≫= f) (Exits goal).
Proof. intros w. exists [ReportError msg]. split; [done|]. by right. Qed.

#[local] Hint Resolve Exits_report Exits_orReport Exits_ret : core.

Lemma Exits_file {A} goal path contents describe (a : A) :
  (∀ data, contents = Success data → goal (WriteOutput path data)) →
  Emits (_ ← fillOutput failure path contents describe; mret a) (Exits goal).
Proof. intros Hg. apply Exits_bind; [by apply Exits_fill|auto]. Qed.

Lemma compile_exits ot args : Emits (compile ot args) (Exits (textOutput ot args)).
Proof.
  unfold compileModuleToArchive. apply Exits_bind; [auto|intros _]. apply Exits_bind; [auto|intros symtab].
  apply Exits_bind; [|auto].
  destruct ot; [case_match; auto|case_match; auto|auto| | |].
  - destruct lowerAllFuncsToLLVM as [m|] eqn:E; [|apply Exits_report_bind].
    change (mret m ≫= ?f) with (f m). eapply Exits_createOutput; [reflexivity|].
    apply Exits_file. intros data. rewrite bool_decide_true by done. by intros [= ->].
  - destruct lowerAllFuncsToLLVM as [m|] eqn:E; [|apply Exits_report_bind].
    change (mret m ≫= ?f) with (f m). eapply Exits_createOutput; [reflexivity|].
    apply Exits_file. intros data. by rewrite bool_decide_false by done.
  - eapply Exits_createOutput; [reflexivity|]. apply Exits_file. intros data. simpl.
    destruct emitAssembly; [|done]. by intros [= ->].
Qed.

(** Only three kinds of output reach the linker, with the archive emitted for
    them. *)
Definition isLinked (ot : OutputType) : bool :=
  match ot with executable | sharedLibrary | object => true | _ => false end.

Lemma bind_inl {A B} (m : Build A) (f : A → Build B) w b : fst ((m ≫= f) w) = inl b →
  ∃ a w', m w = (inl a, w') ∧ fst (f a w') = inl b.
Proof. unfold mbind, Build_bind. destruct (m w) as [[a|c] w'] eqn:E; [eauto|done]. Qed.

Lemma fillOutput_exits path contents describe w a : fst (fillOutput failure path contents describe w) ≠ inl a.
Proof. by destruct contents. Qed.

Lemma compile_archive ot args w archive : fst (compile ot args w) = inl archive →
  isLinked ot = true ∧ emitArchive (bool_decide (ot = sharedLibrary)) = Success archive.
Proof.
  intros H. unfold compileModuleToArchive in H. apply bind_inl in H as ([] & w1 & _ & H).
  apply bind_inl in H as (symtab & w2 & _ & H). apply bind_inl in H as ([] & w3 & H3 & H). split.
  - destruct ot; try done; apply (f_equal fst) in H3.
    1,2: apply bind_inl in H3 as (module & w4 & _ & H3).
    all: apply bind_inl in H3 as ([path|] & w5 & _ & H3); [|done];
      apply bind_inl in H3 as (s & w6 & H3 & _); apply (f_equal fst) in H3; by apply fillOutput_exits in H3.
  - destruct (emitArchive _); [|done]. by injection H as ->.
Qed.

(** ** build *)

Variable emitted_file_type : option string.
Variables createContext configureTiming : ErrorOr unit.
Variable invokeMojoParser : ErrorOr bool.
Variable wasErrorEmitted : bool.

Abbreviation build' parse link := (build failure openOutput createObjectCompiler runKGENPipeline lowerAllFuncsToLLVM
  emitBitcode emitAssembly emitArchive parse createContext configureTiming invokeMojoParser wasErrorEmitted link
  emitted_file_type).

(** What [--emit] asks for: a text file, an object file with the archive, or a
    successful run of the linker. *)
Definition asked (ExecuteAndWait : string → list string → Z * string) (ot : OutputType) (args : Arguments)
    (e : Event) : Prop :=
  match ot with
  | llvm | llvmBitcode | assembly => textOutput ot args e
  | object => ∃ data, emitArchive false = Success data ∧ written data e
  | executable | sharedLibrary => linked ExecuteAndWait e
  end.

(** C28: When [mojo build] returns 0 for a program that parses to a module, it
    has produced what --emit asks for (an executable by default): the text of
    the module at the path derived for it, the archive as an object file, or a
    successful run of the linker, whatever linker keeps the contract that
    [linkOutput] keeps. *)
Theorem build_outcome ExecuteAndWait link `{!LinkContract ExecuteAndWait link} p w :
  invokeMojoParser = Success true → wasErrorEmitted = false →
  let r := build' (mret p) link w in
  exitCode r = 0 →
  ∃ ot new, parseEmit (default "exe" emitted_file_type) = Success ot ∧ log (snd r) = (log w ++ new)%list
    ∧ Exists (asked ExecuteAndWait ot (arguments p)) new.
Proof.
  intros Hparser Hwarn r. subst r. unfold build. rewrite Hparser, Hwarn.
  change (mret p ≫= ?f) with (f p). cbv beta.
  destruct createContext as [[]|]; [|done]. change (orReport failure (Success tt) id ≫= ?f) with (f tt). cbv beta.
  destruct (parseEmit _) as [ot|] eqn:Eot; [|done]. change (orReport failure (Success ot) id ≫= ?f) with (f ot). cbv beta.
  destruct configureTiming as [[]|]; [|done]. change (orReport failure (Success tt) id ≫= ?f) with (f tt). cbv beta.
  change (orReport failure (Success true) id ≫= ?f) with (f true). cbv beta. cbn [negb].
  destruct (compile_exits ot (arguments p) w) as (new & Hl & Hp).
  unfold mbind, Build_bind. destruct (compile ot (arguments p) w) as [[archive|code] w'] eqn:Ec; simpl in Hl, Hp.
  - destruct (compile_archive ot (arguments p) w archive) as [Hlinked Ha]; [by rewrite Ec|].
    destruct (link_built ot (arguments p) (options p) archive w') as (new' & Hl' & Hb).
    intros Hzero. exists ot, (new ++ new')%list. split; [done|]. rewrite Hl', Hl. split; [by rewrite app_assoc|].
    apply Exists_app. right. unfold exitCode in Hzero.
    assert (Exists (goalOf ExecuteAndWait ot archive) new') as Hex by (destruct (fst _); by apply Hb).
    eapply Exists_impl; [exact Hex|]. intros e. unfold goalOf.
    destruct ot; try discriminate Hlinked; simpl; eauto.
  - intros Hzero. cbn in Hzero. subst code. destruct Hp as [(_ & _ & Hex)|[? _]]; [|done].
    exists ot, new. split_and!; [done|done|]. eapply Exists_impl; [exact Hex|]. intros e.
    by destruct ot.
Qed.

(** Only executables, shared libraries and object files are ever linked:
    [mojo build] behaves the same with any other linking of the text outputs,
    so the names [linkOutput] has for those are never used. *)
Theorem build_links_only parse link link' w :
  (∀ ot args options archive w, isLinked ot = true → link ot args options archive w = link' ot args options archive w) →
  build' parse link w = build' parse link' w.
Proof.
  intros Hlink. unfold build.
  assert (Hbind : ∀ A B (m : Build A) (f g : A → Build B) w, (∀ a w', m w = (inl a, w') → f a w' = g a w') →
    (m ≫= f) w = (m ≫= g) w).
  { intros A B m f g w0 Hfg. unfold mbind, Build_bind. destruct (m w0) as [[a|c] w'] eqn:E; [by apply Hfg|done]. }
  apply Hbind. intros p w1 _. apply Hbind. intros [] w2 _. apply Hbind. intros ot w3 _.
  apply Hbind. intros [] w4 _. apply Hbind. intros hasModule w5 _. case_match; [done|].
  apply Hbind. intros archive w6 Ha. case_match; [done|].
  apply Hlink. apply (f_equal fst) in Ha. by apply compile_archive in Ha as [? _].
Qed.

(** An output that does not open is reported twice. *)
Lemma output_file_error_twice args msg w :
  input args ≠ "" → openOutput (deriveOutputPath args ".s") = Some msg →
  createObjectCompiler (effectiveOffload args assembly) = Success tt →
  (∃ symtab, runKGENPipeline (effectiveOffload args assembly) = Success symtab) →
  compile assembly args w = (inr failure, mkWorld (config w)
    (log w ++ [ReportError ("could not open output file: " ++ msg); ReportError "could not open .s output file"])%list).
Proof.
  intros Hi Ho Hc [symtab Hs]. unfold compileModuleToArchive, createOutputFile, mbind, Build_bind.
  rewrite Hc, Hs. cbn [orReport mret Build_ret]. rewrite Ho. unfold isEmpty. destruct (input args) eqn:E; [done|].
  unfold report, mbind, Build_bind, emit, exit, mret, Build_ret. cbn [config log].
  by rewrite <- app_assoc.
Qed.

End Build.

(** ** Options that only print *)

Section Printing.
Variable normalize : string → string.
Variables archName vendorName osName envName : string → string.
Variable targets : list (string * string).
Variable hasBackend : string → bool.
Variable getValidCPUsForTarget : string → list string.
Variable traits : list TargetTraits.
Variable failure : Z.
Variable printHelp : bool → Z.
Variable parseCommonMojoArguments : bool → ErrorOr CommonParseResult.

Abbreviation parseArgs' := (parseArgs normalize archName vendorName osName envName targets hasBackend
  getValidCPUsForTarget traits failure printHelp parseCommonMojoArguments).

Definition isPrint (e : Event) : bool := match e with Print _ | PrintError _ | ReportError _ => true | _ => false end.

Definition Prints {A} (_ : A + Z) (new : list Event) : Prop := Forall (fun e => isPrint e = true) new.
#[local] Instance Prints_composes : Composes (@Prints).
Proof. split; [constructor| |done]. intros A B a r new new'. apply Forall_app_2. Qed.

Local Ltac prints :=
  repeat first
    [ apply (Emits_ret (@Prints)) | apply (Emits_emit (@Prints)); by repeat constructor
    | apply (Emits_report (@Prints)); by repeat constructor
    | apply (Emits_orReport (@Prints)); intros; by repeat constructor
    | apply (Emits_bind (@Prints)); [|intros] | case_match ].

Lemma Prints_exit {A} (m : Build Z) : Emits m Prints → Emits (code ← m; exit code : Build A) Prints.
Proof.
  intros Hm. apply (Emits_bind (@Prints)); [done|intros code]. intros w. exists []. split; [by rewrite app_nil_r|constructor].
Qed.

Lemma parseArgs_prints flags : Emits (parseArgs' flags) Prints.
Proof.
  unfold parseArgs.
  destruct (help flags); [apply Prints_exit; prints|]. destruct (helpHidden flags); [apply Prints_exit; prints|].
  destruct (printOptionCount flags >? 1); [prints|].
  destruct (printTargets flags); [apply Prints_exit; unfold printSupportedTargets; prints|].
  destruct (printAccelerators flags); [apply Prints_exit; unfold printSupportedAccelerators; prints|].
  destruct (printCpus flags); [apply Prints_exit; unfold printSupportedCpus; prints|].
  apply (Emits_bind (@Prints)); [prints|]. intros [code|p].
  - intros w. exists []. split; [by rewrite app_nil_r|constructor].
  - case_match; [apply Prints_exit; unfold printEffectiveTarget; prints|prints].
Qed.

Lemma exit_bind {A} (m : Build Z) (w : World) : ∃ c, fst ((code ← m; exit code : Build A) w) = inr c.
Proof. unfold mbind, Build_bind, exit. destruct (m w) as [[code|c] w']; eauto. Qed.

(** A command line with an option that only prints never builds: parsing
    ends with an exit code after printing, or with the one error for two such
    options at once.  Without any, nothing is printed, one input file is
    required, and what the common parser returns is what is compiled. *)
Theorem print_options_stop flags w :
  let r := parseArgs' flags w in
  (0 < printOptionCount flags ∨ help flags = true ∨ helpHidden flags = true →
     (∃ code, fst r = inr code) ∧ ∃ new, log (snd r) = (log w ++ new)%list ∧ Forall (fun e => isPrint e = true) new)
  ∧ (∀ p, fst r = inl p → parseCommonMojoArguments true = Success (ParsedArgs p) ∧ snd r = w)
  ∧ (help flags = false → helpHidden flags = false → printOptionCount flags > 1 →
     r = report failure "only one --print-* option can be specified at a time" w).
Proof.
  intros r. subst r. destruct flags as [h hh e t c a u].
  assert (Hstop : ∀ m : Build Z, ∃ c, fst ((code ← m; exit code : Build Parsed) w) = inr c)
    by (intros m; by apply exit_bind).
  split_and!.
  - intros Hany. split; [|destruct (parseArgs_prints (mkFlags h hh e t c a u) w) as (new & Hl & Hp); by exists new].
    destruct h; [apply Hstop|]. destruct hh; [apply Hstop|]. unfold parseArgs.
    destruct e, t, c, a; try (by eexists); try apply Hstop.
    + unfold mbind at 1, Build_bind at 1.
      destruct (parseCommonMojoArguments _) as [[code|p]|msg]; [by eexists|apply Hstop|by eexists].
    + destruct Hany as [H|[H|H]]; [vm_compute in H|..]; done.
  - assert (Hno : ∀ (m : Build Z) p, fst ((code ← m; exit code : Build Parsed) w) ≠ inl p).
    { intros m p Hp. destruct (Hstop m) as [k Hk]. by rewrite Hk in Hp. }
    intros p Hp. destruct h; [by apply Hno in Hp|]. destruct hh; [by apply Hno in Hp|]. revert Hp. unfold parseArgs.
    destruct e, t, c, a; try done; try (intros Hp; by apply Hno in Hp).
    + unfold mbind at 1, Build_bind at 1.
      destruct (parseCommonMojoArguments _) as [[code|q]|msg]; [done|intros Hp; by apply Hno in Hp|done].
    + change (printOptionCount (mkFlags false false false false false false u)) with 0.
      unfold mbind, Build_bind. cbn [Z.gtb Z.compare negb].
      destruct (parseCommonMojoArguments true) as [[code|q]|msg]; [done|by intros [= ->]|done].
  - cbn [help helpHidden]. intros -> -> Hc. unfold parseArgs. cbn [help helpHidden].
    by rewrite (proj2 (Z.gtb_lt _ _)) by lia.
Qed.

End Printing.

(** ** Default names *)

Definition lacks (c : ascii) (s : string) : Prop := countChar c s = O.

Lemma lacks_app c s t : lacks c s → lacks c t → lacks c (s ++ t).
Proof.
  unfold lacks. intros Hs Ht. induction s as [|d s IH]; simpl in *; [done|]. destruct (Ascii.eqb c d); [done|auto].
Qed.

Lemma lastIndexOf_lacks c s : lacks c s → lastIndexOf c s = None.
Proof.
  unfold lacks. induction s as [|d s IH]; simpl; [done|]. destruct (Ascii.eqb c d); [done|]. intros H. by rewrite IH.
Qed.

Lemma lastIndexOf_app c s t : lacks c t → lastIndexOf c (s ++ String c t) = Some (String.length s).
Proof.
  intros Ht. induction s as [|d s IH]; simpl; [|by rewrite IH]. by rewrite lastIndexOf_lacks, Ascii.eqb_refl.
Qed.

Lemma after_lacks c s : lacks c s → after (Ascii.eqb c) s = None.
Proof. unfold lacks. induction s as [|d s IH]; simpl; [done|]. destruct (Ascii.eqb c d); [done|auto]. Qed.

Lemma filename_lacks s : lacks "/" s → filename s = s.
Proof. intros H. destruct s; simpl; [done|]. pose proof (after_lacks "/" _ H) as Ha. simpl in Ha. by rewrite Ha. Qed.

Lemma filename_app d f : lacks "/" f → filename (d ++ String "/" f) = f.
Proof.
  intros Hf. induction d as [|c d IH]; [simpl; by apply filename_lacks|].
  cbn [append filename]. replace (after (Ascii.eqb "/") (String c (d ++ String "/" f)))
    with (Some (default "" (after (Ascii.eqb "/") (String c (d ++ String "/" f))))); [exact IH|].
  assert (∀ s, ∃ r, after (Ascii.eqb "/") (s ++ String "/" f) = Some r) as Hs.
  { induction s as [|e s [r Hr]]; cbn [append after]; [by exists f|]. destruct (Ascii.eqb "/" e); eauto. }
  destruct (Hs (String c d)) as [r Hr]. cbn [append] in Hr. by rewrite Hr.
Qed.

Section Names.
Context {SR : StringRefOps}.

Lemma fileStem_app dir base ext : base ≠ "" → ext ≠ "" → lacks "/" base → lacks "/" ext → lacks "." ext →
  fileStem (dir ++ String "/" (base ++ String "." ext)) = base.
Proof.
  intros Hb He Sb Se De. unfold fileStem. rewrite filename_app by (by apply lacks_app).
  rewrite !(proj2 (String.eqb_neq _ _)); simpl.
  - rewrite rfind_spec, lastIndexOf_app, take_front_spec, string_take_app by done. by destruct base.
  - intros H. apply (f_equal String.length) in H. rewrite string_length_app in H. simpl in H.
    destruct base, ext; simpl in H; try done; lia.
  - intros H. apply (f_equal String.length) in H. rewrite string_length_app in H. simpl in H.
    destruct base, ext; simpl in H; try done; lia.
Qed.

(** Without -o, the executable and the shared library of
    [dir/base.ext] are named after [base] in the working directory, the
    library with the prefix and the suffix of the target, whatever the
    directory of the source; but the text outputs go next to the source:
    [deriveOutputPath] keeps the directory and only replaces the extension. *)
Theorem default_output_names isOSWindows isOSDarwin triple cwd dir base ext flags e :
  base ≠ "" → ext ≠ "" → lacks "/" base → lacks "/" ext → lacks "." ext →
  let args := mkArguments (dir ++ String "/" (base ++ String "." ext)) None flags in
  resolveOutputName isOSWindows isOSDarwin (Some cwd) executable triple args
    = path_div cwd (base ++ getExecutableExtension isOSWindows triple)
  ∧ resolveOutputName isOSWindows isOSDarwin (Some cwd) sharedLibrary triple args
    = path_div cwd (getSharedLibraryFileName isOSWindows isOSDarwin triple base)
  ∧ deriveOutputPath args e = dir ++ String "/" (base ++ e).
Proof.
  intros Hb He Sb Se De args. subst args. unfold resolveOutputName, defaultOutputName, deriveOutputPath.
  cbn [input output default]. rewrite fileStem_app by done. split_and!.
  - rewrite filename_lacks; [done|]. apply lacks_app; [done|]. unfold getExecutableExtension. by destruct (isOSWindows triple).
  - rewrite filename_lacks; [done|]. unfold getSharedLibraryFileName.
    destruct (isOSWindows triple); [|destruct (isOSDarwin triple)]; repeat apply lacks_app; done.
  - rewrite rfind_spec. replace (dir ++ String "/" (base ++ String "." ext))
      with ((dir ++ String "/" base) ++ String "." ext) by (by rewrite string_app_assoc).
    rewrite lastIndexOf_app, take_front_spec, string_take_app by done. by rewrite string_app_assoc.
Qed.

End Names.

(** ** Witnesses *)

Definition compiled (_ : option Offload) : ErrorOr unit := Success tt.
Definition mainModule (_ : option Offload) : ErrorOr (list string) := Success ["main"; "helper"].
Definition opens (_ : string) : option string := None.
Definition archived (_ : bool) : ErrorOr string := Success "!<arch>".
Definition helloParsed : Parsed := mkParsed hello release (mkTargetInfo "" "" "" "" "").
Definition linkHello (ot : OutputType) (args : Arguments) (options : Options) (archive : string) : Build Z :=
  @linkOutput llvm_stringref windowsTriple noTool everyTriple id noEnv noEnv ∅ id everyTriple
    (Some "/work") toolAt tempAt writesWell runsWell 1 false ot args options archive (Success ∅).
Definition buildHello (emitted : string) : (Z + Z) * World :=
  @build llvm_stringref 1 opens compiled mainModule (Success "; ModuleID") (Success "BC") (Some ".text") archived
    (mret helloParsed) (Success tt) (Success tt) (Success true) false linkHello (Some emitted) (mkWorld ∅ []).

Lemma build_outcome_witness :
  exitCode (buildHello "asm") = 0
  ∧ ∃ ot new, log (snd (buildHello "asm")) = new
    ∧ Exists (asked (SR := llvm_stringref) (Success "; ModuleID") (Success "BC") (Some ".text") archived runsWell ot hello) new.
Proof.
  split; [vm_compute; reflexivity|].
  assert (LinkContract runsWell linkHello) as HC.
  { unfold linkHello. apply (@linkOutput_contract llvm_stringref). exact (fun H => ltac:(discriminate H)). }
  destruct (@build_outcome llvm_stringref 1 ltac:(discriminate) opens compiled mainModule (Success "; ModuleID")
    (Success "BC") (Some ".text") archived (Some "asm") (Success tt) (Success tt) (Success true) false runsWell
    linkHello HC helloParsed (mkWorld ∅ []) eq_refl eq_refl) as (ot & new & _ & Hl & He).
  - vm_compute. reflexivity.
  - exists ot, new. split; [exact Hl|exact He].
Defined.

Lemma build_links_only_witness :
  snd (@build llvm_stringref 1 opens compiled mainModule (Success "; ModuleID") (Success "BC") (Some ".text") archived
    (mret helloParsed) (Success tt) (Success tt) (Success true) false linkHello (Some "llvm") (mkWorld ∅ []))
  = mkWorld ∅ [OpenOutput "src/hello.ll"; WriteOutput "src/hello.ll" "; ModuleID"].
Proof.
  rewrite (@build_links_only llvm_stringref 1 opens compiled mainModule (Success "; ModuleID") (Success "BC")
    (Some ".text") archived (Some "llvm") (Success tt) (Success tt) (Success true) false (mret helloParsed) linkHello
    (fun ot args options archive => if isLinked ot then linkHello ot args options archive else (mret 0 : Build Z))).
  - vm_compute. reflexivity.
  - intros ot args opts archive w H. rewrite H. reflexivity.
Defined.

Definition twoOptions : Flags := mkFlags false false true false true false "".
Definition noCPUs (_ : string) : list string := [].
Definition parsesHello (_ : bool) : ErrorOr CommonParseResult := Success (ParsedArgs helloParsed).
Definition helpCode (_ : bool) : Z := 0.
Lemma print_options_stop_witness :
  parseArgs id id id id id [] noTool noCPUs [] 1 helpCode parsesHello twoOptions (mkWorld ∅ [])
  = (inr 1, mkWorld ∅ [ReportError "only one --print-* option can be specified at a time"]).
Proof.
  destruct (@print_options_stop id id id id id [] noTool noCPUs [] 1 helpCode parsesHello twoOptions
    (mkWorld ∅ [])) as (_ & _ & H).
  rewrite H by reflexivity. reflexivity.
Defined.

Lemma default_output_names_witness :
  resolveOutputName (SR := llvm_stringref) noTool noTool (Some "/work") sharedLibrary "x86_64-linux"
    (mkArguments "src/hello.mojo" None []) = "/work/libhello.so"
  ∧ deriveOutputPath (SR := llvm_stringref) (mkArguments "src/hello.mojo" None []) ".ll" = "src/hello.ll".
Proof.
  destruct (@default_output_names llvm_stringref noTool noTool "x86_64-linux" "/work" "src" "hello" "mojo" [] ".ll"
    ltac:(discriminate) ltac:(discriminate) eq_refl eq_refl eq_refl) as (_ & H1 & H2).
  split; [exact H1|exact H2].
Defined.

End MojoBuildProps.
