(* ===== verification/SharedObject.v ===== *)
(** The parts of Mojo/lib/Compiler/ObjectCompiler/ObjectCompiler.cpp that make a
    shared object: what a module exports on Windows, the linker and its
    arguments that [create] finds, and [createSharedObject] with its temporary
    files. *)
From S2P Require Import Prelude StringRef Configuration MojoConfig LinkOutput.

#[local] Open Scope string_scope.
#[local] Open Scope Z_scope.

Module SharedObject.
Import Config MojoConfig LinkOutput.

#[local] Abbreviation length := List.length (only parsing).

(** ** What a module exports *)

Inductive Linkage := LocalLinkage | AppendingLinkage | OtherLinkage.
Inductive Visibility := DefaultVisibility | HiddenVisibility | ProtectedVisibility.
Inductive DLLStorage := DefaultStorageClass | DLLImportStorageClass | DLLExportStorageClass.
#[export] Instance Linkage_eq_dec : EqDecision Linkage.
Proof. solve_decision. Defined.
#[export] Instance Visibility_eq_dec : EqDecision Visibility.
Proof. solve_decision. Defined.
#[export] Instance DLLStorage_eq_dec : EqDecision DLLStorage.
Proof. solve_decision. Defined.
(** llvm::GlobalValue: a function or a variable of the module. *)
Record GlobalValue := mkGlobal {
  name : string; isDeclarationForLinker : bool; linkage : Linkage; visibility : Visibility; dllStorage : DLLStorage
}.
Definition setDLLStorageClass (v : GlobalValue) (c : DLLStorage) : GlobalValue :=
  mkGlobal (name v) (isDeclarationForLinker v) (linkage v) (visibility v) c.

Definition markDefinition (value : GlobalValue) : GlobalValue :=
  if isDeclarationForLinker value || bool_decide (linkage value = LocalLinkage)
     || bool_decide (linkage value = AppendingLinkage) then value
  else if negb (bool_decide (visibility value = DefaultVisibility)) then value
  else if bool_decide (dllStorage value = DLLImportStorageClass) then value
  else setDLLStorageClass value DLLExportStorageClass.
Definition markDefinitionsForCOFFExport (llvmModule : list GlobalValue) : list GlobalValue :=
  map markDefinition llvmModule.

Inductive ObjectFormat := ELF | MachO | COFF | OtherFormat.
#[export] Instance ObjectFormat_eq_dec : EqDecision ObjectFormat.
Proof. solve_decision. Defined.

(** [lowerAllFuncsToLLVM]: the passes and the translation, which may fail, and
    the storage classes. *)
Definition lowerAllFuncsToLLVM (format : ObjectFormat) (writeTemp : string → bool) (runPipeline : bool)
    (translateModuleToLLVMIR : option (list GlobalValue)) (forSharedObject : bool) : ErrorOr (list GlobalValue) :=
  if negb (writeTemp ".pre-llvm-dialect")
  then Error "writing module to file before converting to LLVM Dialect failed"
  else if negb runPipeline then Error "run LowerToLLVMPipeline failed"
  else if negb (writeTemp ".pre-llvm-ir") then Error "writing module to file before converting to LLVM IR failed"
  else match translateModuleToLLVMIR with
       | None => Error "translate module to LLVMIR failed"
       | Some llvmModule =>
           Success (if forSharedObject && bool_decide (format = COFF) then markDefinitionsForCOFFExport llvmModule
                    else llvmModule)
       end.

(** ** create *)

Section Create.
Context {SR : StringRefOps}.
Variable GetEnv : string → option string.
Variable findConfigWithRunfiles : string → option string.
Variable overrides : KV.
(** llvm::Triple::getObjectFormat, PATH, the file system, the cache and the
    registry of backends, which the target picks an element of. *)
Variable getObjectFormat : string → ObjectFormat.
Variable findProgramByName : string → option string.
Variable exists_ : string → bool.
Context {Backend : Type}.
Variable getLocalDefaultBackendChain : string → ErrorOr unit.
Variable lookupBackend : string → ErrorOr Backend.

Definition linkerFileName (format : ObjectFormat) : string :=
  match format with MachO => "ld64.lld" | COFF => "lld-link" | _ => "ld.lld" end.

(** The members that the links later use, and those not looked at here. *)
Record ObjectCompiler := mkObjectCompiler { linker : string; sharedObjectLinkArgs : list string; backend : Backend }.

Definition transformCachePath (basePath cacheBaseExtra : string) : string :=
  path_div (if isEmpty cacheBaseExtra then basePath else path_div basePath cacheBaseExtra) "transform".

Definition findLinker (format : ObjectFormat) (lldPath : string) : ErrorOr string :=
  if isEmpty lldPath
  then match findProgramByName (linkerFileName format) with
       | Some path => Success path
       | None => Error "unable to find linker for linking"
       end
  else Success lldPath.

Definition create (basePath cacheBaseExtra targetTriple : string) (configOr : ErrorOr KV)
    : ErrorOr ObjectCompiler :=
  _ ← getLocalDefaultBackendChain (transformCachePath basePath cacheBaseExtra);
  match configOr with
  | Error msg => Error ("failed to parse 'modular.cfg': " ++ msg)
  | Success kv =>
      let format := getObjectFormat targetTriple in
      let '(lldPath, kv) := getLLDPath GetEnv findConfigWithRunfiles overrides kv in
      linker ← findLinker format lldPath;
      let '(args, kv) := appendSharedObjectLinkArgs GetEnv findConfigWithRunfiles overrides [] kv in
      let args :=
        if bool_decide (format = COFF) then
          let importLib := fst (getCompilerRTImportLibraryPath GetEnv findConfigWithRunfiles overrides kv) in
          if negb (isEmpty importLib) && exists_ importLib then (args ++ [importLib])%list else args
        else args in
      backend ← lookupBackend targetTriple;
      Success (mkObjectCompiler linker args backend)
  end.
End Create.
Arguments ObjectCompiler : clear implicits.

(** ** createSharedObject *)

(** Temporary files made, the linker run, the image read, and copies kept for
    --save-temps, in order; a temporary file is removed when it goes out of
    scope. *)
Inductive Event :=
  | CreateTemp (path : string)
  | RemoveTemp (path : string)
  | Link (program : string) (args : list string) (stderr : option string)
  | ReadImage (path : string)
  | SaveTemp (postfix data : string).
Abbreviation Make A := (Early Event string A).

Inductive Arch := aarch64 | x86_64 | OtherArch.
(** The triple, the options and the backend, as far as the link looks. *)
Record LinkTarget := mkLinkTarget {
  format : ObjectFormat; arch : Arch; osVersion : string; emissionLinkOptions : string;
  backendName : string; backendLinkArgs : list string
}.

Definition inExtension (t : LinkTarget) : string := if bool_decide (format t = COFF) then ".obj" else ".o".
Definition outExtension (t : LinkTarget) : string := if bool_decide (format t = COFF) then ".dll" else ".so".
Definition archName (a : Arch) : string :=
  match a with aarch64 => "arm64" | x86_64 => "x86_64" | OtherArch => "unknown" end.
Definition linkerFlavor (f : ObjectFormat) : string :=
  match f with MachO => "darwin" | COFF => "link" | _ => "gnu" end.
Definition nonEmpty (s : string) : list string := if isEmpty s then [] else [s].

Definition lldArgs (t : LinkTarget) (linker : string) (extraLinkArgs : list string) (objFilePath sharedObjPath : string)
    : list string :=
  let flavor := linkerFlavor (format t) in
  match format t with
  | COFF =>
      ([linker; "-flavor"; flavor] ++ backendLinkArgs t
       ++ ["/DLL"; "/NOENTRY"; "/ALTERNATENAME:_fltused=__ImageBase"] ++ nonEmpty (emissionLinkOptions t)
       ++ extraLinkArgs ++ [objFilePath; ("/out:" ++ sharedObjPath)%string])%list
  | MachO =>
      ([linker; "-flavor"; flavor; "-platform_version"; "macos"; osVersion t; osVersion t; "-arch"; archName (arch t);
        "-undefined"; "dynamic_lookup"; "-dylib"] ++ nonEmpty (emissionLinkOptions t)
       ++ extraLinkArgs ++ [objFilePath; "-o"; sharedObjPath])%list
  | _ =>
      ([linker; "-flavor"; flavor] ++ backendLinkArgs t ++ ["-shared"] ++ nonEmpty (emissionLinkOptions t)
       ++ extraLinkArgs ++ [objFilePath; "-o"; sharedObjPath])%list
  end.

Section Make.
Context {SR : StringRefOps}.
(** The file system and the linker: the path of a temporary file for a model
    and its contents, the directory for temporary files, what the linker
    returns and prints, the image it leaves, and whether a copy is kept. *)
Variable writeTempFile : string → string → ErrorOr string.
Variable createTempFile : string → ErrorOr string.
Variable tempDirectory : string.
Variable ExecuteAndWait : string → list string → Z * string.
Variable readFile : string → option string.
Variable writeBytesToTempWithHash : string → string → bool.

Definition scopedTemp {A} (path : string) (body : Make A) : Make A := fun log =>
  let '(r, log) := body log in (r, log ++ [RemoveTemp path])%list.

(** The error for a failed link; [None] is reading a log that is not there. *)
Definition linkError (t : LinkTarget) (errorMsg : string) (linkerErrorFile : option string) : option string :=
  let errorMsg := if isEmpty errorMsg then errorMsg else ": " ++ errorMsg in
  let errorPrefix := "failed to generate " ++ backendName t ++ " shared object binary" in
  match linkerErrorFile with
  | Some log =>
      linkerOutput ← readFile log;
      Some (if isEmpty linkerOutput then errorPrefix ++ errorMsg
            else errorPrefix ++ errorMsg ++ ":" ++ String "010" "" ++ linkerOutput)
  | None => Some (errorPrefix ++ errorMsg)
  end.

Definition withErrorFile {A} (body : option string → Make A) : Make A :=
  match createTempFile "linker-error-%%%%%%.log" with
  | Error _ => body None
  | Success path => _ ← tell (CreateTemp path); scopedTemp path (body (Some path))
  end.

(** The image, or an error: the outer [None] in the result is the assertion
    in [linkError]. *)
Definition linkAndRead (t : LinkTarget) (args : list string) (sharedObjPath : string)
    (linkerErrorFile : option string) : Make (option string) :=
  let program := default "" (head args) in
  _ ← tell (Link program args linkerErrorFile);
  let '(linkExitCode, errorMsg) := ExecuteAndWait program args in
  if negb (linkExitCode =? 0) then
    match linkError t errorMsg linkerErrorFile with
    | None => mret None
    | Some msg => return_ msg
    end
  else
    _ ← tell (ReadImage sharedObjPath);
    match readFile sharedObjPath with
    | None => return_ "failed to open shared object binary"
    | Some image =>
        let postfix := "." ++ fileStem sharedObjPath ++ outExtension t in
        _ ← tell (SaveTemp postfix image);
        if negb (writeBytesToTempWithHash postfix image)
        then return_ "failed to write shared object binary to saveTemps"
        else mret (Some image)
    end.

Definition createSharedObject (t : LinkTarget) (buf moduleName linker : string) (extraLinkArgs : list string)
    : Make (option string) :=
  let objName := moduleName ++ "-%%%%%%%" ++ inExtension t in
  match writeTempFile objName buf with
  | Error _ => return_ "failed to write object binary into a file"
  | Success objFilePath =>
      _ ← tell (CreateTemp objFilePath);
      scopedTemp objFilePath
        (let sharedObjName := fileStem objFilePath ++ outExtension t in
         let sharedObjPath := path_div tempDirectory sharedObjName in
         let args := lldArgs t linker extraLinkArgs objFilePath sharedObjPath in
         withErrorFile (linkAndRead t args sharedObjPath))
  end.

(** [emitSharedObject]: the name of the file of the module's location, the
    object, and the image. *)
Definition emitSharedObject (t : LinkTarget) (moduleFile : option string) (emitArchive : bool → ErrorOr string)
    (linker : string) (extraLinkArgs : list string) : Make (option string) :=
  match format t with
  | OtherFormat => return_ "cannot create shared object binary from target triple that is not ELF, MachO or COFF"
  | _ =>
      let moduleName := match moduleFile with Some file => filename file | None => "mojo-object" end in
      match emitArchive true with
      | Error _ => return_ "failed to lower LLVM IR to object binary"
      | Success buf => createSharedObject t buf moduleName linker extraLinkArgs
      end
  end.
End Make.

(** ** Properties *)

(** What the comment on [markDefinitionsForCOFFExport] says is published. *)
Definition published (v : GlobalValue) : Prop :=
  isDeclarationForLinker v = false ∧ linkage v = OtherLinkage ∧ visibility v = DefaultVisibility
  ∧ dllStorage v ≠ DLLImportStorageClass.

Lemma markDefinition_spec v :
  (dllStorage (markDefinition v) = DLLExportStorageClass ↔ dllStorage v = DLLExportStorageClass ∨ published v)
  ∧ (published v ∨ markDefinition v = v)
  ∧ setDLLStorageClass (markDefinition v) (dllStorage v) = v
  ∧ markDefinition (markDefinition v) = markDefinition v.
Proof.
  unfold published. destruct v as [n d l vis dll]. unfold markDefinition, setDLLStorageClass. simpl.
  destruct d, l, vis, dll; simpl; repeat split; intros; naive_solver.
Qed.

(** On the way to a shared library on Windows a lowered module exports the
    definitions that are visible outside it by default, neither local nor
    appending nor imported, beside what asked for it already, and nothing about
    a symbol but its storage class changes; for other formats, and on the way to
    an object, the module is left as it was translated, so that the images
    [createSharedObject] links from such an object export nothing. *)
Theorem coff_exports fmt writeTemp runPipeline m forSharedObject m' :
  lowerAllFuncsToLLVM fmt writeTemp runPipeline (Some m) forSharedObject = Success m' →
  (forSharedObject = true → fmt = COFF →
     Forall2 (fun v v' => (dllStorage v' = DLLExportStorageClass ↔ dllStorage v = DLLExportStorageClass ∨ published v)
                          ∧ setDLLStorageClass v' (dllStorage v) = v) m m')
  ∧ (forSharedObject = false ∨ fmt ≠ COFF → m' = m).
Proof.
  unfold lowerAllFuncsToLLVM. repeat (case_match; [done|]). intros [= <-]. split.
  - intros -> ->. simpl. unfold markDefinitionsForCOFFExport.
    induction m as [|v m IH]; simpl; constructor; [|done]. destruct (markDefinition_spec v) as (E1 & _ & E2 & _). by split.
  - intros [->|Hf]; [done|]. rewrite bool_decide_false by done. by rewrite andb_false_r.
Qed.

Lemma coff_exports_witness :
  ∃ m', lowerAllFuncsToLLVM COFF (fun _ => true) true
    (Some [mkGlobal "f" false OtherLinkage DefaultVisibility DefaultStorageClass;
           mkGlobal "g" true OtherLinkage DefaultVisibility DefaultStorageClass]) true = Success m'
  ∧ map dllStorage m' = [DLLExportStorageClass; DefaultStorageClass].
Proof.
  eexists. split; [reflexivity|].
  pose proof (coff_exports COFF (fun _ => true) true
    [mkGlobal "f" false OtherLinkage DefaultVisibility DefaultStorageClass;
     mkGlobal "g" true OtherLinkage DefaultVisibility DefaultStorageClass] true _ eq_refl) as [H _].
  specialize (H eq_refl eq_refl). reflexivity.
Defined.

Section Properties.
Context {SR : StringRefOps}.
Variable writeTempFile : string → string → ErrorOr string.
Variable createTempFile : string → ErrorOr string.
Variable tempDirectory : string.
Variable ExecuteAndWait : string → list string → Z * string.
Variable readFile : string → option string.
Variable writeBytesToTempWithHash : string → string → bool.

(** What one link adds to the log, and its result. *)
Definition linkEvents (t : LinkTarget) (args : list string) (out : string) (log : option string)
    (r : option string + string) (new : list Event) : Prop :=
  let program := default "" (head args) in
  let '(code, errorMsg) := ExecuteAndWait program args in
  (code ≠ 0 ∧ new = [Link program args log]
   ∧ r = match linkError readFile t errorMsg log with None => inl None | Some msg => inr msg end)
  ∨ (code = 0 ∧ ∃ image, readFile out = Some image
      ∧ new = [Link program args log; ReadImage out; SaveTemp ("." ++ fileStem out ++ outExtension t) image]
      ∧ (r = inl (Some image) ∨ r = inr "failed to write shared object binary to saveTemps"))
  ∨ code = 0 ∧ readFile out = None ∧ new = [Link program args log; ReadImage out]
      ∧ r = inr "failed to open shared object binary".

Lemma linkAndRead_events t args out log l :
  let '(r, l') := linkAndRead ExecuteAndWait readFile writeBytesToTempWithHash t args out log l in
  ∃ new, l' = (l ++ new)%list ∧ linkEvents t args out log r new.
Proof.
  unfold linkAndRead, linkEvents. set (program := default "" (head args)).
  unfold mbind, Early_bind, tell. destruct (ExecuteAndWait program args) as [code errorMsg].
  destruct (Z.eqb_spec code 0) as [->|Hc]; simpl.
  - destruct (readFile out) as [image|] eqn:Er; simpl.
    + destruct (writeBytesToTempWithHash _ _); simpl; (eexists; split; [rewrite <- !app_assoc; reflexivity|]); right; left; (split; [done|]); exists image; auto.
    + eexists. split; [rewrite <- !app_assoc; reflexivity|]. auto 10.
  - destruct (linkError readFile t errorMsg log); simpl; (eexists; split; [reflexivity|]; left; auto).
Qed.

(** A shared object is linked with the object that was written and the
    arguments for its format, once, and both temporary files, the object and
    the log of the linker, are gone whatever happens.  The image that the linker
    wrote is not one of them: its copy in the directory for temporary files is
    never removed. *)
Theorem shared_object_temp_files t buf moduleName linker extra log r log' :
  createSharedObject writeTempFile createTempFile tempDirectory ExecuteAndWait readFile writeBytesToTempWithHash
    t buf moduleName linker extra log = (r, log') →
  (r = inr "failed to write object binary into a file" ∧ log' = log)
  ∨ ∃ objFilePath errorFile new,
      let out := path_div tempDirectory (fileStem objFilePath ++ outExtension t) in
      let args := lldArgs t linker extra objFilePath out in
      writeTempFile (moduleName ++ "-%%%%%%%" ++ inExtension t) buf = Success objFilePath
      ∧ linkEvents t args out errorFile r new
      ∧ log' = (log ++ [CreateTemp objFilePath]
                ++ match errorFile with None => new | Some e => [CreateTemp e] ++ new ++ [RemoveTemp e] end
                ++ [RemoveTemp objFilePath])%list
      ∧ (out ≠ objFilePath → errorFile ≠ Some out → ∀ e, e ∈ new → e ≠ RemoveTemp out).
Proof.
  unfold createSharedObject. destruct (writeTempFile _ buf) as [objFilePath|msg] eqn:Ew; [|intros [= <- <-]; by left].
  set (out := path_div tempDirectory _). set (args := lldArgs t linker extra objFilePath out).
  unfold mbind, Early_bind, tell, scopedTemp, withErrorFile. intros H. right.
  assert (Hnew : ∀ errorFile new, linkEvents t args out errorFile r new → ∀ e, e ∈ new → e ≠ RemoveTemp out).
  { intros errorFile new. unfold linkEvents. destruct (ExecuteAndWait _ args).
    intros [(_ & -> & _)|[(_ & image & _ & -> & _)|(_ & _ & -> & _)]] e He;
      rewrite !elem_of_cons, elem_of_nil in He; naive_solver. }
  destruct (createTempFile _) as [errorPath|msg].
  - unfold mbind, Early_bind, tell, scopedTemp in H. pose proof (linkAndRead_events t args out (Some errorPath)
      ((log ++ [CreateTemp objFilePath]) ++ [CreateTemp errorPath])%list) as Hl.
    destruct (linkAndRead _ _ _ _ _ _ _ _) as [r' l']. destruct Hl as (new & -> & Hev). injection H as <- <-.
    exists objFilePath, (Some errorPath), new. split; [done|]. split; [done|]. split; [|by intros; eapply Hnew].
    by rewrite <- !app_assoc.
  - pose proof (linkAndRead_events t args out None (log ++ [CreateTemp objFilePath])%list) as Hl.
    destruct (linkAndRead _ _ _ _ _ _ _ _) as [r' l']. destruct Hl as (new & -> & Hev). injection H as <- <-.
    exists objFilePath, None, new. split; [done|]. split; [done|]. split; [|by intros; eapply Hnew].
    by rewrite <- !app_assoc.
Qed.
End Properties.

(** A link for Windows that succeeds. *)
Definition windowsTarget : LinkTarget := mkLinkTarget COFF x86_64 "" "" "cpu" [].
Lemma shared_object_temp_files_witness :
  ∃ r log', createSharedObject (SR := llvm_stringref) (fun _ _ => Success "/tmp/m-1.obj") (fun _ => Success "/tmp/e.log") "/tmp"
    (fun _ _ => (0, "")) (fun _ => Some "MZ") (fun _ _ => true) windowsTarget "obj" "m" "lld-link" ["rt.lib"] [] = (r, log')
  ∧ r = inl (Some "MZ") ∧ head log' = Some (CreateTemp "/tmp/m-1.obj") ∧ last log' = Some (RemoveTemp "/tmp/m-1.obj").
Proof.
  eexists _, _. split; [reflexivity|]. pose proof (shared_object_temp_files (SR := llvm_stringref) (fun _ _ => Success "/tmp/m-1.obj")
    (fun _ => Success "/tmp/e.log") "/tmp" (fun _ _ => (0, "")) (fun _ => Some "MZ") (fun _ _ => true) windowsTarget "obj" "m" "lld-link"
    ["rt.lib"] [] _ _ eq_refl) as [[H _]|(obj & e & new & Hw & _ & Hlog & _)]; [discriminate|].
  injection Hw as <-. split; [reflexivity|]. rewrite Hlog. split; [reflexivity|].
  rewrite !app_assoc. apply last_snoc.
Defined.

End SharedObject.
