(* ===== verification/EmitArchive.v ===== *)
(** The parts of Mojo/lib/Compiler/ObjectCompiler/ObjectCompiler.cpp that turn a
    module into one object: the attributes and bitcode libraries that are put
    into it, the units that are compiled in parallel and share one set of
    functions seen, the link of their results, the life of the operation that is
    compiled, and the key its result is cached under.  LLVM and the target's
    backend are parameters. *)
From stdpp Require Import gmap sets.
From S2P Require Import Prelude StringRef LinkOutput.

#[local] Open Scope string_scope.
#[local] Open Scope Z_scope.

Module EmitArchive.

#[local] Abbreviation length := List.length (only parsing).

(** ** LLVM modules *)

Record Function_ := mkFunction {
  fnName : string; isDeclaration : bool; hasExternalLinkage : bool; hasHiddenVisibility : bool; isIntrinsic : bool;
  fnAttrs : list string
}.
Record Module_ := mkModule { moduleName : string; targetTriple : string; functions : list Function_ }.

Definition definitions (m : Module_) : list string :=
  map fnName (List.filter (fun f => negb (isDeclaration f)) (functions m)).

Record Sanitizers := mkSanitizers { kAddress : bool; kThread : bool }.
Definition addFnAttr (attr : string) (f : Function_) : Function_ :=
  mkFunction (fnName f) (isDeclaration f) (hasExternalLinkage f) (hasHiddenVisibility f) (isIntrinsic f)
    (fnAttrs f ++ [attr])%list.
Definition attachInstrumentationAttributes (s : Sanitizers) (m : Module_) : Module_ :=
  if negb (kAddress s || kThread s) then m
  else mkModule (moduleName m) (targetTriple m)
         (map (fun f =>
                 if isDeclaration f then f
                 else let f := if kAddress s then addFnAttr "sanitize_address" f else f in
                      if kThread s then addFnAttr "sanitize_thread" f else f) (functions m)).

(** [StringMap::insert] keeps what is there. *)
Definition insertNew (result : gmap string nat) (name : string) (idx : nat) : gmap string nat :=
  match result !! name with Some _ => result | None => <[name := idx]> result end.
Fixpoint computeFnOrderingFrom (fns : list Function_) (idx : nat) (result : gmap string nat) : gmap string nat :=
  match fns with
  | [] => result
  | f :: fns =>
      if isDeclaration f then computeFnOrderingFrom fns idx result
      else computeFnOrderingFrom fns (S idx) (insertNew result (fnName f) idx)
  end.
Definition computeFnOrdering (m : Module_) : gmap string nat := computeFnOrderingFrom (functions m) 0 ∅.

(** ** Bitcode libraries *)

(** A file, a resource with its bytes if it has any, or another attribute. *)
Inductive Library := FileLibrary (path : string) | ResourceLibrary (blob : option string) | OtherLibrary.
Inductive Flags := LinkOnlyNeeded | None_.

Section Link.
(** The file system, the bitcode readers and the linker. *)
Variable is_regular_file : string → bool.
Variable getLazyIRFileModule : string → ErrorOr Module_.
Variable getOwningLazyBitcodeModule : string → ErrorOr Module_.
Variable linkInModule : Flags → Module_ → Module_ → option Module_.
(** The target's backend. *)
Variable linkRuntimeLibraries : Module_ → ErrorOr Module_.
Variable onlyLinkExternFunctionsInBitcodeLibs : bool.

Definition loadBitcodeFile (path : string) : ErrorOr Module_ :=
  if negb (is_regular_file path) then Error ("Bitcode file path: " ++ path ++ " does not exist or is not a file.")
  else match getLazyIRFileModule path with
       | Error msg => Error ("Failed loading bitcode file from " ++ path ++ ", error: " ++ msg)
       | Success library => Success library
       end.
Definition loadBitcodeFromResource (blob : option string) : ErrorOr Module_ :=
  match blob with
  | None => Error "Failed to get bitcode blob from resource attribute"
  | Some data =>
      match getOwningLazyBitcodeModule data with
      | Error msg => Error ("Failed to parse bitcode from package: " ++ msg)
      | Success m => Success m
      end
  end.

Definition linkModule (llvmModule libModule : Module_) : ErrorOr Module_ :=
  if negb (String.eqb (targetTriple libModule) (targetTriple llvmModule)) then Success llvmModule
  else match linkInModule (if onlyLinkExternFunctionsInBitcodeLibs then LinkOnlyNeeded else None_) llvmModule libModule with
       | None => Error "Unrecoverable failure during bitcode linking."
       | Some m => Success m
       end.

(** The libraries in order, with the flag that tells which were used. *)
Definition load (l : Library) : option (ErrorOr Module_) :=
  match l with
  | FileLibrary path => Some (loadBitcodeFile path)
  | ResourceLibrary blob => Some (loadBitcodeFromResource blob)
  | OtherLibrary => None
  end.
Fixpoint linkLibraries (llvmModule : Module_) (libs : list (bool * Library)) : list (bool * Library) * ErrorOr Module_ :=
  match libs with
  | [] => ([], Success llvmModule)
  | (used, library) :: rest =>
      match load library with
      | None => let '(rest, r) := linkLibraries llvmModule rest in ((used, library) :: rest, r)
      | Some loaded =>
          match (libModule ← loaded; linkModule llvmModule libModule) with
          | Error msg => ((used, library) :: rest, Error msg)
          | Success llvmModule => let '(rest, r) := linkLibraries llvmModule rest in ((true, library) :: rest, r)
          end
      end
  end.

Definition isExtern (fn : Function_) : bool :=
  isDeclaration fn && (hasExternalLinkage fn || hasHiddenVisibility fn) && negb (isIntrinsic fn).

Definition linkBitcodeLibraries (llvmModule : Module_) (bitcodeLibs : list (bool * Library))
    : list (bool * Library) * ErrorOr Module_ :=
  match linkRuntimeLibraries llvmModule with
  | Error msg => (bitcodeLibs, Error msg)
  | Success llvmModule =>
      match bitcodeLibs with
      | [] => (bitcodeLibs, Success llvmModule)
      | _ =>
          let hasExternFunctions := existsb isExtern (functions llvmModule) in
          if negb hasExternFunctions && onlyLinkExternFunctionsInBitcodeLibs then (bitcodeLibs, Success llvmModule)
          else linkLibraries llvmModule bitcodeLibs
      end
  end.
End Link.

(** ** Units *)

(** The critical section: the functions of a unit that another unit has
    already, by the set all units share. *)
Fixpoint dedup (fns : list string) (seen : gset string) : gset string * gset string :=
  match fns with
  | [] => (∅, seen)
  | fn :: fns =>
      let isNew := bool_decide (fn ∉ seen) in
      let '(duplicated, seen) := dedup fns ({[fn]} ∪ seen) in
      (if isNew then duplicated else {[fn]} ∪ duplicated, seen)
  end.
(** The units in the order in which they enter it. *)
Fixpoint dedupAll (units : list (list string)) (seen : gset string) : list (gset string) * gset string :=
  match units with
  | [] => ([], seen)
  | fns :: units =>
      let '(d, seen) := dedup fns seen in let '(ds, seen) := dedupAll units seen in (d :: ds, seen)
  end.

Inductive SplitStrategy := NoSplit | PerFunction | PerExported.
#[export] Instance SplitStrategy_eq_dec : EqDecision SplitStrategy.
Proof. solve_decision. Defined.
(** What the archive is made with: threads, the options, the backend. *)
Record Config := mkConfig {
  parallelismLevel : Z; enableParallelLLC : bool; isCodegenInterprocedural : bool; splitStrategy : SplitStrategy;
  saveTempsPrefix : string; requiresOriginalFunctionOrder : bool
}.
Record Unit_ := mkUnit { unitModule : Module_; unitIdx : option Z; numFunctionsBase : Z; unitParLLC : bool }.

Section Archive.
Context {MCInfo Operation : Type}.
Variable cfg : Config.
Variable splitPerFunction : Module_ → list (Module_ * option Z * Z).
Variable splitPerExported : Module_ → list (Module_ * option Z * Z).

(** [emitArchiveParallelCompilation]. *)
Definition archiveUnits (llvmModule : Module_) : list Unit_ :=
  let noSplitting := parallelismLevel cfg <? 2 in
  let parLLC := (parallelismLevel cfg >=? 2) && enableParallelLLC cfg && negb (isCodegenInterprocedural cfg) in
  let strategy := splitStrategy cfg in
  if noSplitting || bool_decide (strategy = NoSplit) then [mkUnit llvmModule None 0 parLLC]
  else
    map (fun '(m, idx, base) => mkUnit m idx base (negb (bool_decide (strategy = PerFunction)) && parLLC))
      (if bool_decide (strategy = PerFunction) then splitPerFunction llvmModule else splitPerExported llvmModule).

(** Code generation of a unit: creating its target machine and optimizing it
    may fail, and each of its functions may; [None] is taking the value of a
    failed one. *)
Variable createTargetMachine : ErrorOr unit.
Variable optimizeLLVMModule : Module_ → option Module_.
Variable compileOptimizedLLVMToObjects : Unit_ → Module_ → gset string → list (ErrorOr MCInfo).

Definition collect (buffers : list (ErrorOr MCInfo)) : option (list MCInfo) :=
  mapM (fun b => match b with Success v => Some v | Error _ => None end) buffers.

Definition lowerLLVMModuleToObjects (u : Unit_) (seen : gset string)
    : option (ErrorOr (list MCInfo)) * gset string :=
  match createTargetMachine with
  | Error msg => (Some (Error msg), seen)
  | Success _ =>
      match optimizeLLVMModule (unitModule u) with
      | None => (Some (Error "failed to optimize LLVM IR."), seen)
      | Some m =>
          let '(duplicated, seen) := dedup (definitions m) seen in
          (Success <$> collect (compileOptimizedLLVMToObjects u m duplicated), seen)
      end
  end.
Fixpoint compileUnits (units : list Unit_) (seen : gset string)
    : option (list (ErrorOr (list MCInfo))) * gset string :=
  match units with
  | [] => (Some [], seen)
  | u :: units =>
      let '(r, seen) := lowerLLVMModuleToObjects u seen in
      let '(rs, seen) := compileUnits units seen in
      (r ← r; rs ← rs; Some (r :: rs), seen)
  end.

(** [MCLinker], with whether to print assembly. *)
Variable linkAndPrint : list (list MCInfo) → string → bool → gmap string nat → ErrorOr string.

Definition emitArchiveMCLinking (values : list (ErrorOr (list MCInfo))) (moduleName : string) (emitAssembly : bool)
    (originalFnOrdering : gmap string nat) : ErrorOr string :=
  infos ← mapM (M := ErrorOr) id values;
  match createTargetMachine with
  | Error _ => Error "failed to create TargetMachine"
  | Success _ => linkAndPrint infos moduleName emitAssembly originalFnOrdering
  end.

(** ** emitArchive *)

(** What happens to the operation that is compiled: it is read, and erased. *)
Inductive OpEvent := UseOp | EraseOp.
Abbreviation Emit A := (Early OpEvent (ErrorOr string) A).

(** Lowering, the bitcode libraries, the extension of assembly files and the
    copies for --save-temps; what is cached for the operation. *)
Variable lowerAllFuncsToLLVM : Operation → ErrorOr Module_.
Variable translateModuleToLLVMIR : Operation → ErrorOr Module_.
Variable linkBitcode : Module_ → ErrorOr Module_.
Variable asmExtension : ErrorOr string.
Variable writeBytesToTempWithHash : string → string → bool.
Variable cached : Operation → option string.

Definition fail {A} (msg : string) : Emit A := return_ (Error msg).

(** [emitArchiveSaveTemps], with the functions seen cleared. *)
Definition emitArchiveSaveTemps (op : Operation) (moduleName : string) : option (ErrorOr unit) :=
  match translateModuleToLLVMIR op with
  | Error msg => Some (Error ("failed to lower module to LLVM IR for archive compilation, " ++ msg))
  | Success llvmModule =>
      match createTargetMachine with
      | Error msg => Some (Error msg)
      | Success _ =>
          values ← fst (compileUnits (archiveUnits llvmModule) ∅);
          Some (linked ← emitArchiveMCLinking values moduleName true ∅;
                if writeBytesToTempWithHash ".s" linked then Success tt
                else Error "failed to save asm to saveTempsPrefix")
      end
  end.

(** [runTransformation]; [None] is an assertion, which ends everything. *)
Definition runTransformation (op : Operation) (emitAssembly : bool) (seen : gset string) : Emit (option string) :=
  _ ← tell UseOp;
  llvmModule ← match lowerAllFuncsToLLVM op with
               | Error msg => _ ← tell EraseOp; fail ("failed to lower module to LLVM IR for archive compilation, " ++ msg)
               | Success m => mret m
               end;
  llvmModule ← orElseReturn (linkBitcode llvmModule) (fun _ => fail "failed to link bitcode libraries");
  if requiresOriginalFunctionOrder cfg && negb emitAssembly then mret None else
  let erased := isEmpty (saveTempsPrefix cfg) || emitAssembly in
  _ ← (if erased then tell EraseOp else mret tt);
  let ordering := if requiresOriginalFunctionOrder cfg then computeFnOrdering llvmModule else ∅ in
  match fst (compileUnits (archiveUnits llvmModule) seen) with
  | None => mret None
  | Some values =>
      linkedObj ← orElseReturn (emitArchiveMCLinking values (moduleName llvmModule) emitAssembly ordering) fail;
      if emitAssembly then
        postfix ← orElseReturn asmExtension fail;
        if writeBytesToTempWithHash postfix linkedObj then mret (Some linkedObj)
        else fail "failed to save asm to saveTempsPrefix"
      else if negb (isEmpty (saveTempsPrefix cfg)) then
        _ ← tell UseOp;
        match emitArchiveSaveTemps op (moduleName llvmModule) with
        | None => mret None
        | Some saveTempsResult =>
            _ ← tell EraseOp;
            _ ← orElseReturn saveTempsResult fail;
            mret (Some linkedObj)
        end
      else mret (Some linkedObj)
  end.

(** The caller's reference erases the operation if it is not passed on, and a
    hit in the cache does. *)
Definition emitArchive (op : Operation) (emitAssembly : bool) (seen : gset string) : Emit (option string) :=
  _ ← orElseReturn createTargetMachine (fun msg => _ ← tell EraseOp; fail msg);
  match cached op with
  | Some buf => _ ← tell EraseOp; mret (Some buf)
  | None => runTransformation op emitAssembly seen
  end.
End Archive.

(** ** The key of the cache *)

Definition digit (b : bool) : string := if b then "1" else "0".
(** The options print themselves, and the relocation model as a number. *)
Definition archiveKey (options relocModel : string) (isJIT perFunctionSplitting emitAssembly verboseOutput forSharedObject : bool)
    : string :=
  "emitArchive(" ++ options ++ ", isJIT=" ++ digit isJIT ++ ", enableLLVMPerFunctionSplitting=" ++ digit perFunctionSplitting
  ++ ", emitAssembly=" ++ digit emitAssembly ++ ", relocModel=" ++ relocModel ++ ", verboseOutput=" ++ digit verboseOutput
  ++ ", forSharedObject=" ++ digit forSharedObject ++ ")".

(** ** Properties *)

Lemma dedup_spec fns : ∀ seen, NoDup fns →
  snd (dedup fns seen) = seen ∪ list_to_set fns ∧ ∀ fn, fn ∈ fst (dedup fns seen) ↔ fn ∈ fns ∧ fn ∈ seen.
Proof.
  induction fns as [|f fns IH]; intros seen Hn; simpl; [set_solver|].
  apply NoDup_cons in Hn as [Hf Hn]. destruct (IH ({[f]} ∪ seen) Hn) as [H1 H2].
  destruct (dedup fns _) as [d seen']. simpl in *. subst seen'. split; [set_solver|]. intros fn.
  case_bool_decide as Hb; rewrite ?elem_of_union, ?elem_of_singleton, H2, elem_of_union, elem_of_singleton, elem_of_cons; naive_solver.
Qed.

(** Whether a unit, of those in this order, generates a function. *)
Definition generates (units : list (list string)) (seen : gset string) (i : nat) (fn : string) : Prop :=
  ∃ fns duplicated, units !! i = Some fns ∧ fst (dedupAll units seen) !! i = Some duplicated
    ∧ fn ∈ fns ∧ fn ∉ duplicated.

Lemma generates_first units : ∀ seen i fn, Forall NoDup units →
  generates units seen i fn ↔
  (∃ fns, units !! i = Some fns ∧ fn ∈ fns) ∧ fn ∉ seen ∧ ∀ j fns, (j < i)%nat → units !! j = Some fns → fn ∉ fns.
Proof.
  unfold generates. induction units as [|u units IH]; intros seen i fn Hn; simpl.
  - split; [intros (fns & d & H & _); by rewrite lookup_nil in H|intros ((fns & H & _) & _); by rewrite lookup_nil in H].
  - apply Forall_cons in Hn as [Hu Hn]. destruct (dedup_spec u seen Hu) as [H1 H2].
    destruct (dedup u seen) as [d seen']. simpl in H1, H2. subst seen'.
    specialize (IH (seen ∪ list_to_set u)). destruct (dedupAll units _) as [ds seen'']. simpl in *.
    destruct i as [|i]; simpl.
    + split.
      * intros (fns & d' & [= ->] & [= ->] & Hin & Hnot). rewrite H2 in Hnot.
        split; [eauto|]. split; [by intros ?; apply Hnot|lia].
      * intros ((fns & [= ->] & Hin) & Hs & _). exists fns, d. rewrite H2. naive_solver.
    + rewrite IH by done. rewrite not_elem_of_union, elem_of_list_to_set. split.
      * intros (Hi & (Hs & Hu') & Hj). split; [done|]. split; [done|].
        intros [|j] fns Hlt Hl; [simpl in Hl; by injection Hl as <-|]. apply (Hj j); [lia|done].
      * intros (Hi & Hs & Hj). split; [done|]. split; [split; [done|apply (Hj O); [lia|done]]|].
        intros j fns Hlt Hl. apply (Hj (S j)); [lia|done].
Qed.



(** The function ordering numbers the definitions. *)
Lemma computeFnOrderingFrom_spec fns : ∀ idx result,
  NoDup (map fnName (List.filter (fun f => negb (isDeclaration f)) fns)) →
  (∀ n, n ∈ map fnName (List.filter (fun f => negb (isDeclaration f)) fns) → result !! n = None) →
  ∀ n, computeFnOrderingFrom fns idx result !! n =
    match list_find (eq n) (map fnName (List.filter (fun f => negb (isDeclaration f)) fns)) with
    | Some (i, _) => Some (idx + i)%nat
    | None => result !! n
    end.
Proof.
  induction fns as [|f fns IH]; intros idx result Hn Hr n; simpl in *; [done|].
  destruct (isDeclaration f) eqn:Ed; simpl in *; [by apply IH|].
  apply NoDup_cons in Hn as [Hf Hn].
  assert (Hnew : insertNew result (fnName f) idx = <[fnName f := idx]> result).
  { unfold insertNew. by rewrite Hr by left. }
  rewrite Hnew, IH; [|done|intros m Hm; rewrite lookup_insert_ne by (intros <-; done); apply Hr; by right].
  case_decide as Hd; [subst n|].
  - assert (list_find (eq (fnName f)) (map fnName (List.filter (fun f => negb (isDeclaration f)) fns)) = None) as ->.
    { apply list_find_None, Forall_forall. intros x Hx <-. done. }
    rewrite lookup_insert_eq. f_equal. lia.
  - destruct (list_find _ _) as [[i x]|]; simpl; [f_equal; lia|]. by rewrite lookup_insert_ne.
Qed.

(** After a link every library that is read is marked as used, also one of
    another target that was passed over. *)
Lemma libraries_used isFile lazyIR lazyBitcode linkIn only libs : ∀ m m' libs',
  linkLibraries isFile lazyIR lazyBitcode linkIn only m libs = (libs', Success m') →
  Forall2 (fun l l' => snd l' = snd l
    ∧ (fst l' = true ↔ fst l = true ∨ load isFile lazyIR lazyBitcode (snd l) ≠ None)) libs libs'.
Proof.
  induction libs as [|[used l] libs IH]; intros m m' libs' H; simpl in H; [injection H as <- _; constructor|].
  destruct (load isFile lazyIR lazyBitcode l) as [loaded|] eqn:El.
  - destruct (loaded ≫= _) as [m1|msg]; [|done].
    destruct (linkLibraries _ _ _ _ _ m1 libs) as [rest r] eqn:E. injection H as <- ->.
    constructor; [|by eapply IH]. simpl. rewrite El. split; [done|]. split; [by right|done].
  - destruct (linkLibraries _ _ _ _ _ m libs) as [rest r] eqn:E. injection H as <- ->.
    constructor; [|by eapply IH]. simpl. rewrite El. split; [done|]. naive_solver.
Qed.

(** ** The life of the operation *)

Section Lifetime.
Context {MCInfo Operation : Type}.
Variable cfg : Config.
Variable splitPerFunction : Module_ → list (Module_ * option Z * Z).
Variable splitPerExported : Module_ → list (Module_ * option Z * Z).
Variable createTargetMachine : ErrorOr unit.
Variable optimizeLLVMModule : Module_ → option Module_.
Variable compileOptimizedLLVMToObjects : Unit_ → Module_ → gset string → list (ErrorOr MCInfo).
Variable linkAndPrint : list (list MCInfo) → string → bool → gmap string nat → ErrorOr string.
Variable lowerAllFuncsToLLVM : Operation → ErrorOr Module_.
Variable translateModuleToLLVMIR : Operation → ErrorOr Module_.
Variable linkBitcode : Module_ → ErrorOr Module_.
Variable asmExtension : ErrorOr string.
Variable writeBytesToTempWithHash : string → string → bool.
Variable cached : Operation → option string.

Abbreviation emit := (emitArchive cfg splitPerFunction splitPerExported createTargetMachine optimizeLLVMModule
  compileOptimizedLLVMToObjects linkAndPrint lowerAllFuncsToLLVM translateModuleToLLVMIR linkBitcode asmExtension
  writeBytesToTempWithHash cached).
Abbreviation compiled m seen := (fst (compileUnits createTargetMachine optimizeLLVMModule compileOptimizedLLVMToObjects
  (archiveUnits cfg splitPerFunction splitPerExported m) seen)).
Abbreviation linking values m asm := (emitArchiveMCLinking createTargetMachine linkAndPrint values (moduleName m) asm
  (if requiresOriginalFunctionOrder cfg then computeFnOrdering m else ∅)).

(** The two errors after which the operation is still there. *)
Definition leaks (op : Operation) (emitAssembly : bool) (seen : gset string) : Prop :=
  ∃ m, lowerAllFuncsToLLVM op = Success m
    ∧ ((∃ msg, linkBitcode m = Error msg)
       ∨ ∃ m' values msg, linkBitcode m = Success m' ∧ compiled m' seen = Some values
           ∧ linking values m' emitAssembly = Error msg ∧ emitAssembly = false ∧ saveTempsPrefix cfg ≠ "").

(** The events of an operation that is used and then erased, or only used. *)
Definition erasedLast (new : list OpEvent) : Prop := ∃ uses, new = (repeat UseOp uses ++ [EraseOp])%list.

Lemma emit_cases op asm seen :
  let '(r, new) := emit op asm seen [] in
  match r with
  | inl (Some _) => erasedLast new
  | inl None => True
  | inr (Success _) => False
  | inr (Error _) => erasedLast new ∨ (new = [UseOp] ∧ leaks op asm seen)
  end
  ∧ (erasedLast new ∨ ∃ uses, new = repeat UseOp uses).
Proof.
  assert (Huse : ∀ n, erasedLast (repeat UseOp n ++ [EraseOp])%list) by (intros n; by exists n).
  pose proof (Huse 0%nat) as H0. pose proof (Huse 1%nat) as H1. pose proof (Huse 2%nat) as H2. simpl in H0, H1, H2.
  unfold emitArchive, runTransformation, fail, mbind, Early_bind, tell, return_, orElseReturn, mret, Early_ret.
  destruct createTargetMachine as [[]|msg] eqn:Et; simpl; [|by split; [left|left]].
  destruct (cached op); simpl; [by split; [|left]|].
  destruct (lowerAllFuncsToLLVM op) as [m|msg] eqn:El; simpl; [|by split; [left|left]].
  destruct (linkBitcode m) as [m'|msg] eqn:Eb; simpl.
  2:{ split; [right; split; [done|]|right; by exists 1%nat]. exists m. split; [done|]. left. eauto. }
  destruct (requiresOriginalFunctionOrder cfg && negb asm) eqn:Ereq; simpl; [split; [done|right; by exists 1%nat]|].
  destruct (isEmpty (saveTempsPrefix cfg) || asm) eqn:Eerased; simpl.
  - destruct (compileUnits _ _ _ _ _) as [[values|] seen'] eqn:Ec; simpl; [|by split; [|left]].
    destruct (emitArchiveMCLinking _ _ _ _ _ _) as [linked|msg] eqn:Em; simpl; [|by split; [left|left]].
    destruct asm; simpl.
    + destruct asmExtension; simpl; [|by split; [left|left]]. destruct (writeBytesToTempWithHash _ _); simpl; [by split; [|left]|by split; [left|left]].
    + rewrite orb_false_r in Eerased. rewrite Eerased. simpl. by split; [|left].
  - apply orb_false_iff in Eerased as [Ee ->]. rewrite Ee. simpl.
    destruct (compileUnits _ _ _ _ _) as [[values|] seen'] eqn:Ec; simpl; [|split; [done|right; by exists 1%nat]].
    destruct (emitArchiveMCLinking _ _ _ _ _ _) as [linked|msg] eqn:Em; simpl.
    + destruct (emitArchiveSaveTemps _ _ _ _ _ _ _ _ _ _ _) as [[[]|msg]|]; simpl;
        [by split; [|left]|by split; [left|left]|split; [done|right; by exists 2%nat]].
    + split; [right; split; [done|]|right; by exists 1%nat]. exists m. split; [done|]. right.
      exists m', values, msg. rewrite Et, Ec. simpl. split_and!; [done|done|exact Em|done|by intros E; rewrite E in Ee].
Qed.

(** C30: The operation that is compiled is never used or erased once it has been
    erased; every archive that is made, from the cache too, has erased it; and
    an error has erased it as well unless the bitcode libraries did not link,
    or the object did not while --save-temps kept the operation. *)
Theorem archive_operation_lifetime op emitAssembly seen :
  (∀ before after, snd (emit op emitAssembly seen []) = (before ++ EraseOp :: after)%list → after = [])
  ∧ (∀ buf, fst (emit op emitAssembly seen []) = inl (Some buf) → last (snd (emit op emitAssembly seen [])) = Some EraseOp)
  ∧ (∀ r, fst (emit op emitAssembly seen []) = inr r →
       (∃ msg, r = Error msg)
       ∧ (last (snd (emit op emitAssembly seen [])) = Some EraseOp
          ∨ EraseOp ∉ snd (emit op emitAssembly seen []) ∧ leaks op emitAssembly seen)).
Proof.
  pose proof (emit_cases op emitAssembly seen) as H. destruct (emit op emitAssembly seen []) as [r new]. simpl.
  assert (Hlast : erasedLast new → last new = Some EraseOp) by (intros [n ->]; apply last_snoc).
  destruct H as [Hr Hshape]. split_and!.
  - intros before after ->. assert (Hno : ∀ n, EraseOp ∉ repeat UseOp n).
    { induction n as [|n IH]; simpl; [apply not_elem_of_nil|]. rewrite elem_of_cons. intros [?|?]; done. }
    destruct Hshape as [[n Hn]|[n Hn]]; [|exfalso; apply (Hno n); rewrite <- Hn; set_solver].
    destruct (decide (after = [])) as [|Ha]; [done|exfalso].
    destruct (exists_last Ha) as (after' & x & ->). rewrite app_comm_cons, app_assoc in Hn.
    apply app_inj_tail in Hn as [Hn _]. apply (Hno n). rewrite <- Hn. set_solver.
  - intros buf ->. by apply Hlast.
  - intros r' ->. destruct r' as [|msg]; [done|]. split; [eauto|]. destruct Hr as [?|[-> ?]]; [left; auto|right; split; [|done]].
    rewrite list_elem_of_singleton. done.
Qed.

(** A function whose code generation fails is not an error of the archive:
    where the other tasks hand the error on, the task of the unit takes the
    value of the failed result, which ends the compiler by an assertion. *)
Theorem codegen_error_asserts op emitAssembly seen m m' u units d msg :
  createTargetMachine = Success tt → cached op = None → lowerAllFuncsToLLVM op = Success m → linkBitcode m = Success m' →
  requiresOriginalFunctionOrder cfg = false →
  archiveUnits cfg splitPerFunction splitPerExported m' = u :: units →
  optimizeLLVMModule (unitModule u) = Some d →
  Error msg ∈ compileOptimizedLLVMToObjects u d (fst (dedup (definitions d) seen)) →
  fst (emit op emitAssembly seen []) = inl None.
Proof.
  intros Ht Hc Hl Hb Ho Hu Hopt Herr.
  unfold emitArchive, runTransformation, mbind, Early_bind, tell, return_, orElseReturn, mret, Early_ret.
  rewrite Ht, Hc, Hl, Hb, Ho. simpl.
  assert (Hcollect : collect (compileOptimizedLLVMToObjects u d (fst (dedup (definitions d) seen))) = None).
  { unfold collect. apply eq_None_not_Some. intros [infos Hinfos]. apply mapM_Some_1 in Hinfos.
    apply list_elem_of_lookup in Herr as [i Hi].
    destruct (Forall2_lookup_l _ _ _ _ _ Hinfos Hi) as (v & _ & Hv). done. }
  assert (Hunits : compiled m' seen = None).
  { rewrite Hu. simpl. unfold lowerLLVMModuleToObjects. rewrite Ht, Hopt.
    destruct (dedup (definitions d) seen) as [dup seen']. simpl in Hcollect. rewrite Hcollect. simpl.
    by destruct (compileUnits _ _ _ units seen') as [rs ?]. }
  rewrite Ht in Hunits. rewrite Hunits. by destruct (isEmpty (saveTempsPrefix cfg) || emitAssembly).
Qed.

End Lifetime.

(** ** The key *)

Abbreviation noComma := (string_forall (fun c => negb (Ascii.eqb "," c))).
(** The last comma splits a string in one way. *)
Lemma last_comma_inj a b u v : noComma u = true → noComma v = true →
  a ++ String "," u = b ++ String "," v → a = b ∧ u = v.
Proof.
  intros Hu Hv. assert (Hno : ∀ u a v, noComma u = true → u ≠ a ++ String "," v).
  { clear. induction u as [|c u IH]; intros [|d a] v Hu H; simpl in *; try done.
    - injection H as -> _. done.
    - apply andb_true_iff in Hu as [_ Hu]. injection H as -> H. by apply (IH a v). }
  revert b. induction a as [|c a IH]; intros [|d b] H; simpl in H.
  - by injection H as ->.
  - injection H as <- H. by destruct (Hno u b v Hu).
  - injection H as -> H. symmetry in H. by destruct (Hno v a u Hv).
  - injection H as -> H. by destruct (IH b H) as [-> ->].
Qed.

Definition keyHead (options : string) (isJIT perFunctionSplitting emitAssembly : bool) : string :=
  "emitArchive(" ++ options ++ (", isJIT=" ++ digit isJIT ++ ", enableLLVMPerFunctionSplitting=" ++ digit perFunctionSplitting
  ++ ", emitAssembly=" ++ digit emitAssembly).
Definition keyTail (verboseOutput forSharedObject : bool) : string :=
  ", verboseOutput=" ++ digit verboseOutput ++ ", forSharedObject=" ++ digit forSharedObject ++ ")".

Lemma archiveKey_parts options relocModel j p e v f :
  archiveKey options relocModel j p e v f
  = (keyHead options j p e ++ String "," (" relocModel=" ++ relocModel)) ++ keyTail v f.
Proof. unfold archiveKey, keyHead, keyTail. rewrite !string_app_assoc. simpl. by rewrite ?string_app_assoc. Qed.

Lemma keyHead_inj o o' j j' p p' e e' : keyHead o j p e = keyHead o' j' p' e' → o = o' ∧ j = j' ∧ p = p' ∧ e = e'.
Proof.
  unfold keyHead. simpl. intros [= H].
  apply string_app_suffix_inj in H as [-> H]; [|by destruct j, j', p, p', e, e'].
  split; [done|]. by destruct j, j', p, p', e, e'.
Qed.

(** The key of the cache tells apart whatever the archive is made with
    besides the module: two requests with the same key agree on the printed
    options and on every flag, so that in particular an object for a shared
    library never stands in for one that is linked with a main. *)
Theorem archive_key_injective o o' r r' j j' p p' e e' v v' f f' :
  noComma r = true → noComma r' = true →
  archiveKey o r j p e v f = archiveKey o' r' j' p' e' v' f' →
  o = o' ∧ r = r' ∧ j = j' ∧ p = p' ∧ e = e' ∧ v = v' ∧ f = f'.
Proof.
  intros Hr Hr'. rewrite !archiveKey_parts. intros H.
  apply string_app_suffix_inj in H as [H Ht]; [|by destruct v, v', f, f'].
  apply last_comma_inj in H as [Hh Hreloc]; [|by rewrite string_forall_app, Hr|by rewrite string_forall_app, Hr'].
  apply keyHead_inj in Hh as (-> & -> & -> & ->). simpl in Hreloc. injection Hreloc as ->.
  split_and!; try done; by destruct v, v', f, f'.
Qed.

Lemma archive_key_injective_witness :
  archiveKey "triple=x" "0" false true false false true ≠ archiveKey "triple=x" "0" false true false false false.
Proof.
  intros H. apply (archive_key_injective "triple=x" "triple=x" "0" "0" false false true true false false false false true false
    eq_refl eq_refl) in H as (_ & _ & _ & _ & _ & _ & H). discriminate.
Defined.

(** A compiler for one function whose bitcode libraries do not link. *)
Definition exampleConfig : Config := mkConfig 1 false false NoSplit "" false.
Definition exampleModule : Module_ :=
  mkModule "m" "x86_64" [mkFunction "f" false true false false []].
Abbreviation exampleEmit linkBitcode results := (emitArchive (Operation := unit) exampleConfig (fun _ => []) (fun _ => [])
  (Success tt) Some (fun _ _ _ => results) (fun (_ : list (list string)) _ _ _ => Success "OBJ") (fun _ => Success exampleModule) (fun _ => Success exampleModule)
  linkBitcode (Success ".s") (fun _ _ => true) (fun _ => None)).

Lemma codegen_error_asserts_witness : fst (exampleEmit Success [Error "llc failed"] tt false ∅ []) = inl None.
Proof.
  apply (codegen_error_asserts exampleConfig (fun _ => []) (fun _ => []) (Success tt) Some (fun _ _ _ => [Error "llc failed"])
    (fun (_ : list (list string)) _ _ _ => Success "OBJ") (fun _ => Success exampleModule) (fun _ => Success exampleModule)
    Success (Success ".s") (fun _ _ => true) (fun _ => None) tt false ∅ exampleModule exampleModule
    (mkUnit exampleModule None 0 false) [] exampleModule "llc failed"); try reflexivity. left.
Defined.

Lemma archive_operation_lifetime_witness :
  fst (exampleEmit Success [Success "MC"] tt false ∅ []) = inl (Some "OBJ")
  ∧ last (snd (exampleEmit Success [Success "MC"] tt false ∅ [])) = Some EraseOp.
Proof.
  split; [reflexivity|].
  apply (proj1 (proj2 (archive_operation_lifetime exampleConfig (fun _ => []) (fun _ => []) (Success tt) Some (fun _ _ _ => [Success "MC"])
    (fun (_ : list (list string)) _ _ _ => Success "OBJ") (fun _ => Success exampleModule) (fun _ => Success exampleModule)
    Success (Success ".s") (fun _ _ => true) (fun _ => None) tt false ∅)) "OBJ"). reflexivity.
Defined.

End EmitArchive.
