(* ===== verification/CodegenTasks.v ===== *)
(** The code generation of one unit of an archive, of
    Mojo/lib/Compiler/ObjectCompiler/ObjectCompiler.cpp: the tasks that compile
    the pieces of an optimized module, the copies they leave for --save-temps,
    the profiler that LLVM's passes call back, and the emission of LLVM IR and
    assembly.  LLVM's passes and the backend are parameters. *)
From stdpp Require Import gmap sets.
From S2P Require Import Prelude StringRef EmitArchive.

#[local] Open Scope string_scope.
#[local] Open Scope Z_scope.

Module CodegenTasks.
Import EmitArchive.

#[local] Abbreviation length := List.length (only parsing).

(** ** The profiler *)

Inductive IRUnit := ModuleIR (name : string) | FunctionIR (name : string) | SCCIR (name : string) | LoopIR (name : string).
Definition getLLVMIRName (ir : IRUnit) : string :=
  match ir with ModuleIR name => "[module](" ++ name ++ ")" | FunctionIR name | SCCIR name | LoopIR name => name end.

(** The callbacks that LLVMTimeTraceInstrumentation registers. *)
Inductive Callback :=
  | BeforeNonSkippedPass (passID : string) (ir : IRUnit)
  | AfterPass
  | AfterPassInvalidated
  | BeforeAnalysis (passID : string) (ir : IRUnit)
  | AfterAnalysis.

(** The entries that are open, the last one first, and those that have ended;
    ending an entry when none is open is an error. *)
Abbreviation Entry := (string * string)%type.
Abbreviation Profile := (list Entry * list Entry)%type.
Definition runBeforePass (passID : string) (ir : IRUnit) (p : Profile) : Profile :=
  ((passID, getLLVMIRName ir) :: fst p, snd p).
Definition runAfterPass (p : Profile) : option Profile :=
  match fst p with [] => None | e :: stack => Some (stack, (snd p ++ [e])%list) end.
Definition runCallback (p : Profile) (c : Callback) : option Profile :=
  match c with
  | BeforeNonSkippedPass passID ir | BeforeAnalysis passID ir => Some (runBeforePass passID ir p)
  | AfterPass | AfterPassInvalidated | AfterAnalysis => runAfterPass p
  end.
Fixpoint runCallbacks (cs : list Callback) (p : Profile) : option Profile :=
  match cs with [] => Some p | c :: cs => p ← runCallback p c; runCallbacks cs p end.

(** What LLVM promises: every pass and analysis that begins ends once, after
    those it has begun, and a pass that has deleted what it ran on ends with the
    other callback.  With it, the entries in the order in which they end. *)
Definition endsPass (c : Callback) : bool := match c with AfterPass | AfterPassInvalidated => true | _ => false end.
Inductive Nested : list Callback → list Entry → Prop :=
  | Nested_nil : Nested [] []
  | Nested_pass passID ir inner ended after rest ended' :
      endsPass after = true → Nested inner ended → Nested rest ended' →
      Nested (BeforeNonSkippedPass passID ir :: inner ++ after :: rest) (ended ++ (passID, getLLVMIRName ir) :: ended')
  | Nested_analysis passID ir inner ended rest ended' :
      Nested inner ended → Nested rest ended' →
      Nested (BeforeAnalysis passID ir :: inner ++ AfterAnalysis :: rest) (ended ++ (passID, getLLVMIRName ir) :: ended').

Lemma runCallbacks_app cs cs' p : runCallbacks (cs ++ cs') p = runCallbacks cs p ≫= runCallbacks cs'.
Proof.
  revert p. induction cs as [|c cs IH]; intros p; [done|]. simpl. destruct (runCallback p c); simpl; [apply IH|done].
Qed.

(** Every entry that is opened is ended, with the name of what its pass ran
    on, and those that were open before are untouched. *)
Theorem profiler_balanced cs ended stack done_ : Nested cs ended →
  runCallbacks cs (stack, done_) = Some (stack, (done_ ++ ended)%list).
Proof.
  intros H. revert stack done_. induction H as [|passID ir inner ended after rest ended' Ha _ IH1 _ IH2
    |passID ir inner ended rest ended' _ IH1 _ IH2]; intros stack done_.
  - simpl. by rewrite app_nil_r.
  - cbn [runCallbacks runCallback mbind option_bind]. rewrite runCallbacks_app. unfold runBeforePass. rewrite IH1.
    destruct after; try done; simpl; rewrite IH2, <- !app_assoc; done.
  - cbn [runCallbacks runCallback mbind option_bind]. rewrite runCallbacks_app. unfold runBeforePass. rewrite IH1. simpl.
    by rewrite IH2, <- !app_assoc.
Qed.

(** ** The names of the copies *)

(** The prefix of a task: the number of its unit and that of its piece. *)
Definition taskPrefix (saveTempsPrefix : string) (moduleIdx splitIdx : option Z) : string :=
  if isEmpty saveTempsPrefix then saveTempsPrefix
  else saveTempsPrefix
       ++ match moduleIdx with Some i => "_" ++ decimal i | None => "" end
       ++ match splitIdx with Some i => "__" ++ decimal i | None => "" end.
Definition optPrefix (saveTempsPrefix : string) (moduleIdx : option Z) : string :=
  match moduleIdx with
  | Some i => if isEmpty saveTempsPrefix then saveTempsPrefix else saveTempsPrefix ++ "." ++ decimal i
  | None => saveTempsPrefix
  end.

(** Prefix and suffix of a copy. *)
Abbreviation TempFile := (string * string)%type.

(** ** The tasks *)

(** What a task leaves for the link: the bitcode of the compiled module, the
    machine functions, the module they refer to, the names of its functions and
    the number of the piece. *)
Record MCInfo (MMI : Type) := mkMCInfo {
  mcBitcode : string; machineModuleInfo : MMI; mcModule : Module_; fnNameToFnPtr : gset string; mcSplitIdx : option Z
}.
Arguments mkMCInfo {MMI}.
Arguments mcBitcode {MMI}.
Arguments machineModuleInfo {MMI}.
Arguments mcModule {MMI}.
Arguments fnNameToFnPtr {MMI}.
Arguments mcSplitIdx {MMI}.

Inductive FileType := ObjectFile | AssemblyFile.

Section Tasks.
Context {SR : StringRefOps} {MMI : Type}.
Variable cfg : Config.
(** The options as they print themselves; bitcode; the copies, which may fail. *)
Variable printOptions : string.
Variable writeBitcode : Module_ → string.
Variable parseBitcode : string → option Module_.
Variable writeTempModule : string → string → Module_ → bool.
(** The registry of backends, and the creation of a target machine from options
    that the backend has adjusted. *)
Variable lookupBackend : ErrorOr unit.
Variable defaultCreateTargetMachine : ErrorOr unit.

Definition createTargetMachine : ErrorOr unit := _ ← lookupBackend; defaultCreateTargetMachine.

(** The verifier, which only development builds run; whether passes cannot be
    added; the passes, with what they print. *)
Variable production : bool.
Variable verifyModule : Module_ → bool.
Variable addPassesToEmitMC : Z → bool.
Variable addPassesToEmitFile : FileType → bool.
Variable runPasses : Module_ → Module_ * MMI * string.

(** [runLlcPasses]: the module, what was printed, and the machine functions when
    it stops before printing. *)
Definition runLlcPasses (fileType : FileType) (stopBeforeAsmPrint : bool) (numFunctionsBase : Z) (module : Module_)
    : option (Module_ * string * option MMI) :=
  if negb production && verifyModule module then None
  else if (if stopBeforeAsmPrint then addPassesToEmitMC numFunctionsBase else addPassesToEmitFile fileType) then None
  else let '(module, machineModuleInfo, os) := runPasses module in
       Some (module, os, if stopBeforeAsmPrint then Some machineModuleInfo else None).

Abbreviation Task A := (Early TempFile (ErrorOr (MCInfo MMI)) A).
Definition setToError {A} (msg : string) : Task A := return_ (Error msg).
(** A copy, and the result when it cannot be written. *)
Definition writeTemp {R} (prefix suffix : string) (module : Module_) (failed : R) : Early TempFile R unit :=
  _ ← tell (prefix, suffix);
  if writeTempModule prefix suffix module then mret tt else return_ failed.

Definition resultKey : string := "compileOptimizedLLVMModuleToObject(" ++ printOptions ++ ")".

(** Puts the machine functions on the shared target machine. *)
Variable resetSubtargetInfo : MMI → MMI.

(** [compileOptimizedLLVMModuleToObject]: the task. *)
Definition compileOptimizedLLVMModuleToObject (isParLLC : bool) (moduleIdx splitIdx : option Z) (numFunctionBase : Z)
    (module : Module_) : Task (MCInfo MMI) :=
  let keyBuf := if isParLLC then resultKey ++ writeBitcode module else "" in
  let nonBitcodeKeySize := if isParLLC then String.length resultKey else O in
  if isCodegenInterprocedural cfg && isParLLC
  then setToError "cannot do per function codegen for an inter-procedural backend."
  else
    module ← (if isParLLC then
                match parseBitcode (drop_front keyBuf nonBitcodeKeySize) with
                | None => setToError "failed to load LLVM IR bitcode"
                | Some module => mret module
                end
              else mret module);
    _ ← orElseReturn createTargetMachine (fun _ => setToError "failed to create TargetMachine");
    let prefix := taskPrefix (saveTempsPrefix cfg) moduleIdx splitIdx in
    _ ← writeTemp prefix ".pre-llc" module (Error "failed save pre-llc llvm IR");
    match runLlcPasses ObjectFile true numFunctionBase module with
    | None | Some (_, _, None) => setToError "llc failed to codegen LLVM IR to object code"
    | Some (module, _, Some mmi) =>
        _ ← (if isEmpty (saveTempsPrefix cfg) then mret tt
             else writeTemp prefix ".post-llc" module (Error "failed save post-llc llvm IR"));
        mret (mkMCInfo (writeBitcode module) (resetSubtargetInfo mmi) module (list_to_set (map fnName (functions module))) splitIdx)
    end.

(** The result of a task, whichever way it was set. *)
Definition runTask (task : Task (MCInfo MMI)) : ErrorOr (MCInfo MMI) * list TempFile :=
  match task [] with (inl info, log) => (Success info, log) | (inr r, log) => (r, log) end.

(** The split of a module by function, from the first number it may give. *)
Variable splitPerFunction : Module_ → Z → Z → list (Module_ * option Z * Z).

Definition launchCompilation (isParLLC : bool) (moduleIdx idx : option Z) (numFunctions : Z) (module : Module_)
    : ErrorOr (MCInfo MMI) * list TempFile :=
  runTask (compileOptimizedLLVMModuleToObject isParLLC moduleIdx idx numFunctions module).

(** The results in the order of the pieces, and all copies. *)
Definition compileOptimizedLLVMToObjects (isParLLC : bool) (moduleIdx : option Z) (numFunctionBase : Z) (module : Module_)
    : list (ErrorOr (MCInfo MMI)) * list TempFile :=
  if negb isParLLC then
    let '(result, log) := launchCompilation isParLLC moduleIdx None numFunctionBase module in ([result], log)
  else
    let written := (saveTempsPrefix cfg, ".pre-llc-split") in
    if writeTempModule (fst written) (snd written) module then
      let runs := map (fun '(piece, idx, numFunctions) => launchCompilation isParLLC moduleIdx idx numFunctions piece)
                    (splitPerFunction module (default 0 moduleIdx) numFunctionBase) in
      (map fst runs, written :: runs ≫= snd)
    else ([Error "writing module to file before llc split failed"], [written]).

(** ** The optimizer *)

(** [parseAAPipeline], and the pipeline of the options. *)
Variable parseAAPipeline : ErrorOr unit.
Variable optimizationPipeline : Module_ → Module_.
Variables targetDataLayout machineDataLayout : string.
Variable setDataLayout : string → Module_ → Module_.

Definition runLLVMOptPasses (module : Module_) : option Module_ :=
  match parseAAPipeline with Error _ => None | Success _ => Some (optimizationPipeline module) end.

Definition optimizeLLVMModule (moduleIdx : option Z) (module : Module_) : Early TempFile unit Module_ :=
  let module := setDataLayout (if isEmpty targetDataLayout then machineDataLayout else targetDataLayout) module in
  let prefix := optPrefix (saveTempsPrefix cfg) moduleIdx in
  _ ← writeTemp prefix ".pre-opt" module tt;
  match runLLVMOptPasses module with
  | None => return_ tt
  | Some module => _ ← writeTemp prefix ".post-opt" module tt; mret module
  end.

(** ** LLVM IR and assembly *)

(** The translation of the LLVM dialect with the name of the module: the file of
    its location, when it has one. *)
Definition translateModuleToLLVMIR (mlirTranslate : string → option Module_) (filenameOfLoc : option string) (s : Sanitizers)
    : option Module_ :=
  let moduleName := match filenameOfLoc with Some f => filename f | None => "LLVMDialectModule" end in
  llvmModule ← mlirTranslate moduleName; Some (attachInstrumentationAttributes s llvmModule).

Variable lowerAllFuncsToLLVM : ErrorOr Module_.
Variable linkBitcode : Module_ → ErrorOr Module_.
Variable printModule : Module_ → string.

Definition lowerAllFuncsToLLVMAndOptimize : ErrorOr Module_ :=
  module ← lowerAllFuncsToLLVM;
  module ← match linkBitcode module with Error _ => Error "failed to link bitcode libraries" | Success m => Success m end;
  _ ← createTargetMachine;
  match runLLVMOptPasses module with None => Error "failed to run LLVM opt passes" | Some m => Success m end.
(** What is printed on success. *)
Definition emitLLVMIR : ErrorOr string := module ← lowerAllFuncsToLLVMAndOptimize; Success (printModule module).

Definition emitAssembly (archive : ErrorOr string) : ErrorOr string :=
  match archive with Error msg => Error ("failed to lower LLVM IR to assembly:" ++ msg) | Success buf => Success buf end.

Variable backendBitcode : Module_ → string.
Definition emitBitcode (module : Module_) : ErrorOr string := _ ← lookupBackend; Success (backendBitcode module).

End Tasks.

(** ** What a task does *)

Section Facts.
Context {SR : StringRefOps} {MMI : Type}.
Variable cfg : Config.
Variable printOptions : string.
Variable writeBitcode : Module_ → string.
Variable parseBitcode : string → option Module_.
Variable writeTempModule : string → string → Module_ → bool.
Variables lookupBackend defaultCreateTargetMachine : ErrorOr unit.
Variable production : bool.
Variable verifyModule : Module_ → bool.
Variable addPassesToEmitMC : Z → bool.
Variable addPassesToEmitFile : FileType → bool.
Variable runPasses : Module_ → Module_ * MMI * string.
Variable resetSubtargetInfo : MMI → MMI.
Variable splitPerFunction : Module_ → Z → Z → list (Module_ * option Z * Z).

Abbreviation compile := (compileOptimizedLLVMModuleToObject cfg printOptions writeBitcode parseBitcode writeTempModule lookupBackend
  defaultCreateTargetMachine production verifyModule addPassesToEmitMC addPassesToEmitFile runPasses resetSubtargetInfo).
Abbreviation objects := (compileOptimizedLLVMToObjects cfg printOptions writeBitcode parseBitcode writeTempModule lookupBackend
  defaultCreateTargetMachine production verifyModule addPassesToEmitMC addPassesToEmitFile runPasses resetSubtargetInfo
  splitPerFunction).

(** A task for a piece that went through the buffer and back. *)
Lemma compile_parallel moduleIdx idx n m log :
  parseBitcode (writeBitcode m) = Some m → isCodegenInterprocedural cfg = false →
  compile true moduleIdx idx n m log = compile false moduleIdx idx n m log.
Proof.
  intros Hm Hi. unfold compileOptimizedLLVMModuleToObject. rewrite Hi, drop_front_spec, string_drop_app, Hm. done.
Qed.

Definition taskErrors : list string :=
  ["failed to load LLVM IR bitcode"; "failed to create TargetMachine"; "failed save pre-llc llvm IR";
   "llc failed to codegen LLVM IR to object code"; "failed save post-llc llvm IR"].

Lemma task_outcome isParLLC moduleIdx idx n m :
  isCodegenInterprocedural cfg && isParLLC = false →
  let '(r, log) := runTask (compile isParLLC moduleIdx idx n m) in
  let prefix := taskPrefix (saveTempsPrefix cfg) moduleIdx idx in
  log `prefix_of` [(prefix, ".pre-llc"); (prefix, ".post-llc")]
  ∧ match r with
    | Error msg => msg ∈ taskErrors
    | Success info => mcSplitIdx info = idx ∧ mcBitcode info = writeBitcode (mcModule info)
                      ∧ fnNameToFnPtr info = list_to_set (map fnName (functions (mcModule info)))
    end.
Proof.
  intros Hi. unfold compileOptimizedLLVMModuleToObject, runTask. rewrite Hi. cbv zeta.
  assert (Hload : ∀ log, (∃ m', (if isParLLC
             then match parseBitcode (drop_front (if isParLLC then resultKey printOptions ++ writeBitcode m else "")
                         (if isParLLC then String.length (resultKey printOptions) else O)) with
                  | None => setToError (MMI := MMI) "failed to load LLVM IR bitcode" | Some module => mret module end
             else mret m) log = (inl m', log))
    ∨ (if isParLLC
             then match parseBitcode (drop_front (if isParLLC then resultKey printOptions ++ writeBitcode m else "")
                         (if isParLLC then String.length (resultKey printOptions) else O)) with
                  | None => setToError (MMI := MMI) "failed to load LLVM IR bitcode" | Some module => mret module end
             else mret m) log = (inr (Error "failed to load LLVM IR bitcode"), log)).
  { intros log. destruct isParLLC; [|left; by eexists]. destruct (parseBitcode _); [left; by eexists|by right]. }
  unfold mbind at 1, Early_bind. destruct (Hload []) as [[m' ->]| ->]; clear Hload.
  2:{ split; [apply prefix_nil|]. unfold taskErrors. set_solver. }
  unfold writeTemp, mbind, Early_bind, tell, setToError, return_, orElseReturn, mret, Early_ret.
  destruct (createTargetMachine lookupBackend defaultCreateTargetMachine); simpl.
  2:{ split; [apply prefix_nil|]. unfold taskErrors. set_solver. }
  destruct (writeTempModule _ ".pre-llc" _); simpl.
  2:{ split; [by eexists|]. unfold taskErrors. set_solver. }
  destruct (runLlcPasses _ _ _ _ _ _ _ _ _) as [[[m2 out] [mmi|]]|]; simpl.
  2-3: split; [by eexists|]; unfold taskErrors; set_solver.
  destruct (isEmpty (saveTempsPrefix cfg)); simpl; [split; [by eexists|done]|].
  destruct (writeTempModule _ ".post-llc" _); simpl; (split; [by exists []|]); [done|unfold taskErrors; set_solver].
Qed.

(** C18: Compiling the functions of a module in parallel gives, in the order of the
    split, what compiling each piece alone would: that a piece is
    written as bitcode behind the options and read back by its task does not
    show, given that bitcode can be read back.  A task that succeeds says which
    piece it was. *)
Theorem parallel_codegen_spec moduleIdx n m :
  Forall (fun '(piece, _, _) => parseBitcode (writeBitcode piece) = Some piece) (splitPerFunction m (default 0 moduleIdx) n) →
  isCodegenInterprocedural cfg = false →
  writeTempModule (saveTempsPrefix cfg) ".pre-llc-split" m = true →
  fst (objects true moduleIdx n m)
  = map (fun '(piece, idx, k) => fst (runTask (compile false moduleIdx idx k piece)))
      (splitPerFunction m (default 0 moduleIdx) n)
  ∧ ∀ i piece idx k info, splitPerFunction m (default 0 moduleIdx) n !! i = Some (piece, idx, k) →
      fst (objects true moduleIdx n m) !! i = Some (Success info) →
      mcSplitIdx info = idx ∧ mcBitcode info = writeBitcode (mcModule info).
Proof.
  intros Hbit Hi Hw.
  assert (Heq : fst (objects true moduleIdx n m)
    = map (fun '(piece, idx, k) => fst (runTask (compile false moduleIdx idx k piece))) (splitPerFunction m (default 0 moduleIdx) n)).
  { unfold compileOptimizedLLVMToObjects. cbn [negb fst snd]. rewrite Hw. cbn [fst]. rewrite map_map. apply map_ext_in.
    intros [[piece idx] k] Hin. unfold launchCompilation, runTask. rewrite compile_parallel; [done| |done].
    rewrite List.Forall_forall in Hbit. apply (Hbit _ Hin). }
  split; [done|]. intros i piece idx k info Hp Hr. rewrite Heq, list_lookup_fmap, Hp in Hr. injection Hr as Hr.
  pose proof (task_outcome false moduleIdx idx k piece (andb_false_r _)) as Ho.
  destruct (runTask _) as [r log]. simpl in Hr. subst r. by destruct Ho as (_ & ? & ? & _).
Qed.

(** The guard against splitting what a backend compiles as a whole never
    fires for an archive: no unit of it asks for that. *)
Theorem archive_never_splits_interprocedural splitUnit splitExported llvmModule u n m :
  u ∈ archiveUnits cfg splitUnit splitExported llvmModule →
  Error "cannot do per function codegen for an inter-procedural backend." ∉ fst (objects (unitParLLC u) (unitIdx u) n m).
Proof.
  intros Hu. assert (Hpar : isCodegenInterprocedural cfg && unitParLLC u = false).
  { unfold archiveUnits in Hu. destruct (_ || _).
    - apply list_elem_of_singleton in Hu as ->. simpl. by destruct (isCodegenInterprocedural cfg), (parallelismLevel cfg >=? 2), (enableParallelLLC cfg).
    - apply list_elem_of_In, in_map_iff in Hu as ([[m' idx] base] & <- & _). simpl.
      by destruct (isCodegenInterprocedural cfg), (parallelismLevel cfg >=? 2), (enableParallelLLC cfg), (negb _). }
  assert (Htask : ∀ idx k piece, fst (runTask (compile (unitParLLC u) (unitIdx u) idx k piece))
    ≠ Error "cannot do per function codegen for an inter-procedural backend.").
  { intros idx k piece E. pose proof (task_outcome (unitParLLC u) (unitIdx u) idx k piece Hpar) as Ho.
    destruct (runTask _) as [r log]. simpl in E. subst r. destruct Ho as [_ Ho]. unfold taskErrors in Ho.
    repeat (apply elem_of_cons in Ho as [Ho|Ho]; [discriminate|]). by apply not_elem_of_nil in Ho. }
  unfold compileOptimizedLLVMToObjects, launchCompilation. destruct (unitParLLC u); cbn [negb fst snd].
  - destruct (writeTempModule _ ".pre-llc-split" m); cbn [fst].
    + rewrite map_map. intros Hin. apply list_elem_of_In, in_map_iff in Hin as ([[piece idx] k] & E & _). by apply (Htask idx k piece).
    + intros Hin. apply list_elem_of_singleton in Hin. discriminate.
  - specialize (Htask None n m). destruct (runTask _) as [r log]. cbn [fst] in *. intros Hin.
    apply list_elem_of_singleton in Hin. by rewrite <- Hin in Htask.
Qed.

End Facts.

(** ** The names of the copies are different *)

Lemma digits_span a : ∀ b x y, string_forall isDigit a = true → string_forall isDigit b = true →
  (∀ c s, x = String c s → isDigit c = false) → (∀ c s, y = String c s → isDigit c = false) →
  a ++ x = b ++ y → a = b ∧ x = y.
Proof.
  induction a as [|c a IH]; intros [|d b] x y Ha Hb Hx Hy E; simpl in *; [done|..].
  - apply andb_true_iff in Hb as [Hd _]. specialize (Hx _ _ E). congruence.
  - apply andb_true_iff in Ha as [Hc _]. symmetry in E. specialize (Hy _ _ E). congruence.
  - apply andb_true_iff in Ha as [_ Ha]. apply andb_true_iff in Hb as [_ Hb]. injection E as <- E.
    by destruct (IH b x y Ha Hb Hx Hy E) as [-> ->].
Qed.

Definition sizeOption (i : option Z) : Prop := ∀ z, i = Some z → 0 ≤ z < 2 ^ 64.
Lemma decimal_inj a b : 0 ≤ a < 2 ^ 64 → 0 ≤ b < 2 ^ 64 → decimal a = decimal b → a = b.
Proof. intros Ha Hb E. apply decimal_spec in Ha as [Ha _], Hb as [Hb _]. congruence. Qed.
Lemma decimal_digits a : 0 ≤ a < 2 ^ 64 → string_forall isDigit (decimal a) = true ∧ ∃ c s, decimal a = String c s ∧ isDigit c = true.
Proof.
  intros Ha. destruct (decimal_spec a Ha) as (Hv & _ & Hd). split; [done|]. destruct (decimal a) as [|c s]; [done|].
  exists c, s. simpl in Hd. by apply andb_true_iff in Hd as [? _].
Qed.

Lemma taskPrefix_inj base mi idx mi' idx' : base ≠ "" →
  sizeOption mi → sizeOption idx → sizeOption mi' → sizeOption idx' →
  taskPrefix base mi idx = taskPrefix base mi' idx' → mi = mi' ∧ idx = idx'.
Proof.
  intros Hb Hm Hi Hm' Hi'. unfold taskPrefix. destruct base as [|c0 base]; [done|]. cbn [isEmpty]. intros E%string_app_inv_head.
  assert (Htail : ∀ i c s, match i with Some i => "__" ++ decimal i | None => "" end = String c s → isDigit c = false).
  { intros [i|] c s H; [|done]. injection H as <- _. done. }
  assert (Hsplit : ∀ i i', sizeOption i → sizeOption i' →
    match i with Some i => "__" ++ decimal i | None => "" end = match i' with Some i => "__" ++ decimal i | None => "" end → i = i').
  { intros [i|] [i'|] H H' Ei; try done. apply string_app_inv_head, decimal_inj in Ei; [by subst|by apply H|by apply H']. }
  destruct mi as [m|], mi' as [m'|]; cbn [String.append] in E.
  - injection E as E.
    destruct (decimal_digits m) as [Dm _]; [by apply Hm|]. destruct (decimal_digits m') as [Dm' _]; [by apply Hm'|].
    apply digits_span in E as [E1 E2]; [|done..|apply Htail|apply Htail].
    apply decimal_inj in E1; [|by apply Hm|by apply Hm']. subst. split; [done|]. by apply Hsplit.
  - exfalso. destruct idx' as [i'|]; [|done]. injection E as E.
    destruct (decimal_digits m) as [_ (c & s & Hc & Hd)]; [by apply Hm|]. rewrite Hc in E. injection E as -> _. done.
  - exfalso. destruct idx as [i|]; [|done]. injection E as E.
    destruct (decimal_digits m') as [_ (c & s & Hc & Hd)]; [by apply Hm'|]. rewrite Hc in E. injection E as <- _. done.
  - split; [done|]. by apply Hsplit.
Qed.

Section Copies.
Context {SR : StringRefOps} {MMI : Type}.
Variable cfg : Config.
Variable printOptions : string.
Variable writeBitcode : Module_ → string.
Variable parseBitcode : string → option Module_.
Variable writeTempModule : string → string → Module_ → bool.
Variables lookupBackend defaultCreateTargetMachine : ErrorOr unit.
Variable production : bool.
Variable verifyModule : Module_ → bool.
Variable addPassesToEmitMC : Z → bool.
Variable addPassesToEmitFile : FileType → bool.
Variable runPasses : Module_ → Module_ * MMI * string.
Variable resetSubtargetInfo : MMI → MMI.
Variable splitPerFunction : Module_ → Z → Z → list (Module_ * option Z * Z).

Abbreviation objects := (compileOptimizedLLVMToObjects cfg printOptions writeBitcode parseBitcode writeTempModule lookupBackend
  defaultCreateTargetMachine production verifyModule addPassesToEmitMC addPassesToEmitFile runPasses resetSubtargetInfo
  splitPerFunction).

(** The pieces of a unit, with their numbers. *)
Definition pieceIds (isParLLC : bool) (moduleIdx : option Z) (n : Z) (m : Module_) : list (option Z) :=
  if isParLLC then map (fun '(_, idx, _) => idx) (splitPerFunction m (default 0 moduleIdx) n) else [None].

(** The copies before and after code generation. *)
Definition taskCopies (files : list TempFile) : list TempFile := List.filter (fun f => negb (String.eqb (snd f) ".pre-llc-split")) files.

Lemma taskCopies_id files : Forall (fun f => snd f ≠ ".pre-llc-split") files → taskCopies files = files.
Proof.
  induction 1 as [|f l Hf _ IH]; [done|]. unfold taskCopies in *. simpl. rewrite (proj2 (String.eqb_neq _ _) Hf). simpl. by rewrite IH.
Qed.

Lemma sublist_elem {A} (l k : list A) : l `sublist_of` k → ∀ x, x ∈ l → x ∈ k.
Proof. induction 1 as [|y l k _ IH|y l k _ IH]; intros x Hx; [done|apply elem_of_cons in Hx as [->|Hx]|]; apply elem_of_cons; auto. Qed.
Lemma taskCopies_split prefix files : taskCopies ((prefix, ".pre-llc-split") :: files) = taskCopies files.
Proof. done. Qed.

Definition copiesOf (mi : option Z) (idx : option Z) : list TempFile :=
  let prefix := taskPrefix (saveTempsPrefix cfg) mi idx in [(prefix, ".pre-llc"); (prefix, ".post-llc")].

Lemma unit_copies isParLLC mi n m : isCodegenInterprocedural cfg && isParLLC = false →
  taskCopies (snd (objects isParLLC mi n m)) `sublist_of` (pieceIds isParLLC mi n m ≫= copiesOf mi).
Proof.
  intros Hi. assert (Hlog : ∀ idx k piece, let log := snd (launchCompilation cfg printOptions writeBitcode parseBitcode writeTempModule
      lookupBackend defaultCreateTargetMachine production verifyModule addPassesToEmitMC addPassesToEmitFile runPasses
      resetSubtargetInfo isParLLC mi idx k piece) in
      log `sublist_of` copiesOf mi idx ∧ Forall (fun f => snd f ≠ ".pre-llc-split") log).
  { intros idx k piece. unfold launchCompilation.
    pose proof (task_outcome cfg printOptions writeBitcode parseBitcode writeTempModule lookupBackend defaultCreateTargetMachine
      production verifyModule addPassesToEmitMC addPassesToEmitFile runPasses resetSubtargetInfo splitPerFunction isParLLC mi idx k piece Hi) as Ho.
    destruct (runTask _) as [r log]. destruct Ho as [[rest Hp] _]. cbn [snd]. split.
    - unfold copiesOf. cbv zeta. rewrite Hp. by apply sublist_inserts_r.
    - assert (Forall (fun f => snd f ≠ ".pre-llc-split") (copiesOf mi idx)) as Hall by by repeat constructor.
      unfold copiesOf in Hall. cbv zeta in Hall. rewrite Hp in Hall. by apply Forall_app in Hall as [? _]. }
  unfold compileOptimizedLLVMToObjects, pieceIds. destruct isParLLC; cbn [negb fst snd].
  - destruct (writeTempModule _ _ _); cbn [snd]; [|rewrite taskCopies_split; apply sublist_nil_l].
    rewrite taskCopies_split, taskCopies_id.
    + induction (splitPerFunction m (default 0 mi) n) as [|[[piece idx] k] l IH]; [done|]. csimpl. apply (sublist_app _ (copiesOf mi idx)); [exact (proj1 (Hlog idx k piece))|exact IH].
    + induction (splitPerFunction m (default 0 mi) n) as [|[[piece idx] k] l IH]; csimpl; [constructor|]. apply Forall_app. split; [exact (proj2 (Hlog idx k piece))|exact IH].
  - specialize (Hlog None n m). cbn zeta in Hlog. destruct (launchCompilation _ _ _ _ _ _ _ _ _ _ _ _ _ _ _ _ _ _) as [r log].
    cbn [snd] in *. destruct Hlog as [Hs Hf]. rewrite taskCopies_id by done. exact Hs.
Qed.

(** C19: With --save-temps, the copies before and after code generation that the
    units of an archive write are all different files, if the units and the pieces
    of each have numbers of their own; but the copy before the split has no
    number, so that the units that are split all write the same one. *)
Theorem codegen_copies_distinct (units : list (bool * option Z * Z * Module_)) :
  saveTempsPrefix cfg ≠ "" → isCodegenInterprocedural cfg = false →
  NoDup (map (fun '(_, mi, _, _) => mi) units) →
  Forall (fun '(isParLLC, mi, n, m) => sizeOption mi ∧ Forall sizeOption (pieceIds isParLLC mi n m) ∧ NoDup (pieceIds isParLLC mi n m)) units →
  NoDup (units ≫= fun '(isParLLC, mi, n, m) => taskCopies (snd (objects isParLLC mi n m)))
  ∧ ∀ mi n m, head (snd (objects true mi n m)) = Some (saveTempsPrefix cfg, ".pre-llc-split").
Proof.
  intros Hb Hi Hnd Hall. split.
  2:{ intros mi n m. unfold compileOptimizedLLVMToObjects. cbn [negb fst snd]. by destruct (writeTempModule _ _ _). }
  assert (Hmem : ∀ isParLLC mi n m f, f ∈ taskCopies (snd (objects isParLLC mi n m)) →
    ∃ idx, idx ∈ pieceIds isParLLC mi n m ∧ f ∈ copiesOf mi idx).
  { intros isParLLC mi n m f Hf. assert (Hs := unit_copies isParLLC mi n m). rewrite Hi in Hs. specialize (Hs eq_refl).
    apply (sublist_elem _ _ Hs), list_elem_of_bind in Hf as (idx & ? & ?). eauto. }
  assert (Hfst : ∀ mi idx f, f ∈ copiesOf mi idx → fst f = taskPrefix (saveTempsPrefix cfg) mi idx).
  { intros mi idx f Hf. unfold copiesOf in Hf. apply elem_of_cons in Hf as [->|Hf]; [done|]. by apply list_elem_of_singleton in Hf as ->. }
  induction units as [|[[[isParLLC mi] n] m] units IH]; [constructor|]. csimpl.
  apply NoDup_cons in Hnd as [Hmi Hnd]. apply Forall_cons in Hall as [(Hsm & Hsp & Hnp) Hall].
  apply NoDup_app. split_and!; [| |by apply IH].
  - eapply sublist_NoDup; [|apply unit_copies; by rewrite Hi]. apply NoDup_bind; [| |done].
    + intros x y f Hx Hy Hfx Hfy. apply Hfst in Hfx, Hfy. rewrite Hfx in Hfy.
      rewrite Forall_forall in Hsp. by apply taskPrefix_inj in Hfy as [_ ?]; auto.
    + intros idx _. unfold copiesOf. cbv zeta. apply NoDup_cons. split; [|apply NoDup_singleton].
      intros H%list_elem_of_singleton. by injection H.
  - intros f Hf Hf'. apply Hmem in Hf as (idx & Hidx & Hf). apply list_elem_of_bind in Hf' as ([[[p' mi'] n'] m'] & Hf' & Hin).
    apply Hmem in Hf' as (idx' & Hidx' & Hf'). apply Hfst in Hf, Hf'. rewrite Hf in Hf'.
    rewrite Forall_forall in Hall. rewrite Forall_forall in Hsp. destruct (Hall _ Hin) as (Hsm' & Hsp' & _). rewrite Forall_forall in Hsp'.
    apply taskPrefix_inj in Hf' as [-> _]; [|by auto..]. apply Hmi. apply list_elem_of_In, in_map_iff.
    exists (p', mi', n', m'). split; [done|]. by apply list_elem_of_In.
Qed.

End Copies.

(** ** Examples *)

#[local] Existing Instance llvm_stringref.

Lemma profiler_balanced_witness :
  runCallbacks [BeforeNonSkippedPass "inline" (ModuleIR "m"); BeforeAnalysis "loops" (FunctionIR "f"); AfterAnalysis;
                AfterPassInvalidated] ([("outer", "m")], []) = Some ([("outer", "m")], [("loops", "f"); ("inline", "[module](m)")]).
Proof.
  apply (profiler_balanced _ [("loops", "f"); ("inline", "[module](m)")] [("outer", "m")] []).
  apply (Nested_pass "inline" (ModuleIR "m") [BeforeAnalysis "loops" (FunctionIR "f"); AfterAnalysis] [("loops", "f")]
    AfterPassInvalidated [] []); [done| |constructor].
  apply (Nested_analysis "loops" (FunctionIR "f") [] [] [] []); constructor.
Defined.

(** Two functions, split into two pieces, on a backend that can do so. *)
Definition namedModule (name : string) : Module_ := mkModule "m" "x86_64" [mkFunction name false true false false []].
Definition twoPieces (_ : Module_) (first _ : Z) : list (Module_ * option Z * Z) :=
  [(namedModule "f", Some first, 0); (namedModule "g", Some (first + 1), 1)].
Definition nameBitcode (m : Module_) : string := match functions m with f :: _ => fnName f | [] => "" end.
Definition readBitcode (s : string) : option Module_ := Some (namedModule s).
Definition parallelConfig : Config := mkConfig 8 true false PerExported "tmp" false.
Abbreviation exampleObjects := (compileOptimizedLLVMToObjects parallelConfig "O2" nameBitcode readBitcode (fun _ _ _ => true)
  (Success tt) (Success tt) true (fun _ => false) (fun _ => false) (fun _ => false) (fun m => (m, tt, "")) id twoPieces).

Lemma parallel_codegen_spec_witness :
  map (fun r => match r with Success info => Some (mcBitcode info, mcSplitIdx info) | Error _ => None end)
    (fst (exampleObjects true (Some 3) 0 exampleModule)) = [Some ("f", Some 3); Some ("g", Some 4)].
Proof.
  rewrite (proj1 (parallel_codegen_spec parallelConfig "O2" nameBitcode readBitcode (fun _ _ _ => true)
    (Success tt) (Success tt) true (fun _ => false) (fun _ => false) (fun _ => false) (fun m => (m, tt, "")) id twoPieces
    (Some 3) 0 exampleModule ltac:(by repeat constructor) eq_refl eq_refl)).
  reflexivity.
Defined.

Lemma archive_never_splits_interprocedural_witness :
  Error "cannot do per function codegen for an inter-procedural backend."
  ∉ fst (exampleObjects true None 0 exampleModule).
Proof.
  apply (archive_never_splits_interprocedural parallelConfig "O2" nameBitcode readBitcode (fun _ _ _ => true)
    (Success tt) (Success tt) true (fun _ => false) (fun _ => false) (fun _ => false) (fun m => (m, tt, "")) id twoPieces
    (fun _ => []) (fun m => [(m, None, 0)]) exampleModule (mkUnit exampleModule None 0 true) 0 exampleModule).
  left.
Defined.

Definition exampleUnits : list (bool * option Z * Z * Module_) := [(true, Some 3, 0, exampleModule); (false, Some 4, 0, exampleModule)].
Lemma codegen_copies_distinct_witness :
  snd (exampleObjects true (Some 3) 0 exampleModule)
  = [("tmp", ".pre-llc-split"); ("tmp_3__3", ".pre-llc"); ("tmp_3__3", ".post-llc"); ("tmp_3__4", ".pre-llc"); ("tmp_3__4", ".post-llc")]
  ∧ NoDup (exampleUnits ≫= fun '(isParLLC, mi, n, m) => taskCopies (snd (exampleObjects isParLLC mi n m))).
Proof.
  split; [reflexivity|].
  assert (Hids : Forall (fun '(isParLLC, mi, n, m) => sizeOption mi ∧ Forall sizeOption (pieceIds twoPieces isParLLC mi n m)
                                                 ∧ NoDup (pieceIds twoPieces isParLLC mi n m)) exampleUnits).
  { assert (Hsize : ∀ z, 0 ≤ z < 100 → sizeOption (Some z)) by (intros z Hz w [= <-]; lia).
    assert (Hnone : sizeOption None) by done.
    apply Forall_cons. split; [|apply Forall_cons; split; [|constructor]]; cbn.
    - split_and!; [apply Hsize; lia|repeat apply Forall_cons_2; [apply Hsize; lia..|constructor]|].
      apply NoDup_cons. split; [intros E; apply list_elem_of_singleton in E; discriminate|apply NoDup_singleton].
    - split_and!; [apply Hsize; lia|by apply Forall_cons_2; [|constructor]|apply NoDup_singleton]. }
  assert (Hnd : NoDup (map (fun '(_, mi, _, _) => mi) exampleUnits)).
  { cbn. apply NoDup_cons. split; [intros E; apply list_elem_of_singleton in E; discriminate|apply NoDup_singleton]. }
  apply (proj1 (codegen_copies_distinct parallelConfig "O2" nameBitcode readBitcode (fun _ _ _ => true)
    (Success tt) (Success tt) true (fun _ => false) (fun _ => false) (fun _ => false) (fun m => (m, tt, "")) id twoPieces
    exampleUnits ltac:(discriminate) eq_refl Hnd Hids)).
Defined.

End CodegenTasks.
