(* ===== verification/OffloadKernels.v ===== *)
(** [emitOffloadKernels] of Mojo/lib/Compiler/ObjectCompiler/ObjectCompiler.cpp:
    the kernels of a module, compiled by tasks that write their results into
    asynchronous values, and what waits for them.  LLVM, the splitting of the
    module and the target's backend are parameters. *)
From stdpp Require Import gmap sets.
From S2P Require Import Prelude StringRef.

#[local] Open Scope string_scope.
#[local] Open Scope Z_scope.

Module OffloadKernels.

#[local] Abbreviation length := List.length (only parsing).

(** ** Asynchronous values *)

(** [AsyncValueRef]: allocated, with a value, or with an error. *)
Inductive AsyncValue (A : Type) := Unresolved | Emplaced (a : A) | SetToError (msg : string).
Arguments Unresolved {A}.
Arguments Emplaced {A} a.
Arguments SetToError {A} msg.
Definition isResolved {A} (v : AsyncValue A) : bool := match v with Unresolved => false | _ => true end.

(** ** Kernels *)

Inductive EmitAs := LLVM | LLVM_BITCODE | LLVM_OPT | LLVM_OPT_BITCODE | ASM | OBJECT.
#[export] Instance EmitAs_eq_dec : EqDecision EmitAs.
Proof. solve_decision. Defined.
#[export] Instance EmitAs_countable : Countable EmitAs.
Proof.
  apply (inj_countable' (fun k => match k with LLVM => 0 | LLVM_BITCODE => 1 | LLVM_OPT => 2
    | LLVM_OPT_BITCODE => 3 | ASM => 4 | OBJECT => 5 end)
    (fun n => match n with 0 => LLVM | 1 => LLVM_BITCODE | 2 => LLVM_OPT | 3 => LLVM_OPT_BITCODE | 4 => ASM | _ => OBJECT end)).
  by intros [].
Defined.

(** A function: its string attributes, and the rest of it. *)
Record Function_ := mkFunction { fnName : string; isDeclaration : bool; attributes : list (string * string); body : string }.
Definition Module_ : Type := list Function_.

Definition kernelIdAttr : string := "kgen.offload.kernelid".
Definition removeAttribute (key : string) (f : Function_) : Function_ :=
  mkFunction (fnName f) (isDeclaration f) (List.filter (fun a => negb (String.eqb (fst a) key)) (attributes f)) (body f).

Section Kernels.
Context {SR : StringRefOps}.
(** [llvm::to_integer] at 64 bits. *)
Variable to_integer : string → option Z.

Fixpoint kernelIdOf (attrs : list (string * string)) : option Z :=
  match attrs with
  | [] => None
  | (key, value) :: attrs =>
      if String.eqb key kernelIdAttr
      then match to_integer value with Some id => Some id | None => kernelIdOf attrs end
      else kernelIdOf attrs
  end.
(** The id, the function that had it, and the module without the attribute. *)
Fixpoint getKernelIDFromLLVMModule (module : Module_) : ErrorOr (Z * Function_ * Module_) :=
  match module with
  | [] => Error "Can't find kgen.offload.kernelid from the llvm split."
  | f :: module =>
      let next :=
        '(r, module) ← getKernelIDFromLLVMModule module; Success (r, f :: module) in
      if isDeclaration f then next
      else match kernelIdOf (attributes f) with
           | Some id => let f := removeAttribute kernelIdAttr f in Success (id, f, f :: module)
           | None => next
           end
  end.

(** ** One module, one kind of output *)

(** The compilation options that print themselves, and what the link sees. *)
Record Options := mkOptions {
  printed : string; isJIT : bool; emissionOptions : string; emissionLinkOptions : string; hasSaveTemps : bool
}.
Variable printKind : EmitAs → string.
Variable bitcode : Module_ → string.

Definition flag (b : bool) : string := if b then "1" else "0".
Definition part (label value : string) : string := if isEmpty value then "" else label ++ value.
(** The key of the cache: the options, the kind, the arguments of the link and
    the bitcode. *)
Definition kernelKey (options : Options) (kind : EmitAs) (sharedObjectLinkArgs : list string) (module : Module_) : string :=
  "compileLLVMModuleToObject(" ++ printed options ++ ")" ++ " emitAs = " ++ printKind kind
  ++ " isJIT = " ++ flag (isJIT options) ++ part " emissionOptions = " (emissionOptions options)
  ++ part " emissionLinkOptions = " (emissionLinkOptions options)
  ++ foldr append "" (map (append " sharedObjectLinkArg = ") sharedObjectLinkArgs) ++ bitcode module.

(** LLVM and the backend: reading the bitcode back, printing, the target
    machine, optimization, and the two ways of generating code. *)
Variable parseBitcode : string → option Module_.
Variable printModule : Module_ → string.
Variable emitBitcode : Module_ → ErrorOr string.
Variable defaultCreateTargetMachine : ErrorOr unit.
Variable finalizeModuleForTarget : Module_ → Module_.
Variable optimizeLLVMModule : Module_ → option Module_.
Variables emitAssembly emitObject : Module_ → ErrorOr string.

Definition compileKernel (inputModule : Module_) (shouldDeserialize : bool) (emissionKind : EmitAs) : ErrorOr string :=
  module ← (if shouldDeserialize
            then match parseBitcode (bitcode inputModule) with
                 | None => Error "failed to load LLVM IR bitcode"
                 | Some m => Success m
                 end
            else Success inputModule);
  match emissionKind with
  | LLVM => Success (printModule module)
  | LLVM_BITCODE => emitBitcode module
  | _ =>
      _ ← defaultCreateTargetMachine;
      match optimizeLLVMModule (finalizeModuleForTarget module) with
      | None => Error "failed to optimize LLVM IR."
      | Some module =>
          match emissionKind with
          | LLVM_OPT => Success (printModule module)
          | LLVM_OPT_BITCODE => emitBitcode module
          | ASM => emitAssembly module
          | _ => emitObject module
          end
      end
  end.

(** ** One kernel *)

Variable linkBitcodeLibraries : Module_ → ErrorOr Module_.
Variable attachCodegenAttributes : Function_ → Module_ → Module_.

(** The tasks on a kernel's module: its kinds, and assembly once more to be
    kept; they work on copies when there are several. *)
Definition shouldRunExtraAsm (options : Options) (kinds : gset EmitAs) : bool :=
  hasSaveTemps options && bool_decide (OBJECT ∈ kinds) && negb (bool_decide (ASM ∈ kinds)).
Definition shouldDeserialize (options : Options) (kinds : gset EmitAs) : bool :=
  (1 <? size kinds)%nat || shouldRunExtraAsm options kinds.
Definition kernelTasks (options : Options) (kinds : gset EmitAs) : list EmitAs :=
  (elements kinds ++ if shouldRunExtraAsm options kinds then [ASM] else [])%list.

(** The continuation of the tasks: the first error, or all results. *)
Fixpoint kernelResults (kinds : list EmitAs) (values : list (ErrorOr string)) : ErrorOr (gmap EmitAs string) :=
  match kinds, values with
  | k :: kinds, v :: values =>
      buf ← v; results ← kernelResults kinds values;
      Success (<[k := buf]> results)
  | _, _ => Success ∅
  end.

(** The two values the task resolves. *)
Definition lowerLLVMModuleToObject (options : Options) (kernelEmissionKinds : gmap Z (gset EmitAs)) (split : Module_)
    : AsyncValue (gmap EmitAs string) * AsyncValue Z :=
  match getKernelIDFromLLVMModule split with
  | Error msg => (SetToError "Can't find kernelId", SetToError msg)
  | Success (kernelId, kernelEntry, module) =>
      match linkBitcodeLibraries module with
      | Error _ => (SetToError "failed to link bitcode libraries", Unresolved)
      | Success module =>
          let module := attachCodegenAttributes kernelEntry module in
          let kinds := default ∅ (kernelEmissionKinds !! kernelId) in
          let emissionKinds := elements kinds in
          let emissionResults :=
            map (compileKernel module (shouldDeserialize options kinds)) (kernelTasks options kinds) in
          let values := if shouldRunExtraAsm options kinds then removelast emissionResults else emissionResults in
          (match kernelResults emissionKinds values with
           | Error msg => SetToError msg
           | Success results => Emplaced results
           end, Emplaced kernelId)
      end
  end.

(** ** All kernels *)

(** The continuation on the pairs of values, in order. *)
Fixpoint collect (isOffload : bool) (values : list (AsyncValue (gmap EmitAs string) * AsyncValue Z))
    (results : gmap Z (gmap EmitAs string)) : ErrorOr (gmap Z (gmap EmitAs string)) :=
  match values with
  | [] => Success results
  | (bufs, kernelId) :: values =>
      match kernelId, bufs with
      | SetToError msg, _ => if isOffload then Error msg else collect isOffload values results
      | _, SetToError msg => Error msg
      | Emplaced id, Emplaced b =>
          collect isOffload values (match results !! id with Some _ => results | None => <[id := b]> results end)
      | _, _ => Success results
      end
  end.
(** [await] on the result of [andThenSyncMoving]: it is resolved once all the
    values are; [None] waits for ever. *)
Definition awaitAll (isOffload : bool) (values : list (AsyncValue (gmap EmitAs string) * AsyncValue Z))
    : option (ErrorOr (gmap Z (gmap EmitAs string))) :=
  if forallb (fun v => isResolved (fst v) && isResolved (snd v)) values then Some (collect isOffload values ∅) else None.

(** Lowering, and the split into kernels. *)
Variable writeBytesToTempWithHash : bool.
Variable lowerAllFuncsToLLVM : ErrorOr Module_.
Variable splitPerExported : Module_ → list Module_.
Variable isOffload : bool.

Definition emitOffloadKernels (options : Options) (kernelEmissionKinds : gmap Z (gset EmitAs))
    : option (ErrorOr (gmap Z (gmap EmitAs string))) :=
  if hasSaveTemps options && negb writeBytesToTempWithHash then Some (Error "failed to save mlir to saveTempPrefix")
  else match lowerAllFuncsToLLVM with
       | Error msg => Some (Error ("failed to lower module to LLVM IR for archive compilation, " ++ msg))
       | Success llvmModule =>
           awaitAll isOffload (map (lowerLLVMModuleToObject options kernelEmissionKinds) (splitPerExported llvmModule))
       end.

(** ** Properties *)

Abbreviation lowered := (lowerLLVMModuleToObject).
Abbreviation emit := emitOffloadKernels.

(** A split whose task returns without resolving the kernel's id. *)
Definition linkFails (split : Module_) : Prop :=
  ∃ id entry m msg, getKernelIDFromLLVMModule split = Success (id, entry, m) ∧ linkBitcodeLibraries m = Error msg.

Lemma lowered_resolved options kinds split :
  isResolved (fst (lowered options kinds split)) && isResolved (snd (lowered options kinds split)) = false ↔ linkFails split.
Proof.
  unfold lowerLLVMModuleToObject, linkFails. destruct (getKernelIDFromLLVMModule split) as [[[id entry] m]|msg].
  - destruct (linkBitcodeLibraries m) as [m'|msg] eqn:El; simpl.
    + split; [|intros (? & ? & ? & ? & [= <- <- <-] & ?); congruence]. by case_match.
    + split; [intros _; eauto 10|done].
  - simpl. split; [done|]. by intros (? & ? & ? & ? & ? & _).
Qed.

(** C26: Compiling the kernels of a module returns, with a result or an error,
    exactly when no kernel fails to link its bitcode libraries: that task
    resolves one of its two values only, so that the continuation never runs
    and the caller waits for ever instead of getting the error. *)
Theorem offload_kernels_return options kinds :
  (emit options kinds = None ↔
   hasSaveTemps options && negb writeBytesToTempWithHash = false
   ∧ ∃ m split, lowerAllFuncsToLLVM = Success m ∧ split ∈ splitPerExported m ∧ linkFails split).
Proof.
  unfold emitOffloadKernels. destruct (hasSaveTemps options && _); [by split; [|intros [? _]]|].
  destruct lowerAllFuncsToLLVM as [m|msg]; [|by split; [|intros (_ & ? & ? & ? & _)]].
  unfold awaitAll. destruct (forallb _ _) eqn:E.
  - split; [done|]. intros (_ & m' & split & [= <-] & Hin & Hl). exfalso. rewrite forallb_forall in E.
    pose proof (E (lowered options kinds split) ltac:(by apply in_map, list_elem_of_In)) as Hr.
    apply (lowered_resolved options kinds) in Hl. congruence.
  - split; [intros _; split; [done|]|done].
    assert (Hex : ∃ v, In v (map (lowered options kinds) (splitPerExported m)) ∧ isResolved (fst v) && isResolved (snd v) = false).
    { clear -E. induction (map _ _) as [|v l IH]; [done|]. simpl in E. apply andb_false_iff in E as [E|E].
      - exists v. split; [by left|done].
      - destruct (IH E) as (v' & Hin & Hv). exists v'. split; [by right|done]. }
    destruct Hex as (v & Hin & Hv). apply in_map_iff in Hin as (split & <- & Hin).
    exists m, split. split; [done|]. split; [by apply list_elem_of_In|]. by apply (lowered_resolved options kinds).
Qed.

(** Tasks that run in parallel on one kernel never share its module: they
    read it back into copies of their own exactly when there is more than one,
    counting the extra task for --save-temps. *)
Theorem kernel_tasks_disjoint options kinds :
  shouldDeserialize options kinds = true ↔ (1 < length (kernelTasks options kinds))%nat.
Proof.
  unfold shouldDeserialize, kernelTasks. rewrite length_app. change (length (elements kinds)) with (size kinds).
  destruct (shouldRunExtraAsm options kinds) eqn:E; simpl.
  - rewrite orb_true_r. split; [intros _|done]. unfold shouldRunExtraAsm in E. bool_to_prop.
    assert (size kinds ≠ 0%nat) by (intros Hs; apply size_empty_inv in Hs; set_solver). lia.
  - rewrite orb_false_r, Nat.add_0_r. apply Nat.ltb_lt.
Qed.

Lemma kernelResults_spec ks : ∀ values results, NoDup ks → length values = length ks →
  kernelResults ks values = Success results →
  dom results = list_to_set ks ∧ ∀ i k, ks !! i = Some k → ∃ buf, values !! i = Some (Success buf) ∧ results !! k = Some buf.
Proof.
  induction ks as [|k ks IH]; intros [|v values] results Hn Hl H; simpl in *; try done.
  - injection H as <-. split; [apply dom_empty_L|]. intros i k Hi. by rewrite lookup_nil in Hi.
  - apply NoDup_cons in Hn as [Hk Hn]. destruct v as [buf|]; [|done]. simpl in H.
    destruct (kernelResults ks values) as [rest|] eqn:E; [|done]. simpl in H. injection H as <-.
    destruct (IH values rest Hn ltac:(lia) E) as [Hd Hv]. split; [by rewrite dom_insert_L, Hd|].
    intros [|i] k' Hi; simpl in *; [injection Hi as <-; exists buf; by rewrite lookup_insert_eq|].
    destruct (Hv i k' Hi) as (b & H1 & H2). exists b. split; [done|]. rewrite lookup_insert_ne; [done|].
    intros <-. apply Hk, list_elem_of_lookup. eauto.
Qed.

(** The value of a task whose kernel links. *)
Definition outputs (options : Options) (kernelEmissionKinds : gmap Z (gset EmitAs)) (split : Module_)
    (id : Z) (b : gmap EmitAs string) : Prop :=
  ∃ entry m m', getKernelIDFromLLVMModule split = Success (id, entry, m) ∧ linkBitcodeLibraries m = Success m'
    ∧ let kinds := default ∅ (kernelEmissionKinds !! id) in
      dom b = kinds
      ∧ ∀ k, k ∈ kinds → ∃ buf, b !! k = Some buf
          ∧ compileKernel (attachCodegenAttributes entry m') (shouldDeserialize options kinds) k = Success buf.

Lemma lowered_outputs options kek split bufs id :
  lowered options kek split = (Emplaced bufs, Emplaced id) → outputs options kek split id bufs.
Proof.
  unfold lowerLLVMModuleToObject, outputs. destruct (getKernelIDFromLLVMModule split) as [[[id' entry] m]|msg]; [|done].
  destruct (linkBitcodeLibraries m) as [m'|msg] eqn:El; [|done]. cbn zeta.
  set (kinds := default ∅ (kek !! id')). set (module := attachCodegenAttributes entry m').
  set (values := if shouldRunExtraAsm options kinds then _ else _).
  assert (Hvalues : values = map (compileKernel module (shouldDeserialize options kinds)) (elements kinds)).
  { subst values. unfold kernelTasks. destruct (shouldRunExtraAsm options kinds); [|by rewrite app_nil_r].
    rewrite map_app. apply removelast_last. }
  rewrite Hvalues. clearbody values. destruct (kernelResults _ _) as [results|msg] eqn:E; [|done]. intros [= <- <-].
  destruct (kernelResults_spec _ _ _ (NoDup_elements kinds) ltac:(by rewrite length_map) E) as [Hd Hv].
  exists entry, m, m'. split; [done|]. split; [done|]. split; [rewrite Hd; apply list_to_set_elements_L|].
  intros k Hk. apply elem_of_elements, list_elem_of_lookup in Hk as [i Hi].
  destruct (Hv i k Hi) as (buf & H1 & H2). exists buf. split; [done|].
  fold kinds in Hi. rewrite lookup_map, Hi in H1. by injection H1.
Qed.

Lemma collect_spec values : ∀ results r,
  forallb (fun v : AsyncValue (gmap EmitAs string) * AsyncValue Z => isResolved (fst v) && isResolved (snd v)) values = true →
  collect isOffload values results = Success r →
  (∀ id b, r !! id = Some b → results !! id = Some b ∨ (Emplaced b, Emplaced id) ∈ values)
  ∧ (∀ id b, results !! id = Some b → r !! id = Some b)
  ∧ (∀ b id, (Emplaced b, Emplaced id) ∈ values → is_Some (r !! id))
  ∧ (isOffload = true → ∀ v, v ∈ values → ∃ id, snd v = Emplaced id).
Proof.
  induction values as [|[bufs kid] values IH]; intros results r Hres H; simpl in *.
  - injection H as <-. split_and!; [auto|auto|..]; intros; set_solver.
  - apply andb_true_iff in Hres as [Hv Hres]. destruct kid as [|id|msg]; [by rewrite andb_false_r in Hv| |].
    + destruct bufs as [|b|msg]; [done| |done]. apply IH in H as (H1 & H2 & H3 & H4); [|done].
      assert (Hid : ∃ b', (match results !! id with Some _ => results | None => <[id:=b]> results end) !! id = Some b').
      { destruct (results !! id) eqn:E; [eauto|]. rewrite lookup_insert_eq. eauto. }
      split_and!.
      * intros i b' Hb. destruct (H1 i b' Hb) as [Hr|Hin]; [|right; by right].
        destruct (results !! id) eqn:E; [by left|]. apply lookup_insert_Some in Hr as [[<- <-]|[_ Hr]]; [right; by left|by left].
      * intros i b' Hb. apply H2. destruct (results !! id) eqn:E; [done|]. rewrite lookup_insert_ne by congruence. done.
      * intros b' i Hin. apply elem_of_cons in Hin as [[= -> ->]|Hin]; [|by eapply H3].
        destruct Hid as [b'' Hb]. rewrite (H2 _ _ Hb). eauto.
      * intros Ho v Hin. apply elem_of_cons in Hin as [->|Hin]; [by exists id|by apply H4].
    + destruct isOffload eqn:Eo; [done|]. apply IH in H as (H1 & H2 & H3 & H4); [|done].
      split_and!; [|done| |done].
      * intros i b Hb. destruct (H1 i b Hb); [by left|right; by right].
      * intros b i Hin. apply elem_of_cons in Hin as [?|Hin]; [done|by eapply H3].
Qed.


(** The id is not part of the module that is compiled, nor of its key. *)
Lemma kernel_id_removed split id entry m : getKernelIDFromLLVMModule split = Success (id, entry, m) →
  entry ∈ m ∧ kernelIdOf (attributes entry) = None.
Proof.
  revert m. induction split as [|f split IH]; intros m H; simpl in H; [done|].
  assert (Hnext : ∀ m, ('(r, module) ← getKernelIDFromLLVMModule split; Success (r, f :: module)) = Success (id, entry, m) →
    entry ∈ m ∧ kernelIdOf (attributes entry) = None).
  { clear H. intros m' H. destruct (getKernelIDFromLLVMModule split) as [[r' m'']|]; [|done]. simpl in H.
    injection H as -> <-. destruct (IH m'' eq_refl) as [H1 H2]. split; [by right|done]. }
  destruct (isDeclaration f); [by apply Hnext|]. destruct (kernelIdOf (attributes f)); [|by apply Hnext].
  injection H as <- <- <-. split; [by left|]. simpl.
  induction (attributes f) as [|[k v] l IHl]; simpl; [done|]. destruct (String.eqb k kernelIdAttr) eqn:E; simpl; [done|].
  by rewrite E.
Qed.

End Kernels.

(** One kernel, asked for as an object. *)
Definition kernel : Function_ := mkFunction "k" false [(kernelIdAttr, "7")] "body".
Definition plainOptions : Options := mkOptions "" false "" "" false.
Abbreviation exampleEmit link := (emitOffloadKernels (fun s => if String.eqb s "7" then Some 7 else None) (fun _ => "BC") (fun _ => None)
  (fun _ => "IR") (fun _ => Success "BC") (Success tt) id Some (fun _ => Success "ASM") (fun _ => Success "OBJ") link (fun _ m => m)
  true (Success [kernel]) (fun m => [m]) true plainOptions {[ 7 := {[ OBJECT ]} ]}).


(** The same kernel with a library that does not link: nothing comes back. *)
Lemma offload_waits_for_ever : exampleEmit (fun _ => Error "no such library") = None.
Proof. reflexivity. Qed.

End OffloadKernels.
