(* ===== verification/ExecutionEngine.v ===== *)
(** The execution engine of Mojo/lib/ExecutionEngine/ExecutionEngine.cpp: the
    dylibs of a JIT session, what answers for a symbol in each, the order in
    which they are searched, and the passes that run on Windows objects.  ORC's
    rule for a lookup is a class; the libraries and the process are parameters. *)
From S2P Require Import Prelude StringRef Configuration MojoConfig.

#[local] Open Scope string_scope.
#[local] Open Scope Z_scope.

Module ExecutionEngine.
Import Config MojoConfig.

#[local] Abbreviation length := List.length (only parsing).

(** ** The session *)

(** The predicates the generators are created with; the first takes all. *)
Inductive Filter := AnySymbol | MLIRSymbols | SanitizerSymbols.
(** A generator: the symbols of the process that will run the code, of this
    process, or of a library. *)
Inductive Generator :=
  | TargetProcessSymbols (filter : Filter)
  | CurrentProcessSymbols (filter : Filter)
  | LibrarySymbols (path : string).

Inductive Plugin :=
  | COFFUnwindSectionRemovalPlugin
  | GDBJITDebugInfoRegistrationPlugin
  | ELFDebugObjectPlugin
  | DebugInfoPreservationPlugin
  | PerfSupportPlugin.

Inductive ObjectFormat := ELF | MachO | COFF.
#[export] Instance ObjectFormat_eq_dec : EqDecision ObjectFormat.
Proof. solve_decision. Defined.

(** llvm::orc::JITDylib: the symbols defined in it, its generators and its link
    order, by the names of the dylibs. *)
Record JITDylib (Address : Type) := mkJITDylib {
  defined : list (string * Address);
  generators : list Generator;
  linkOrder : list string
}.
Arguments mkJITDylib {Address}.
Arguments defined {Address}.
Arguments generators {Address}.
Arguments linkOrder {Address}.

(** [ExecutionEngine]: the dylibs of its session, the search order, the names
    that were added to it, the plugins of its linking layer, and the errors its
    layers hold. *)
Record Engine (Address : Type) := mkEngine {
  dylibs : gmap string (JITDylib Address);
  searchOrder : list string;
  knownDylibs : gset string;
  plugins : list Plugin;
  layers : list (option string)
}.
Arguments mkEngine {Address}.
Arguments dylibs {Address}.
Arguments searchOrder {Address}.
Arguments knownDylibs {Address}.
Arguments plugins {Address}.
Arguments layers {Address}.

Definition platformStdlibName : string := "$platform-stdlib".
Definition compilerRTlibName : string := "$compilerrt-lib".
Definition mlirclibName : string := "$mlirc-lib".

Definition setDylibs {Address} (e : Engine Address) (d : gmap string (JITDylib Address)) : Engine Address :=
  mkEngine d (searchOrder e) (knownDylibs e) (plugins e) (layers e).
Definition addPlugin {Address} (p : Plugin) (e : Engine Address) : Engine Address :=
  mkEngine (dylibs e) (searchOrder e) (knownDylibs e) (plugins e ++ [p])%list (layers e).

(** A failed assertion or null dereference, an error, or a result. *)
Definition Setup (A : Type) : Type := option (ErrorOr A).
#[export] Instance Setup_ret : MRet Setup := fun A a => Some (Success a).
#[export] Instance Setup_bind : MBind Setup := fun A B f m =>
  match m with
  | Some (Success a) => f a
  | Some (Error msg) => Some (Error msg)
  | None => None
  end.
Definition lift {A} (e : ErrorOr A) : Setup A := Some e.
(** [llvm::cantFail]. *)
Definition cantFail {A} (e : ErrorOr A) : Setup A :=
  match e with Success a => Some (Success a) | Error _ => None end.

(** The first answer of a list. *)
Fixpoint firstOf {A B} (f : A → option B) (l : list A) : option B :=
  match l with [] => None | x :: l => f x ∪ firstOf f l end.

(** What a dylib defines itself. *)
Definition definedIn {Address} (d : JITDylib Address) (symbol : string) : option Address :=
  snd <$> List.find (fun p => String.eqb (fst p) symbol) (defined d).

(** How ORC looks a symbol up: the definitions of a JITDylib come before its
    generators, which are asked in the order they were added; a search order is
    searched in order. *)
Class OrcLookup := {
  dylib_lookup : ∀ {Address}, (Generator → string → option Address) → JITDylib Address → string → option Address;
  session_lookup : ∀ {Address}, (string → option (JITDylib Address)) →
    (Generator → string → option Address) → list string → string → option Address;
  dylib_lookup_spec : ∀ Address (ask : Generator → string → option Address) d symbol,
    dylib_lookup ask d symbol = definedIn d symbol ∪ firstOf (fun g => ask g symbol) (generators d);
  session_lookup_spec : ∀ Address (dylib : string → option (JITDylib Address)) ask order symbol,
    session_lookup dylib ask order symbol =
    firstOf (fun name => d ← dylib name; dylib_lookup ask d symbol) order
}.

Definition orc : OrcLookup := {|
  dylib_lookup := fun Address ask d symbol =>
    definedIn d symbol ∪ firstOf (fun g => ask g symbol) (generators d);
  session_lookup := fun Address dylib ask order symbol =>
    firstOf (fun name => d ← dylib name;
      definedIn d symbol ∪ firstOf (fun g => ask g symbol) (generators d)) order;
  dylib_lookup_spec := fun _ _ _ _ => eq_refl;
  session_lookup_spec := fun _ _ _ _ _ => eq_refl
|}.

(** ** Setting the engine up *)

Definition starts_with {SR : StringRefOps} (s prefix : string) : bool :=
  match consume_front s prefix with Some _ => true | None => false end.

(** The lambdas given to the generators. *)
Definition accepts {SR : StringRefOps} (filter : Filter) (name : string) : bool :=
  match filter with
  | AnySymbol => true
  | MLIRSymbols => starts_with name "mlir" || starts_with name "_mlir"
  | SanitizerSymbols => existsb (starts_with name) ["__asan"; "__tsan"]
  end.

Section Engine.
Context {SR : StringRefOps} {Orc : OrcLookup} {Address : Type}.
(** The target, and whether this process runs on Windows. *)
Variable format : ObjectFormat.
Variable hostIsWindows : bool.
(** The functions of this process by their C names. *)
Variable hostFunction : string → Address.
(** What the two processes, the same unless the caller gave an executor, and
    the libraries answer. *)
Variable inProcess inCurrentProcess : string → option Address.
Variable inLibrary : string → string → option Address.
(** Creating the generators, and defining symbols. *)
Variable GetForTargetProcess GetForCurrentProcess : ErrorOr unit.
Variable Load : string → ErrorOr unit.
Variable define : ErrorOr unit.

#[local] Abbreviation Engine := (Engine Address).
#[local] Abbreviation JITDylib := (JITDylib Address).

Definition isOSBinFormatCOFF : bool := bool_decide (format = COFF).

Definition ask (g : Generator) (symbol : string) : option Address :=
  match g with
  | TargetProcessSymbols filter => if accepts filter symbol then inProcess symbol else None
  | CurrentProcessSymbols filter => if accepts filter symbol then inCurrentProcess symbol else None
  | LibrarySymbols path => inLibrary path symbol
  end.

(** [createBareJITDylib]: the new dylib is in its own link order. *)
Definition createBareJITDylib (name : string) (e : Engine) : Engine :=
  setDylibs e (<[name := mkJITDylib [] [] [name]]> (dylibs e)).
Definition addGenerator (g : Generator) (d : JITDylib) : JITDylib :=
  mkJITDylib (defined d) (generators d ++ [g])%list (linkOrder d).
Definition addToLinkOrder (name : string) (d : JITDylib) : JITDylib :=
  mkJITDylib (defined d) (generators d) (linkOrder d ++ [name])%list.
Definition onDylib (name : string) (f : JITDylib → JITDylib) (e : Engine) : Engine :=
  setDylibs e (alter f name (dylibs e)).

(** The functions of printf and scanf that the UCRT headers define inline. *)
Definition stdioNames : list string :=
  ["printf"; "vprintf"; "fprintf"; "vfprintf"; "sprintf"; "vsprintf"; "snprintf"; "vsnprintf";
   "scanf"; "fscanf"; "sscanf"; "_snprintf"; "_vsnprintf"; "swprintf"; "vswprintf"].
Definition stdio : list (string * Address) := map (fun name => (name, hostFunction name)) stdioNames.
Definition systemLibraries : list string := ["ucrtbase.dll"; "kernel32.dll"; "ntdll.dll"].

(** One generator for each library, and the text of a failure. *)
Fixpoint addLibraries (message : string → string → string) (libraries : list string) (d : JITDylib) : ErrorOr JITDylib :=
  match libraries with
  | [] => Success d
  | library :: libraries =>
      match Load library with
      | Error msg => Error (message msg library)
      | Success _ => addLibraries message libraries (addGenerator (LibrarySymbols library) d)
      end
  end.

Definition setupPlatform (platformStdlib : JITDylib) : ErrorOr JITDylib :=
  _ ← GetForTargetProcess;
  let d := addGenerator (TargetProcessSymbols AnySymbol) platformStdlib in
  if isOSBinFormatCOFF then
    d ← addLibraries (fun msg library => "error '" ++ msg ++ "' while loading " ++ library) systemLibraries d;
    if hostIsWindows then
      _ ← define; Success (mkJITDylib (defined d ++ stdio)%list (generators d) (linkOrder d))
    else Success d
  else Success d.

(** [ExecutionEngineOptions], as far as it is read here. *)
Record ExecutionEngineOptions := mkOptions {
  hasEPC : bool;
  crossCompiling : bool;
  registerDebugPlugins : bool;
  registerPerfPlugins : bool;
  libraryPaths : list string
}.

(** [std::filesystem::exists] with its error code. *)
Variable exists_ : string → ErrorOr bool.

Definition initializeCompilerRT (compilerRTPath : string) (options : ExecutionEngineOptions) (e : Engine) : Setup Engine :=
  let e := createBareJITDylib mlirclibName e in
  _ ← cantFail GetForTargetProcess;
  let e := onDylib mlirclibName (addGenerator (TargetProcessSymbols MLIRSymbols)) e in
  _ ← lift (check (match exists_ compilerRTPath with Success b => b | Error _ => false end)
              ("unable to locate compiler_rt " ++ compilerRTPath));
  let e := createBareJITDylib compilerRTlibName e in
  libJD ← lift (addLibraries
    (fun msg libPath => "error '" ++ msg ++ "' while loading compiler runtime library from '" ++ libPath ++ "'")
    (libraryPaths options ++ [compilerRTPath])%list (mkJITDylib [] [] [compilerRTlibName]));
  _ ← cantFail GetForCurrentProcess;
  mret (setDylibs e (<[compilerRTlibName := addGenerator (CurrentProcessSymbols SanitizerSymbols) libJD]> (dylibs e))).

(** A dylib with a name new to the engine; what it links against must exist. *)
Definition addToSearchOrder (name dylib : string) (e : Engine) : option Engine :=
  if bool_decide (name ∈ knownDylibs e) then None
  else
    let known := {[name]} ∪ knownDylibs e in
    d ← dylibs e !! dylib;
    d ← (if String.eqb name platformStdlibName then Some d
         else _ ← dylibs e !! compilerRTlibName;
              let d := addToLinkOrder compilerRTlibName d in
              _ ← dylibs e !! mlirclibName;
              let d := addToLinkOrder mlirclibName d in
              if isOSBinFormatCOFF then
                _ ← dylibs e !! platformStdlibName; Some (addToLinkOrder platformStdlibName d)
              else Some d);
    Some (mkEngine (<[dylib := d]> (dylibs e)) (dylib :: searchOrder e) known (plugins e) (layers e)).

(** ** create *)

(** The pieces of ORC that are created on the way. *)
Variable CreateWithMapper getPageSize createDefaultDylibMgr : ErrorOr unit.
Variable GDBPluginCreate ELFDebugObjectPluginError DebugInfoPreservationCreate : ErrorOr unit.
(** The configuration, as [getCompilerRTPath] reads it. *)
Variable GetEnv : string → option string.
Variable findConfigWithRunfiles : string → option string.
Variable getSharedLibraryName : string → string.
Variable overrides : KV.
Variable openConfig : ErrorOr KV.

Definition addDebugPlugins (e : Engine) : ErrorOr Engine :=
  match format with
  | MachO => _ ← GDBPluginCreate; Success (addPlugin GDBJITDebugInfoRegistrationPlugin e)
  | ELF => _ ← ELFDebugObjectPluginError; Success (addPlugin ELFDebugObjectPlugin e)
  | COFF => Success e
  end.
Definition addPerfPlugins (e : Engine) : ErrorOr Engine :=
  _ ← DebugInfoPreservationCreate;
  Success (addPlugin PerfSupportPlugin (addPlugin DebugInfoPreservationPlugin e)).

Definition create (options : ExecutionEngineOptions) : Setup Engine :=
  _ ← lift CreateWithMapper;
  _ ← lift (if hasEPC options then Success tt else getPageSize);
  _ ← lift createDefaultDylibMgr;
  cfg ← lift openConfig;
  let e := mkEngine ∅ [] ∅ (if isOSBinFormatCOFF then [COFFUnwindSectionRemovalPlugin] else []) [] in
  platformStdlib ← lift (let d := mkJITDylib [] [] [platformStdlibName] in
                         if crossCompiling options then Success d else setupPlatform d);
  let e := setDylibs e (<[platformStdlibName := platformStdlib]> (dylibs e)) in
  e ← lift (if registerDebugPlugins options then addDebugPlugins e else Success e);
  e ← lift (if registerPerfPlugins options then addPerfPlugins e else Success e);
  e ← Success <$> addToSearchOrder platformStdlibName platformStdlibName e : Setup Engine;
  initializeCompilerRT (fst (getCompilerRTPath GetEnv findConfigWithRunfiles getSharedLibraryName overrides cfg))
    options e.

(** [createWithStandardLayers]: the layer of static archives, with no error. *)
Definition addLayer (e : Engine) : Engine :=
  mkEngine (dylibs e) (searchOrder e) (knownDylibs e) (plugins e) (layers e ++ [None])%list.
Definition createWithStandardLayers (options : ExecutionEngineOptions) : Setup Engine :=
  e ← create options; mret (addLayer e).

(** ** Lookups *)

(** [Mangler::getNameWithPrefix], and the text of ORC's error. *)
Variable getNameWithPrefix : string → string.
Variable lookupError : string → string.

(** The first layer with an error loses it. *)
Fixpoint takeLayerError (layers : list (option string)) : option (string * list (option string)) :=
  match layers with
  | [] => None
  | Some err :: layers => Some (err, None :: layers)
  | None :: layers => '(err, layers) ← takeLayerError layers; Some (err, None :: layers)
  end.

Definition resolve (e : Engine) (order : list string) (symbol : string) : option Address :=
  session_lookup (fun name => dylibs e !! name) ask order symbol.

Definition lookupWithSearchOrder (order : list string) (symbol : string) (e : Engine) : ErrorOr Address * Engine :=
  match resolve e order (getNameWithPrefix symbol) with
  | Some address => (Success address, e)
  | None =>
      match takeLayerError (layers e) with
      | None => (Error (lookupError symbol), e)
      | Some (err, layers) =>
          (Error (lookupError symbol ++ " (from the layer: " ++ err ++ ")"),
           mkEngine (dylibs e) (searchOrder e) (knownDylibs e) (plugins e) layers)
      end
  end.

Definition lookup (symbol : string) (e : Engine) : ErrorOr Address * Engine :=
  lookupWithSearchOrder (searchOrder e) symbol e.
Definition lookupIn (libName symbol : string) (e : Engine) : ErrorOr Address * Engine :=
  match dylibs e !! libName with
  | None => (Error ("could not find JITDylib with name: " ++ libName), e)
  | Some _ => lookupWithSearchOrder [libName] symbol e
  end.

(** The library name is not used. *)
Definition runProgram (libName entryPoint : string) (runFn : Address → ErrorOr unit) (e : Engine) : ErrorOr unit * Engine :=
  match lookup entryPoint e with
  | (Error msg, e) => (Error msg, e)
  | (Success mainFn, e) => (runFn mainFn, e)
  end.

(** The destructor: whether the session has a platform, and whether ending it
    fails. *)
Inductive Destroyed := Shutdown (function : Address) | FatalError (msg : string) | EndSession | ReportError (msg : string).
Definition destroy (hasPlatform : bool) (endSession : ErrorOr unit) (e : Engine) : list Destroyed :=
  let finish := match endSession with Success _ => [EndSession] | Error msg => [EndSession; ReportError msg] end in
  if hasPlatform && bool_decide (format = ELF) then
    match fst (lookup "__orc_rt_elfnix_platform_shutdown" e) with
    | Error msg => [FatalError ("failed to find ELF/COFF platform shutdown function: " ++ msg)]
    | Success shutdown => (Shutdown shutdown :: finish)%list
    end
  else finish.

(** ** The passes on a Windows object *)

(** jitlink::LinkGraph: its format and its sections. *)
Record LinkGraph := mkLinkGraph { graphFormat : ObjectFormat; sections : list string }.
Definition removeSection (name : string) (g : LinkGraph) : LinkGraph :=
  mkLinkGraph (graphFormat g) (List.filter (fun s => negb (String.eqb s name)) (sections g)).
Definition removeUnwindSections (g : LinkGraph) : LinkGraph :=
  removeSection ".xdata" (removeSection ".pdata" g).
(** [modifyPassConfig], on the passes that run before pruning. *)
Definition modifyPassConfig (g : LinkGraph) (PrePrunePasses : list (LinkGraph → LinkGraph)) : list (LinkGraph → LinkGraph) :=
  if bool_decide (graphFormat g = COFF) then removeUnwindSections :: PrePrunePasses else PrePrunePasses.

(** ** Properties *)

(** The three dylibs an engine is created with. *)
Definition platformDylib (options : ExecutionEngineOptions) : JITDylib :=
  if crossCompiling options then mkJITDylib [] [] [platformStdlibName]
  else mkJITDylib (if isOSBinFormatCOFF && hostIsWindows then stdio else [])
    (TargetProcessSymbols AnySymbol :: if isOSBinFormatCOFF then map LibrarySymbols systemLibraries else [])
    [platformStdlibName].
Definition mlircDylib : JITDylib := mkJITDylib [] [TargetProcessSymbols MLIRSymbols] [mlirclibName].
Definition runtimeLibraries (options : ExecutionEngineOptions) : list string :=
  (libraryPaths options ++
   match openConfig with
   | Success cfg => [fst (getCompilerRTPath GetEnv findConfigWithRunfiles getSharedLibraryName overrides cfg)]
   | Error _ => []
   end)%list.
Definition compilerRTDylib (options : ExecutionEngineOptions) : JITDylib :=
  mkJITDylib [] (map LibrarySymbols (runtimeLibraries options) ++ [CurrentProcessSymbols SanitizerSymbols])%list
    [compilerRTlibName].

(** The link order of a dylib of a layer. *)
Definition programLinkOrder (name : string) : list string :=
  name :: compilerRTlibName :: mlirclibName :: (if isOSBinFormatCOFF then [platformStdlibName] else []).

(** An engine to which the dylibs [added] were added, the newest first. *)
Record EngineOk (options : ExecutionEngineOptions) (added : list string) (e : Engine) : Prop := mkEngineOk {
  ok_platform : dylibs e !! platformStdlibName = Some (platformDylib options);
  ok_compilerRT : dylibs e !! compilerRTlibName = Some (compilerRTDylib options);
  ok_mlirc : dylibs e !! mlirclibName = Some mlircDylib;
  ok_order : searchOrder e = (added ++ [platformStdlibName])%list;
  ok_known : knownDylibs e = list_to_set (added ++ [platformStdlibName])%list;
  ok_added : Forall (fun n => ∃ defs gens, dylibs e !! n = Some (mkJITDylib defs gens (programLinkOrder n))) added
}.

(** What a layer does: it creates a dylib under a name new to the session,
    fills it, and adds it to the search order. *)
Inductive AddsDylib (name : string) (e e' : Engine) : Prop :=
  | Adds defs gens :
      dylibs e !! name = None →
      addToSearchOrder name name (setDylibs e (<[name := mkJITDylib defs gens [name]]> (dylibs e))) = Some e' →
      AddsDylib name e e'.
Inductive Extends (e0 : Engine) : list string → Engine → Prop :=
  | ExtendsNil : Extends e0 [] e0
  | ExtendsCons added e name e' : Extends e0 added e → AddsDylib name e e' → Extends e0 (name :: added) e'.

Lemma addLibraries_success message libraries : ∀ d d', addLibraries message libraries d = Success d' →
  d' = mkJITDylib (defined d) (generators d ++ map LibrarySymbols libraries)%list (linkOrder d).
Proof.
  induction libraries as [|l libraries IH]; intros d d'; simpl; [intros [= <-]; rewrite app_nil_r; by destruct d|].
  destruct (Load l) as [[]|]; [|done]. intros ->%IH. simpl. by rewrite <- app_assoc.
Qed.

Lemma setupPlatform_success options d : crossCompiling options = false →
  setupPlatform (mkJITDylib [] [] [platformStdlibName]) = Success d → d = platformDylib options.
Proof.
  unfold setupPlatform, platformDylib. intros ->. destruct GetForTargetProcess as [[]|]; [|done]. unfold mbind, ErrorOr_bind.
  destruct isOSBinFormatCOFF; [|by intros [= <-]].
  destruct (addLibraries _ _ _) as [d'|] eqn:E; [|done]. apply addLibraries_success in E. subst d'.
  destruct hostIsWindows; [destruct define as [[]|]; [|done]|]; by intros [= <-].
Qed.

Lemma addToSearchOrder_platform e d : knownDylibs e = ∅ → dylibs e !! platformStdlibName = Some d →
  addToSearchOrder platformStdlibName platformStdlibName e
  = Some (mkEngine (dylibs e) (platformStdlibName :: searchOrder e) {[platformStdlibName]} (plugins e) (layers e)).
Proof.
  intros Hk Hd. unfold addToSearchOrder. rewrite bool_decide_eq_false_2 by (rewrite Hk; set_solver). rewrite Hd. simpl.
  rewrite insert_id by done. rewrite Hk. by rewrite union_empty_r_L.
Qed.

Lemma initializeCompilerRT_ok options e cfg e' : openConfig = Success cfg →
  dylibs e !! platformStdlibName = Some (platformDylib options) →
  searchOrder e = [platformStdlibName] → knownDylibs e = {[platformStdlibName]} →
  initializeCompilerRT (fst (getCompilerRTPath GetEnv findConfigWithRunfiles getSharedLibraryName overrides cfg)) options e
    = Some (Success e') →
  EngineOk options [] e'.
Proof.
  intros Hcfg Hp Ho Hk. unfold initializeCompilerRT, mbind, Setup_bind, lift. destruct GetForTargetProcess as [[]|]; [|done].
  destruct (check _ _) as [[]|]; [|done].
  destruct (addLibraries _ _ _) as [libJD|] eqn:E; [|done].
  apply addLibraries_success in E. subst libJD. destruct GetForCurrentProcess as [[]|]; [|done]. simpl. intros [= <-].
  assert (platformStdlibName ≠ compilerRTlibName) by done. assert (platformStdlibName ≠ mlirclibName) by done.
  assert (compilerRTlibName ≠ mlirclibName) by done.
  split; simpl; [| | |done| |constructor].
  - by rewrite lookup_insert_ne, lookup_insert_ne, lookup_alter_ne, lookup_insert_ne.
  - rewrite lookup_insert_eq. unfold compilerRTDylib, runtimeLibraries. rewrite Hcfg. by rewrite map_app.
  - rewrite lookup_insert_ne, lookup_insert_ne, lookup_alter_eq, lookup_insert_eq by done. done.
  - rewrite Hk. simpl. by rewrite union_empty_r_L.
Qed.

Lemma addPlugins_frame options e e1 e2 :
  (if registerDebugPlugins options then addDebugPlugins e else Success e) = Success e1 →
  (if registerPerfPlugins options then addPerfPlugins e1 else Success e1) = Success e2 →
  dylibs e2 = dylibs e ∧ searchOrder e2 = searchOrder e ∧ knownDylibs e2 = knownDylibs e.
Proof.
  intros H1 H2.
  assert (dylibs e1 = dylibs e ∧ searchOrder e1 = searchOrder e ∧ knownDylibs e1 = knownDylibs e) as (<- & <- & <-).
  { destruct (registerDebugPlugins options); [|by injection H1 as <-]. revert H1. unfold addDebugPlugins.
    destruct format; [destruct ELFDebugObjectPluginError as [[]|]; [|done]|destruct GDBPluginCreate as [[]|]; [|done]|];
      by intros [= <-]. }
  destruct (registerPerfPlugins options); [|by injection H2 as <-]. revert H2. unfold addPerfPlugins.
  destruct DebugInfoPreservationCreate as [[]|]; [|done]. by intros [= <-].
Qed.

Lemma create_ok options e : create options = Some (Success e) → EngineOk options [] e.
Proof.
  unfold create, lift, mbind, Setup_bind. destruct CreateWithMapper as [[]|]; [|done].
  destruct (if hasEPC options then _ else _) as [[]|]; [|done].
  destruct createDefaultDylibMgr as [[]|]; [|done]. destruct openConfig as [cfg|] eqn:Hcfg; [|done]. cbv zeta.
  destruct (if crossCompiling options then _ else _) as [d|] eqn:Ed; [|done].
  assert (d = platformDylib options) as ->.
  { destruct (crossCompiling options) eqn:Ec; [unfold platformDylib; rewrite Ec; by injection Ed as <-|].
    by apply setupPlatform_success. }
  destruct (if registerDebugPlugins options then _ else _) as [e1|] eqn:E1; [|done].
  destruct (if registerPerfPlugins options then _ else _) as [e2|] eqn:E2; [|done].
  destruct (addPlugins_frame _ _ _ _ E1 E2) as (Hd & Ho & Hk).
  assert (Hp : dylibs e2 !! platformStdlibName = Some (platformDylib options)) by (rewrite Hd; apply lookup_insert_eq).
  rewrite (addToSearchOrder_platform e2 _ Hk Hp). simpl. rewrite Ho. intros H.
  eapply initializeCompilerRT_ok in H; done.
Qed.

(** What the dylibs of the engine answer. *)
Definition compilerRTAnswer (options : ExecutionEngineOptions) (symbol : string) : option Address :=
  firstOf (fun path => inLibrary path symbol) (runtimeLibraries options)
  ∪ (if accepts SanitizerSymbols symbol then inCurrentProcess symbol else None).
Definition mlircAnswer (symbol : string) : option Address :=
  if accepts MLIRSymbols symbol then inProcess symbol else None.
Definition stdioAnswer (symbol : string) : option Address :=
  if isOSBinFormatCOFF && hostIsWindows && bool_decide (symbol ∈ stdioNames) then Some (hostFunction symbol) else None.
Definition platformAnswer (options : ExecutionEngineOptions) (symbol : string) : option Address :=
  if crossCompiling options then None
  else stdioAnswer symbol ∪ inProcess symbol
       ∪ (if isOSBinFormatCOFF then firstOf (fun path => inLibrary path symbol) systemLibraries else None).
(** What a dylib of a layer answers itself. *)
Definition ownAnswer (e : Engine) (name symbol : string) : option Address :=
  d ← dylibs e !! name; dylib_lookup ask d symbol.

Lemma firstOf_app {A B} (f : A → option B) l k : firstOf f (l ++ k)%list = firstOf f l ∪ firstOf f k.
Proof. induction l as [|x l IH]; simpl; [by destruct (firstOf f k)|]. rewrite IH. by destruct (f x), (firstOf f l), (firstOf f k). Qed.
Lemma firstOf_map {A B C} (f : B → option C) (g : A → B) l : firstOf f (map g l) = firstOf (fun x => f (g x)) l.
Proof. induction l as [|x l IH]; simpl; [done|]. by rewrite IH. Qed.
Lemma option_union_none_r {A} (x : option A) : x ∪ None = x.
Proof. by destruct x. Qed.

Lemma option_union_none_l {A} (x : option A) : (snd <$> @None (string * A)) ∪ x = x.
Proof. by destruct x. Qed.
Lemma option_union_assoc {A} (x y z : option A) : x ∪ (y ∪ z) = x ∪ y ∪ z.
Proof. by destruct x, y, z. Qed.

Lemma definedIn_stdio gens order symbol :
  definedIn (mkJITDylib (if isOSBinFormatCOFF && hostIsWindows then stdio else []) gens order) symbol = stdioAnswer symbol.
Proof.
  unfold definedIn, stdioAnswer. cbn [defined]. destruct (isOSBinFormatCOFF && hostIsWindows); [|done].
  unfold stdio. rewrite andb_true_l. induction stdioNames as [|n names IH]; [done|]. simpl.
  destruct (String.eqb n symbol) eqn:E.
  - apply String.eqb_eq in E as ->. rewrite bool_decide_eq_true_2; [done|]. apply elem_of_cons. by left.
  - apply String.eqb_neq in E. rewrite IH.
    assert (bool_decide (symbol ∈ n :: names) = bool_decide (symbol ∈ names)) as ->; [|done].
    apply bool_decide_ext. rewrite elem_of_cons. split; [intros [->|?]; [by destruct E|done]|by right].
Qed.

Lemma platform_lookup options symbol : dylib_lookup ask (platformDylib options) symbol = platformAnswer options symbol.
Proof.
  rewrite dylib_lookup_spec. unfold platformDylib, platformAnswer. destruct (crossCompiling options); [done|].
  rewrite definedIn_stdio, <- option_union_assoc. cbn [generators firstOf ask accepts].
  f_equal. f_equal. destruct isOSBinFormatCOFF; [|done]. by rewrite firstOf_map.
Qed.
Lemma compilerRT_lookup options symbol : dylib_lookup ask (compilerRTDylib options) symbol = compilerRTAnswer options symbol.
Proof.
  rewrite dylib_lookup_spec. unfold compilerRTDylib, compilerRTAnswer, definedIn. cbn [generators defined List.find].
  rewrite firstOf_app, firstOf_map. cbn [firstOf ask]. rewrite option_union_none_r.
  apply option_union_none_l.
Qed.
Lemma mlirc_lookup symbol : dylib_lookup ask mlircDylib symbol = mlircAnswer symbol.
Proof. rewrite dylib_lookup_spec. unfold mlircAnswer, mlircDylib, definedIn. cbn [generators defined List.find firstOf ask]. rewrite option_union_none_r. apply option_union_none_l. Qed.

(** Adding a dylib under a name new to the session always succeeds. *)
Lemma AddsDylib_ok options added name e : EngineOk options added e → dylibs e !! name = None →
  ∀ defs gens, ∃ e', addToSearchOrder name name (setDylibs e (<[name := mkJITDylib defs gens [name]]> (dylibs e))) = Some e'
    ∧ EngineOk options (name :: added) e'.
Proof.
  intros [Hp Hr Hm Ho Hk Ha] Hn defs gens. unfold addToSearchOrder. simpl.
  assert (platformStdlibName ≠ name) as Hnp by congruence. assert (compilerRTlibName ≠ name) as Hnr by congruence.
  assert (mlirclibName ≠ name) as Hnm by congruence.
  rewrite bool_decide_eq_false_2.
  2: { rewrite Hk, elem_of_list_to_set, elem_of_app, list_elem_of_singleton. intros [Hin| ->]; [|done].
       rewrite Forall_forall in Ha. destruct (Ha _ Hin) as (? & ? & ?). congruence. }
  rewrite lookup_insert_eq. simpl. rewrite (proj2 (String.eqb_neq name platformStdlibName)) by done.
  rewrite !lookup_insert_ne by done. rewrite Hr, Hm, Hp. simpl.
  assert (∀ k, name ≠ k → ∀ d, <[name := d]> (<[name := mkJITDylib defs gens [name]]> (dylibs e)) !! k = dylibs e !! k) as Hne
    by (intros; by rewrite !lookup_insert_ne).
  set (d := if isOSBinFormatCOFF then _ else _).
  assert (d = Some (mkJITDylib defs gens (programLinkOrder name))) as ->
    by (subst d; unfold programLinkOrder; destruct isOSBinFormatCOFF; reflexivity).
  simpl. eexists. split; [reflexivity|]. split; simpl; [by rewrite Hne..|by rewrite Ho|by rewrite Hk|].
  apply Forall_cons. split; [exists defs, gens; by rewrite lookup_insert_eq|].
  eapply Forall_impl; [exact Ha|]. intros k (d' & g & Hd). exists d', g. rewrite Hne; [done|congruence].
Qed.

Lemma Extends_ok options e0 added e : EngineOk options [] e0 → Extends e0 added e → EngineOk options added e.
Proof.
  intros H0 He. induction He as [|added e name e' _ IH [defs gens Hn He']]; [done|].
  destruct (AddsDylib_ok _ _ _ _ IH Hn defs gens) as (e'' & H & Hok). congruence.
Qed.

Lemma resolve_order e order symbol : resolve e order symbol = firstOf (fun name => ownAnswer e name symbol) order.
Proof. apply session_lookup_spec. Qed.

Lemma ownAnswer_known options added e symbol : EngineOk options added e →
  ownAnswer e platformStdlibName symbol = platformAnswer options symbol
  ∧ ownAnswer e compilerRTlibName symbol = compilerRTAnswer options symbol
  ∧ ownAnswer e mlirclibName symbol = mlircAnswer symbol.
Proof.
  intros [Hp Hr Hm _ _ _]. unfold ownAnswer. rewrite Hp, Hr, Hm. simpl.
  by rewrite platform_lookup, compilerRT_lookup, mlirc_lookup.
Qed.

(** C24: Which symbol jitted code gets.  Whatever dylibs are added to an engine
    that was created, a name looked up from outside is the newest dylib's that
    has it, and else the platform library's; a reference from one of the dylibs
    is its own, or that of the libraries of the options and the compiler
    runtime in this order, of a sanitizer in this process, of MLIR in the
    process, and on Windows only that of the platform library: our own copy of
    the printf family, the loaded modules, and then ucrtbase, kernel32 and
    ntdll.  The loaded modules thus come before the three libraries that are
    named to take the answer away from them.  A new dylib can always be added:
    what it links against exists. *)
Theorem jit_symbol_resolution options e0 added e : create options = Some (Success e0) → Extends e0 added e →
  (∀ symbol, resolve e (searchOrder e) symbol
     = firstOf (fun name => ownAnswer e name symbol) added ∪ platformAnswer options symbol)
  ∧ (∀ name symbol, name ∈ added → ∃ d, dylibs e !! name = Some d
     ∧ resolve e (linkOrder d) symbol
       = dylib_lookup ask d symbol
         ∪ (compilerRTAnswer options symbol
            ∪ (mlircAnswer symbol ∪ (if isOSBinFormatCOFF then platformAnswer options symbol else None))))
  ∧ (∀ symbol address, isOSBinFormatCOFF = true → crossCompiling options = false → symbol ∉ stdioNames →
     inProcess symbol = Some address → platformAnswer options symbol = Some address)
  ∧ ∀ name, dylibs e !! name = None → ∃ e', AddsDylib name e e'.
Proof.
  intros H0%create_ok He. pose proof (Extends_ok _ _ _ _ H0 He) as Hok. split; [|split; [|split]].
  - intros symbol. rewrite resolve_order, (ok_order _ _ _ Hok), firstOf_app. simpl.
    destruct (ownAnswer_known _ _ _ symbol Hok) as (-> & _). by rewrite option_union_none_r.
  - intros name symbol Hin. pose proof (ok_added _ _ _ Hok) as Ha. rewrite Forall_forall in Ha.
    destruct (Ha _ Hin) as (defs & gens & Hd). eexists. split; [done|]. rewrite resolve_order. simpl linkOrder.
    destruct (ownAnswer_known _ _ _ symbol Hok) as (E1 & E2 & E3). unfold programLinkOrder. cbn [firstOf].
    rewrite E2, E3. unfold ownAnswer at 1. rewrite Hd. simpl. f_equal. f_equal. f_equal.
    destruct isOSBinFormatCOFF; [|done]. cbn [firstOf]. by rewrite E1, option_union_none_r.
  - intros symbol address Hc Hx Hn Hs. unfold platformAnswer, stdioAnswer. rewrite Hx, Hc, Hs.
    rewrite bool_decide_eq_false_2, andb_false_r by done. by destruct (firstOf _ _).
  - intros name Hn. destruct (AddsDylib_ok _ _ _ _ Hok Hn [] []) as (e' & He' & _). exists e'. by econstructor.
Qed.

(** On Mach-O the names of symbols carry an underscore, which the predicate for
    sanitizers does not expect: it takes none of them. *)
Lemma macho_sanitizers_rejected name : accepts SanitizerSymbols ("___" ++ name) = false.
Proof. unfold accepts, starts_with. simpl. by rewrite !consume_front_spec. Qed.

(** No pass after the plugin's sees an unwind table of a Windows object. *)
Lemma unwind_sections_removed g passes : graphFormat g = COFF →
  ∃ first, modifyPassConfig g passes = first :: passes
    ∧ sections (first g) = List.filter (fun s => negb (String.eqb s ".pdata") && negb (String.eqb s ".xdata")) (sections g).
Proof.
  intros Hg. unfold modifyPassConfig. rewrite bool_decide_eq_true_2 by done. eexists. split; [reflexivity|]. simpl.
  induction (sections g) as [|s l IH]; [done|]. simpl. destruct (String.eqb s ".pdata"); simpl; [done|].
  destruct (String.eqb s ".xdata"); simpl; by rewrite IH.
Qed.

End Engine.

(** A Windows engine: a module of the process and ucrtbase both have memcpy,
    only ucrtbase has _setmode, the program's own library is "exec". *)
Definition exampleOptions : ExecutionEngineOptions := mkOptions false false true false ["extra.dll"].
Definition exampleProcess (symbol : string) : option string :=
  if String.eqb symbol "memcpy" then Some "ntdll!memcpy" else None.
Definition exampleLibrary (path symbol : string) : option string :=
  if String.eqb path "ucrtbase.dll" && existsb (String.eqb symbol) ["memcpy"; "_setmode"] then Some (path ++ "!" ++ symbol)
  else None.
Definition exampleCreate : Setup (Engine string) :=
  create (SR := llvm_stringref) COFF true (fun name => "own " ++ name) (Success tt) (Success tt) (fun _ => Success tt) (Success tt)
    (fun _ => Success true) (Success tt) (Success tt) (Success tt) (Success tt) (Success tt) (Success tt)
    (fun _ => None) (fun _ => None) (fun stem => stem ++ ".dll") ∅ (Success ∅) exampleOptions.
Definition exampleEngine : Engine string :=
  match exampleCreate with Some (Success e) => e | _ => mkEngine ∅ [] ∅ [] [] end.
Definition exampleExtended : Engine string :=
  default exampleEngine
    (addToSearchOrder COFF "exec" "exec"
       (setDylibs exampleEngine (<["exec" := mkJITDylib [("main", "exec!main")] [] ["exec"]]> (dylibs exampleEngine)))).
Definition exampleResolve (symbol : string) : option string :=
  resolve (SR := llvm_stringref) (Orc := orc) exampleProcess exampleProcess exampleLibrary exampleExtended
    (match dylibs exampleExtended !! "exec" with Some d => linkOrder d | None => [] end) symbol.

(** The witness of [jit_symbol_resolution]. *)
Lemma jit_symbol_resolution_witness :
  map exampleResolve ["main"; "printf"; "memcpy"; "_setmode"; "unknown"]
  = [Some "exec!main"; Some "own printf"; Some "ntdll!memcpy"; Some "ucrtbase.dll!_setmode"; None]
  ∧ ∃ e', AddsDylib COFF "repl" exampleExtended e'.
Proof.
  split; [vm_compute; reflexivity|].
  apply (jit_symbol_resolution (SR := llvm_stringref) (Orc := orc) COFF true (fun name => "own " ++ name)
    exampleProcess exampleProcess exampleLibrary (Success tt) (Success tt) (fun _ => Success tt) (Success tt)
    (fun _ => Success true) (Success tt) (Success tt) (Success tt) (Success tt) (Success tt) (Success tt)
    (fun _ => None) (fun _ => None) (fun stem => stem ++ ".dll") ∅ (Success ∅) exampleOptions exampleEngine ["exec"] exampleExtended).
  - vm_compute. reflexivity.
  - eapply (ExtendsCons _ _ [] exampleEngine); [constructor|].
    apply (Adds _ _ _ _ [("main", "exec!main")] []); vm_compute; reflexivity.
  - vm_compute. reflexivity.
Defined.
End ExecutionEngine.
