(* ===== verification/RPCClient.v ===== *)
(** The client of the debug servers of VS Code, Mojo/tools/mojo/Debug/
    RPCClient.cpp: the payloads, the framing of responses, the connections with
    their sockets and their order, and the choice of the window.  Sockets, JSON
    texts, the configuration and the terminal are parameters. *)
From S2P Require Import Prelude StringRef.

#[local] Open Scope string_scope.
#[local] Open Scope Z_scope.

Module RPCClient.

#[local] Abbreviation length := List.length (only parsing).

(** ** JSON *)

(** json::Value; the numbers here are those that are integers. *)
Inductive Value :=
  | Null
  | Boolean (b : bool)
  | Number (z : Z)
  | Str (s : string)
  | Array (l : list Value)
  | Object (o : list (string * Value)).

(** json::Object: inserting does not replace. *)
Abbreviation JObject := (gmap string Value).
Definition insert (key : string) (v : Value) (o : JObject) : JObject :=
  match o !! key with Some _ => o | None => <[key := v]> o end.
Definition toValue (o : JObject) : Value := Object (map_to_list o).
Definition property (key : string) (o : list (string * Value)) : option Value :=
  snd <$> List.find (fun p => String.eqb (fst p) key) o.

(** The fields of ObjectMapper, required and optional. *)
Definition asString (v : Value) : option string := match v with Str s => Some s | _ => None end.
Definition asBoolean (v : Value) : option bool := match v with Boolean b => Some b | _ => None end.
Definition asInteger (v : Value) : option Z :=
  match v with Number z => if (- 2 ^ 63 <=? z) && (z <? 2 ^ 63) then Some z else None | _ => None end.
Definition mapOptional (key : string) (o : list (string * Value)) : option (option string) :=
  match property key o with
  | None | Some Null => Some None
  | Some v => Some <$> asString v
  end.

Record ResponseConnect := mkResponseConnect {
  kind : string; success : bool; message : option string; pid : Z; lastTimeSeenActiveInSecs : Z; name : string
}.
Record ResponseDebug := mkResponseDebug { debugKind : string; debugSuccess : bool; debugMessage : option string }.

(** [fromJSON], and what [doSendRequest] reads of a response. *)
Class Response (T : Type) := {
  fromJSON : Value → option T;
  succeeded : T → bool;
  failureMessage : T → option string
}.
Definition ResponseConnect_Response : Response ResponseConnect := {|
  fromJSON := fun v =>
    match v with
    | Object o =>
        s ← property "success" o ≫= asBoolean; k ← property "kind" o ≫= asString; p ← property "pid" o ≫= asInteger;
        m ← mapOptional "message" o; t ← property "lastTimeSeenActiveInSecs" o ≫= asInteger;
        n ← property "name" o ≫= asString; Some (mkResponseConnect k s m p t n)
    | _ => None
    end;
  succeeded := success;
  failureMessage := message
|}.
#[export] Existing Instance ResponseConnect_Response.
Definition ResponseDebug_Response : Response ResponseDebug := {|
  fromJSON := fun v =>
    match v with
    | Object o =>
        s ← property "success" o ≫= asBoolean; k ← property "kind" o ≫= asString; m ← mapOptional "message" o;
        Some (mkResponseDebug k s m)
    | _ => None
    end;
  succeeded := debugSuccess;
  failureMessage := debugMessage
|}.
#[export] Existing Instance ResponseDebug_Response.

(** ** Connections *)

(** A connection owns the socket of its port. *)
Record Connection := mkConnection { port : Z; serverInfo : ResponseConnect }.

(** The wrap-around of int64_t. *)
Definition int64 (z : Z) : Z := (z + 2 ^ 63) mod 2 ^ 64 - 2 ^ 63.

(** [Connection::operator<]. *)
Definition lt (a b : Connection) : bool :=
  let diff := int64 (lastTimeSeenActiveInSecs (serverInfo a) - lastTimeSeenActiveInSecs (serverInfo b)) in
  if negb (diff =? 0) then diff <? 0
  else if negb (String.eqb (name (serverInfo a)) (name (serverInfo b)))
       then (String.length (name (serverInfo b)) <? String.length (name (serverInfo a)))%nat
       else port a <? port b.

(** std::set::insert: before the first element that is not less, unless that
    one is not greater either. *)
Fixpoint setInsert (c : Connection) (set : list Connection) : list Connection * bool :=
  match set with
  | [] => ([c], true)
  | x :: rest =>
      if lt x c then let '(rest, inserted) := setInsert c rest in (x :: rest, inserted)
      else if lt c x then (c :: x :: rest, true)
      else (x :: rest, false)
  end.

(** ** The protocol *)

Definition newline : string := String "010" "".
Definition protocolSeparator : string := newline ++ "----" ++ newline.

(** One call of recv: an error, or the bytes, none when the peer has closed. *)
Inductive Recv := RecvError (msg : string) | Bytes (s : string).

(** What the client does. *)
Inductive Event :=
  | OpenSocket (port : Z)
  | CloseSocket (port : Z)
  | Send (port : Z) (payload : string)
  | LogText (text : string)
  | Print (text : string).

Section RPCClient.
Context {SR : StringRefOps}.
(** The texts of values and back, and of numbers. *)
Variable format : Value → string.
Variable parse : string → option Value.
Variable to_string : Z → string.

(** The loop of [doSendRequest]; [None] when it waits for more. *)
Fixpoint receive (chunks : list Recv) (rawResponse : string) : option (ErrorOr string) :=
  match chunks with
  | [] => None
  | RecvError msg :: _ => Some (Error ("can't receive response from the RPC debug server: " ++ msg))
  | Bytes "" :: _ => Some (Success rawResponse)
  | Bytes s :: chunks =>
      let rawResponse := rawResponse ++ s in
      if ends_with rawResponse protocolSeparator then Some (Success rawResponse)
      else receive chunks rawResponse
  end.

Definition noValidResponse : string :=
  "couldn't get a valid response from the RPC server, see https://mojolang.org/docs/tools/debugging for possible fixes".
Definition parseResponse {T} `{Response T} (rawResponse : string) : ErrorOr T :=
  match consume_back rawResponse protocolSeparator with
  | None => Error ("response from the RPC server doesn't follow the expected protocol: " ++ rawResponse)
  | Some response =>
      match parse response ≫= fromJSON with
      | None => Error ("invalid RPC server response: " ++ response)
      | Some r =>
          if succeeded r then Success r
          else match failureMessage r with
               | Some message => Error ("RPC Server response:" ++ newline ++ message)
               | None => Error noValidResponse
               end
      end
  end.

(** [send], which may take less than the payload, and the answers. *)
Variable send : Z → string → ErrorOr Z.

Definition bracketPort (port : Z) (text : string) : Event := LogText ("[port=" ++ to_string port ++ "] " ++ text).

Definition doSendRequest {T} `{Response T} (port : Z) (payload : string) (chunks : list Recv) : option (ErrorOr T) * list Event :=
  match send port payload with
  | Error msg => (Some (Error ("can't send data to the RPC debug server: " ++ msg)), [Send port payload])
  | Success _ =>
      match receive chunks "" with
      | None => (None, [Send port payload])
      | Some (Error msg) => (Some (Error msg), [Send port payload])
      | Some (Success rawResponse) =>
          (Some (parseResponse rawResponse),
           [Send port payload; bracketPort port ("Got response:" ++ newline ++ rawResponse ++ newline)])
      end
  end.

(** The servers: whether a socket opens, whether it connects, and what arrives
    within the five seconds, and after the debug request. *)
Variable socket : Z → ErrorOr unit.
Variable connect : Z → ErrorOr unit.
Variable connectChunks debugChunks : Z → list Recv.

Definition RequestConnect : Value := Object [("kind", Str "connect")].

Definition tryToConnectToServer (port : Z) : ErrorOr Connection * list Event :=
  match socket port with
  | Error msg => (Error ("can't open socket to communicate with the RPC debug server with port "
                         ++ to_string port ++ ": " ++ msg), [])
  | Success _ =>
      match connect port with
      | Error msg => (Error ("can't connect to the RPC server with port " ++ to_string port ++ ": " ++ msg
                             ++ ". See https://mojolang.org/docs/tools/debugging for possible fixes."), [OpenSocket port])
      | Success _ =>
          let request := format RequestConnect ++ protocolSeparator in
          let log := [OpenSocket port; bracketPort port ("TCP connection successful" ++ newline);
                      bracketPort port ("Will send:" ++ newline ++ request ++ newline)] in
          match doSendRequest port request (connectChunks port) with
          | (None, sent) => (Error "timeout when waiting for the `connect` response", (log ++ sent)%list)
          | (Some response, sent) =>
              let log := (log ++ sent ++ [bracketPort port ("Server info successfully obtained." ++ newline)])%list in
              match response with
              | Error msg => (Error msg, log)
              | Success info => (Success (mkConnection port info), log)
              end
          end
      end
  end.

(** The futures in the order of the ports; a connection the set does not take
    is destroyed, which closes its socket. *)
Fixpoint connectAll (ports : list Z) (set : list Connection) : list Connection * list Event :=
  match ports with
  | [] => (set, [])
  | port :: ports =>
      match tryToConnectToServer port with
      | (Error msg, log) =>
          let '(set, rest) := connectAll ports set in
          (set, (log ++ bracketPort port ("Error: " ++ msg ++ newline) :: rest)%list)
      | (Success connection, log) =>
          let '(set, inserted) := setInsert connection set in
          let '(set, rest) := connectAll ports set in
          (set, (log ++ (if inserted then [] else [CloseSocket port]) ++ rest)%list)
      end
  end.

(** The line for a window, padded by the width of its index. *)
Fixpoint spaces (n : nat) : string := match n with O => "" | S n => String " " (spaces n) end.
Definition listing (idx : nat) (c : Connection) : Event :=
  let index := to_string (Z.of_nat idx) in
  Print (index ++ ": " ++ name (serverInfo c) ++ newline ++ spaces (String.length index)
         ++ "  Last activity identified " ++ to_string (lastTimeSeenActiveInSecs (serverInfo c))
         ++ " seconds ago, pid=" ++ to_string (pid (serverInfo c)) ++ ", port=" ++ to_string (port c) ++ newline).

(** The line read from the terminal. *)
Variable getline : string.

Definition selectIndex (n : nat) : ErrorOr Z :=
  if (n =? 1)%nat then Success 0
  else
    let input := trim whitespace getline in
    if isEmpty input then Success 0
    else match consumeInteger_int64 input with
         | None => Error "invalid input"
         | Some (index, _) => Success index
         end.
Definition selectText (n : nat) : string :=
  if (n =? 1)%nat
  then newline ++ "Only one VS Code window was found. The debug session will be launched in this window automatically."
       ++ newline ++ newline
  else newline ++ "Multiple VS Code windows found. Press <enter> to select the window with index 0 or provide the index of the window to use:"
       ++ newline.

(** How [invokeRPC] ends: it returns, it reads past the windows, or it waits for
    the answer to its request. *)
Inductive Outcome := Done (result : ErrorOr unit) | OutOfRange (index : Z) | Waiting.

(** The temporary file for the log: its path. *)
Variable createTempFile : ErrorOr string.

Definition closeAll (set : list Connection) : list Event := map (fun c => CloseSocket (port c)) set.

Definition invokeRPC (dryRun : bool) (ports : list Z) (debugConfiguration : JObject) : Outcome * list Event :=
  let request := Object [("kind", Str "debug"); ("debugConfiguration", toValue debugConfiguration)] in
  let requestStr := format request ++ protocolSeparator in
  if dryRun then (Done (Success tt), [Print ("payload: " ++ requestStr ++ newline)])
  else
    match createTempFile with
    | Error msg => (Done (Error ("could not create file for additional logs: " ++ msg)), [])
    | Success path =>
        let log := [Print ("[INFO] Additional logs can be found in " ++ path
                           ++ ". Please include them when reporting bugs." ++ newline ++ newline);
                    LogText ("Server-side logs can be found in the `Mojo` section of the `Output` tab of each VSCode Window."
                             ++ newline ++ newline)] in
        let log := (log ++ map (fun port => bracketPort port ("Will try to connect to its RPC server" ++ newline)) ports)%list in
        let '(connections, connecting) := connectAll ports [] in
        let log := (log ++ connecting)%list in
        match connections with
        | [] => (Done (Error "couldn't connect to any VSCode windows. You might need to restart the IDE or file a bug."), log)
        | _ =>
            let log := (log ++ Print ("Active VS Code windows:" ++ newline) :: imap listing connections
                        ++ [Print (selectText (length connections))])%list in
            match selectIndex (length connections) with
            | Error msg => (Done (Error msg), (log ++ closeAll connections)%list)
            | Success index =>
                match (if 0 <=? index then connections !! Z.to_nat index else None) with
                | None => (OutOfRange index, log)
                | Some it =>
                    let log := (log ++ [bracketPort (port it) ("Will send debug request:" ++ newline ++ requestStr ++ newline)])%list in
                    match doSendRequest (T := ResponseDebug) (port it) requestStr (debugChunks (port it)) with
                    | (None, sent) => (Waiting, (log ++ sent)%list)
                    | (Some (Error msg), sent) => (Done (Error msg), (log ++ sent ++ closeAll connections)%list)
                    | (Some (Success _), sent) => (Done (Success tt), (log ++ sent ++ closeAll connections)%list)
                    end
                end
            end
        end
    end.

(** ** The payloads *)

(** The configuration's folder, and its section and the driver's path when it
    opens; the directories of the process; its environment. *)
Variable getModularConfigFolderPath : ErrorOr string.
Variable openConfig : ErrorOr (string * string).
Variable current_path : ErrorOr string.
Variable absolute : string → ErrorOr string.
Variable getEnv : list string.

Definition ofList (l : list (string * Value)) : JObject := fold_left (fun o '(key, v) => insert key v o) l ∅.

(** [current_path()] without an error code throws: [None]. *)
Definition createBasicDebugConfiguration (useCudaGdb : bool) (initCommands : list string) : option (ErrorOr JObject) :=
  match getModularConfigFolderPath with
  | Error msg => Some (Error msg)
  | Success modularHome =>
      match openConfig with
      | Error msg => Some (Error ("failed to parse 'modular.cfg': " ++ msg))
      | Success (section, driver) =>
          match current_path with
          | Error _ => None
          | Success cwd =>
              let payload := ofList
                [("modularHomePath", Str modularHome); ("modularConfigMojoSection", Str section);
                 ("mojoDriverPath", Str driver); ("debuggerRoot", Str cwd);
                 ("type", Str (if useCudaGdb then "mojo-cuda-gdb" else "mojo-lldb"))] in
              Some (Success (match initCommands with
                             | [] => payload
                             | _ => insert "initCommands" (Array (map Str initCommands)) payload
                             end))
          end
      end
  end.

Definition insertIf (b : bool) (key : string) (v : Value) (o : JObject) : JObject := if b then insert key v o else o.
Definition insertSome (key : string) (v : option string) (o : JObject) : JObject :=
  match v with Some v => insert key (Str v) o | None => o end.

Definition attachPayload (breakOnLaunch : bool) (pid processName : option string) (payload : JObject) : JObject :=
  insertIf breakOnLaunch "breakOnLaunch" (Boolean true)
    (insertSome "program" processName (insertSome "pid" pid (insert "request" (Str "attach") payload))).

Definition invokeAttachRPC (dryRun useCudaGdb breakOnLaunch : bool) (rpcPorts : list Z) (pid processName : option string)
    (initCommands : list string) : option (Outcome * list Event) :=
  match createBasicDebugConfiguration useCudaGdb initCommands with
  | None => None
  | Some (Error msg) => Some (Done (Error msg), [])
  | Some (Success payload) => Some (invokeRPC dryRun rpcPorts (attachPayload breakOnLaunch pid processName payload))
  end.

Definition launchPayload (useCudaGdb breakOnLaunch : bool) (fullTarget cwd : string) (runArgs : list string)
    (rpcTerminal : string) (stopOnEntry : bool) (payload : JObject) : JObject :=
  let payload := insertIf (useCudaGdb && breakOnLaunch) "breakOnLaunch" (Boolean true)
                   (insertIf useCudaGdb "name" (Str "Mojo debug with cuda-gdb") payload) in
  let payload := insert "debuggerRoot" (Str cwd) (insert "cwd" (Str cwd) (insert "request" (Str "launch")
                   (insert "program" (Str fullTarget) payload))) in
  let payload := insert (if useCudaGdb then "stopAtEntry" else "stopOnEntry") (Boolean stopOnEntry) payload in
  insert "runInTerminal" (Boolean (String.eqb rpcTerminal "dedicated"))
    (insert "args" (Array (map Str runArgs)) (insert "env" (Array (map Str getEnv)) payload)).

Definition invokeLaunchRPC (dryRun useCudaGdb breakOnLaunch : bool) (rpcPorts : list Z) (target : string)
    (runArgs : list string) (rpcTerminal : string) (stopOnEntry : bool) (initCommands : list string)
    : option (Outcome * list Event) :=
  match createBasicDebugConfiguration useCudaGdb initCommands with
  | None => None
  | Some (Error msg) => Some (Done (Error msg), [])
  | Some (Success payload) =>
      match absolute target with
      | Error msg => Some (Done (Error ("failed to get absolute path to the target '" ++ target ++ "': " ++ msg)), [])
      | Success fullTarget =>
          match current_path with
          | Error msg => Some (Done (Error ("failed to get the current working path: " ++ msg)), [])
          | Success cwd =>
              Some (invokeRPC dryRun rpcPorts
                      (launchPayload useCudaGdb breakOnLaunch fullTarget cwd runArgs rpcTerminal stopOnEntry payload))
          end
      end
  end.

(** ** Properties of the protocol *)

Lemma splitAt_least sep b : ∀ q a r, splitAt sep (b ++ (sep ++ q)) = Some (a, r) → (String.length a ≤ String.length b)%nat.
Proof.
  induction b as [|c b IH]; intros q a r; simpl String.append.
  - destruct (sep ++ q) eqn:E; simpl.
    + destruct sep; [|done]. simpl. intros [= <- <-]. simpl. lia.
    + rewrite <- E, stripPrefix_self. intros [= <- <-]. simpl. lia.
  - simpl. destruct (stripPrefix sep _); [intros [= <- <-]; simpl; lia|].
    destruct (splitAt sep (b ++ (sep ++ q))) as [[a' r']|] eqn:E; [|done]. simpl. intros [= <- <-].
    apply IH in E. simpl. lia.
Qed.

Lemma hasSuffix_split suf s : hasSuffix suf s = true → ∃ b, s = b ++ suf.
Proof.
  unfold hasSuffix. intros H. apply andb_true_iff in H as [Hl H]. apply String.eqb_eq in H.
  exists (string_take (String.length s - String.length suf) s). rewrite <- H at 2. by rewrite string_take_drop.
Qed.

(** Reading stops at the first separator and not before. *)
Lemma receive_framed body chunks more : ∀ raw,
  raw ++ String.concat "" chunks = body ++ protocolSeparator → Forall (fun s => s ≠ "") chunks → chunks ≠ [] →
  splitAt protocolSeparator (body ++ protocolSeparator) = Some (body, "") →
  receive (map Bytes chunks ++ more)%list raw = Some (Success (body ++ protocolSeparator)).
Proof.
  induction chunks as [|s chunks IH]; intros raw Hraw Hne Hnil Hfirst; [done|].
  apply Forall_cons in Hne as [Hs Hne]. destruct s as [|c s]; [done|].
  assert (Hcat : String.concat "" (String c s :: chunks) = String c s ++ String.concat "" chunks)
    by (destruct chunks; simpl; by rewrite ?string_app_nil).
  rewrite Hcat in Hraw. simpl map. simpl app. cbn [receive]. rewrite ends_with_spec.
  destruct (hasSuffix protocolSeparator (raw ++ String c s)) eqn:E.
  - apply hasSuffix_split in E as [b E]. rewrite <- string_app_assoc, E, string_app_assoc in Hraw.
    rewrite <- Hraw in Hfirst. apply splitAt_least in Hfirst. apply (f_equal String.length) in Hraw as Hlen.
    rewrite !string_length_app in Hlen. assert (String.concat "" chunks = "") as Hc by (destruct (String.concat "" chunks); [done|simpl in Hlen; lia]).
    rewrite Hc, string_app_nil in Hraw. by rewrite E, Hraw.
  - apply IH; [by rewrite string_app_assoc|done| |done]. intros ->. simpl in Hraw. rewrite string_app_nil in Hraw.
    rewrite Hraw, hasSuffix_app in E. done.
Qed.

(** A response is read whole and no further, however the network cuts it:
    when the separator occurs in it only at its end, any non-empty pieces of it
    give the body, whatever follows on the socket; its success, its message or
    the failure to parse it decide the result.  What is sent is the payload,
    once, and only a negative result of send is looked at: a server that was
    sent less is waited for like one that has it all. *)
Theorem response_framing {T} `{Response T} port payload sent body chunks more :
  send port payload = Success sent →
  String.concat "" chunks = body ++ protocolSeparator → Forall (fun s => s ≠ "") chunks →
  splitAt protocolSeparator (body ++ protocolSeparator) = Some (body, "") →
  ∃ log, doSendRequest (T := T) port payload (map Bytes chunks ++ more)%list
    = (Some (match parse body ≫= fromJSON with
             | None => Error ("invalid RPC server response: " ++ body)
             | Some r =>
                 if succeeded r then Success r
                 else Error (match failureMessage r with
                             | Some message => "RPC Server response:" ++ newline ++ message
                             | None => noValidResponse
                             end)
             end), Send port payload :: log)
  ∧ Forall (fun e => ∃ text, e = LogText text) log.
Proof.
  intros Hsend Hcat Hne Hfirst. eexists. unfold doSendRequest. rewrite Hsend.
  rewrite (receive_framed body chunks more "" Hcat Hne); [|intros ->|done].
  2: { simpl in Hcat. destruct body; done. }
  unfold parseResponse. rewrite consume_back_app. split.
  - destruct (parse body ≫= fromJSON) as [r|]; [|reflexivity]. destruct (succeeded r); [reflexivity|].
    destruct (failureMessage r); reflexivity.
  - constructor; [by eexists|constructor].
Qed.

(** ** Properties of the connections *)

(** The port's socket opens; the port gives a connection. *)
Definition opens (p : Z) : Prop := is_Some (match socket p with Success _ => Some tt | Error _ => None end).
Definition connects (p : Z) : Prop := ∃ c, fst (tryToConnectToServer p) = Success c.

(** Which event of a list it is. *)
Ltac in_events :=
  intros Hin; repeat (apply elem_of_cons in Hin as [Hin|Hin]; [congruence|]); by apply not_elem_of_nil in Hin.

Lemma tryToConnect_sockets p :
  (OpenSocket p ∈ snd (tryToConnectToServer p) ↔ opens p)
  ∧ (∀ q, OpenSocket q ∈ snd (tryToConnectToServer p) → q = p)
  ∧ (∀ q, CloseSocket q ∉ snd (tryToConnectToServer p))
  ∧ ∀ c, fst (tryToConnectToServer p) = Success c → port c = p.
Proof.
  unfold tryToConnectToServer, opens, doSendRequest, bracketPort. destruct (socket p) as [[]|]; simpl.
  2: { split; [split; [by intros ?%not_elem_of_nil|by intros [? ?]]|]. split; [by intros ? ?%not_elem_of_nil|].
       split; [by intros ? ?%not_elem_of_nil|done]. }
  split; [split; [done|]|split; [|split]].
  - intros _. repeat case_match; simplify_eq/=; left.
  - intros q. repeat case_match; simplify_eq/=; in_events.
  - intros q. repeat case_match; simplify_eq/=; in_events.
  - intros c. repeat case_match; simpl; intros; simplify_eq/=; done.
Qed.

Lemma setInsert_cases c set : ∀ set' inserted, setInsert c set = (set', inserted) →
  if inserted then set' ≡ₚ c :: set else set' = set.
Proof.
  induction set as [|x set IH]; intros set' inserted; simpl; [by intros [= <- <-]|].
  destruct (lt x c); [|destruct (lt c x); by intros [= <- <-]].
  destruct (setInsert c set) as [rest ins]. specialize (IH _ _ eq_refl). intros [= <- <-].
  destruct ins; [rewrite IH; constructor|by subst].
Qed.

Definition held (p : Z) (set : list Connection) : Prop := p ∈ map port set.

Lemma connectAll_sockets ports : ∀ set set' log, connectAll ports set = (set', log) →
  (∀ p, OpenSocket p ∈ log ↔ p ∈ ports ∧ opens p)
  ∧ (∀ p, CloseSocket p ∈ log ∨ held p set' ↔ held p set ∨ (p ∈ ports ∧ connects p)).
Proof.
  induction ports as [|q ports IH]; intros set set' log; simpl.
  { intros [= <- <-]. split; intros p; rewrite !elem_of_nil; split; [done|by intros []|by intros [|]; [|left]|by intros [|[]]; [right|]]. }
  pose proof (tryToConnect_sockets q) as (Ho & Hoq & Hc & Hport).
  destruct (tryToConnectToServer q) as [[connection|msg] log0] eqn:E; simpl in *.
  - assert (connects q) as Hq by (exists connection; by rewrite E). specialize (Hport _ eq_refl).
    destruct (setInsert connection set) as [set1 inserted] eqn:E1. apply setInsert_cases in E1.
    destruct (connectAll ports set1) as [set2 rest] eqn:E2. destruct (IH _ _ _ E2) as [IHo IHc]. intros [= <- <-].
    split; intros p; rewrite !elem_of_app, elem_of_cons.
    + rewrite IHo. assert (OpenSocket p ∉ (if inserted then [] else [CloseSocket q])) as Hn
        by (destruct inserted; rewrite ?list_elem_of_singleton, ?elem_of_nil; [intros []|intros [=]]).
      split; [intros [H|[H|[H1 H2]]]|intros [[->|H1] H2]]; [|done|by split; [right|]|by left; apply Ho|by right; right].
      pose proof (Hoq _ H) as ->. split; [by left|by apply Ho].
    + transitivity (CloseSocket p ∈ (if inserted then [] else [CloseSocket q]) ∨ (CloseSocket p ∈ rest ∨ held p set2)).
      { split; [intros [[H|[H|H]]|H]|intros [H|[H|H]]]; auto. by destruct (Hc p). }
      rewrite IHc. destruct inserted.
      * unfold held. rewrite elem_of_nil, E1. simpl. rewrite elem_of_cons, Hport.
        split; [intros [[]|[[->|H]|[H1 H2]]]|intros [H|[[->|H1] H2]]]; auto.
      * subst set1. rewrite list_elem_of_singleton.
        split; [intros [[= ->]|[H|[H1 H2]]]|intros [H|[[->|H1] H2]]]; auto.
  - assert (¬ connects q) as Hq by (intros [c Hc']; rewrite E in Hc'; done).
    destruct (connectAll ports set) as [set2 rest] eqn:E2. destruct (IH _ _ _ E2) as [IHo IHc]. intros [= <- <-].
    split; intros p; rewrite !elem_of_app, !elem_of_cons.
    + rewrite IHo. split; [intros [H|[[=]|[H1 H2]]]|intros [[->|H1] H2]]; [|by split; [right|]|by left; apply Ho|by right; right].
      pose proof (Hoq _ H) as ->. split; [by left|by apply Ho].
    + transitivity (CloseSocket p ∈ rest ∨ held p set2).
      { split; [intros [[H|[[=]|H]]|H]|intros [H|H]]; auto. by destruct (Hc p). }
      rewrite IHc. split; [intros [H|[H1 H2]]|intros [H|[[->|H1] H2]]]; auto. by destruct Hq.
Qed.

Lemma closeAll_elem p set : CloseSocket p ∈ closeAll set ↔ held p set.
Proof.
  unfold closeAll, held. rewrite !list_elem_of_In, !in_map_iff. split; intros (c & H & ?); exists c; [by injection H|by subst].
Qed.

(** The request, and the window it goes to. *)
Definition debugRequest (debugConfiguration : JObject) : string :=
  format (Object [("kind", Str "debug"); ("debugConfiguration", toValue debugConfiguration)]) ++ protocolSeparator.
Definition Chosen (connections : list Connection) (c : Connection) : Prop :=
  ∃ index, selectIndex (length connections) = Success index ∧ 0 ≤ index ∧ connections !! Z.to_nat index = Some c.
Definition SocketsOf (ports : list Z) (log : list Event) : Prop :=
  ∀ p, (OpenSocket p ∈ log ↔ p ∈ ports ∧ opens p) ∧ (CloseSocket p ∈ log ↔ p ∈ ports ∧ connects p).

(** An event that is about no socket. *)
Definition silent (e : Event) : Prop := match e with OpenSocket _ | CloseSocket _ => False | _ => True end.
Lemma Sockets_of ports connections connecting before after :
  connectAll ports [] = (connections, connecting) → Forall silent before → Forall silent after →
  SocketsOf ports (((before ++ connecting) ++ after) ++ closeAll connections).
Proof.
  intros Hall Hb Ha p. destruct (connectAll_sockets _ _ _ _ Hall) as [Ho Hc].
  rewrite Forall_forall in Hb, Ha.
  assert (∀ e, e ∈ before ∨ e ∈ after → silent e) as Hs by (intros e [H|H]; [by apply Hb|by apply Ha]).
  rewrite !elem_of_app, closeAll_elem. split.
  - rewrite <- Ho. split; [intros [[[H|H]|H]|H]|]; [by destruct (Hs _ (or_introl H))|done|by destruct (Hs _ (or_intror H))| |by left; left; right].
    unfold closeAll in H. apply list_elem_of_In, in_map_iff in H as (c & [=] & _).
  - transitivity (CloseSocket p ∈ connecting ∨ held p connections).
    { split; [intros [[[H|H]|H]|H]|intros [H|H]]; [by destruct (Hs _ (or_introl H))|by left|by destruct (Hs _ (or_intror H))|by right|by left; left; right|by right]. }
    rewrite Hc. split; [intros [H|H]; [by apply not_elem_of_nil in H|done]|by right].
Qed.

Lemma silent_listing connections : Forall silent (imap listing connections).
Proof.
  apply Forall_lookup. intros i e. rewrite list_lookup_imap. destruct (connections !! i); [|done]. by intros [= <-].
Qed.
Lemma silent_connecting ports text : Forall silent (map (fun port => bracketPort port text) ports).
Proof. induction ports; by constructor. Qed.
Lemma doSendRequest_silent {T} `{Response T} p payload chunks :
  Forall silent (snd (doSendRequest (T := T) p payload chunks)) ∧ Send p payload ∈ snd (doSendRequest (T := T) p payload chunks).
Proof.
  unfold doSendRequest. repeat case_match; simpl; (split; [repeat constructor|left]).
Qed.

(** C23: How a debug session is started.  When it ends, with an error or not,
    every socket that gave a connection is closed, and no other: the socket of
    a server that did not accept the connection, did not answer in time or
    answered with an error stays open.  It succeeds only when the request was
    sent to the window that was chosen, the only one, the first one or the one
    whose number was typed.  The number is not compared with the windows there
    are: a number that is negative or too large reads past them. *)
Theorem rpc_outcome ports debugConfiguration path : createTempFile = Success path →
  let connections := fst (connectAll ports []) in
  match invokeRPC false ports debugConfiguration with
  | (Done r, log) =>
      SocketsOf ports log
      ∧ (r = Success tt → ∃ c, Chosen connections c ∧ Send (port c) (debugRequest debugConfiguration) ∈ log)
  | (Waiting, log) => ∃ c, Chosen connections c ∧ Send (port c) (debugRequest debugConfiguration) ∈ log
  | (OutOfRange index, _) =>
      selectIndex (length connections) = Success index ∧ (index < 0 ∨ Z.of_nat (length connections) ≤ index)
  end.
Proof.
  intros Htemp. unfold invokeRPC. rewrite Htemp. destruct (connectAll ports []) as [connections connecting] eqn:Hall.
  assert (Hb : Forall silent ([Print ("[INFO] Additional logs can be found in " ++ path
      ++ ". Please include them when reporting bugs." ++ newline ++ newline);
    LogText ("Server-side logs can be found in the `Mojo` section of the `Output` tab of each VSCode Window."
      ++ newline ++ newline)] ++ map (fun port => bracketPort port ("Will try to connect to its RPC server" ++ newline)) ports))
    by (apply Forall_app; split; [repeat constructor|apply silent_connecting]).
  pose proof (fun after => Sockets_of ports connections connecting _ after Hall Hb) as Hs. cbn [fst].
  destruct connections as [|c0 rest] eqn:Hcs.
  { split; [|done]. specialize (Hs [] (Forall_nil_2 _)). by rewrite !app_nil_r in Hs. }
  rewrite <- Hcs in *. set (shown := (Print _ :: _ ++ _)%list).
  assert (Forall silent shown) as Hshown
    by (subst shown; constructor; [done|]; apply Forall_app; split; [apply silent_listing|by repeat constructor]).
  destruct (selectIndex (length connections)) as [index|msg] eqn:Hsel; [|by split; [apply Hs|]].
  destruct (if 0 <=? index then _ else _) as [it|] eqn:Hit.
  - assert (Chosen connections it) as Hch.
    { exists index. destruct (0 <=? index) eqn:E0; [|done]. by apply Z.leb_le in E0. }
    fold (debugRequest debugConfiguration).
    pose proof (doSendRequest_silent (T := ResponseDebug) (port it) (debugRequest debugConfiguration) (debugChunks (port it))) as [Hq Hin].
    destruct (doSendRequest _ _ _) as [answer sent]. cbn [snd] in Hq, Hin.
    set (will := [bracketPort _ _]). assert (Forall silent will) as Hwill by (subst will; by repeat constructor).
    assert (Forall silent (shown ++ will ++ sent)) as Hall' by (rewrite !Forall_app; by split).
    specialize (Hs _ Hall').
    destruct answer as [[[]|msg]|]; [split| split; [|done]|exists it; split; [done|rewrite !elem_of_app; by right]].
    + by rewrite <- !app_assoc in *.
    + intros _. exists it. split; [done|]. rewrite !elem_of_app. right. by left.
    + by rewrite <- !app_assoc in *.
  - split; [done|]. destruct (0 <=? index) eqn:E0; [|bool_to_prop; by left]. bool_to_prop. right.
    apply lookup_ge_None in Hit. lia.
Qed.

End RPCClient.

(** ** The order of connections *)

(** Seconds since an activity: far from the ends of int64_t. *)
Definition plausible (c : Connection) : Prop := - 2 ^ 62 ≤ lastTimeSeenActiveInSecs (serverInfo c) < 2 ^ 62.
Definition nameLength (c : Connection) : nat := String.length (name (serverInfo c)).
Definition equivalent (a b : Connection) : Prop := lt a b = false ∧ lt b a = false.

Lemma int64_diff a b : plausible a → plausible b →
  int64 (lastTimeSeenActiveInSecs (serverInfo a) - lastTimeSeenActiveInSecs (serverInfo b))
  = lastTimeSeenActiveInSecs (serverInfo a) - lastTimeSeenActiveInSecs (serverInfo b).
Proof. unfold plausible, int64. intros H1 H2. rewrite Z.mod_small; lia. Qed.

Lemma equivalent_iff a b : plausible a → plausible b →
  equivalent a b ↔
  lastTimeSeenActiveInSecs (serverInfo a) = lastTimeSeenActiveInSecs (serverInfo b)
  ∧ (if bool_decide (name (serverInfo a) = name (serverInfo b)) then port a = port b else nameLength a = nameLength b).
Proof.
  intros Ha Hb. unfold equivalent, lt. rewrite !int64_diff by done.
  set (x := lastTimeSeenActiveInSecs _). set (y := lastTimeSeenActiveInSecs (serverInfo b)). fold (nameLength a) (nameLength b).
  destruct (Z.eqb_spec (x - y) 0) as [E|E]; simpl.
  2: { rewrite (proj2 (Z.eqb_neq (y - x) 0)) by lia. simpl. rewrite !Z.ltb_ge. split; [lia|]. intros [? _]. lia. }
  rewrite (proj2 (Z.eqb_eq (y - x) 0)) by lia. simpl. rewrite (String.eqb_sym (name (serverInfo b))).
  destruct (String.eqb_spec (name (serverInfo a)) (name (serverInfo b))) as [En|En]; simpl.
  - rewrite bool_decide_eq_true_2, !Z.ltb_ge by done. split; lia.
  - rewrite bool_decide_eq_false_2, !Nat.ltb_ge by done. split; lia.
Qed.

Definition window (p : Z) (n : string) : Connection := mkConnection p (mkResponseConnect "connect" true None 1 0 n).

(** The order of the windows has no ties only where it matters: two windows
    of different ports count as the same when they were active in the same
    second and have different names of the same length, and then the set takes
    only one of them.  It is not the order a set asks for either: of the
    windows "foo", "bar" and "foo", the second is equivalent to both others,
    which are not equivalent to each other. *)
Theorem connections_dropped a b : plausible a → plausible b →
  lastTimeSeenActiveInSecs (serverInfo a) = lastTimeSeenActiveInSecs (serverInfo b) →
  name (serverInfo a) ≠ name (serverInfo b) → nameLength a = nameLength b →
  setInsert b (fst (setInsert a [])) = ([a], false)
  ∧ ∃ x y z, equivalent x y ∧ equivalent y z ∧ ¬ equivalent x z ∧ plausible x ∧ plausible y ∧ plausible z.
Proof.
  intros Ha Hb Ht Hn Hl. split.
  - assert (equivalent a b) as [E1 E2] by (apply equivalent_iff; [done..|]; by rewrite bool_decide_eq_false_2).
    simpl. by rewrite E1, E2.
  - exists (window 1 "foo"), (window 2 "bar"), (window 3 "foo").
    split; [by vm_compute|]. split; [by vm_compute|]. split; [by intros [? _]|]. repeat split; vm_compute; congruence.
Qed.

(** The witness of [connections_dropped]. *)
Lemma connections_dropped_witness :
  setInsert (window 7002 "world") (fst (setInsert (window 7001 "hello") [])) = ([window 7001 "hello"], false).
Proof. apply (connections_dropped (window 7001 "hello") (window 7002 "world")); vm_compute; repeat split; congruence. Defined.

(** ** Witnesses *)

Definition exampleParse (s : string) : option Value :=
  if String.eqb s "A" then Some (Object [("success", Boolean true); ("kind", Str "connect"); ("pid", Number 12);
                                         ("lastTimeSeenActiveInSecs", Number 3); ("name", Str "editor")])
  else if String.eqb s "B" then Some (Object [("success", Boolean true); ("kind", Str "debug")])
  else Some (Object [("success", Boolean false); ("kind", Str "debug"); ("message", Str "busy")]).

(** The witness of [response_framing]: the separator arrives in two pieces. *)
Lemma response_framing_witness :
  ∃ log, doSendRequest (SR := llvm_stringref) (T := ResponseDebug) exampleParse (fun _ => "0") (fun _ _ => Success 4) 1 "ask"
    (map Bytes [("C" ++ newline ++ "--")%string; ("--" ++ newline)%string] ++ [RecvError "never read"])%list
  = (Some (Error ("RPC Server response:" ++ newline ++ "busy")), Send 1 "ask" :: log)
  ∧ Forall (fun e => ∃ text, e = LogText text) log.
Proof.
  destruct (response_framing (SR := llvm_stringref) (T := ResponseDebug) exampleParse (fun _ => "0") (fun _ _ => Success 4) 1 "ask" 4 "C"
    ["C" ++ newline ++ "--"; "--" ++ newline]%string [RecvError "never read"]) as (log & E & F).
  - reflexivity.
  - reflexivity.
  - by repeat constructor.
  - vm_compute. reflexivity.
  - exists log. split; [rewrite E; vm_compute; reflexivity|exact F].
Defined.

(** Two windows: the one of port 2 does not accept the connection, and the
    user types the number of a window that is not there. *)
Definition exampleInvoke (getline : string) : Outcome * list Event :=
  invokeRPC (SR := llvm_stringref) (fun _ => "{}") exampleParse (fun _ => "0") (fun _ _ => Success 4) (fun _ => Success tt)
    (fun p => if p =? 2 then Error "refused" else Success tt) (fun _ => [Bytes ("A" ++ protocolSeparator)])
    (fun _ => [Bytes ("B" ++ protocolSeparator)]) getline (Success "/tmp/log.txt") false [1; 2; 3] ∅.
Lemma rpc_outcome_witness :
  fst (exampleInvoke "1") = Done (Success tt) ∧ fst (exampleInvoke "5") = OutOfRange 5
  ∧ (OpenSocket 2 ∈ snd (exampleInvoke "1") ∧ CloseSocket 2 ∉ snd (exampleInvoke "1")).
Proof.
  split; [vm_compute; reflexivity|]. split; [vm_compute; reflexivity|].
  pose proof (rpc_outcome (SR := llvm_stringref) (fun _ => "{}") exampleParse (fun _ => "0") (fun _ _ => Success 4) (fun _ => Success tt)
    (fun p => if p =? 2 then Error "refused" else Success tt) (fun _ => [Bytes ("A" ++ protocolSeparator)])
    (fun _ => [Bytes ("B" ++ protocolSeparator)]) "1" (Success "/tmp/log.txt") [1; 2; 3] ∅ "/tmp/log.txt" eq_refl) as H.
  fold (exampleInvoke "1") in H. cbv zeta in H. destruct (exampleInvoke "1") as [[r|i|] log] eqn:E; [|vm_compute in E; discriminate E..].
  destruct H as [H _]. destruct (H 2) as [H1 H2]. cbn [snd]. rewrite H1, H2. split.
  - split; [right; left|by eexists].
  - intros [_ [c Hc]]. vm_compute in Hc. discriminate Hc.
Defined.

End RPCClient.
