(* ===== verification/CompilerRT.v ===== *)
(** The entry points of the compiler's runtime: the search for a Python library
    (Mojo/lib/CompilerRT/Python.cpp), and the arguments and stack traces of a
    program (System.cpp).  Programs, files, the configuration and the handlers
    of the system are parameters. *)
From S2P Require Import Prelude StringRef Configuration.

#[local] Open Scope string_scope.
#[local] Open Scope Z_scope.

Module Python.

(** The process environment; setting a variable may fail. *)
Abbreviation Environment := (gmap string string).

(** ::isspace in the C locale, and std::erase_if. *)
Definition isspace (c : ascii) : bool := charIn whitespace c.
Fixpoint erase_if (p : ascii → bool) (s : string) : string :=
  match s with "" => "" | String c s => if p c then erase_if p s else String c (erase_if p s) end.

Inductive Event := CreateFile (path : string) | RunPython (pythonBin : string) | RemoveFile (path : string).

Section Python.
Variable isWindows : bool.
Variable is_regular_file : string → bool.
Variable findProgramByName : string → option string.
Variable canSetEnv : string → string → bool.
(** [createTemporaryFile], and what an interpreter leaves in the file when it
    can be read. *)
Variable createTemporaryFile : option string.
Variable getFile : string → option string.

Definition findLibPython (pythonBin : string) : option string * list Event :=
  match createTemporaryFile with
  | None => (None, [])
  | Some outputPath =>
      (erase_if isspace <$> getFile pythonBin, [CreateFile outputPath; RunPython pythonBin; RemoveFile outputPath])
  end.

Definition pythonProgramNames : list string := if isWindows then ["python"; "python3"] else ["python3"; "python"].

Definition isUsableLibPython (libpython : option string) : bool :=
  match libpython with
  | None => false
  | Some lib => if isWindows then negb (isEmpty lib) else true
  end.

(** The loop over the names: the interpreter, the library, what was run. *)
Fixpoint searchPath (names : list string) (pythonBin : string) (libpython : option string) : string * option string * list Event :=
  match names with
  | [] => (pythonBin, libpython, [])
  | name :: names =>
      match findProgramByName name with
      | None => searchPath names pythonBin libpython
      | Some found =>
          match libpython with
          | Some _ => (found, libpython, [])
          | None =>
              let '(candidate, log) := findLibPython found in
              if isUsableLibPython candidate then (found, candidate, log)
              else let '(r, rest) := searchPath names found None in (r, (log ++ rest)%list)
          end
      end
  end.

Definition setProcessEnv (key value : string) (env : Environment) : option Environment :=
  if canSetEnv key value then Some (<[key := value]> env) else None.

(** The end of the function: what an interpreter and a library set. *)
Definition setVariables (pythonBin : string) (libpython : option string) (env : Environment) : string * Environment :=
  match (if isEmpty pythonBin then Some env else setProcessEnv "PYTHONEXECUTABLE" pythonBin env) with
  | None => ("cannot set `PYTHONEXECUTABLE` to", env)
  | Some env =>
      match libpython with
      | Some lib =>
          if negb (isUsableLibPython libpython) || (negb (isEmpty lib) && negb (is_regular_file lib))
          then ("found no suitable Python library to link to", env)
          else match setProcessEnv "MOJO_PYTHON_LIBRARY" lib env with
               | None => ("cannot set `MOJO_PYTHON_LIBRARY`", env)
               | Some env => ("", env)
               end
      | None => ("found no suitable Python library to link to", env)
      end
  end.

(** The message, empty for success, and the environment. *)
Definition KGEN_CompilerRT_Python_SetPythonPath (env : Environment) : string * Environment * list Event :=
  let pythonBin := default "" (env !! "MOJO_PYTHON") in
  if negb (isEmpty pythonBin) && negb (is_regular_file pythonBin)
  then ("`MOJO_PYTHON` is not set to a file path.", env, [])
  else
    let libpython := env !! "MOJO_PYTHON_LIBRARY" in
    let '(pythonBin, libpython, log) :=
      if negb (isEmpty pythonBin) then
        match libpython with
        | Some _ => (pythonBin, libpython, [])
        | None => let '(libpython, log) := findLibPython pythonBin in (pythonBin, libpython, log)
        end
      else searchPath pythonProgramNames pythonBin libpython in
    (setVariables pythonBin libpython env, log).

(** ** Properties *)

(** The programs on the path, the library an interpreter gives, and the
    interpreter and library that are chosen. *)
Definition interpreters : list string := omap findProgramByName pythonProgramNames.
Definition libraryOf (pythonBin : string) : option string := fst (findLibPython pythonBin).
Definition chosen (env : Environment) : string * option string :=
  let bin := default "" (env !! "MOJO_PYTHON") in
  if isEmpty bin then
    match env !! "MOJO_PYTHON_LIBRARY" with
    | Some lib => (default "" (head interpreters), Some lib)
    | None =>
        match List.find (fun b => isUsableLibPython (libraryOf b)) interpreters with
        | Some b => (b, libraryOf b)
        | None => (default "" (last interpreters), None)
        end
    end
  else (bin, match env !! "MOJO_PYTHON_LIBRARY" with Some lib => Some lib | None => libraryOf bin end).

(** The library that is set, when it can be loaded. *)
Definition loadable (libpython : option string) : option string :=
  lib ← libpython;
  if isUsableLibPython libpython && (isEmpty lib || is_regular_file lib) then Some lib else None.

Lemma searchPath_given lib names bin : ∃ log,
  searchPath names bin (Some lib) = (default bin (head (omap findProgramByName names)), Some lib, log) ∧ log = [].
Proof.
  exists []. split; [|done]. induction names as [|n names IH]; [done|]. simpl.
  destruct (findProgramByName n); [done|]. exact IH.
Qed.

Lemma searchPath_search names : ∀ bin, ∃ log,
  searchPath names bin None =
  (match List.find (fun b => isUsableLibPython (libraryOf b)) (omap findProgramByName names) with
   | Some b => (b, libraryOf b)
   | None => (default bin (last (omap findProgramByName names)), None)
   end, log).
Proof.
  induction names as [|n names IH]; intros bin; [by exists []|]. simpl.
  destruct (findProgramByName n) as [found|]; [|apply IH]. simpl. unfold libraryOf at 1 2.
  destruct (findLibPython found) as [candidate log0] eqn:E. simpl.
  destruct (isUsableLibPython candidate); [exists log0; unfold libraryOf; by rewrite E|].
  destruct (IH found) as [log ->]. eexists. f_equal. f_equal.
  destruct (List.find _ _); [done|]. f_equal. rewrite last_cons. by destruct (last _).
Qed.

Lemma erase_if_none p s : string_forall (fun c => negb (p c)) (erase_if p s) = true.
Proof. induction s as [|c s IH]; simpl; [done|]. destruct (p c) eqn:E; simpl; [done|]. by rewrite E, IH. Qed.
Lemma erase_if_id p s : string_forall (fun c => negb (p c)) s = true → erase_if p s = s.
Proof.
  induction s as [|c s IH]; simpl; [done|]. intros H. apply andb_true_iff in H as [H1 H2].
  apply negb_true_iff in H1. by rewrite H1, IH.
Qed.
Lemma erase_if_app p s t : erase_if p (s ++ t) = erase_if p s ++ erase_if p t.
Proof. induction s as [|c s IH]; simpl; [done|]. destruct (p c); simpl; by rewrite IH. Qed.

(** The end of the function, for an interpreter and a library. *)
Lemma finish_spec env bin lib : (∀ key value, canSetEnv key value = true) →
  setVariables bin lib env =
  (let env1 := if isEmpty bin then env else <["PYTHONEXECUTABLE" := bin]> env in
   match loadable lib with
   | Some l => ("", <["MOJO_PYTHON_LIBRARY" := l]> env1)
   | None => ("found no suitable Python library to link to", env1)
   end).
Proof.
  intros Hset. unfold setVariables, setProcessEnv. rewrite !Hset.
  assert ((if isEmpty bin then Some env else Some (<["PYTHONEXECUTABLE" := bin]> env))
    = Some (if isEmpty bin then env else <["PYTHONEXECUTABLE" := bin]> env)) as -> by (by destruct (isEmpty bin)).
  unfold loadable. destruct lib as [l|]; simpl; [|done]. rewrite Hset.
  destruct (if isWindows then _ else _); simpl; [|done].
  by destruct (isEmpty l), (is_regular_file l).
Qed.

(** C40: The Python a program links to.  A bad MOJO_PYTHON is refused before
    anything else; otherwise the interpreter is MOJO_PYTHON or the first program
    on the path whose library is usable, or the last one when none is, and the
    library is MOJO_PYTHON_LIBRARY, for which no interpreter is run, or the
    interpreter's.  The variables are set accordingly, the one for the
    interpreter also when no library is found.  Of what an interpreter prints
    every white space goes, not only the end of the line: the path of a library
    is taken as it is when it has none, and is never found when it has. *)
Theorem python_library_spec env : (∀ key value, canSetEnv key value = true) →
  (let bin := default "" (env !! "MOJO_PYTHON") in
   match KGEN_CompilerRT_Python_SetPythonPath env with
   | (msg, env', log) =>
       if negb (isEmpty bin) && negb (is_regular_file bin)
       then msg = "`MOJO_PYTHON` is not set to a file path." ∧ env' = env ∧ log = []
       else
         let '(bin, lib) := chosen env in
         let env1 := if isEmpty bin then env else <["PYTHONEXECUTABLE" := bin]> env in
         (msg, env') = match loadable lib with
                       | Some l => ("", <["MOJO_PYTHON_LIBRARY" := l]> env1)
                       | None => ("found no suitable Python library to link to", env1)
                       end
         ∧ (is_Some (env !! "MOJO_PYTHON_LIBRARY") → log = [])
   end)
  ∧ ∀ bin path, createTemporaryFile ≠ None → getFile bin = Some (path ++ String "010" "") →
      (libraryOf bin = Some path ↔ string_forall (fun c => negb (isspace c)) path = true).
Proof.
  intros Hset. split.
  - unfold KGEN_CompilerRT_Python_SetPythonPath, chosen. cbv zeta.
    set (bin := default "" (env !! "MOJO_PYTHON")). destruct (isEmpty bin) eqn:Eb; simpl negb; simpl andb.
    + assert (bin = "") as -> by (by destruct bin).
      destruct (env !! "MOJO_PYTHON_LIBRARY") as [lib|].
      * destruct (searchPath_given lib pythonProgramNames "") as (log & -> & ->). rewrite finish_spec by done. cbv zeta. by destruct (loadable _).
      * destruct (searchPath_search pythonProgramNames "") as [log E]. fold interpreters in E. rewrite E.
        destruct (List.find _ interpreters); rewrite finish_spec by done; cbv zeta;
          (destruct (loadable _); (split; [done|by intros [? [=]]])).
    + destruct (is_regular_file bin) eqn:Er; simpl; [|done].
      destruct (env !! "MOJO_PYTHON_LIBRARY") as [lib|]; [rewrite finish_spec by done; cbv zeta; by destruct (loadable _)|].
      unfold libraryOf. destruct (findLibPython bin) as [lib log]. rewrite finish_spec by done. cbv zeta.
      destruct (loadable _); (split; [done|by intros [? [=]]]).
  - intros bin path Ht Hf. unfold libraryOf, findLibPython. destruct createTemporaryFile; [|done]. simpl.
    rewrite Hf. simpl. rewrite erase_if_app. simpl. rewrite string_app_nil. split.
    + intros [= E]. rewrite <- E. apply erase_if_none.
    + intros H. by rewrite erase_if_id.
Qed.

End Python.

(** On Windows the first name leads to the stub of the store, which prints
    nothing; the second to a Python. *)
Definition exampleFind (name : string) : option string :=
  if String.eqb name "python" then Some "C:/Apps/python.exe" else Some "C:/Python/python3.exe".
Definition exampleOutput (bin : string) : option string :=
  if String.eqb bin "C:/Python/python3.exe" then Some ("C:/Python/python312.dll" ++ String "010" "") else Some "".
Lemma python_library_spec_witness :
  fst (fst (KGEN_CompilerRT_Python_SetPythonPath true (String.eqb "C:/Python/python312.dll") exampleFind (fun _ _ => true)
    (Some "out.txt") exampleOutput ∅)) = ""
  ∧ (libraryOf (Some "out.txt") (fun _ => Some ("C:/Program Files/python312.dll" ++ String "010" "")) "python"
     ≠ Some "C:/Program Files/python312.dll").
Proof.
  split.
  - pose proof (python_library_spec true (String.eqb "C:/Python/python312.dll") exampleFind (fun _ _ => true)
      (Some "out.txt") exampleOutput ∅ (fun _ _ => eq_refl)) as [H _]. cbv zeta in H.
    destruct (KGEN_CompilerRT_Python_SetPythonPath _ _ _ _ _ _ _) as [[msg env] log]. simpl fst.
    change (default "" ((∅ : Environment) !! "MOJO_PYTHON")) with "" in H. simpl negb in H. cbv iota in H. simpl andb in H.
    cbv iota in H. destruct (chosen _ _ _ _ _) as [bin lib] eqn:E. vm_compute in E. injection E as <- <-.
    destruct H as [H _]. vm_compute loadable in H. by injection H.
  - pose proof (python_library_spec false (fun _ => true) exampleFind (fun _ _ => true) (Some "out.txt")
      (fun _ => Some ("C:/Program Files/python312.dll" ++ String "010" "")) ∅ (fun _ _ => eq_refl)) as [_ H].
    intros E. apply H in E; [vm_compute in E; discriminate E|done|reflexivity].
Defined.

End Python.

Module System.
Import Config.

#[local] Abbreviation length := List.length (only parsing).

(** ** Arguments *)

(** [ArgVList]: the references handed to the program and the strings they are
    to, of one length. *)
Record ArgVList := mkArgVList { args : list string; argStrings : list string }.
Definition initialArgs : ArgVList := mkArgVList [""] [].

(** std::vector::resize. *)
Definition resize (n : nat) (l : list string) : list string := (take n l ++ replicate (n - length l) "")%list.
Fixpoint copyArgs (argv : list string) (i : nat) (a : ArgVList) : ArgVList :=
  match argv with
  | [] => a
  | arg :: argv => copyArgs argv (S i) (mkArgVList (<[i := arg]> (args a)) (<[i := arg]> (argStrings a)))
  end.
(** [argv] with its [argc] elements. *)
Definition KGEN_CompilerRT_SetArgV (argv : list string) (a : ArgVList) : ArgVList :=
  copyArgs argv 0 (mkArgVList (resize (length argv) (args a)) (resize (length argv) (argStrings a))).
Definition KGEN_CompilerRT_GetArgV (a : ArgVList) : list string * nat := (args a, length (args a)).

Lemma copyArgs_args argv : ∀ i a, (length (args a) = i + length argv)%nat →
  args (copyArgs argv i a) = (take i (args a) ++ argv)%list.
Proof.
  induction argv as [|arg argv IH]; intros i a; simpl.
  { intros E. rewrite app_nil_r, firstn_all2; [done|lia]. }
  intros E. rewrite IH by (simpl; rewrite length_insert; lia). simpl.
  rewrite (take_S_r _ i arg) by (apply list_lookup_insert_eq; lia).
  rewrite take_insert_ge by lia. by rewrite <- app_assoc.
Qed.

(** The program is given the arguments last set, in any order of calls. *)
Lemma argv_set argv a : KGEN_CompilerRT_GetArgV (KGEN_CompilerRT_SetArgV argv a) = (argv, length argv).
Proof.
  unfold KGEN_CompilerRT_GetArgV, KGEN_CompilerRT_SetArgV. rewrite copyArgs_args; [done|].
  simpl. unfold resize. rewrite length_app, length_take, length_replicate. lia.
Qed.

(** ** Stack traces *)

Section System.
Context {SR : StringRefOps}.
Variable isWindows : bool.
Variable GetEnv : string → option string.
Variable findConfigWithRunfiles : string → option string.
(** [getStackTrace] of a depth. *)
Variable getStackTrace : Z → string.

Definition setting (overrides : KV) (key : string) (defaultValue : bool) (cfg : KV) : bool :=
  fst (getValueAsBool GetEnv findConfigWithRunfiles overrides key defaultValue cfg).

(** What is installed, in order. *)
Inductive Handler := ReserveStack | PrintStackTraceOnErrorSignal | AnnounceStackOverflow.

(** [installed] is the static flag. *)
Definition KGEN_CompilerRT_PrintStackTraceOnFault (overrides : KV) (configOr : ErrorOr KV) (installed : bool) : list Handler * bool :=
  let enabled := match configOr with
                 | Error _ => true
                 | Success cfg => setting overrides "max-debug.stack-trace-on-crash" true cfg
                 end in
  if negb enabled then ([], installed)
  else if isWindows then
    if installed then ([ReserveStack; PrintStackTraceOnErrorSignal], true)
    else ([ReserveStack; PrintStackTraceOnErrorSignal; AnnounceStackOverflow], true)
  else ([PrintStackTraceOnErrorSignal], installed).

(** [enabled] is the cached answer, -1 before the first call.  The result is the
    length and the text with its terminator. *)
Definition KGEN_CompilerRT_GetStackTrace (depth : Z) (overrides : KV) (configOr : ErrorOr KV) (enabled : Z) : Z * option string * Z :=
  let isEnabled :=
    if enabled =? -1 then
      match configOr with
      | Error _ => 0
      | Success cfg => if setting overrides "max-debug.stack-trace-on-error" false cfg then 1 else 0
      end
    else enabled in
  if isEnabled =? 0 then (0, None, isEnabled)
  else
    let stacktrace := getStackTrace depth in
    (Z.of_nat (String.length stacktrace) + 1, Some (stacktrace ++ String "000" ""), isEnabled).

(** The handler of stack overflows: snprintf into a buffer of 128 bytes keeps
    127 of them and returns the whole length, which is what is written. *)
Definition bufferSize : nat := 128.
Definition overflowMessage (threadId : Z) : string :=
  "Stack overflow in thread " ++ decimal threadId ++ ". The usual cause is recursion with no base case." ++ String "010" "".
Definition announceStackOverflow (isStackOverflow : bool) (threadId : Z) : option (string * nat) :=
  if isStackOverflow then
    let length := String.length (overflowMessage threadId) in
    Some (string_take (bufferSize - 1) (overflowMessage threadId), length)
  else None.

Lemma decimalGo_length d : ∀ fuel n rest, 0 ≤ n < 10 ^ Z.of_nat (S d) →
  (String.length (decimalGo fuel n rest) ≤ S d + String.length rest)%nat.
Proof.
  induction d as [|d IH]; intros [|fuel] n rest Hn; simpl; try lia.
  - destruct (n <? 10) eqn:E; [simpl; lia|]. bool_to_prop. simpl in Hn. lia.
  - destruct (n <? 10); [simpl; lia|]. etransitivity; [apply IH|simpl; lia].
    rewrite Nat2Z.inj_succ, Z.pow_succ_r in Hn by lia. split; [apply Z.div_pos; lia|]. apply Z.div_lt_upper_bound; lia.
Qed.

(** The entry points for stack traces decide once: the first call reads the
    configuration, and what it finds holds for all later ones, whatever the
    configuration has become.  Disabled, nothing is returned; enabled, the text
    with its terminator and its length.  The handler of stack overflows is
    installed once; it takes nothing but stack overflows, and its line is in
    the buffer whole, for every number a thread can have. *)
Theorem stack_trace_spec depth depth' overrides overrides' configOr configOr' threadId : 0 ≤ threadId < 2 ^ 32 →
  let '(_, _, cached) := KGEN_CompilerRT_GetStackTrace depth overrides configOr (-1) in
  (cached = 0 ∨ cached = 1)
  ∧ KGEN_CompilerRT_GetStackTrace depth' overrides' configOr' cached
    = (if cached =? 0 then (0, None, cached)
       else (Z.of_nat (String.length (getStackTrace depth' ++ String "000" "")), Some (getStackTrace depth' ++ String "000" ""), cached))
  ∧ (AnnounceStackOverflow ∉ fst (KGEN_CompilerRT_PrintStackTraceOnFault overrides configOr true))
  ∧ announceStackOverflow false threadId = None
  ∧ announceStackOverflow true threadId = Some (overflowMessage threadId, String.length (overflowMessage threadId)).
Proof.
  intros Ht. unfold KGEN_CompilerRT_GetStackTrace at 1. change (-1 =? -1) with true. cbv iota zeta.
  assert (He : ∃ isEnabled, (match configOr with Success cfg => if setting overrides "max-debug.stack-trace-on-error" false cfg then 1 else 0
    | Error _ => 0 end) = isEnabled ∧ (isEnabled = 0 ∨ isEnabled = 1))
    by (eexists; split; [reflexivity|]; destruct configOr; [destruct (setting _ _ _ _)|]; auto).
  destruct He as (isEnabled & -> & He).
  assert (Hrest : KGEN_CompilerRT_GetStackTrace depth' overrides' configOr' isEnabled
    = (if isEnabled =? 0 then (0, None, isEnabled)
       else (Z.of_nat (String.length (getStackTrace depth' ++ String "000" "")), Some (getStackTrace depth' ++ String "000" ""), isEnabled))).
  { unfold KGEN_CompilerRT_GetStackTrace. destruct He as [-> | ->]; [done|]. simpl. rewrite string_length_app. simpl. f_equal. f_equal. lia. }
  assert (Hann : AnnounceStackOverflow ∉ fst (KGEN_CompilerRT_PrintStackTraceOnFault overrides configOr true)).
  { unfold KGEN_CompilerRT_PrintStackTraceOnFault. destruct (negb _), isWindows; simpl; intros Hin;
      repeat (apply elem_of_cons in Hin as [Hin|Hin]; [done|]); by apply not_elem_of_nil in Hin. }
  assert (Hlen : (String.length (overflowMessage threadId) ≤ bufferSize - 1)%nat).
  { unfold overflowMessage. rewrite !string_length_app. unfold decimal.
    pose proof (decimalGo_length 9 19 threadId "" ltac:(split; [lia|change (10 ^ Z.of_nat 10) with 10000000000; lia])) as Hd.
    change (String.length "") with 0%nat in Hd. change (String.length "Stack overflow in thread ") with 25%nat.
    change (String.length ". The usual cause is recursion with no base case.") with 49%nat.
    change (String.length (String "010" "")) with 1%nat. change (bufferSize - 1)%nat with 127%nat. lia. }
  destruct (isEnabled =? 0) eqn:E; (split; [exact He|split; [rewrite E; exact Hrest|split; [exact Hann|split; [reflexivity|]]]]);
    unfold announceStackOverflow; by rewrite string_take_all.
Qed.

End System.

(** The witness of [stack_trace_spec]. *)
Lemma stack_trace_spec_witness :
  KGEN_CompilerRT_GetStackTrace (SR := llvm_stringref) (fun _ => None) (fun _ => None) (fun _ => "frame") 0 ∅
    (Success {["max-debug.stack-trace-on-error" := "yes"]}) (-1) = (6, Some ("frame" ++ String "000" ""), 1)
  ∧ KGEN_CompilerRT_GetStackTrace (SR := llvm_stringref) (fun _ => None) (fun _ => None) (fun _ => "frame") 0 ∅ (Error "no file") 1
    = (6, Some ("frame" ++ String "000" ""), 1).
Proof.
  split; [vm_compute; reflexivity|].
  pose proof (stack_trace_spec (SR := llvm_stringref) true (fun _ => None) (fun _ => None) (fun _ => "frame") 0 0 ∅ ∅
    (Success {["max-debug.stack-trace-on-error" := "yes"]}) (Error "no file") 4294967295 ltac:(split; [by vm_compute|reflexivity])) as H.
  destruct (KGEN_CompilerRT_GetStackTrace _ _ _ 0 ∅ (Success _) (-1)) as [[r t] c] eqn:E. vm_compute in E.
  injection E as <- <- <-. destruct H as (_ & H & _). exact H.
Defined.

End System.
