(* ===== verification/BinaryID.v ===== *)
(** The identity of a binary, Support/lib/BinaryID.cpp: the build id note of an
    ELF image, the UUID command of a Mach-O image, the CodeView record or the
    header of a PE image, as text.  The mapped image is a function from
    addresses to bytes; the hash of a path is a parameter. *)
From S2P Require Import Prelude StringRef.

#[local] Open Scope string_scope.
#[local] Open Scope Z_scope.

Module BinaryID.

#[local] Abbreviation length := List.length (only parsing).

(** ** Bytes and their text *)

(** The bytes of the process, and little-endian numbers in them. *)
Definition Memory : Type := Z → Z.
Fixpoint readLE (n : nat) (mem : Memory) (a : Z) : Z :=
  match n with O => 0 | S n => mem a + 256 * readLE n mem (a + 1) end.
Fixpoint readBytes (n : nat) (mem : Memory) (a : Z) : list Z :=
  match n with O => [] | S n => mem a :: readBytes n mem (a + 1) end.

(** [%0nx] of a number, and [%x] of a 32-bit one. *)
Definition hexDigit (d : Z) : ascii := ascii_of_nat (Z.to_nat (if d <? 10 then 48 + d else 87 + d)).
Fixpoint hexFixed (n : nat) (z : Z) : string :=
  match n with O => "" | S n => hexFixed n (z / 16) ++ String (hexDigit (z mod 16)) "" end.
Definition hexShort (z : Z) : string :=
  if z =? 0 then "0" else dropLeading (Ascii.eqb "0") (hexFixed 8 z).
Fixpoint hexBytes (bytes : list Z) : string :=
  match bytes with [] => "" | b :: bytes => hexFixed 2 b ++ hexBytes bytes end.

(** size_t arithmetic. *)
Definition RoundUpTo (size boundary : Z) : Z :=
  Z.land ((size + boundary - 1) mod 2 ^ 64) ((- boundary) mod 2 ^ 64).

Section BinaryID.
(** [MODULAR_NVPTX_COMPILER_PATH], and the sixteen bytes of the hash. *)
Variable GetEnv : string → option string.
Variable xxh3_128bits : string → list Z.

Definition postfix : string :=
  match GetEnv "MODULAR_NVPTX_COMPILER_PATH" with
  | None => ""
  | Some path => "-" ++ hexBytes (xxh3_128bits path)
  end.

(** ** ELF *)

Definition PT_PHDR : Z := 6.
Definition PT_NOTE : Z := 4.
Definition NT_GNU_BUILD_ID : Z := 3.
(** sizeof(ElfW(Nhdr)). *)
Definition sizeofNhdr : Z := 12.
Record Phdr := mkPhdr { p_type : Z; p_vaddr : Z; p_memsz : Z }.

(** The notes from [note] on, for as many steps as there is fuel. *)
Fixpoint findBuildId (fuel : nat) (mem : Memory) (note notesEnd : Z) : option string :=
  match fuel with
  | O => None
  | S fuel =>
      if note <? notesEnd then
        let n_namesz := readLE 4 mem note in
        let n_descsz := readLE 4 mem (note + 4) in
        let n_type := readLE 4 mem (note + 8) in
        let payload := sizeofNhdr + RoundUpTo n_namesz 4 in
        if n_type =? NT_GNU_BUILD_ID then Some (hexBytes (readBytes (Z.to_nat n_descsz) mem (note + payload)))
        else findBuildId fuel mem (note + (payload + RoundUpTo n_descsz 4)) notesEnd
      else None
  end.

(** The difference between addresses and those of the file: the last PT_PHDR's. *)
Fixpoint elfBase (programHeader : Z) (headers : list Phdr) (base : Z) : Z :=
  match headers with
  | [] => base
  | h :: headers => elfBase programHeader headers (if p_type h =? PT_PHDR then programHeader - p_vaddr h else base)
  end.
Fixpoint elfSegments (mem : Memory) (base : Z) (headers : list Phdr) : option string :=
  match headers with
  | [] => None
  | h :: headers =>
      if negb (p_type h =? PT_NOTE) then elfSegments mem base headers
      else
        let note := base + p_vaddr h in
        match findBuildId (Z.to_nat (p_memsz h)) mem note (note + p_memsz h) with
        | Some id => Some id
        | None => elfSegments mem base headers
        end
  end.
(** [None] is the llvm_unreachable at the end. *)
Definition getBinaryID_elf (mem : Memory) (programHeader : Z) (headers : list Phdr) : option string :=
  id ← elfSegments mem (elfBase programHeader headers 0) headers; Some (id ++ postfix).

(** ** Mach-O *)

Definition LC_UUID : Z := 27.
(** The commands: cmd and cmdsize are the first eight bytes of each. *)
Fixpoint findUUID (ncmds : nat) (mem : Memory) (command : Z) : option string :=
  match ncmds with
  | O => None
  | S ncmds =>
      if readLE 4 mem command =? LC_UUID then Some (hexBytes (readBytes 16 mem (command + 8)))
      else findUUID ncmds mem (command + readLE 4 mem (command + 4))
  end.
Definition getBinaryID_macho (mem : Memory) (ncmds : nat) (firstCommand : Z) : option string :=
  id ← findUUID ncmds mem firstCommand; Some (id ++ postfix).

(** ** PE *)

Definition IMAGE_DEBUG_TYPE_CODEVIEW : Z := 2.
(** sizeof(IMAGE_DEBUG_DIRECTORY), where its Type and AddressOfRawData are. *)
Definition sizeofDebugDirectory : Z := 28.
Definition kRSDS : Z := 1396986706.
(** The headers: the debug directory, the time stamp and the image size. *)
Record PEHeaders := mkPEHeaders { debugVirtualAddress : Z; debugSize : Z; TimeDateStamp : Z; SizeOfImage : Z }.

(** What an image is named after. *)
Inductive Identity := CodeView (guid : list Z) (age : Z) | Header (timeDateStamp sizeOfImage : Z).

Fixpoint findCodeView (n : nat) (mem : Memory) (base entry : Z) : option Identity :=
  match n with
  | O => None
  | S n =>
      let rsds := base + readLE 4 mem (entry + 20) in
      if (readLE 4 mem (entry + 12) =? IMAGE_DEBUG_TYPE_CODEVIEW) && (readLE 4 mem rsds =? kRSDS)
      then Some (CodeView (readBytes 16 mem (rsds + 4)) (readLE 4 mem (rsds + 20)))
      else findCodeView n mem base (entry + sizeofDebugDirectory)
  end.
Definition identity (mem : Memory) (base : Z) (h : PEHeaders) : Identity :=
  default (Header (TimeDateStamp h) (SizeOfImage h))
    (if debugVirtualAddress h =? 0 then None
     else findCodeView (Z.to_nat (debugSize h / sizeofDebugDirectory)) mem base (base + debugVirtualAddress h)).
Definition identityText (i : Identity) : string :=
  match i with
  | CodeView guid age => hexBytes guid ++ hexShort age
  | Header t s => hexFixed 8 t ++ hexFixed 8 s
  end.
Definition getBinaryID_pe (mem : Memory) (base : Z) (h : PEHeaders) : string := identityText (identity mem base h) ++ postfix.

(** ** Images that hold given notes *)

Definition holds (mem : Memory) (a : Z) (bytes : list Z) : Prop :=
  ∀ i b, bytes !! i = Some b → mem (a + Z.of_nat i) = b.
Fixpoint leBytes (n : nat) (z : Z) : list Z :=
  match n with O => [] | S n => z mod 256 :: leBytes n (z / 256) end.
Definition padded (l : list Z) : list Z :=
  (l ++ replicate (Z.to_nat (4 * ((Z.of_nat (length l) + 3) / 4) - Z.of_nat (length l))) 0)%list.

(** A note: its type, the name of its owner and its description. *)
Record Note := mkNote { noteType : Z; owner : list Z; description : list Z }.
Definition encodeNote (n : Note) : list Z :=
  (leBytes 4 (Z.of_nat (length (owner n))) ++ leBytes 4 (Z.of_nat (length (description n))) ++ leBytes 4 (noteType n)
   ++ padded (owner n) ++ padded (description n))%list.
Definition encodeNotes (notes : list Note) : list Z := flat_map encodeNote notes.
Definition noteOk (n : Note) : Prop :=
  0 ≤ noteType n < 2 ^ 32 ∧ Z.of_nat (length (owner n)) < 2 ^ 32 ∧ Z.of_nat (length (description n)) < 2 ^ 32.

Lemma holds_app mem a l k : holds mem a (l ++ k)%list ↔ holds mem a l ∧ holds mem (a + Z.of_nat (length l)) k.
Proof.
  unfold holds. split.
  - intros H. split; intros i b Hi.
    + apply H. apply lookup_app_l_Some. done.
    + replace (a + Z.of_nat (length l) + Z.of_nat i) with (a + Z.of_nat (length l + i)) by lia. apply H.
      rewrite lookup_app_r by lia. by replace (length l + i - length l)%nat with i by lia.
  - intros [Hl Hk] i b [Hi|[Hlen Hi]]%lookup_app_Some; [by apply Hl|].
    apply Hk in Hi. rewrite <- Hi. f_equal. lia.
Qed.
Lemma holds_cons mem a x l : holds mem a (x :: l) ↔ mem a = x ∧ holds mem (a + 1) l.
Proof.
  change (x :: l) with ([x] ++ l)%list. rewrite holds_app. simpl. split; intros [H1 H2]; (split; [|done]).
  - rewrite <- (H1 O x eq_refl). f_equal. lia.
  - intros [|i] b Hi; simplify_eq/=. f_equal. lia.
Qed.

Lemma readLE_holds n mem : ∀ a z, holds mem a (leBytes n z) → 0 ≤ z < 256 ^ Z.of_nat n → readLE n mem a = z.
Proof.
  induction n as [|n IH]; intros a z; cbn [leBytes readLE]; [simpl; lia|]. rewrite holds_cons. intros [-> H] Hz.
  rewrite (IH _ _ H); [pose proof (Z.div_mod z 256); lia|]. rewrite Nat2Z.inj_succ, Z.pow_succ_r in Hz by lia.
  split; [apply Z.div_pos; lia|]. apply Z.div_lt_upper_bound; lia.
Qed.
Lemma readBytes_holds mem l : ∀ a, holds mem a l → readBytes (length l) mem a = l.
Proof. induction l as [|x l IH]; intros a; simpl; [done|]. intros [-> H]%holds_cons. by rewrite IH. Qed.

Lemma leBytes_length n z : length (leBytes n z) = n.
Proof. revert z. induction n as [|n IH]; intros z; simpl; [done|]. by rewrite IH. Qed.

Lemma RoundUpTo_spec size : 0 ≤ size < 2 ^ 32 → RoundUpTo size 4 = 4 * ((size + 3) / 4).
Proof.
  intros Hs. unfold RoundUpTo. rewrite Z.mod_small by lia. replace (size + 4 - 1) with (size + 3) by lia.
  rewrite <- (Z.land_ones (- (4))) by lia. change (- (4)) with (Z.lnot (Z.ones 2)).
  rewrite Z.land_assoc, <- Z.ldiff_land, Z.ldiff_ones_r, Z.land_ones by lia.
  rewrite Z.shiftr_div_pow2, Z.shiftl_mul_pow2 by lia. change (2 ^ 2) with 4. rewrite Z.mul_comm, Z.mod_small; [done|].
  pose proof (Z.div_mod (size + 3) 4). pose proof (Z.mod_pos_bound (size + 3) 4). lia.
Qed.
Lemma padded_length l : Z.of_nat (length (padded l)) = 4 * ((Z.of_nat (length l) + 3) / 4).
Proof.
  unfold padded. rewrite length_app, length_replicate.
  pose proof (Z.div_mod (Z.of_nat (length l) + 3) 4). pose proof (Z.mod_pos_bound (Z.of_nat (length l) + 3) 4). lia.
Qed.
Lemma encodeNote_length n :
  Z.of_nat (length (encodeNote n)) = 12 + Z.of_nat (length (padded (owner n))) + Z.of_nat (length (padded (description n))).
Proof. unfold encodeNote. rewrite !length_app, !leBytes_length. lia. Qed.

(** The first build id among notes. *)
Definition firstBuildId (notes : list Note) : option string :=
  n ← List.find (fun n => noteType n =? NT_GNU_BUILD_ID) notes; Some (hexBytes (description n)).

Lemma findBuildId_notes mem notes : Forall noteOk notes → ∀ fuel a,
  holds mem a (encodeNotes notes) → (length (encodeNotes notes) ≤ fuel)%nat →
  findBuildId fuel mem a (a + Z.of_nat (length (encodeNotes notes))) = firstBuildId notes.
Proof.
  induction 1 as [|n notes (Ht & Ho & Hd) _ IH]; intros fuel a Hmem Hfuel.
  { simpl. destruct fuel; [done|]. simpl. by rewrite (proj2 (Z.ltb_ge _ _)) by lia. }
  unfold encodeNotes in *. cbn [flat_map] in *. rewrite length_app in *.
  pose proof (encodeNote_length n) as Hlen. pose proof (padded_length (owner n)) as Hpo. pose proof (padded_length (description n)) as Hpd.
  assert (0 ≤ Z.of_nat (length (padded (owner n))) ∧ 0 ≤ Z.of_nat (length (padded (description n)))) as [? ?] by lia.
  destruct fuel as [|fuel]; [lia|]. cbn [findBuildId].
  rewrite (proj2 (Z.ltb_lt _ _)) by lia. apply holds_app in Hmem as [Hn Hrest].
  unfold encodeNote in Hn. rewrite !holds_app, !leBytes_length in Hn. destruct Hn as (H1 & H2 & H3 & H4 & H5).
  rewrite (readLE_holds 4 mem a (Z.of_nat (length (owner n)))) by (done || lia).
  rewrite (readLE_holds 4 mem (a + 4) (Z.of_nat (length (description n)))) by (done || lia).
  rewrite (readLE_holds 4 mem (a + 8) (noteType n)); [|by replace (a + 8) with (a + Z.of_nat 4 + Z.of_nat 4) by lia|lia].
  rewrite !RoundUpTo_spec, <- Hpo, <- Hpd by lia. unfold firstBuildId. cbn [List.find]. unfold sizeofNhdr.
  destruct (noteType n =? NT_GNU_BUILD_ID).
  - simpl. f_equal. f_equal. rewrite Nat2Z.id. unfold padded in H5 at 2. apply holds_app in H5 as [H5 _].
    apply readBytes_holds. by replace (a + (12 + Z.of_nat (length (padded (owner n)))))
      with (a + Z.of_nat 4 + Z.of_nat 4 + Z.of_nat 4 + Z.of_nat (length (padded (owner n)))) by lia.
  - fold (firstBuildId notes). rewrite <- IH with (fuel := fuel) (a := a + Z.of_nat (length (encodeNote n))); [f_equal; lia|done|lia].
Qed.

Lemma firstBuildId_app l k : firstBuildId (l ++ k)%list = firstBuildId l ∪ firstBuildId k.
Proof.
  unfold firstBuildId. induction l as [|n l IH]; simpl; [by destruct (List.find _ k)|].
  destruct (noteType n =? NT_GNU_BUILD_ID); [by destruct (List.find _ k)|exact IH].
Qed.

(** A program header describes notes: a note segment holds them, another has
    none. *)
Definition describes (mem : Memory) (base : Z) (h : Phdr) (notes : list Note) : Prop :=
  if p_type h =? PT_NOTE
  then Forall noteOk notes ∧ p_memsz h = Z.of_nat (length (encodeNotes notes)) ∧ holds mem (base + p_vaddr h) (encodeNotes notes)
  else notes = [].

(** On Linux the identity is the description of the first build id among
    the notes of all note segments, in hexadecimal, wherever it stands and
    whatever notes, of any sizes, come before it; without one there is none,
    and the end of the function that must not be reached is reached.  The owner
    of a note is not looked at: a note of the same type that belongs to another
    tool is taken for the build id. *)
Theorem elf_build_id mem programHeader headers notes :
  Forall2 (describes mem (elfBase programHeader headers 0)) headers notes →
  getBinaryID_elf mem programHeader headers = (id ← firstBuildId (List.concat notes); Some (id ++ postfix)).
Proof.
  unfold getBinaryID_elf. intros H. f_equal.
  generalize dependent (elfBase programHeader headers 0). intros base H.
  induction H as [|h ns headers notes Hh _ IH]; [done|]. simpl. rewrite firstBuildId_app, <- IH. unfold describes in Hh.
  destruct (p_type h =? PT_NOTE); simpl; [|subst ns; by destruct (elfSegments mem base headers)].
  destruct Hh as (Hok & Hsz & Hmem). rewrite Hsz, Nat2Z.id, findBuildId_notes by done.
  by destruct (firstBuildId ns), (elfSegments mem base headers).
Qed.

(** ** The texts of identities *)

Lemma hexFixed_length n : ∀ z, String.length (hexFixed n z) = n.
Proof. induction n as [|n IH]; intros z; simpl; [done|]. rewrite string_length_app, IH. simpl. lia. Qed.

Lemma hexDigit_inj d e : 0 ≤ d < 16 → 0 ≤ e < 16 → hexDigit d = hexDigit e → d = e.
Proof.
  intros Hd He. assert (∀ k : Z, 0 ≤ k < 16 → k = Z.of_nat (nat_of_ascii (hexDigit k)) - (if k <? 10 then 48 else 87)
    ∧ (Z.of_nat (nat_of_ascii (hexDigit k)) <? 97) = (k <? 10)) as Hv.
  { intros k Hk. assert (In k (map Z.of_nat (seq 0 16))) as Hin by (apply in_map_iff; exists (Z.to_nat k); rewrite in_seq; lia).
    simpl in Hin. repeat (destruct Hin as [<-|Hin]; [split; vm_compute; reflexivity|]). done. }
  intros E. destruct (Hv d Hd) as [H1 H2], (Hv e He) as [H3 H4]. rewrite E in H1, H2. rewrite H4 in H2. rewrite <- H2 in H1. lia.
Qed.

Lemma hexFixed_inj n : ∀ z w, 0 ≤ z < 16 ^ Z.of_nat n → 0 ≤ w < 16 ^ Z.of_nat n → hexFixed n z = hexFixed n w → z = w.
Proof.
  induction n as [|n IH]; intros z w; cbn [hexFixed]; [simpl; lia|].
  rewrite Nat2Z.inj_succ, Z.pow_succ_r by lia. intros Hz Hw E.
  apply string_app_inj in E as [E1 E2]; [|by rewrite !hexFixed_length]. injection E2 as E2.
  apply hexDigit_inj in E2; [|apply Z.mod_pos_bound; lia..].
  apply IH in E1; [pose proof (Z.div_mod z 16); pose proof (Z.div_mod w 16); lia| |];
    (split; [apply Z.div_pos; lia|apply Z.div_lt_upper_bound; lia]).
Qed.

(** Dropping leading zeros from texts of one length loses nothing. *)
Fixpoint zeroText (n : nat) : string := match n with O => "" | S n => String "0" (zeroText n) end.
Lemma dropLeading_zeroText s : ∃ n, s = zeroText n ++ dropLeading (Ascii.eqb "0") s.
Proof.
  induction s as [|c s [n IH]]; [by exists O|]. cbn [dropLeading].
  destruct (Ascii.eqb_spec "0" c) as [<-|]; [exists (S n); cbn [zeroText String.append]; by rewrite <- IH|by exists O].
Qed.
Lemma zeroText_length n : String.length (zeroText n) = n.
Proof. induction n as [|n IH]; simpl; [done|]. by rewrite IH. Qed.
Lemma dropLeading_not s t : dropLeading (Ascii.eqb "0") s ≠ String "0" t.
Proof. induction s as [|c s IH]; [done|]. cbn [dropLeading]. destruct (Ascii.eqb_spec "0" c); [done|congruence]. Qed.

Lemma hexShort_inj z w : 0 ≤ z < 2 ^ 32 → 0 ≤ w < 2 ^ 32 → hexShort z = hexShort w → z = w.
Proof.
  intros Hz Hw. unfold hexShort.
  destruct (z =? 0) eqn:E1, (w =? 0) eqn:E2; bool_to_prop; [by subst|intros E; symmetry in E; by apply dropLeading_not in E
    |by intros E%dropLeading_not|].
  intros E. apply (hexFixed_inj 8); [done..|].
  destruct (dropLeading_zeroText (hexFixed 8 z)) as [n Hn], (dropLeading_zeroText (hexFixed 8 w)) as [m Hm].
  apply (f_equal String.length) in Hn as Ln. apply (f_equal String.length) in Hm as Lm.
  rewrite string_length_app, hexFixed_length, zeroText_length in Ln, Lm. rewrite E in Ln, Hn.
  assert (n = m) as -> by lia. congruence.
Qed.

Definition isByte (b : Z) : Prop := 0 ≤ b < 256.
Lemma hexBytes_length l : String.length (hexBytes l) = (2 * length l)%nat.
Proof. induction l as [|b l IH]; [done|]. cbn [hexBytes]. rewrite string_length_app, hexFixed_length, IH. simpl. lia. Qed.
Lemma hexBytes_inj l : ∀ k, Forall isByte l → Forall isByte k → length l = length k → hexBytes l = hexBytes k → l = k.
Proof.
  induction l as [|b l IH]; intros [|c k] Hl Hk Hlen; try done. injection Hlen as Hlen.
  apply Forall_cons in Hl as [Hb Hl]. apply Forall_cons in Hk as [Hc Hk]. cbn [hexBytes]. intros E.
  apply string_app_inj in E as [E1 E2]; [|by rewrite !hexFixed_length].
  apply (hexFixed_inj 2) in E1; [|done..]. by rewrite E1, (IH k).
Qed.

Lemma readLE_range mem n : (∀ a, isByte (mem a)) → ∀ a, 0 ≤ readLE n mem a < 256 ^ Z.of_nat n.
Proof.
  intros Hm. induction n as [|n IH]; intros a; cbn [readLE]; [simpl; lia|].
  rewrite Nat2Z.inj_succ, Z.pow_succ_r by lia. specialize (IH (a + 1)). specialize (Hm a). unfold isByte in Hm. lia.
Qed.
Lemma readBytes_ok mem n : (∀ a, isByte (mem a)) → ∀ a, Forall isByte (readBytes n mem a) ∧ length (readBytes n mem a) = n.
Proof. intros Hm. induction n as [|n IH]; intros a; simpl; [done|]. destruct (IH (a + 1)) as [? ->]. by split; [constructor|]. Qed.

(** A GUID has 16 bytes; the other fields have 32 bits. *)
Definition identityOk (i : Identity) : Prop :=
  match i with
  | CodeView guid age => Forall isByte guid ∧ length guid = 16%nat ∧ 0 ≤ age < 2 ^ 32
  | Header t s => 0 ≤ t < 2 ^ 32 ∧ 0 ≤ s < 2 ^ 32
  end.

Lemma identityText_inj i j : identityOk i → identityOk j → identityText i = identityText j → i = j.
Proof.
  intros Hi Hj. destruct i as [g a|t s], j as [g' a'|t' s']; cbn [identityOk] in Hi, Hj; cbn [identityText]; intros E.
  - destruct Hi as (Hg & Hl & Ha), Hj as (Hg' & Hl' & Ha').
    apply string_app_inj in E as [E1 E2]; [|rewrite !hexBytes_length; lia].
    apply hexBytes_inj in E1; [|done|done|lia]. apply hexShort_inj in E2; [|done..]. by subst.
  - apply (f_equal String.length) in E. rewrite !string_length_app, hexBytes_length, !hexFixed_length in E. lia.
  - apply (f_equal String.length) in E. rewrite !string_length_app, hexBytes_length, !hexFixed_length in E. lia.
  - apply string_app_inj in E as [E1 E2]; [|by rewrite !hexFixed_length].
    apply (hexFixed_inj 8) in E1; [|tauto..]. apply (hexFixed_inj 8) in E2; [|tauto..]. by subst.
Qed.

Lemma findCodeView_ok mem base n : (∀ a, isByte (mem a)) → ∀ entry i, findCodeView n mem base entry = Some i → identityOk i.
Proof.
  intros Hm. induction n as [|n IH]; intros entry i; [done|]. cbn [findCodeView].
  destruct (_ && _); [|apply IH]. intros [= <-]. simpl.
  destruct (readBytes_ok mem 16 Hm (base + readLE 4 mem (entry + 20) + 4)). split; [done|]. split; [done|].
  apply (readLE_range mem 4 Hm).
Qed.

(** On Windows two images have the same text only if they are the same: the
    same GUID and age of a CodeView record, or, both without one, the same time
    stamp and size.  What the path of an external compiler adds to the text
    does not confuse them. *)
Theorem pe_identity_injective mem mem' base base' h h' :
  (∀ a, isByte (mem a)) → (∀ a, isByte (mem' a)) →
  identityOk (Header (TimeDateStamp h) (SizeOfImage h)) → identityOk (Header (TimeDateStamp h') (SizeOfImage h')) →
  getBinaryID_pe mem base h = getBinaryID_pe mem' base' h' ↔ identity mem base h = identity mem' base' h'.
Proof.
  intros Hm Hm' Hh Hh'. unfold getBinaryID_pe. split; [|by intros ->]. intros E%string_app_inv_tail.
  assert (∀ m b hd, (∀ a, isByte (m a)) → identityOk (Header (TimeDateStamp hd) (SizeOfImage hd)) → identityOk (identity m b hd)) as Hok.
  { intros m b hd Hmem Hhd. unfold identity. destruct (debugVirtualAddress hd =? 0); [done|].
    destruct (findCodeView _ _ _ _) as [i|] eqn:Ei; [|done]. simpl. by eapply findCodeView_ok. }
  apply identityText_inj; auto.
Qed.

End BinaryID.

(** ** Witnesses *)

(** A note of a tracing tool, with an odd size, before the build id. *)
Definition exampleNotes : list Note :=
  [mkNote 1 [71; 79; 0] [1; 2; 3; 4; 5]; mkNote 3 [71; 78; 85; 0] [222; 173; 190; 239]].
Definition memoryOf (a : Z) (bytes : list Z) : Memory := fun k => default 0 (if a <=? k then bytes !! Z.to_nat (k - a) else None).
Definition exampleHeaders : list Phdr := [mkPhdr 6 64 112; mkPhdr 4 4096 (Z.of_nat (length (encodeNotes exampleNotes)))].

Lemma elf_build_id_witness :
  getBinaryID_elf (fun _ => None) (fun _ => []) (memoryOf 1052672 (encodeNotes exampleNotes)) 1048640 exampleHeaders
  = Some "deadbeef".
Proof.
  rewrite (elf_build_id (fun _ => None) (fun _ => []) _ 1048640 exampleHeaders [[]; exampleNotes]); [vm_compute; reflexivity|].
  constructor; [reflexivity|]. constructor; [|constructor].
  split; [by repeat constructor|]. split; [reflexivity|]. intros i b Hi. unfold memoryOf.
  change (elfBase 1048640 exampleHeaders 0 + p_vaddr (mkPhdr 4 4096 (Z.of_nat (length (encodeNotes exampleNotes))))) with 1052672.
  rewrite (proj2 (Z.leb_le _ _)) by lia. replace (Z.to_nat (1052672 + Z.of_nat i - 1052672)) with i by lia. by rewrite Hi.
Defined.

Lemma pe_identity_injective_witness :
  getBinaryID_pe (fun _ => None) (fun _ => []) (fun _ => 0) 0 (mkPEHeaders 0 0 1 23) ≠
  getBinaryID_pe (fun _ => None) (fun _ => []) (fun _ => 0) 0 (mkPEHeaders 0 0 12 3).
Proof.
  rewrite (pe_identity_injective (fun _ => None) (fun _ => []) (fun _ => 0) (fun _ => 0) 0 0 (mkPEHeaders 0 0 1 23) (mkPEHeaders 0 0 12 3));
    [vm_compute; congruence|split; lia|split; lia|simpl; lia|simpl; lia].
Defined.

End BinaryID.
