(* ===== verification/ParserDriver.v ===== *)
(** The driver of the parser, Mojo/lib/MojoTooling/ParserDriver.cpp: which
    module or package a path stands for, and the order in which declarations
    are resolved.  The parser, its shared state and the file system are
    parameters; what the resolver promises is a class. *)
From S2P Require Import Prelude StringRef.

#[local] Open Scope string_scope.
#[local] Open Scope Z_scope.

Module ParserDriver.

#[local] Abbreviation length := List.length (only parsing).

(** ** What a path stands for *)

(** What the driver asks the shared state for. *)
Inductive Request :=
  | CreateModule (name filepath : string)
  | CreatePackage (filepath name : string)
  | CreateBinaryPackage (filepath name : string)
  | ImportFromPackage (filepath name : string) (relativeLevel : Z) (components : list string).

Section Paths.
Context {SR : StringRefOps}.
(** Filesystem::isMojoSourcePackagePath, isMojoBinaryPackagePath, is_directory
    without an error, and whether the source manager can read a file. *)
Variable isMojoSourcePackagePath isMojoBinaryPackagePath is_directory canAddIncludeFile : string → bool.

Definition getNameForSourcePackage (path : string) : string :=
  let name := filename path in
  if String.eqb name "src" then filename (parent_path path) else name.

(** The loop: the names of the packages, the innermost first, and the outermost
    path; [None] when there is no fuel left. *)
Fixpoint collectPackages (fuel : nat) (filepath : string) (packageNames : list string) : option (string * list string) :=
  if isMojoSourcePackagePath (parent_path filepath) then
    match fuel with
    | O => None
    | S fuel =>
        let isDir := is_directory filepath in
        collectPackages fuel (parent_path filepath)
          (packageNames ++ [if isDir then filename filepath else fileStem filepath])%list
    end
  else Some (filepath, packageNames).

(** A path gets shorter with every package, so its length is fuel enough unless
    the walk gets stuck. *)
Definition buildNestedModuleDecl (filepath : string) : option Request :=
  '(filepath, packageNames) ← collectPackages (String.length filepath) filepath [];
  Some (ImportFromPackage filepath (getNameForSourcePackage filepath) 1 (rev packageNames)).

Definition buildModuleDecl (filepath : string) : option Request :=
  if isMojoSourcePackagePath (parent_path filepath) then buildNestedModuleDecl filepath
  else Some (CreateModule (fileStem filepath) filepath).

(** The outer option is a walk that never ends, the inner one a null result. *)
Definition buildPackageDecl (filepath : string) : option (option Request) :=
  if isMojoBinaryPackagePath filepath then Some (Some (CreateBinaryPackage filepath (fileStem filepath)))
  else if negb (isMojoSourcePackagePath filepath) then Some None
  else if isMojoSourcePackagePath (parent_path filepath) then Some <$> buildNestedModuleDecl filepath
  else Some (Some (CreatePackage filepath (getNameForSourcePackage filepath))).

Definition buildModuleOrPackageDecl (path : string) : option (option Request) :=
  if String.eqb (extension path) ".mojo" then
    if negb (canAddIncludeFile path) then Some None else Some <$> buildModuleDecl path
  else buildPackageDecl path.

(** ** The walk up the packages *)

Lemma stem_shorter s : s ≠ "" → (String.length (stem s) < String.length s)%nat.
Proof.
  induction s as [|c s IH]; [done|]. intros _. simpl.
  assert (Hs : (String.length (stem s) ≤ String.length s)%nat) by (destruct s; [simpl; lia|specialize (IH ltac:(done)); lia]).
  destruct (after (Ascii.eqb "/") s) eqn:E.
  - assert (s ≠ "") as Hne by (by intros ->). specialize (IH Hne). simpl. lia.
  - destruct (Ascii.eqb c "/"); simpl; [lia|]. destruct (isEmpty (stem s)) eqn:Ee; simpl; [lia|]. destruct s; [done|].
    specialize (IH ltac:(done)). lia.
Qed.

(** The parent is the path itself, or shorter. *)
Lemma parent_path_shorter p : parent_path p = p ∨ (String.length (parent_path p) < String.length p)%nat.
Proof.
  destruct p as [|c p]; [by left|]. pose proof (stem_shorter (String c p) ltac:(done)) as Hs. unfold parent_path.
  destruct (stem (String c p)) eqn:E; [|right; destruct c as [[] [] [] [] [] [] [] []]; rewrite E; exact Hs].
  destruct (Ascii.eqb_spec c "/") as [->|Hc]; [destruct p; [by left|right; rewrite E; simpl; lia]|].
  right. destruct c as [[] [] [] [] [] [] [] []]; rewrite ?E; simpl; try lia; done.
Qed.

(** The ancestors of a path, and the name of a step of the walk. *)
Definition ancestor (n : nat) (p : string) : string := Nat.iter n parent_path p.
Definition packageName (p : string) : string := if is_directory p then filename p else fileStem p.

Lemma ancestor_S n p : ancestor (S n) p = ancestor n (parent_path p).
Proof. unfold ancestor. induction n as [|n IH]; [done|]. simpl in *. by rewrite IH. Qed.

(** The walk stops at the first ancestor whose parent is not a package. *)
Lemma collectPackages_spec n : ∀ fuel p names, (n ≤ fuel)%nat →
  (∀ k, (k < n)%nat → isMojoSourcePackagePath (parent_path (ancestor k p)) = true) →
  isMojoSourcePackagePath (parent_path (ancestor n p)) = false →
  collectPackages fuel p names = Some (ancestor n p, (names ++ map (fun k => packageName (ancestor k p)) (seq 0 n))%list).
Proof.
  induction n as [|n IH]; intros fuel p names Hf Hk Hn.
  { destruct fuel; simpl; change (ancestor 0 p) with p in *; by rewrite Hn, app_nil_r. }
  destruct fuel as [|fuel]; [lia|]. cbn [collectPackages].
  pose proof (Hk O ltac:(lia)) as H0. change (ancestor 0 p) with p in H0. rewrite H0.
  rewrite IH; [|lia| |by rewrite <- ancestor_S].
  - rewrite ancestor_S, <- app_assoc. do 3 f_equal. cbn [seq map app]. f_equal.
    rewrite <- seq_shift, map_map. apply map_ext. intros k. by rewrite ancestor_S.
  - intros k Hlt. rewrite <- ancestor_S. apply Hk. lia.
Qed.

Lemma ancestor_length n : ∀ p, (∀ k, (k < n)%nat → parent_path (ancestor k p) ≠ ancestor k p) → (n ≤ String.length p)%nat.
Proof.
  induction n as [|n IH]; intros p Hk; [lia|].
  destruct (parent_path_shorter p) as [E|E]; [by destruct (Hk O ltac:(lia))|].
  enough (n ≤ String.length (parent_path p))%nat by lia. apply IH. intros k Hlt. rewrite <- ancestor_S.
  specialize (Hk (S k) ltac:(lia)). by rewrite ancestor_S in Hk |- *.
Qed.

Lemma ancestor_add k n p : ancestor (k + n) p = ancestor k (ancestor n p).
Proof. unfold ancestor. by rewrite Nat.iter_add. Qed.
Lemma ancestor_stuck p k : parent_path p = p → ancestor k p = p.
Proof. intros H. induction k as [|k IH]; [done|]. by rewrite ancestor_S, H. Qed.

(** The walk ends within the length of the path when it ends. *)
Lemma walk_bound n p :
  (∀ k, (k < n)%nat → isMojoSourcePackagePath (parent_path (ancestor k p)) = true) →
  isMojoSourcePackagePath (parent_path (ancestor n p)) = false → (n ≤ String.length p)%nat.
Proof.
  intros Hk Hn. apply ancestor_length. intros k Hlt E. pose proof (Hk k Hlt) as H.
  replace n with ((n - k) + k)%nat in Hn by lia. rewrite ancestor_add, ancestor_stuck in Hn by done. congruence.
Qed.

Lemma walk_endless p : (∀ k, isMojoSourcePackagePath (parent_path (ancestor k p)) = true) →
  ∀ fuel names, collectPackages fuel p names = None.
Proof.
  intros Hk fuel. revert p Hk. induction fuel as [|fuel IH]; intros p Hk names; simpl;
    pose proof (Hk O) as H; change (ancestor 0 p) with p in H; rewrite H; [done|].
  apply IH. intros k. rewrite <- ancestor_S. apply Hk.
Qed.

(** C22: What a source file stands for.  A file whose directory is not a package
    is a module of its own, named after its stem.  Otherwise the walk goes up as
    long as the parent is a package, and the file is imported from the
    outermost one by the names of the steps in between, outermost first: whole
    names of directories and the stem of the file.  The walk ends, within as
    many steps as the path has characters, exactly when some ancestor's parent
    is not a package: if the root is one, it never does. *)
Theorem source_file_module p :
  (∀ n, (∀ k, (k < n)%nat → isMojoSourcePackagePath (parent_path (ancestor k p)) = true) →
        isMojoSourcePackagePath (parent_path (ancestor n p)) = false →
        buildModuleDecl p = Some (match n with
                                  | O => CreateModule (fileStem p) p
                                  | S _ => ImportFromPackage (ancestor n p) (getNameForSourcePackage (ancestor n p)) 1
                                             (rev (map (fun k => packageName (ancestor k p)) (seq 0 n)))
                                  end))
  ∧ ((∀ k, isMojoSourcePackagePath (parent_path (ancestor k p)) = true) →
     ∀ fuel, collectPackages fuel p [] = None).
Proof.
  split; [|intros H fuel; by apply walk_endless]. intros n Hk Hn. pose proof (walk_bound _ _ Hk Hn) as Hlen.
  unfold buildModuleDecl, buildNestedModuleDecl. rewrite (collectPackages_spec n) by done.
  destruct n as [|n]; [by change (ancestor 0 p) with p in *; rewrite Hn|].
  pose proof (Hk O ltac:(lia)) as H0. change (ancestor 0 p) with p in H0. by rewrite H0.
Qed.

End Paths.

(** A file two packages deep, and a file below a root that is a package. *)
Lemma source_file_module_witness :
  let isPackage p := existsb (String.eqb p) ["/w/pkg"; "/w/pkg/sub.x"] in
  buildModuleDecl (SR := llvm_stringref) isPackage (String.eqb "/w/pkg/sub.x") "/w/pkg/sub.x/m.mojo"
  = Some (ImportFromPackage "/w/pkg" "pkg" 1 ["sub.x"; "m"]).
Proof.
  intros isPackage.
  apply (proj1 (source_file_module (SR := llvm_stringref) isPackage (String.eqb "/w/pkg/sub.x") "/w/pkg/sub.x/m.mojo") 2%nat).
  - intros [|[|k]] Hk; [reflexivity|reflexivity|lia].
  - reflexivity.
Defined.

(** ** Resolving declarations *)

(** What the driver uses of the resolver: resolving a body, the scopes it
    fills, the parents of declarations.  Once a body is resolved, the
    declarations it owns are those its text declares. *)
Class DeclResolver (Decl State : Type) := {
  resolveBody : Decl → State → State;
  getDeclsInScope : State → Decl → list (string * list Decl);
  isChildOf : Decl → Decl → bool;
  textDecls : Decl → list Decl;
  resolveBody_children : ∀ d s,
    List.filter (fun c => isChildOf c d) (flat_map snd (getDeclsInScope (resolveBody d s) d)) = textDecls d
}.

Section Resolve.
Context {Decl State : Type} `{DeclResolver Decl State}.

(** The declarations the traversal of a scope adds to the worklist. *)
Definition children (s : State) (d : Decl) : list Decl :=
  List.filter (fun c => isChildOf c d) (flat_map snd (getDeclsInScope s d)).

(** What is done to a declaration, in order. *)
Inductive Action := ResolveBody (d : Decl) | ValidateDocString (d : Decl).

(** The two loops over a deque, which differ in what is done to a declaration
    and in the second passing over some.  The list is the deque from its back
    to its front: the back is taken, children are pushed to the front.  [None]
    when there is no fuel left. *)
Section Traverse.
Variable keep : Decl → bool.
Variable visit : Decl → list Action.

Fixpoint traverse (fuel : nat) (worklist : list Decl) (s : State) : option (list Action * State) :=
  match worklist, fuel with
  | [], _ => Some ([], s)
  | _, O => None
  | d :: worklist, S fuel =>
      if negb (keep d) then traverse fuel worklist s
      else
        let s := resolveBody d s in
        '(actions, s) ← traverse fuel (worklist ++ children s d)%list s; Some ((visit d ++ actions)%list, s)
  end.

(** The reference: all declarations level by level, with nothing below those
    that are passed over. *)
Definition nextLevel (decls : list Decl) : list Decl := flat_map textDecls (List.filter keep decls).
Fixpoint levels (n : nat) (decls : list Decl) : list Decl :=
  match n with O => [] | S n => (decls ++ levels n (nextLevel decls))%list end.
Definition kept (n : nat) (decls : list Decl) : list Decl := List.filter keep (levels n decls).
Definition resolveAll (decls : list Decl) (s : State) : State := fold_left (fun s d => resolveBody d s) decls s.

Lemma children_resolved d s : children (resolveBody d s) d = textDecls d.
Proof. apply resolveBody_children. Qed.

(** One level: its declarations are visited in order, and what they declare is
    behind what was already behind them. *)
Lemma traverse_level decls : ∀ fuel after s,
  traverse (length decls + fuel) (decls ++ after)%list s =
  ('(actions, s') ← traverse fuel (after ++ nextLevel decls)%list (resolveAll (List.filter keep decls) s);
   Some ((flat_map visit (List.filter keep decls) ++ actions)%list, s')).
Proof.
  unfold nextLevel. induction decls as [|d decls IH]; intros fuel after s; cbn [app length Nat.add List.filter].
  { cbn [flat_map]. rewrite app_nil_r. simpl. by destruct (traverse fuel after s) as [[]|]. }
  cbn [traverse]. destruct (keep d); cbn [negb flat_map]; [|apply IH]. cbv zeta.
  rewrite children_resolved, <- app_assoc, IH. simpl resolveAll.
  rewrite <- !app_assoc. fold (resolveAll (List.filter keep decls) (resolveBody d s)).
  destruct (traverse fuel _ _) as [[actions s']|]; simpl; [|done]. by rewrite app_assoc.
Qed.

Lemma traverse_levels n : ∀ decls fuel s, Nat.iter n nextLevel decls = [] → (length (levels n decls) ≤ fuel)%nat →
  traverse fuel decls s = Some (flat_map visit (kept n decls), resolveAll (kept n decls) s).
Proof.
  unfold kept. induction n as [|n IH]; intros decls fuel s Hn Hf; [simpl in Hn; subst decls; by destruct fuel|].
  cbn [levels] in *. rewrite length_app in Hf. replace fuel with (length decls + (fuel - length decls))%nat by lia.
  pose proof (traverse_level decls (fuel - length decls) [] s) as E. rewrite app_nil_r in E. rewrite E.
  cbn [app]. rewrite IH; [|by rewrite Nat.iter_succ_r in Hn|lia].
  rewrite List.filter_app. unfold resolveAll. simpl. by rewrite flat_map_app, fold_left_app.
Qed.
End Traverse.

Definition resolveForLSP (fuel : nat) (decl : Decl) (s : State) : option (list Action * State) :=
  traverse (fun _ => true) (fun d => [ResolveBody d; ValidateDocString d]) fuel [decl] s.

(** Whether a declaration is a package, and the nearest package and the nearest
    file a declaration is in. *)
Variable isPackageOp : Decl → bool.
Variable nearestPackageOp nearestFileModuleOp : Decl → option Decl.
Context `{!EqDecision Decl}.

(** The declarations of the module or package itself. *)
Definition inside (moduleDecl d : Decl) : bool :=
  if isPackageOp moduleDecl then bool_decide (nearestPackageOp d = Some moduleDecl)
  else bool_decide (nearestFileModuleOp d = Some moduleDecl).
Definition resolveIsolated (fuel : nat) (moduleDecl : Decl) (s : State) : option (list Action * State) :=
  traverse (inside moduleDecl) (fun d => [ResolveBody d]) fuel [moduleDecl] s.

(** ** Resolving signatures *)

Variable resolveSignature : Decl → State → State.
Variable getParsedDeclList : State → list Decl.
(** Not parsed yet; and the operation of a declaration. *)
Variable unparsed : State → Decl → bool.
Variable isUnresolvedImport isLoadedFromBytecode isFnOp : Decl → bool.

Inductive SignatureAction := Skipped | Signature | Body.
(** What the loop does with a declaration. *)
Definition signatureAction (s : State) (d : Decl) : SignatureAction :=
  if unparsed s d && isUnresolvedImport d then Skipped
  else if isLoadedFromBytecode d then if isFnOp d then Signature else Body
  else Signature.
Definition runAction (a : SignatureAction) (d : Decl) (s : State) : State :=
  match a with Skipped => s | Signature => resolveSignature d s | Body => resolveBody d s end.

Fixpoint resolveSignaturesFrom (fuel i : nat) (s : State) : option (list (Decl * SignatureAction) * State) :=
  match getParsedDeclList s !! i, fuel with
  | None, _ => Some ([], s)
  | _, O => None
  | Some parsedDecl, S fuel =>
      let a := signatureAction s parsedDecl in
      '(done, s) ← resolveSignaturesFrom fuel (S i) (runAction a parsedDecl s); Some ((parsedDecl, a) :: done, s)
  end.
Definition resolveSignaturesForLSP (fuel : nat) (s : State) : option (list (Decl * SignatureAction) * State) :=
  resolveSignaturesFrom fuel 0 s.

(** ** The entry points *)

Section EntryPoints.
Context {SR : StringRefOps}.
Variable isMojoSourcePackagePath isMojoBinaryPackagePath is_directory canAddIncludeFile : string → bool.
(** The name of a loaded file, the declaration the shared state makes for a
    request (always one: it returns references), and the resolution of a
    declaration with all it refers to. *)
Variable bufferIdentifier : Z → string.
Variable declFor : Request → State → Decl * State.
Variable resolveAllReferencedFrom : Decl → bool → State → State.

#[local] Abbreviation moduleRequest := (buildModuleDecl isMojoSourcePackagePath is_directory) (only parsing).
#[local] Abbreviation anyRequest :=
  (buildModuleOrPackageDecl isMojoSourcePackagePath isMojoBinaryPackagePath is_directory canAddIncludeFile) (only parsing).

(** In all of them the outer [None] is a walk up the packages that never ends,
    or too little fuel; the inner one a null result. *)
Definition parseFile (fileId : Z) (eraseUnparsedDecls : bool) (s : State) : option (Decl * State) :=
  request ← moduleRequest (bufferIdentifier fileId);
  let '(moduleDecl, s) := declFor request s in
  Some (moduleDecl, resolveAllReferencedFrom moduleDecl eraseUnparsedDecls s).

Definition parseFileForLSP (fuel : nat) (fileId : Z) (s : State)
    : option (Decl * list Action * list (Decl * SignatureAction) * State) :=
  request ← moduleRequest (bufferIdentifier fileId);
  let '(moduleDecl, s) := declFor request s in
  '(actions, s) ← resolveForLSP fuel moduleDecl s;
  '(signatures, s) ← resolveSignaturesForLSP fuel s;
  Some (moduleDecl, actions, signatures, s).

(** What a declaration that may be null goes on with. *)
Definition withDecl {A} (path : string) (null : A) (k : Decl → State → option (A * State)) (s : State) : option (A * State) :=
  request ← anyRequest path;
  match request with
  | None => Some (null, s)
  | Some request => let '(moduleDecl, s) := declFor request s in k moduleDecl s
  end.

(** The default of the last argument of [resolveAllReferencedFrom] is the
    resolver's. *)
Variable eraseByDefault : bool.
Definition parseFileOrPackage (path : string) : State → option (option Decl * State) :=
  withDecl path None (fun d s => Some (Some d, resolveAllReferencedFrom d eraseByDefault s)).
Definition parseFileOrPackageNonRecursive (path : string) : State → option (option Decl * State) :=
  withDecl path None (fun d s => Some (Some d, resolveBody d s)).
Definition parsePackage (path : string) (s : State) : option (option Decl * State) :=
  if negb (isMojoSourcePackagePath path || isMojoBinaryPackagePath path) then Some (None, s)
  else parseFileOrPackage path s.
Definition parseIsolatedFileOrPackage (fuel : nat) (path : string) : State → option (option (Decl * list Action) * State) :=
  withDecl path None (fun d s => '(actions, s) ← resolveIsolated fuel d s; Some (Some (d, actions), s)).

(** ** Properties *)

(** C21: Declarations are resolved breadth first.  When the declarations below
    one are finitely many levels deep, resolving for the language server ends,
    and it resolves, and validates the doc string of, exactly the declarations
    of the levels in their order, each before what it declares; resolving a
    file or package in isolation does the same with the declarations of other
    files and packages, and all that is below them, left out. *)
Theorem declarations_level_order n path request d s s1 :
  anyRequest path = Some (Some request) → declFor request s = (d, s1) →
  (Nat.iter n (nextLevel (fun _ => true)) [d] = [] →
   ∀ fuel, (length (levels (fun _ => true) n [d]) ≤ fuel)%nat →
   resolveForLSP fuel d s1
   = Some (flat_map (fun d => [ResolveBody d; ValidateDocString d]) (levels (fun _ => true) n [d]),
           resolveAll (levels (fun _ => true) n [d]) s1))
  ∧ (Nat.iter n (nextLevel (inside d)) [d] = [] →
     ∀ fuel, (length (levels (inside d) n [d]) ≤ fuel)%nat →
     parseIsolatedFileOrPackage fuel path s
     = Some (Some (d, map ResolveBody (kept (inside d) n [d])), resolveAll (kept (inside d) n [d]) s1)).
Proof.
  intros Hp Hd. split; intros Hn fuel Hf.
  - unfold resolveForLSP. rewrite (traverse_levels _ _ n) by done. unfold kept.
    assert (∀ l : list Decl, List.filter (fun _ => true) l = l) as -> by (induction l as [|x l IH]; simpl; congruence). done.
  - unfold parseIsolatedFileOrPackage, withDecl. rewrite Hp. simpl. rewrite Hd. unfold resolveIsolated.
    rewrite (traverse_levels _ _ n) by done. simpl. do 3 f_equal.
Qed.
End EntryPoints.

(** The loop over a list that grows while it runs. *)
Lemma resolveSignaturesFrom_spec (grows : State → State → Prop) :
  (∀ s d, grows s (resolveSignature d s)) → (∀ s d, grows s (resolveBody d s)) →
  (∀ s s', grows s s' → ∃ new, getParsedDeclList s' = (getParsedDeclList s ++ new)%list) →
  ∀ fuel i s acts s', resolveSignaturesFrom fuel i s = Some (acts, s') →
  map fst acts = drop i (getParsedDeclList s')
  ∧ ∃ new, getParsedDeclList s' = (getParsedDeclList s ++ new)%list.
Proof.
  intros Hs Hb Hg fuel. induction fuel as [|fuel IH]; intros i s acts s'; simpl;
    (destruct (getParsedDeclList s !! i) as [d|] eqn:Ed;
      [|intros [= <- <-]; split; [by rewrite drop_ge by (by apply lookup_ge_None)|exists []; by rewrite app_nil_r]]); [done|].
  set (a := signatureAction s d).
  assert (∃ new, getParsedDeclList (runAction a d s) = (getParsedDeclList s ++ new)%list) as [new Hnew].
  { destruct a; simpl; [exists []; by rewrite app_nil_r|apply Hg, Hs|apply Hg, Hb]. }
  destruct (resolveSignaturesFrom fuel (S i) (runAction a d s)) as [[acts' s1]|] eqn:E; [|done]. simpl. intros [= <- <-].
  destruct (IH _ _ _ _ E) as [Hm [new' Hn']]. split.
  - simpl. rewrite Hm. symmetry. apply drop_S. rewrite Hn', Hnew. by do 2 apply lookup_app_l_Some.
  - exists (new ++ new')%list. by rewrite Hn', Hnew, app_assoc.
Qed.

(** Resolving signatures reaches every declaration once: when resolving
    only adds declarations to the end of the parsed ones, and there are never
    more than some number of them, the loop ends and has dealt with exactly the
    declarations there are in the end, in their order, those included that
    were added while it ran. *)
Theorem signatures_each_once (bound : nat) s :
  (∀ s d, ∃ new, getParsedDeclList (resolveSignature d s) = (getParsedDeclList s ++ new)%list) →
  (∀ s d, ∃ new, getParsedDeclList (resolveBody d s) = (getParsedDeclList s ++ new)%list) →
  (∀ s, (length (getParsedDeclList s) ≤ bound)%nat) →
  ∃ acts s', resolveSignaturesForLSP bound s = Some (acts, s') ∧ map fst acts = getParsedDeclList s'.
Proof.
  intros Hs Hb Hbound.
  assert (Hend : ∀ fuel i s, (bound ≤ fuel + i)%nat → is_Some (resolveSignaturesFrom fuel i s)).
  { induction fuel as [|fuel IH]; intros i t Hf; simpl; destruct (getParsedDeclList t !! i) as [d|] eqn:Ed; try by eexists.
    - apply lookup_lt_Some in Ed. specialize (Hbound t). lia.
    - destruct (IH (S i) (runAction (signatureAction t d) d t) ltac:(lia)) as [[acts s'] ->]. by eexists. }
  destruct (Hend bound 0%nat s ltac:(lia)) as [[acts s'] E]. exists acts, s'. split; [exact E|].
  destruct (resolveSignaturesFrom_spec (fun s s' => ∃ new, getParsedDeclList s' = (getParsedDeclList s ++ new)%list) Hs Hb
    (fun _ _ H => H) _ _ _ _ _ E) as [Hm _]. by rewrite drop_0 in Hm.
Qed.

End Resolve.

(** ** Witnesses *)

(** A module 0 that declares 1 and 2, a package file 3 below 1 with 5 in it,
    and 4 below 2; the state is the list of the declarations parsed so far. *)
Definition exampleText (d : nat) : list nat :=
  match d with 0 => [1; 2] | 1 => [3] | 2 => [4] | 3 => [5] | _ => [] end%nat.
Definition exampleResolver : DeclResolver nat (list nat) := {|
  resolveBody := fun d s => if bool_decide (length s < 6)%nat then (s ++ take (6 - length s) (exampleText d))%list else s;
  getDeclsInScope := fun _ d => [("own", exampleText d); ("imported", [])];
  isChildOf := fun _ _ => true;
  textDecls := exampleText;
  resolveBody_children := fun d s => ltac:(do 6 (destruct d as [|d]; [reflexivity|]); reflexivity)
|}.

Lemma declarations_level_order_witness :
  parseIsolatedFileOrPackage (H := exampleResolver) (fun _ => false) (fun _ => None) (fun d => if (d =? 3)%nat then Some 3%nat else Some 0%nat)
    (SR := llvm_stringref) (fun _ => false) (fun _ => false) (fun _ => false) (fun _ => true) (fun _ s => (0%nat, s)) 10 "/w/m.mojo" []
  = Some (Some (0%nat, map ResolveBody [0; 1; 2; 4]%nat), [1; 2; 3; 4]%nat).
Proof.
  refine (eq_trans (proj2 (declarations_level_order (H := exampleResolver) (fun _ => false) (fun _ => None)
    (fun d => if (d =? 3)%nat then Some 3%nat else Some 0%nat) (SR := llvm_stringref) (fun _ => false) (fun _ => false) (fun _ => false)
    (fun _ => true) (fun _ s => (0%nat, s)) 4 "/w/m.mojo" (CreateModule "m" "/w/m.mojo") 0%nat [] [] _ _) _ 10%nat _) _).
  - reflexivity.
  - reflexivity.
  - vm_compute. reflexivity.
  - vm_compute. lia.
  - vm_compute. reflexivity.
Defined.

Lemma signatures_each_once_witness :
  ∃ acts s', resolveSignaturesForLSP (H := exampleResolver) (fun _ s => s) (fun s => take 6 s) (fun _ _ => false) (fun _ => false)
    (fun _ => true) (fun _ => false) 6 [0%nat] = Some (acts, s') ∧ map fst acts = take 6 s'.
Proof.
  apply (signatures_each_once (H := exampleResolver) (fun _ s => s) (fun s => take 6 s) (fun _ _ => false) (fun _ => false)
    (fun _ => true) (fun _ => false) 6).
  - intros s d. exists []. by rewrite app_nil_r.
  - intros s d. cbn [resolveBody exampleResolver]. destruct (bool_decide_reflect (length s < 6)%nat); [|exists []; by rewrite app_nil_r].
    exists (take (6 - length s) (take (6 - length s) (exampleText d))). by rewrite take_app, (take_ge s) by lia.
  - intros s. rewrite length_take. lia.
Defined.

End ParserDriver.
