(* ===== verification/CallOperands.v ===== *)
(** The operands of a call, Mojo/include/Mojo/MojoParser/CallOperands.h: the
    list the parser builds and the questions asked of it.  Values, the names of
    keywords and the styles of unpacking are parameters. *)
From S2P Require Import Prelude.

#[local] Open Scope Z_scope.

Module CallOperands.

#[local] Abbreviation length := List.length (only parsing).

Section CallOperands.
(** ASTExprAnd<AnyValue>, StringAttr that are not null, and ArgUnpackStyle with
    two of its values. *)
Context {Value_ Keyword Style : Type} `{EqDecision Keyword} `{EqDecision Style}.
Variable kPositional kKeyword : Style.

Record OperandValue := mkOperandValue { keyword : option Keyword; value : Value_; unpackStyle : Style }.

(** The constructor with its assertion. *)
Definition makeOperand (keyword : option Keyword) (value : Value_) (unpackStyle : Style) : option OperandValue :=
  if bool_decide (is_Some keyword ↔ unpackStyle = kKeyword) then Some (mkOperandValue keyword value unpackStyle) else None.

Record CallOperands := mkCallOperands { values : list OperandValue; hasSelfOperand : bool }.
Definition emptyOperands : CallOperands := mkCallOperands [] false.

(** The manipulators; [None] is a failed assertion. *)
Definition addPositional (v : Value_) (style : Style) (c : CallOperands) : option CallOperands :=
  o ← makeOperand None v style; Some (mkCallOperands (values c ++ [o]) (hasSelfOperand c)).
Definition addKeyword (name : Keyword) (v : Value_) (style : Style) (c : CallOperands) : option CallOperands :=
  o ← makeOperand (Some name) v style; Some (mkCallOperands (values c ++ [o]) (hasSelfOperand c)).
Definition addSelf (v : Value_) (c : CallOperands) : option CallOperands :=
  if hasSelfOperand c then None
  else o ← makeOperand None v kPositional; Some (mkCallOperands (o :: values c) true).

(** The constructor with positional operands. *)
Fixpoint addAll (operands : list Value_) (c : CallOperands) : option CallOperands :=
  match operands with
  | [] => Some c
  | v :: operands => c ← addPositional v kPositional c; addAll operands c
  end.
Definition makeCall (posOperands : list Value_) : option CallOperands := addAll posOperands emptyOperands.

(** The questions. *)
Definition findKwArg (name : Keyword) (c : CallOperands) : option OperandValue :=
  List.find (fun o => bool_decide (keyword o = Some name)) (values c).
Fixpoint countPositional (l : list OperandValue) (result : Z) : Z :=
  match l with
  | [] => result
  | o :: l => countPositional l (match keyword o with None => result + 1 | Some _ => result end)
  end.
Definition getNumPositional (c : CallOperands) : Z := countPositional (values c) 0.
Definition getNumKwOperands (c : CallOperands) : Z := Z.of_nat (length (values c)) - getNumPositional c.

(** ** Properties *)

(** The operations on a list of operands, and what they lead to. *)
Inductive Step : CallOperands → CallOperands → Prop :=
  | StepPositional v style c c' : addPositional v style c = Some c' → Step c c'
  | StepKeyword name v style c c' : addKeyword name v style c = Some c' → Step c c'
  | StepSelf v c c' : addSelf v c = Some c' → Step c c'.
Inductive Reachable : CallOperands → Prop :=
  | ReachableStart operands c : makeCall operands = Some c → Reachable c
  | ReachableStep c c' : Reachable c → Step c c' → Reachable c'.

(** Keywords are present exactly on keyword operands, and a call with a self
    operand has it first. *)
Definition Ok (c : CallOperands) : Prop :=
  Forall (fun o => is_Some (keyword o) ↔ unpackStyle o = kKeyword) (values c)
  ∧ (hasSelfOperand c = true → ∃ o rest, values c = o :: rest ∧ keyword o = None).

Lemma makeOperand_ok k v style o : makeOperand k v style = Some o →
  o = mkOperandValue k v style ∧ (is_Some (keyword o) ↔ unpackStyle o = kKeyword).
Proof. unfold makeOperand. destruct (bool_decide_reflect (is_Some k ↔ style = kKeyword)); [|done]. by intros [= <-]. Qed.

Lemma append_ok c o : Ok c → (is_Some (keyword o) ↔ unpackStyle o = kKeyword) → Ok (mkCallOperands (values c ++ [o]) (hasSelfOperand c)).
Proof.
  intros [Hf Hs] Ho. split; simpl; [apply Forall_app; split; [done|constructor; [done|constructor]]|].
  intros H. destruct (Hs H) as (x & rest & -> & Hx). by exists x, (rest ++ [o]).
Qed.

Lemma Step_ok c c' : Ok c → Step c c' → Ok c'.
Proof.
  intros Hok Hs. revert Hok. destruct Hs as [v style c0 c0' H|name v style c0 c0' H|v c0 c0' H]; intros Hok; revert H.
  - unfold addPositional. destruct (makeOperand None v style) as [o|] eqn:E; [|done]. intros [= <-].
    apply append_ok; [done|]. by apply makeOperand_ok in E as [_ ?].
  - unfold addKeyword. destruct (makeOperand (Some name) v style) as [o|] eqn:E; [|done]. intros [= <-].
    apply append_ok; [done|]. by apply makeOperand_ok in E as [_ ?].
  - unfold addSelf. destruct (hasSelfOperand c0); [done|]. destruct (makeOperand None v kPositional) as [o|] eqn:E; [|done].
    intros [= <-]. apply makeOperand_ok in E as [-> Ho]. destruct Hok as [Hf _].
    split; simpl; [by constructor|]. intros _. by eexists _, _.
Qed.

Lemma addAll_ok operands : ∀ c c', Ok c → addAll operands c = Some c' → Ok c'.
Proof.
  induction operands as [|v operands IH]; intros c c' Hok; simpl; [by intros [= <-]|].
  destruct (addPositional v kPositional c) as [c1|] eqn:E; [|done]. simpl. apply IH.
  eapply Step_ok; [done|]. by eapply StepPositional.
Qed.

Lemma Reachable_ok c : Reachable c → Ok c.
Proof.
  induction 1 as [operands c H|c c' _ IH Hs]; [|by eapply Step_ok].
  eapply addAll_ok; [|exact H]. split; [constructor|done].
Qed.

Lemma countPositional_spec l : ∀ n,
  countPositional l n = n + Z.of_nat (length (List.filter (fun o => negb (bool_decide (is_Some (keyword o)))) l)).
Proof.
  induction l as [|o l IH]; intros n; simpl; [lia|]. rewrite IH. destruct (keyword o); simpl; lia.
Qed.

(** The operands of a call, however they are put together: an operand has
    a keyword exactly when it is a keyword argument, the self operand is the
    first and there is one at most, the positional and the keyword operands
    add up to all of them, and a keyword is found exactly when an operand
    carries it, the first one that does. *)
Theorem call_operands_invariant c : Reachable c →
  Forall (fun o => is_Some (keyword o) ↔ unpackStyle o = kKeyword) (values c)
  ∧ (hasSelfOperand c = true → (∃ o rest, values c = o :: rest ∧ keyword o = None) ∧ ∀ v, addSelf v c = None)
  ∧ getNumPositional c = Z.of_nat (length (List.filter (fun o => negb (bool_decide (is_Some (keyword o)))) (values c)))
  ∧ getNumKwOperands c = Z.of_nat (length (List.filter (fun o => bool_decide (unpackStyle o = kKeyword)) (values c)))
  ∧ ∀ name, (findKwArg name c = None ↔ Some name ∉ map keyword (values c))
            ∧ ∀ o, findKwArg name c = Some o → keyword o = Some name ∧ o ∈ values c.
Proof.
  intros Hr. destruct (Reachable_ok c Hr) as [Hf Hs]. split; [done|]. split; [|split; [|split]].
  - intros H. split; [by apply Hs|]. intros v. unfold addSelf. by rewrite H.
  - unfold getNumPositional. rewrite countPositional_spec. lia.
  - unfold getNumKwOperands, getNumPositional. rewrite countPositional_spec.
    clear Hr Hs. induction Hf as [|o l Ho _ IH]; [done|]. cbn [List.filter length].
    assert (bool_decide (is_Some (keyword o)) = bool_decide (unpackStyle o = kKeyword)) as -> by (by apply bool_decide_ext).
    destruct (bool_decide (unpackStyle o = kKeyword)); cbn [negb length]; lia.
  - intros name. unfold findKwArg. split.
    + split.
      * intros Hn Hin. apply list_elem_of_In, in_map_iff in Hin as (o & Hk & Hin).
        apply (List.find_none _ _ Hn) in Hin. by rewrite bool_decide_eq_true_2 in Hin.
      * intros Hn. destruct (List.find _ _) as [o|] eqn:E; [|done]. apply List.find_some in E as [Hin Hk].
        apply bool_decide_eq_true in Hk. destruct Hn. rewrite <- Hk. apply list_elem_of_In. by apply in_map.
    + intros o E. apply List.find_some in E as [Hin Hk]. apply bool_decide_eq_true in Hk. by rewrite list_elem_of_In.
Qed.

End CallOperands.

(** A method call with one positional and one keyword argument. *)
Definition exampleCall : option (CallOperands (Value_ := string) (Keyword := string) (Style := bool)) :=
  c ← makeCall false true ["x"%string]; c ← addKeyword true "key"%string "y"%string true c; addSelf false true "self"%string c.

Lemma call_operands_invariant_witness :
  ∃ c, exampleCall = Some c ∧ getNumPositional c = 2 ∧ getNumKwOperands c = 1 ∧ ∀ v, addSelf false true v c = None.
Proof.
  eexists. split; [vm_compute; reflexivity|]. split; [reflexivity|]. split; [reflexivity|].
  eapply (call_operands_invariant false true); [|reflexivity].
  eapply ReachableStep; [eapply ReachableStep; [by eapply (ReachableStart _ _ ["x"%string])|]|].
  - by eapply (StepKeyword _ _ "key"%string "y"%string true).
  - by eapply (StepSelf _ _ "self"%string).
Defined.

End CallOperands.
