(* ===== verification/Precompile.v ===== *)
(** [mojo precompile] of Mojo/tools/mojo/Precompile/mojo-precompile.cpp around
    [buildPackage] (PackageRename.v): its arguments, the names of a package, and
    the output file. *)
From S2P Require Import Prelude StringRef Configuration LinkOutput LinkProps PackageClone PackageRename.

#[local] Open Scope string_scope.
#[local] Open Scope Z_scope.

Module Precompile.
Import LinkOutput LinkProps PackageClone PackageRename.

#[local] Abbreviation length := List.length (only parsing).

(** The command line, as far as it is looked at here: the inputs, the last
    value of -o, the bitcode libraries, and the help flags. *)
Record Command := mkCommand {
  inputs : list string; o : option string; bitcode_libs : list string; help : bool; help_hidden : bool
}.
(** [PrecompileArgs]: the names and libraries of [buildPackage], the paths, and
    the options this subcommand fixes. *)
Inductive DebugLevel := kFullDebugInfo | OtherDebugLevel.
Record Parsed := mkParsed {
  names : PrecompileArgs; inputPath : string; outputPath : string;
  debugLevel : DebugLevel; optimizationLevel : Z
}.

(** [path::extension], with [fileStem] of LinkOutput.v. *)
Definition extension `{StringRefOps} (p : string) : string := string_drop (String.length (fileStem p)) (filename p).

Section Precompile.
Context {SR : StringRefOps} {AR : AttrTypeReplacer}.
(** The file system. *)
Variable isMojoSourcePackagePath : string → bool.
Variable weakly_canonical : string → ErrorOr string.
Variables exists_ is_directory : string → ErrorOr bool.
Variable parseCompilationOptions : ErrorOr unit.

Definition isExistingDirectory (path : string) : ErrorOr bool :=
  match exists_ path with
  | Error msg => Error ("could not determine if output path '" ++ path ++ "' exists: " ++ msg)
  | Success false => Success false
  | Success true =>
      match is_directory path with
      | Error msg => Error ("could not determine if output path '" ++ path ++ "' is a directory: " ++ msg)
      | Success b => Success b
      end
  end.

(** The output path and the package's name, for a directory of that name. *)
Definition outputNames (inputDirName : string) (o : option string) : ErrorOr (string * string) :=
  match o with
  | None => Success (inputDirName ++ ".mojoc", inputDirName)
  | Some outputPath =>
      if String.eqb outputPath "-" then Success (outputPath, inputDirName) else
      isDirectory ← isExistingDirectory outputPath;
      let outputPath := if isDirectory : bool then path_div outputPath (inputDirName ++ ".mojoc") else outputPath in
      if negb (String.eqb (extension outputPath) ".mojoc")
      then Error "output path must have a '.mojoc' extension"
      else Success (outputPath, fileStem outputPath)
  end.

Definition parsePrecompileArgs (c : Command) : ErrorOr Parsed :=
  match inputs c with
  | [] => Error "no input directory provided"
  | _ :: _ :: _ => Error "too many inputs, expected exactly one"
  | [inputPath] =>
      if negb (isMojoSourcePackagePath inputPath)
      then Error ("'" ++ inputPath ++ "' does not correspond to a Mojo package")
      else match weakly_canonical inputPath with
           | Error msg => Error ("cannot canonicalize input path '" ++ inputPath ++ "': " ++ msg)
           | Success canonicalInput =>
               let inputDirName := filename canonicalInput in
               '(outputPath, name) ← outputNames inputDirName (o c);
               _ ← parseCompilationOptions;
               Success (mkParsed (mkArgs name inputDirName []) inputPath outputPath kFullDebugInfo 0)
           end
  end.

(** ** precompile *)

(** The driver's state: help, the diagnostic format and unknown arguments,
    which are exit codes other than 0 to stop with; reportError. *)
Variable printHelp : bool → Z.
Variables parseDiagnosticFormatArguments rejectUnknownArguments : Z.
Variable failure : Z.
Variable createContext : ErrorOr unit.
Variable openOutput : string → option string.
(** The parser, by path and package name: the module and where its package is,
    or no module after applying fixes. *)
Variable invokeMojoParser : string → string → ErrorOr (option (list Op * nat)).
Variable getFile : string → option string.
Variable hashHex : string → string.
Variable runCheckLITPipeline : list Op → bool.
Variable writePrecompiledFile : list Op → option string.
Variable wasErrorEmitted : bool.

(** The output file is removed when it goes out of scope before [keep]; an
    assertion ends the process, with the same effect. *)
Definition untilKept {A} (path : string) (body : Build A) : Build A := fun w =>
  match body w with
  | (inr code, w) =>
      (inr code, if String.eqb path "-" then w else mkWorld (config w) (log w ++ [DiscardOutput path])%list)
  | r => r
  end.

Definition withBitcode (c : Command) (args : PrecompileArgs) : PrecompileArgs :=
  mkArgs (name args) (sourceName_ args) (bitcode_libs c).

Definition writePackage (c : Command) (p : Parsed) : Build unit :=
  let args := withBitcode c (names p) in
  theModule ← orReport failure (invokeMojoParser (inputPath p) (sourceName_ args)) id;
  match theModule with
  | None => exit 0
  | Some (theModule, packageOp) =>
      match buildPackage getFile hashHex runCheckLITPipeline args theModule packageOp with
      | None => exit 134
      | Some built =>
          builtPackageModule ← orReport failure built id;
          match writePrecompiledFile builtPackageModule with
          | None => report failure "failed to write package bytecode to a file"
          | Some bytecode => emit (WriteOutput (outputPath p) bytecode)
          end
      end
  end.

Definition precompile (c : Command) : Build Z :=
  if help c then exit (printHelp false)
  else if help_hidden c then exit (printHelp true)
  else if negb (parseDiagnosticFormatArguments =? 0) then exit parseDiagnosticFormatArguments
  else if negb (rejectUnknownArguments =? 0) then exit rejectUnknownArguments
  else
    p ← orReport failure (parsePrecompileArgs c) id;
    _ ← orReport failure createContext id;
    match openOutput (outputPath p) with
    | Some outputError => report failure outputError
    | None =>
        _ ← emit (OpenOutput (outputPath p));
        _ ← untilKept (outputPath p) (writePackage c p);
        mret (if wasErrorEmitted then 1 else 0)
    end.

(** ** Properties *)

Local Ltac steps := unfold orReport, mbind, Build_bind, mret, Build_ret; simpl.

Abbreviation noSlash := (string_forall (fun c => negb (Ascii.eqb "/" c))).

Lemma after_noSlash s : after (Ascii.eqb "/") s = None ↔ noSlash s = true.
Proof.
  induction s as [|c s IH]; [done|]. cbn [after string_forall]. destruct (Ascii.eqb "/" c); [done|exact IH].
Qed.

Lemma filename_noSlash p : noSlash (filename p) = true.
Proof.
  induction p as [|c p IH]; [done|]. unfold filename; fold filename.
  destruct (after (Ascii.eqb "/") (String c p)) eqn:Ea; [exact IH|by apply after_noSlash].
Qed.

Lemma noSlash_filename s : noSlash s = true → filename s = s.
Proof. intros H. apply after_noSlash in H. destruct s; [done|]. unfold filename; fold filename. by rewrite H. Qed.

Lemma take_drop_string n s : string_take n s ++ string_drop (String.length (string_take n s)) s = s.
Proof. revert n. induction s as [|c s IH]; intros [|n]; simpl; [done..|]. by rewrite IH. Qed.

Lemma stem_extension p : fileStem p ++ extension p = filename p.
Proof.
  unfold extension, fileStem. case_match; [by rewrite string_drop_length, string_app_nil|].
  destruct (rfind (filename p) ".") as [[|n]|]; [by rewrite string_drop_length, string_app_nil| |
    by rewrite string_drop_length, string_app_nil].
  rewrite take_front_spec. apply take_drop_string.
Qed.

Lemma outputNames_spec dir o path name : noSlash dir = true → outputNames dir o = Success (path, name) →
  (path = "-" ∧ o = Some "-" ∧ name = dir) ∨ filename path = name ++ ".mojoc".
Proof.
  intros Hd. unfold outputNames. intros H.
  assert (Hcase : ∀ q, (isDirectory ← isExistingDirectory q;
      let outputPath := if isDirectory : bool then path_div q (dir ++ ".mojoc") else q in
      if negb (String.eqb (extension outputPath) ".mojoc")
      then Error "output path must have a '.mojoc' extension"
      else Success (outputPath, fileStem outputPath)) = Success (path, name) → filename path = name ++ ".mojoc").
  { intros q Hq. destruct (isExistingDirectory q) as [b|]; [|done]. cbn [mbind ErrorOr_bind] in Hq. cbn zeta in Hq.
    destruct (negb _) eqn:E; [done|]. injection Hq as <- <-. apply negb_false_iff, String.eqb_eq in E.
    by rewrite <- stem_extension, E. }
  destruct o as [q|].
  - destruct (String.eqb_spec q "-") as [->|Hq]; [left; by injection H as <- <-|]. right. by apply (Hcase q).
  - right. injection H as <- <-. apply noSlash_filename. rewrite string_forall_app, Hd. done.
Qed.

(** Arguments that are accepted name one package directory, and the names
    agree: the package parses under the name of its directory, and a file is
    written whose name is the package's name with the extension .mojoc, wherever
    -o says; only on standard output is the package called like its directory
    whatever is written there.  The compilation options are the conservative
    ones. *)
Theorem precompile_names c p :
  parsePrecompileArgs c = Success p →
  (∃ canonical, inputs c = [inputPath p] ∧ isMojoSourcePackagePath (inputPath p) = true
     ∧ weakly_canonical (inputPath p) = Success canonical ∧ sourceName_ (names p) = filename canonical)
  ∧ (filename (outputPath p) = name (names p) ++ ".mojoc"
     ∨ o c = Some "-" ∧ outputPath p = "-" ∧ name (names p) = sourceName_ (names p))
  ∧ (o c = None → outputPath p = sourceName_ (names p) ++ ".mojoc" ∧ name (names p) = sourceName_ (names p))
  ∧ debugLevel p = kFullDebugInfo ∧ optimizationLevel p = 0.
Proof using SR isMojoSourcePackagePath weakly_canonical exists_ is_directory parseCompilationOptions.
  unfold parsePrecompileArgs. destruct (inputs c) as [|i [|]] eqn:Ei; [done| |done].
  destruct (isMojoSourcePackagePath i) eqn:Ep; [|done]. simpl. destruct (weakly_canonical i) as [canonical|] eqn:Ec; [|done].
  destruct (outputNames (filename canonical) (o c)) as [[path name]|] eqn:Eo; [|done]. simpl.
  destruct parseCompilationOptions; [|done]. simpl. intros [= <-]. simpl.
  split; [by exists canonical|]. split; [|split; [|by split]].
  - apply outputNames_spec in Eo; [|apply filename_noSlash].
    destruct Eo as [(H1 & H2 & H3)|H]; [right|left; exact H]. split; [exact H2|]. by split.
  - intros Ho. rewrite Ho in Eo. by injection Eo as <- <-.
Qed.

(** What running the subcommand adds to the log, once the arguments are
    accepted and the output file is open. *)
Definition removed (path : string) : list Event := if String.eqb path "-" then [] else [DiscardOutput path].
Definition outcome (c : Command) (p : Parsed) (code : Z) (new : list Event) : Prop :=
  (∃ msg, code = failure ∧ new = ([OpenOutput (outputPath p); ReportError msg] ++ removed (outputPath p))%list)
  ∨ (invokeMojoParser (inputPath p) (sourceName_ (names p)) = Success None
     ∧ code = 0 ∧ new = (OpenOutput (outputPath p) :: removed (outputPath p))%list)
  ∨ ∃ theModule packageOp built bytecode,
      invokeMojoParser (inputPath p) (sourceName_ (names p)) = Success (Some (theModule, packageOp))
      ∧ buildPackage getFile hashHex runCheckLITPipeline (withBitcode c (names p)) theModule packageOp = Some (Success built)
      ∧ writePrecompiledFile built = Some bytecode
      ∧ code = (if wasErrorEmitted then 1 else 0)
      ∧ new = [OpenOutput (outputPath p); WriteOutput (outputPath p) bytecode].

(** C37: With accepted arguments and an output file that opens, the subcommand
    ends in one of three ways: an error is reported and the file removed; the
    bytecode of the built package is in it; or, where the parser only applied
    fixes, it exits with 0 and has removed the file, also one that an earlier
    run left there.  A promoted warning makes the exit code 1 but leaves the
    package. *)
Theorem precompile_outcome c p w :
  help c = false → help_hidden c = false → parseDiagnosticFormatArguments = 0 → rejectUnknownArguments = 0 →
  parsePrecompileArgs c = Success p → createContext = Success tt → openOutput (outputPath p) = None →
  (∀ theModule packageOp, invokeMojoParser (inputPath p) (sourceName_ (names p)) = Success (Some (theModule, packageOp)) →
     buildPackage getFile hashHex runCheckLITPipeline (withBitcode c (names p)) theModule packageOp ≠ None) →
  ∃ code new, match fst (precompile c w) with inl r | inr r => r = code end
    ∧ log (snd (precompile c w)) = (log w ++ new)%list ∧ outcome c p code new.
Proof.
  intros Hh Hhh Hd Hu Hp Hc Ho Hasm. set (w1 := mkWorld (config w) (log w ++ [OpenOutput (outputPath p)])%list).
  assert (Hpre : precompile c w
    = (_ ← untilKept (outputPath p) (writePackage c p); mret (if wasErrorEmitted then 1 else 0)) w1).
  { unfold precompile. rewrite Hh, Hhh, Hd, Hu, Hp, Hc. unfold orReport, mbind, Build_bind, mret, Build_ret. simpl.
    by rewrite Ho. }
  rewrite Hpre. clear Hpre.
  assert (Hfail : ∀ (body : Build unit) msg, body w1 = (inr failure, mkWorld (config w1) (log w1 ++ [ReportError msg])%list) →
    ∃ code new, match fst ((_ ← untilKept (outputPath p) body; mret (if wasErrorEmitted then 1 else 0)) w1) with inl r | inr r => r = code end
    ∧ log (snd ((_ ← untilKept (outputPath p) body; mret (if wasErrorEmitted then 1 else 0)) w1)) = (log w ++ new)%list ∧ outcome c p code new).
  { intros body msg Hb. unfold mbind, Build_bind, untilKept. rewrite Hb.
    exists failure, ([OpenOutput (outputPath p); ReportError msg] ++ removed (outputPath p))%list.
    split; [done|]. split; [|left; eauto]. unfold removed. simpl. case_match; simpl; by rewrite <- ?app_assoc. }
  unfold writePackage, outcome, withBitcode in *. cbn [sourceName_] in *.
  destruct (invokeMojoParser (inputPath p) _) as [[[theModule packageOp]|]|msg] eqn:Em; [| |by apply (Hfail _ msg)].
  - specialize (Hasm theModule packageOp). destruct (buildPackage _ _ _ _ _ _) as [[built|msg]|] eqn:Eb;
      [|apply (Hfail _ msg); steps; by rewrite Eb|by destruct Hasm].
    destruct (writePrecompiledFile built) as [bytecode|] eqn:Ew;
      [|apply (Hfail _ "failed to write package bytecode to a file"); steps; rewrite Eb; simpl; by rewrite Ew].
    exists (if wasErrorEmitted then 1 else 0), [OpenOutput (outputPath p); WriteOutput (outputPath p) bytecode].
    unfold untilKept. steps. rewrite Eb. simpl. rewrite Ew. simpl.
    split; [done|]. split; [by rewrite <- app_assoc|]. right. right. eauto 10.
  - exists 0, (OpenOutput (outputPath p) :: removed (outputPath p))%list.
    unfold untilKept. steps. unfold removed.
    split; [done|]. split; [destruct (String.eqb (outputPath p) "-"); simpl; by rewrite <- ?app_assoc|]. right. by left.
Qed.

End Precompile.

(** A package in the directory "lib", written to an existing directory, and its
    run with fixes on top of an earlier result. *)
Definition exampleCommand : Command := mkCommand ["src/lib"] (Some "out") ["x.bc"] false false.
Abbreviation exampleParse := (parsePrecompileArgs (SR := llvm_stringref) (fun _ => true)
  (fun p => Success ("/work/" ++ p)) (fun _ => Success true) (fun p => Success (String.eqb p "out")) (Success tt)).
Definition exampleParsed : Parsed := mkParsed (mkArgs "lib" "lib" []) "src/lib" "out/lib.mojoc" kFullDebugInfo 0.

Lemma precompile_names_witness :
  exampleParse exampleCommand = Success exampleParsed ∧ filename (outputPath exampleParsed) = "lib.mojoc".
Proof.
  split; [vm_compute; reflexivity|].
  destruct (precompile_names (SR := llvm_stringref) (fun _ => true)
    (fun p => Success ("/work/" ++ p)) (fun _ => Success true) (fun p => Success (String.eqb p "out")) (Success tt)
    exampleCommand exampleParsed eq_refl) as (_ & [H|[H _]] & _); [exact H|discriminate].
Defined.

Lemma precompile_outcome_witness :
  log (snd (precompile (SR := llvm_stringref) (AR := mlir_replacer) (fun _ => true)
    (fun p => Success ("/work/" ++ p)) (fun _ => Success true) (fun p => Success (String.eqb p "out")) (Success tt)
    (fun _ => 0) 0 0 1 (Success tt) (fun _ => None) (fun _ _ => Success None) (fun _ => None) (fun _ => "") (fun _ => true)
    (fun _ => None) false exampleCommand (mkWorld ∅ [])))
  = [OpenOutput "out/lib.mojoc"; DiscardOutput "out/lib.mojoc"].
Proof.
  destruct (@precompile_outcome llvm_stringref mlir_replacer (fun _ => true)
    (fun p => Success ("/work/" ++ p)) (fun _ => Success true) (fun p => Success (String.eqb p "out")) (Success tt)
    (fun _ => 0) 0 0 1 (Success tt) (fun _ => None) (fun _ _ => Success None) (fun _ => None) (fun _ => "") (fun _ => true)
    (fun _ => None) false exampleCommand exampleParsed (mkWorld ∅ []) eq_refl eq_refl eq_refl eq_refl eq_refl eq_refl eq_refl
    ltac:(discriminate)) as (code & new & Hcode & Hlog & [(msg & -> & _)|[(_ & _ & ->)|(m & op & b & d & Hm & _)]]).
  - vm_compute in Hcode. discriminate.
  - rewrite Hlog. vm_compute. reflexivity.
  - discriminate.
Defined.

End Precompile.
