(* ===== verification/MojoMain.v ===== *)
(** Mojo/tools/mojo/mojo.cpp: the entry point, which reads the first argument,
    answers the options of the driver itself, and passes everything else to a
    subcommand. *)
From S2P Require Import Prelude StringRef.

#[local] Open Scope string_scope.
#[local] Open Scope Z_scope.

Module MojoMain.

Inductive OptionID :=
  | OPT_version | OPT_verbose | OPT_print_cache_location | OPT_clear_cache
  | OPT_help | OPT_help_hidden | OPT_INPUT | OPT_other.

(** Support/Driver: the state a subcommand starts from. *)
Record CommandState := mkState { programName : string; subcommand : string; arguments : list string }.

(** What [main] does, in order. *)
Inductive Event :=
  | Out (text : string)
  | Err (text : string)
  | Flush
  | PrintHelp (hidden : bool) (state : CommandState)
  | RemoveAll (path : string)
  | Call (name : string) (state : CommandState)
  | ReportError (msg : string).

Record DownstreamBuild := mkDownstream { id : string; build : string; upstreamCommit : string }.
Definition isSet (d : DownstreamBuild) : bool := negb (isEmpty (id d)).

Definition newline : string := String "010" "".

Section Main.
Context {SR : StringRefOps}.
(** The option table: the option of the first argument, its text, and the
    number of arguments it takes up. *)
Variable ParseOneArg : list string → OptionID * string * nat.
(** Subcommands by name: their exit code, or the message for an unknown one;
    the exit codes of help and of a reported error. *)
Variable getCallback : string → ErrorOr (CommandState → Z).
Variable printHelp : bool → Z.
Variable failure : Z.
(** The build, and the version. *)
Variable downstream : DownstreamBuild.
Variables versionStr revision : string.
(** The configuration, the cache folder in it, and the name of the cache. *)
Variable openConfig : ErrorOr unit.
Variable getModularCacheFolderPath : ErrorOr string.
Variable kMojoCacheBaseDirName : string.
(** The machine: what exists, the error of [remove_all], the line typed. *)
Variable exists_ : string → bool.
Variable remove_all : string → option string.
Variable response : option string.

Definition printVersion (args : list string) : list Event * Z :=
  if negb (isSet downstream)
  then ([Out ("Mojo " ++ versionStr ++ " (" ++ revision ++ ")" ++ newline)%string], 0)
  else
    (([Out ("Mojo " ++ versionStr ++ " (" ++ revision ++ ", " ++ id downstream ++ " build " ++ build downstream ++ ")" ++ newline);
       Out ("unofficial build, not a Modular release, report problems to " ++ id downstream ++ newline)]
      ++ if existsb (String.eqb "--verbose") args
         then [Out ("built from upstream commit " ++ upstreamCommit downstream ++ newline)%string] else [])%list, 0).

(** The path of the cache, or the error both options report. *)
Definition mojoCachePath : ErrorOr string :=
  match openConfig with
  | Error msg => Error ("error: failed to open Modular configuration: " ++ msg ++ newline)
  | Success _ =>
      match getModularCacheFolderPath with
      | Error msg => Error ("error: failed to resolve cache folder: " ++ msg ++ newline)
      | Success cacheFolder => Success (path_div cacheFolder kMojoCacheBaseDirName)
      end
  end.

Definition printCacheLocation : list Event * Z :=
  match mojoCachePath with
  | Error msg => ([Err msg], 1)
  | Success path => ([Out (path ++ newline)%string], 0)
  end.

(** The trailing arguments of --clear-cache: whether to force, or the first
    that is not understood. *)
Fixpoint forceFlag (force : bool) (args : list string) : bool + string :=
  match args with
  | [] => inl force
  | arg :: args =>
      if String.eqb arg "-f" || String.eqb arg "--force" then forceFlag true args else inr arg
  end.

(** Trimmed and lower-cased by hand, a character at a time. *)
Definition isspace (c : ascii) : bool := charIn whitespace c.
Definition normalize (response : string) : string :=
  string_map to_lower (dropTrailing isspace (dropLeading isspace response)).
Definition confirmed (response : string) : bool :=
  let r := normalize response in String.eqb r "y" || String.eqb r "yes".

Definition removeCache (path : string) : list Event * Z :=
  match remove_all path with
  | Some msg => ([RemoveAll path; Err ("error: failed to remove " ++ path ++ ": " ++ msg ++ newline)%string], 1)
  | None => ([RemoveAll path; Out ("Removed " ++ path ++ newline)%string], 0)
  end.

Definition clearCache (trailing : list string) : list Event * Z :=
  match forceFlag false trailing with
  | inr arg =>
      ([Err ("error: unexpected argument '" ++ arg
             ++ "' for --clear-cache; expected '-f' or '--force'." ++ newline)%string], 1)
  | inl force =>
      match mojoCachePath with
      | Error msg => ([Err msg], 1)
      | Success path =>
          if negb (exists_ path)
          then ([Out ("Mojo cache at " ++ path ++ " does not exist; nothing to do." ++ newline)%string], 0)
          else if force then removeCache path
          else
            let ask := [Out ("This will remove the Mojo compile cache at:" ++ newline ++ "  " ++ path ++ newline
                             ++ "Proceed? [y/N] "); Flush] in
            match response with
            | None => ((ask ++ [Err ("error: failed to read confirmation; aborting." ++ newline)])%list, 1)
            | Some response =>
                if confirmed response
                then let '(events, code) := removeCache path in ((ask ++ events)%list, code)
                else ((ask ++ [Out ("Aborted." ++ newline)])%list, 0)
            end
      end
  end.

(** A subcommand that is registered; [None] is reading the callback of an
    error. *)
Definition call (name : string) (state : CommandState) : option (list Event * Z) :=
  match getCallback name with
  | Error _ => None
  | Success callback => Some ([Call name state], callback state)
  end.

Definition main (programName : string) (args : list string) : option (list Event * Z) :=
  match args with
  | [] => call "repl" (mkState programName "repl" args)
  | _ =>
      let '(option, arg, index) := ParseOneArg args in
      let help hidden :=
        let state := mkState programName "" (skipn 1 args) in Some ([PrintHelp hidden state], printHelp hidden) in
      match option with
      | OPT_version => Some (printVersion args)
      | OPT_verbose => Some ([Err ("error: --verbose is only meaningful after --version" ++ newline)%string], 1)
      | OPT_print_cache_location => Some printCacheLocation
      | OPT_clear_cache => Some (clearCache (skipn index args))
      | OPT_help => help false
      | OPT_help_hidden => help true
      | OPT_INPUT =>
          match getCallback arg with
          | Success callback =>
              let state := mkState programName arg (skipn index args) in Some ([Call arg state], callback state)
          | Error msg =>
              let state := mkState programName "run" args in
              if ends_with arg ".mojo" then call "run" state else Some ([ReportError msg], failure)
          end
      | OPT_other => call "run" (mkState programName "run" args)
      end
  end.

(** ** Properties *)

(** [repl] and [run] are registered before the first argument is read. *)
Definition registered : Prop := ∀ name, In name ["repl"; "run"] → ∃ callback, getCallback name = Success callback.

Lemma call_registered name state : registered → In name ["repl"; "run"] →
  ∃ callback, getCallback name = Success callback ∧ call name state = Some ([Call name state], callback state).
Proof. intros Hr Hn. destruct (Hr _ Hn) as [callback Hc]. exists callback. unfold call. by rewrite Hc. Qed.

Lemma forceFlag_spec args : ∀ force,
  match forceFlag force args with
  | inl b => b = force || negb (match args with [] => true | _ => false end)
             ∧ Forall (fun a => a = "-f" ∨ a = "--force") args
  | inr arg => ∃ before after, args = (before ++ arg :: after)%list ∧ arg ≠ "-f" ∧ arg ≠ "--force"
                 ∧ Forall (fun a => a = "-f" ∨ a = "--force") before
  end.
Proof.
  induction args as [|a args IH]; intros force; simpl; [by rewrite orb_false_r|].
  destruct (String.eqb_spec a "-f") as [Ha|Ha]; [|destruct (String.eqb_spec a "--force") as [Hb|Hb]]; simpl;
    [specialize (IH true)|specialize (IH true)|exists [], args; by repeat split];
    (destruct (forceFlag true args);
      [destruct IH as [-> H]; rewrite orb_true_r; split; [done|constructor; auto]
      |destruct IH as (before & after & -> & ? & ? & ?); exists (a :: before)%list, after; repeat split; auto; constructor; auto]).
Qed.

Definition removes (r : list Event * Z) (path : string) : Prop := RemoveAll path ∈ fst r.

Lemma removes_none e code path : (∀ e', e' ∈ e → e' ≠ RemoveAll path) → ¬ removes (e, code) path.
Proof. intros H Hr. by apply (H _ Hr). Qed.
Lemma removes_one e code path : e ≠ RemoveAll path → ¬ removes ([e], code) path.
Proof. intros H. apply removes_none. intros e' He. by apply list_elem_of_singleton in He as ->. Qed.

Lemma removeCache_removes p path : removes (removeCache p) path ↔ path = p.
Proof.
  unfold removeCache, removes. destruct (remove_all p); simpl; rewrite !elem_of_cons, elem_of_nil;
    (split; [intros [[= ->]|[?|[]]]; [done|discriminate]|intros ->; by left]).
Qed.

Lemma clearCache_removes trailing path : removes (clearCache trailing) path ↔
  Forall (fun a => a = "-f" ∨ a = "--force") trailing ∧ mojoCachePath = Success path ∧ exists_ path = true
  ∧ (trailing ≠ [] ∨ ∃ answer, response = Some answer ∧ confirmed answer = true).
Proof.
  unfold clearCache. pose proof (forceFlag_spec trailing false) as Hf. destruct (forceFlag false trailing) as [force|arg].
  2:{ split; [by intros H%removes_one|]. destruct Hf as (before & after & -> & H1 & H2 & _). intros (Hall & _).
      apply Forall_app in Hall as [_ Hall]. by apply Forall_cons in Hall as [[?|?] _]. }
  destruct Hf as [-> Hf]. destruct mojoCachePath as [p|msg]; [|split; [by intros H%removes_one|by intros (_ & ? & _)]].
  destruct (exists_ p) eqn:Ep; simpl; [|split; [by intros H%removes_one|intros (_ & [= ->] & ? & _); congruence]].
  destruct trailing as [|a trailing]; simpl.
  - destruct response as [answer|]; [destruct (confirmed answer) eqn:Ec|].
    + pose proof (removeCache_removes p path) as Hrm. destruct (removeCache p) as [events code]. unfold removes in *. simpl in *.
      rewrite !elem_of_cons. split; [intros [?|[?|H]]; [discriminate|discriminate|]|].
      * apply Hrm in H as ->. split_and!; [done|done|done|]. right. eauto.
      * intros (_ & [= ->] & _). right. right. by apply Hrm.
    + unfold removes. simpl. rewrite !elem_of_cons, elem_of_nil.
      split; [intros [?|[?|[?|[]]]]; discriminate|]. intros (_ & _ & _ & [?|(? & [= ->] & ?)]); [done|congruence].
    + unfold removes. simpl. rewrite !elem_of_cons, elem_of_nil.
      split; [intros [?|[?|[?|[]]]]; discriminate|]. intros (_ & _ & _ & [?|(? & ? & ?)]); done.
  - rewrite removeCache_removes. split; [intros ->; split_and!; auto|by intros (_ & [= ->] & _)].
Qed.

Lemma printCacheLocation_path path :
  printCacheLocation = ([Out (path ++ newline)%string], 0) ↔ mojoCachePath = Success path.
Proof.
  unfold printCacheLocation. destruct mojoCachePath as [p|msg]; [|by split]. split; [|by intros [= ->]].
  intros H. apply (f_equal fst) in H. simpl in H. injection H as H. by rewrite (string_app_inv_tail _ _ _ H).
Qed.

Lemma confirmed_spec answer : confirmed answer = true ↔ normalize answer = "y" ∨ normalize answer = "yes".
Proof. unfold confirmed. by rewrite orb_true_iff, !String.eqb_eq. Qed.

Lemma call_removes name state r path : call name state = Some r → ¬ removes r path.
Proof. unfold call. destruct (getCallback name); [|done]. intros [= <-]. by apply removes_one. Qed.

(** Only one option gets to [clearCache]. *)
Lemma main_removes programName args path :
  (∃ r, main programName args = Some r ∧ removes r path) ↔
  ∃ arg index, args ≠ [] ∧ ParseOneArg args = (OPT_clear_cache, arg, index) ∧ removes (clearCache (skipn index args)) path.
Proof.
  split.
  - intros (r & Hr & Hrem). destruct args as [|a args]; [by apply call_removes with (path := path) in Hr|].
    unfold main in Hr. set (all := a :: args) in *. destruct (ParseOneArg all) as [[option arg] index].
    destruct option.
    + injection Hr as <-. exfalso. revert Hrem. unfold printVersion. case_match; [by apply removes_one|]. apply removes_none.
      intros e He. simpl in He. rewrite !elem_of_cons in He. destruct He as [->|[->|He]]; [done|done|].
      case_match; [apply list_elem_of_singleton in He as ->; done|by apply elem_of_nil in He].
    + injection Hr as <-. by apply removes_one in Hrem.
    + injection Hr as <-. exfalso. revert Hrem. unfold printCacheLocation. case_match; by apply removes_one.
    + injection Hr as <-. by exists arg, index.
    + injection Hr as <-. by apply removes_one in Hrem.
    + injection Hr as <-. by apply removes_one in Hrem.
    + destruct (getCallback arg); [injection Hr as <-; by apply removes_one in Hrem|].
      case_match; [by apply call_removes with (path := path) in Hr|injection Hr as <-; by apply removes_one in Hrem].
    + by apply call_removes with (path := path) in Hr.
  - intros (arg & index & Hne & Hp & Hrem). exists (clearCache (skipn index args)). split; [|done].
    destruct args as [|a args]; [done|]. unfold main. by rewrite Hp.
Qed.

(** The compile cache is removed for --clear-cache as the first argument
    and nothing but -f or --force behind it, where it exists, by force or after
    the answer "y" or "yes", in any case and with any white space around it; in
    these cases and in no others, and it is the directory that
    --print-cache-location prints. *)
Theorem clear_cache_only programName args path :
  (∃ r, main programName args = Some r ∧ removes r path) ↔
  ∃ arg index, args ≠ [] ∧ ParseOneArg args = (OPT_clear_cache, arg, index)
    ∧ Forall (fun a => a = "-f" ∨ a = "--force") (skipn index args)
    ∧ printCacheLocation = ([Out (path ++ newline)%string], 0) ∧ exists_ path = true
    ∧ (skipn index args ≠ [] ∨ ∃ answer, response = Some answer ∧ (normalize answer = "y" ∨ normalize answer = "yes")).
Proof.
  rewrite main_removes. setoid_rewrite clearCache_removes. setoid_rewrite printCacheLocation_path.
  setoid_rewrite confirmed_spec. done.
Qed.

(** Where no option of the driver comes first, one subcommand is called:
    the one the first argument names, with the arguments behind it; else run,
    with all of them, for a file that ends in .mojo and for options it does not
    know; repl without arguments.  Anything else is an error, and no argument is
    lost on the way. *)
Theorem main_dispatch programName args option arg index :
  registered → ParseOneArg args = (option, arg, index) →
  (args = [] → ∃ code, main programName args = Some ([Call "repl" (mkState programName "repl" [])], code))
  ∧ (args ≠ [] → option = OPT_other →
       ∃ code, main programName args = Some ([Call "run" (mkState programName "run" args)], code))
  ∧ (args ≠ [] → option = OPT_INPUT → ∀ callback, getCallback arg = Success callback →
       main programName args = Some ([Call arg (mkState programName arg (skipn index args))],
         callback (mkState programName arg (skipn index args))))
  ∧ (args ≠ [] → option = OPT_INPUT → ∀ msg, getCallback arg = Error msg →
       if ends_with arg ".mojo"
       then ∃ code, main programName args = Some ([Call "run" (mkState programName "run" args)], code)
       else main programName args = Some ([ReportError msg], failure)).
Proof.
  intros Hr Hp. split_and!.
  - intros ->. destruct (call_registered "repl" (mkState programName "repl" []) Hr) as (c & _ & H); [by left|]. eauto.
  - intros Hne ->. destruct (call_registered "run" (mkState programName "run" args) Hr) as (c & _ & H); [by right; left|].
    destruct args as [|a args]; [done|]. unfold main. rewrite Hp, H. eauto.
  - intros Hne -> callback Hc. destruct args as [|a args]; [done|]. unfold main. by rewrite Hp, Hc.
  - intros Hne -> msg Hm. destruct (call_registered "run" (mkState programName "run" args) Hr) as (c & _ & H); [by right; left|].
    destruct args as [|a args]; [done|]. unfold main. rewrite Hp, Hm. case_match; [rewrite H; eauto|done].
Qed.

End Main.

(** A driver with two subcommands, whose options are those of the table. *)
Definition parseOne (args : list string) : OptionID * string * nat :=
  match args with
  | a :: _ => (if String.eqb a "--clear-cache" then OPT_clear_cache
               else if String.eqb a "--version" then OPT_version else OPT_INPUT, a, 1%nat)
  | [] => (OPT_other, "", O)
  end.
Definition callbacks (name : string) : ErrorOr (CommandState → Z) :=
  if String.eqb name "run" || String.eqb name "repl" then Success (fun _ => 0) else Error ("no such command '" ++ name ++ "'").

Lemma main_dispatch_witness :
  ∃ code, main (SR := llvm_stringref) parseOne callbacks (fun _ => 0) 1 (mkDownstream "" "" "") "" "" (Success tt) (Success "/c") "k"
    (fun _ => true) (fun _ => None) None "mojo" ["prog.mojo"; "--help"]
  = Some ([Call "run" (mkState "mojo" "run" ["prog.mojo"; "--help"])], code).
Proof.
  apply (proj2 (proj2 (proj2 (main_dispatch (SR := llvm_stringref) parseOne callbacks (fun _ => 0) 1 (mkDownstream "" "" "") "" ""
    (Success tt) (Success "/c") "k" (fun _ => true) (fun _ => None) None "mojo" ["prog.mojo"; "--help"] OPT_INPUT "prog.mojo" 1
    ltac:(intros n [<-|[<-|[]]]; by eexists) eq_refl))) ltac:(discriminate) eq_refl "no such command 'prog.mojo'" eq_refl).
Defined.

End MojoMain.
