(* ===== verification/MojoRun.v ===== *)
(** [mojo run] of Mojo/tools/mojo/Run/mojo-run.cpp: which arguments are its own,
    the libraries the program is run with, and the steps from the source to the
    exit code of the program.  The option table, the parser, the compiler and
    the execution engine are parameters. *)
From S2P Require Import Prelude StringRef Configuration MojoConfig Semaphore Xlinker.

#[local] Open Scope string_scope.
#[local] Open Scope Z_scope.

Module MojoRun.
Import Config MojoConfig Semaphore.

#[local] Abbreviation length := List.length (only parsing).

(** What the subcommand does, in order: it reports errors and warnings, prints
    the pass timings, runs the program, and copies the profile. *)
Inductive Event :=
  | ReportError (msg : string)
  | ReportWarning (msg : string)
  | FinishTiming
  | Execute (arguments : list string)
  | InternProfile.
Abbreviation Run A := (Early Event Z A).

(** ** parseArgs *)

Inductive OptionID := OPT_INPUT | OPT_help | OPT_help_hidden | OPT_other.
#[export] Instance OptionID_eq_dec : EqDecision OptionID.
Proof. solve_decision. Defined.
(** llvm::opt::Arg: its option, and where it starts. *)
Record Arg := mkArg { getOption : OptionID; getIndex : nat }.

(** What the common arguments give: the options, the target, and the input
    with its position. *)
Record Parsed (Options Target : Type) := mkParsed {
  options : Options; target : Target; inputIndex : nat; xlinkerValues : list string
}.
Arguments mkParsed {Options Target}.
Arguments options {Options Target}.
Arguments target {Options Target}.
Arguments inputIndex {Options Target}.
Arguments xlinkerValues {Options Target}.

Section Run.
Context {SR : StringRefOps}.
Context {Options Target Module_ : Type}.
Variable failure : Z.
(** [OptTable::ParseArgs]. *)
Variable ParseArgs : list string → list Arg.
Variable printHelp : bool → Z.
(** [parseCommonMojoArguments] with [parseAllArguments = false]: an exit code,
    or the parsed arguments up to the input. *)
Variable parseCommonMojoArguments : list string → ErrorOr (Z + Parsed Options Target).

Definition hasArg (id : OptionID) (args : list Arg) : bool :=
  existsb (fun a => bool_decide (getOption a = id)) args.
Definition report {A} (msg : string) : Run A := _ ← tell (ReportError msg); return_ failure.
Definition orReport {A} (e : ErrorOr A) : Run A := orElseReturn e report.

Definition parseArgs (arguments : list string) : Run (Parsed Options Target) :=
  let allArgs := ParseArgs arguments in
  let helpIn args : Run unit :=
    if hasArg OPT_help args then return_ (printHelp false)
    else if hasArg OPT_help_hidden args then return_ (printHelp true)
    else mret tt in
  _ ← match List.filter (fun a => bool_decide (getOption a = OPT_INPUT)) allArgs with
      | [] => helpIn allArgs
      | input :: _ => helpIn (ParseArgs (take (getIndex input + 1) arguments))
      end;
  result ← orReport (parseCommonMojoArguments arguments);
  match result with
  | inl exitCode => return_ exitCode
  | inr p => mret p
  end.

(** ** executeModule *)

(** [CrashRecoveryContext::RunSafely] around [runProgram]: a crash, an error of
    the engine, or the result of [main]. *)
Inductive RunResult := Crashed | EngineError (msg : string) | Returned (result : Z).
Variable runProgram : list string → RunResult.
Variable to_string : Z → string.

Definition crashMessage : string :=
  "execution crashed" ++ String "010" ""
  ++ "To get a symbolicated stack trace, compile your program using `mojo build` with debug info enabled (e.g., `-debug-level=line-tables`) and execute it separately.".

Definition executeMain (arguments : list string) : ErrorOr unit :=
  match runProgram arguments with
  | Crashed => Error crashMessage
  | EngineError msg => Error msg
  | Returned result =>
      if result =? 0 then Success tt
      else Error ("execution exited with a non-zero result: " ++ to_string result)
  end.

(** The compiler and the engine: the pipeline, which leaves the exported
    symbols, the object compiler, the archive, the engine with its libraries,
    and what is loaded into it. *)
Variable runKGENPipeline : Options → Module_ → Target → ErrorOr (list string).
Variable createObjectCompiler : Options → ErrorOr unit.
Variable emitArchive : Module_ → ErrorOr string.
Variable initializeExecutionEngine : Options → bool → list string → ErrorOr unit.
Variable addIfAbsent : string → string → ErrorOr unit.
Variable lookup : string → ErrorOr unit.
Variable isNoDebug : Options → bool.

Definition executeModule (opts : Options) (module : Module_) (tgt : Target) (arguments : list string)
    (additionalLibraries : list string) : Run Z :=
  exports ← orReport (runKGENPipeline opts module tgt);
  _ ← (if existsb (String.eqb "main") exports then mret tt
       else report "module does not define a `main` function" : Run unit);
  _ ← orReport (createObjectCompiler opts);
  archive ← orReport (emitArchive module);
  _ ← orReport (initializeExecutionEngine opts (negb (isNoDebug opts)) additionalLibraries);
  _ ← orReport (addIfAbsent "exec" archive);
  _ ← orReport (lookup "main");
  _ ← tell FinishTiming;
  _ ← tell (Execute arguments);
  _ ← orReport (executeMain arguments);
  _ ← tell InternProfile;
  mret 0.

(** ** run *)

(** The libraries: those of the configuration, when it opens, without the
    driver's token, and then those of the command line. *)
Variable pf : Platform.
Variable getSharedLibraryName : string → string.
Variable joinPath : string → string → string.
Variable exists_ : string → bool.
Variable GetEnv : string → option string.
Variable findConfigWithRunfiles : string → option string.
Variable overrides : KV.
Variable configOr : ErrorOr KV.

Definition configuredLibs : list string :=
  match configOr with
  | Error _ => []
  | Success kv =>
      List.filter (fun arg => negb (String.eqb arg "-Xlinker"))
        (fst (appendSharedLibraryLinkArgs GetEnv findConfigWithRunfiles exists_ overrides [] getSharedLibraryName kv))
  end.
Definition linkerArgs (p : Parsed Options Target) : list string := (configuredLibs ++ xlinkerValues p)%list.

Fixpoint warnAll (warnings : list string) : Run unit :=
  match warnings with
  | [] => mret tt
  | w :: warnings => _ ← tell (ReportWarning w); warnAll warnings
  end.
(** The resolver, which always has fuel enough. *)
Definition additionalLibraries (p : Parsed Options Target) : Run (list string) :=
  let '(libraries, warnings) := default ([], [])
    (Xlinker.resolveXlinkerLibraries pf getSharedLibraryName joinPath exists_ (linkerArgs p)) in
  _ ← warnAll warnings; mret libraries.

(** The steps around: the context, the timing options, the parser, which gives
    no module after applying fixes, and whether a warning was promoted. *)
Variable createContext : ErrorOr unit.
Variable configureTiming : ErrorOr unit.
Variable invokeMojoParser : ErrorOr (option Module_).
Variable wasErrorEmitted : bool.

(** [run] on the arguments of the subcommand. *)
Definition run (arguments : list string) : Run Z :=
  p ← parseArgs arguments;
  _ ← orReport createContext;
  _ ← orReport configureTiming;
  moduleOp ← orReport invokeMojoParser;
  match moduleOp with
  | None => return_ 0
  | Some module =>
      libraries ← additionalLibraries p;
      result ← executeModule (options p) module (target p) (skipn (inputIndex p) arguments) libraries;
      if negb (result =? 0) then return_ result
      else mret (if wasErrorEmitted then 1 else 0)
  end.

(** ** Properties *)

Lemma orReport_cases {A} (e : ErrorOr A) log :
  (∃ a, e = Success a ∧ orReport e log = (inl a, log))
  ∨ ∃ msg, e = Error msg ∧ (orReport e : Run A) log = (inr failure, (log ++ [ReportError msg])%list).
Proof. destruct e as [a|msg]; [left|right]; eauto. Qed.

Lemma warnAll_log ws : ∀ log, warnAll ws log = (inl tt, (log ++ map ReportWarning ws)%list).
Proof.
  induction ws as [|w ws IH]; intros log; simpl; [by rewrite app_nil_r|].
  unfold mbind, Early_bind, tell. rewrite IH. by rewrite <- app_assoc.
Qed.

(** Going on, or an exit after at most an error. *)
Lemma parseArgs_cases arguments log :
  (∃ p, parseArgs arguments log = (inl p, log) ∧ parseCommonMojoArguments arguments = Success (inr p))
  ∨ (∃ code, parseArgs arguments log = (inr code, log))
  ∨ ∃ msg, parseArgs arguments log = (inr failure, (log ++ [ReportError msg])%list).
Proof.
  unfold parseArgs. set (help := match List.filter _ _ with [] => _ | _ => _ end).
  assert (Hhelp : help log = (inl tt, log) ∨ ∃ code, help log = (inr code, log)).
  { subst help. destruct (List.filter _ _) as [|input ?];
      (destruct (hasArg OPT_help _); [right; by eexists|destruct (hasArg OPT_help_hidden _); [right; by eexists|by left]]). }
  unfold mbind, Early_bind. destruct Hhelp as [->|[code ->]]; [|right; left; by exists code].
  destruct (orReport_cases (parseCommonMojoArguments arguments) log) as [(result & E & ->)|(msg & E & ->)].
  - destruct result as [code|p]; [right; left; by exists code|left; by exists p].
  - right. right. by exists msg.
Qed.

(** The program is run after everything else, once. *)
Lemma executeModule_cases opts module tgt arguments libraries log :
  (∃ msg, executeModule opts module tgt arguments libraries log = (inr failure, (log ++ [ReportError msg])%list))
  ∨ (∃ msg, executeMain arguments = Error msg
       ∧ executeModule opts module tgt arguments libraries log
         = (inr failure, (log ++ [FinishTiming; Execute arguments; ReportError msg])%list))
  ∨ (executeMain arguments = Success tt
     ∧ executeModule opts module tgt arguments libraries log
       = (inl 0, (log ++ [FinishTiming; Execute arguments; InternProfile])%list)).
Proof.
  unfold executeModule, mbind, Early_bind.
  destruct (orReport_cases (runKGENPipeline opts module tgt) log) as [(exports & _ & ->)|(msg & _ & ->)]; [|left; by exists msg].
  destruct (existsb _ exports); [unfold mret, Early_ret|left; by eexists].
  repeat match goal with
  | |- context [orReport ?e log] => lazymatch e with executeMain _ => fail | _ =>
      destruct (orReport_cases e log) as [(? & _ & ->)|(msg & _ & ->)]; [|left; by exists msg] end
  end.
  unfold tell. right. destruct (executeMain arguments) as [[]|msg]; simpl; rewrite <- !app_assoc; [by right|].
  left. by exists msg.
Qed.

(** What a run of the subcommand adds to the log, and its result. *)
Inductive Outcome (arguments : list string) : Z + Z → list Event → Prop :=
  | Stopped code : Outcome arguments (inr code) []
  | Failed ws msg : Outcome arguments (inr failure) (map ReportWarning ws ++ [ReportError msg])
  | ProgramFailed ws p msg :
      parseCommonMojoArguments arguments = Success (inr p) →
      executeMain (skipn (inputIndex p) arguments) = Error msg →
      Outcome arguments (inr failure)
        (map ReportWarning ws ++ [FinishTiming; Execute (skipn (inputIndex p) arguments); ReportError msg])
  | ProgramReturned ws p :
      parseCommonMojoArguments arguments = Success (inr p) →
      runProgram (skipn (inputIndex p) arguments) = Returned 0 →
      Outcome arguments (inl (if wasErrorEmitted then 1 else 0))
        (map ReportWarning ws ++ [FinishTiming; Execute (skipn (inputIndex p) arguments); InternProfile]).

(** A run ends in one of four ways: it stops without a word, for help, an
    exit code of the argument parser or after applying fixes; it fails with one
    error, before the program was started; the program ran, with the arguments
    from the input file on, and crashed, could not be run or returned something
    other than 0, which is reported; or it returned 0.  The pass timings are
    out before the program starts, it is started at most once, and the exit
    code is 0 for a program that ran only if it returned 0 and no warning was
    promoted, which does not keep the program from running. *)
Theorem run_outcome arguments log :
  ∃ new, snd (run arguments log) = (log ++ new)%list ∧ Outcome arguments (fst (run arguments log)) new.
Proof.
  unfold run, mbind, Early_bind.
  destruct (parseArgs_cases arguments log) as [(p & -> & Hp)|[(code & ->)|(msg & ->)]];
    [|exists []; rewrite app_nil_r; split; [done|constructor]|exists [ReportError msg]; split; [done|exact (Failed arguments [] msg)]].
  repeat match goal with
  | |- context [orReport ?e log] =>
      destruct (orReport_cases e log) as [(? & _ & ->)|(msg & _ & ->)];
        [|exists [ReportError msg]; split; [done|exact (Failed arguments [] msg)]]
  end.
  case_match; [|exists []; rewrite app_nil_r; split; [done|constructor]].
  unfold additionalLibraries. destruct (default _ _) as [libraries ws].
  unfold mbind, Early_bind. rewrite warnAll_log. unfold mret, Early_ret.
  match goal with |- context [executeModule ?o ?m ?t ?a ?l ?lg] =>
    destruct (executeModule_cases o m t a l lg) as [(msg & ->)|[(msg & He & ->)|(He & ->)]] end; simpl.
  - exists (map ReportWarning ws ++ [ReportError msg])%list. split; [by rewrite app_assoc|constructor].
  - eexists. split; [rewrite <- app_assoc; reflexivity|]. by apply ProgramFailed.
  - eexists. split; [rewrite <- app_assoc; reflexivity|]. apply ProgramReturned; [done|].
    unfold executeMain in He. destruct (runProgram _) as [| |r]; [done|done|]. destruct (r =? 0) eqn:E; [|done].
    apply Z.eqb_eq in E. by subst.
Qed.

End Run.
End MojoRun.
