(* ===== verification/CompilationOptions.v ===== *)
(** Mojo/lib/ToolCommon/CompilationOptions: the default CPU of a target, the
    definitions handed to the program, and the other queries of the options. *)
From S2P Require Import Prelude StringRef.

#[local] Open Scope string_scope.
#[local] Open Scope Z_scope.

Module CompilationOptions.

Inductive DebugInfoLevel := kNoDebug | kSynthetic | kLineTablesOnly | kFullDebugInfo.
#[export] Instance DebugInfoLevel_eq_dec : EqDecision DebugInfoLevel.
Proof. solve_decision. Defined.
Inductive DebugAtLevel := kDebugUnset | kDebugAtLLVM.
Inductive EmissionKind := EmitNone | EmitLineTables | EmitFull.
Record Sanitizers := mkSanitizers { kAddress : bool; kThread : bool }.

Record Options := mkOptions {
  optimizationLevel : Z; debugLevel : DebugInfoLevel; debugAtLevel : option DebugAtLevel;
  sanitizers : Sanitizers; targetTriple : string; targetCpu : string; targetFeatures : string;
  targetAccelerator : string; relocModel : string; debugInfoLanguage : string; numThreads : Z
}.

(** TargetTraits, as the registry has them. *)
Record TargetTraits := mkTraits { defaultCPU : string → string; isGPU : bool }.

Section CompilationOptions.
Context {SR : StringRefOps}.
(** The registry, llvm::Triple's architecture and system, and the host. *)
Variable lookup : string → option TargetTraits.
Variables getArch getOS : string → string.
Variables hostTriple hostCPUName : string.
(** Fails without MAX when an accelerator is asked for. *)
Variable requireMaxForAcceleratorRequest : string → option unit.

Definition setDefaultCPU (triple : string) : string :=
  let targetDefault := match lookup triple with Some t => defaultCPU t triple | None => "" end in
  if negb (isEmpty targetDefault) then targetDefault
  else if negb (String.eqb (getArch triple) (getArch hostTriple)) || negb (String.eqb (getOS triple) (getOS hostTriple))
  then "" else hostCPUName.

(** The constructor. *)
Definition withCPU (o : Options) (cpu : string) : Options :=
  mkOptions (optimizationLevel o) (debugLevel o) (debugAtLevel o) (sanitizers o) (targetTriple o) cpu
    (targetFeatures o) (targetAccelerator o) (relocModel o) (debugInfoLanguage o) (numThreads o).
Definition construct (o : Options) : option Options :=
  _ ← requireMaxForAcceleratorRequest (targetAccelerator o);
  Some (if isEmpty (targetCpu o) then withCPU o (setDefaultCPU (targetTriple o)) else o).

(** [CodeGenOpt::getLevel], and the aggressive level. *)
Definition getCodeGenOptLevel {Level} (getLevel : Z → option Level) (Aggressive : Level) (o : Options) : Level :=
  default Aggressive (getLevel (optimizationLevel o)).

Definition getDIEmissionKind (o : Options) : EmissionKind :=
  match debugLevel o with
  | kNoDebug => EmitNone
  | kSynthetic | kLineTablesOnly => EmitLineTables
  | kFullDebugInfo => EmitFull
  end.

Definition getDebugLevelString (o : Options) : string :=
  match debugLevel o with
  | kFullDebugInfo => "full"
  | kLineTablesOnly => "line-tables"
  | _ => ""
  end.

Definition definesWithDefaults (o : Options) (defines : list string) : list string :=
  (match debugLevel o with
   | kFullDebugInfo => ["__DEBUG_LEVEL=full"]
   | kLineTablesOnly => ["__DEBUG_LEVEL=line-tables"]
   | _ => []
   end
   ++ [("__OPTIMIZATION_LEVEL=" ++ decimal (optimizationLevel o))%string;
       ("__SANITIZE_ADDRESS=" ++ (if kAddress (sanitizers o) then "1" else "0"))%string]
   ++ defines)%list.
Definition parseDefinesWithDefaults {Env} (parseDefines : list string → ErrorOr Env) (o : Options)
    (defines : list string) : ErrorOr Env :=
  parseDefines (definesWithDefaults o defines).

(** [printSanitizers]: the text of a non-empty set. *)
Definition print (printSanitizers : Sanitizers → string) (o : Options) : string :=
  "CompilationOptions { optimizationLevel: " ++ decimal (optimizationLevel o)
  ++ (if bool_decide (debugLevel o = kNoDebug) then "" else ", debugLevel: "
        ++ match debugLevel o with kLineTablesOnly => "line-tables" | kSynthetic => "synthetic" | _ => "full" end)
  ++ match debugAtLevel o with
     | None => ""
     | Some kDebugAtLLVM => ", debugAtLevel: llvm"
     | Some kDebugUnset => ", debugAtLevel: "
     end
  ++ (if kAddress (sanitizers o) || kThread (sanitizers o)
      then ", sanitizers:" ++ printSanitizers (sanitizers o) else "")
  ++ ", relocModel: " ++ relocModel o
  ++ (if isEmpty (targetAccelerator o) then "" else ", targetAccelerator: " ++ targetAccelerator o)
  ++ ", debugInfoLang: " ++ debugInfoLanguage o
  ++ (if numThreads o =? 0 then "" else ", numThreads: " ++ decimal (numThreads o)) ++ " }".

Definition isGPUTriple (triple : string) : bool :=
  match lookup triple with Some t => isGPU t | None => false end.
Definition isMetalTriple (triple : string) : bool :=
  match consume_front triple "air64-" with Some _ => true | None => false end.
Definition overrideExported (o : Options) : bool := isGPUTriple (targetTriple o).

End CompilationOptions.

(** ** Properties *)

Section Properties.
Context {SR : StringRefOps}.
Variable lookup : string → option TargetTraits.
Variables getArch getOS : string → string.
Variable hostTriple : string.
Variable requireMaxForAcceleratorRequest : string → option unit.

(** A program for a machine that differs from the host in architecture or
    in operating system never depends on the host's CPU: whatever that is, the
    options are the same, with the CPU the user names, else the one the target
    registers, else none.  For the host itself, and a target without a default
    of its own, the host's CPU is what an empty choice becomes. *)
Theorem cross_target_cpu o host1 host2 :
  let result := construct lookup getArch getOS hostTriple host1 requireMaxForAcceleratorRequest o in
  (getArch (targetTriple o) ≠ getArch hostTriple ∨ getOS (targetTriple o) ≠ getOS hostTriple →
     result = construct lookup getArch getOS hostTriple host2 requireMaxForAcceleratorRequest o)
  ∧ (∀ o', result = Some o' →
       (targetCpu o ≠ "" → targetCpu o' = targetCpu o)
       ∧ ∀ t, targetCpu o = "" → lookup (targetTriple o) = Some t → defaultCPU t (targetTriple o) ≠ "" →
           targetCpu o' = defaultCPU t (targetTriple o))
  ∧ (targetCpu o = "" → lookup (targetTriple o) = None → targetTriple o = hostTriple →
     requireMaxForAcceleratorRequest (targetAccelerator o) = Some tt → targetCpu <$> result = Some host1).
Proof.
  intros result. subst result. unfold construct, setDefaultCPU.
  destruct (requireMaxForAcceleratorRequest _) as [[]|]; simpl; [|done]. split_and!.
  - intros Hd. assert (negb (String.eqb (getArch (targetTriple o)) (getArch hostTriple))
      || negb (String.eqb (getOS (targetTriple o)) (getOS hostTriple)) = true) as ->; [|done].
    apply orb_true_iff. rewrite !negb_true_iff, !String.eqb_neq. tauto.
  - intros o' [= <-]. split.
    + intros Hne. by destruct (targetCpu o) eqn:E.
    + intros t -> -> Hd. simpl. by destruct (defaultCPU t (targetTriple o)).
  - intros -> -> Ht _. simpl. by rewrite Ht, !String.eqb_refl.
Qed.

End Properties.

(** The name of a definition, before the first equals sign. *)
Definition defineName (define : string) : string := before (Ascii.eqb "=") define.

(** The program sees the options it is compiled with: when the definitions
    are accepted by a parser that, as documented, rejects a name defined
    twice, then the user defined none of the names that come from the options,
    and the debug level among them is the one [getDebugLevelString] gives, when
    it gives one. *)
Theorem defines_once {Env} (parseDefines : list string → ErrorOr Env) o defines env :
  (∀ l, ¬ NoDup (map defineName l) → isError (parseDefines l) = true) →
  parseDefinesWithDefaults parseDefines o defines = Success env →
  (∀ d, d ∈ defines → defineName d ≠ "__OPTIMIZATION_LEVEL" ∧ defineName d ≠ "__SANITIZE_ADDRESS"
     ∧ (getDebugLevelString o ≠ "" → defineName d ≠ "__DEBUG_LEVEL"))
  ∧ (getDebugLevelString o ≠ "" → ("__DEBUG_LEVEL=" ++ getDebugLevelString o) ∈ definesWithDefaults o defines)
  ∧ ("__OPTIMIZATION_LEVEL=" ++ decimal (optimizationLevel o)) ∈ definesWithDefaults o defines.
Proof.
  intros Hp Hs. unfold parseDefinesWithDefaults in Hs.
  assert (HN : NoDup (map defineName (definesWithDefaults o defines))).
  { destruct (decide (NoDup (map defineName (definesWithDefaults o defines)))) as [H|H]; [done|].
    apply Hp in H. by rewrite Hs in H. }
  split_and!.
  - intros d Hd. assert (Hin : defineName d ∈ map defineName defines) by (by apply list_elem_of_fmap_2).
    unfold definesWithDefaults in HN. rewrite app_assoc, map_app in HN. apply NoDup_app in HN as (_ & Hdis & _).
    split_and!; intros; intros He; rewrite He in Hin; revert Hin; apply Hdis.
    + destruct (debugLevel o); simpl; set_solver.
    + destruct (debugLevel o), (kAddress (sanitizers o)); simpl; set_solver.
    + unfold getDebugLevelString in *. destruct (debugLevel o); try done; left.
  - unfold definesWithDefaults, getDebugLevelString. destruct (debugLevel o); try done; intros _; simpl; left.
  - unfold definesWithDefaults. apply elem_of_app. right. left.
Qed.

Definition linuxHost : string := "x86_64-linux".
Definition afterDash (s : string) : string := default "" (after (Ascii.eqb "-") s).
Definition beforeDash (s : string) : string := before (Ascii.eqb "-") s.
Definition noTraits (_ : string) : option TargetTraits := None.
Definition allowed (_ : string) : option unit := Some tt.
Definition windowsRelease : Options :=
  mkOptions 3 kNoDebug None (mkSanitizers false false) "x86_64-windows" "" "" "" "pic" "Mojo" 0.

Lemma cross_target_cpu_witness :
  construct noTraits beforeDash afterDash linuxHost "raptorlake" allowed windowsRelease
  = construct noTraits beforeDash afterDash linuxHost "generic" allowed windowsRelease.
Proof.
  apply (cross_target_cpu noTraits beforeDash afterDash linuxHost allowed windowsRelease "raptorlake" "generic").
  right. discriminate.
Defined.

Definition parseOnce (l : list string) : ErrorOr (list string) :=
  if bool_decide (NoDup (map defineName l)) then Success l else Error "defined twice".

Lemma defines_once_witness :
  "__OPTIMIZATION_LEVEL=3" ∈ definesWithDefaults windowsRelease ["FOO=1"].
Proof.
  apply (defines_once parseOnce windowsRelease ["FOO=1"] (definesWithDefaults windowsRelease ["FOO=1"])).
  - intros l H. unfold parseOnce. rewrite bool_decide_false by exact H. reflexivity.
  - vm_compute. reflexivity.
Defined.

End CompilationOptions.
