(* ===== verification/NixlPluginDir.v ===== *)
(** Support/lib/NixlPluginDir.cpp: which directory of NIXL plugins a host
    uses, by its GPUs, its network and the requested backend. *)
From S2P Require Import Prelude StringRef.

#[local] Open Scope string_scope.
#[local] Open Scope Z_scope.

Module NixlPluginDir.

(** [std::tolower] and [std::toupper] in the C locale are those of StringRef.v. *)

Section NixlPluginDir.
Variable getenv : string → option string.
Variable exists_ : string → bool.
(** [dlopen] of a library by name, and of a file for the whole process. *)
Variable dlopen : string → bool.
Variable dlopenGlobal : string → bool.
(** The devices below /sys/class/infiniband: of each port the first line of
    its link_layer file, if it can be read. *)
Variable infiniband : list (list (option string)).

Definition requestedBackend : string :=
  match getenv "MODULAR_NIXL_TRANSFER_BACKEND" with Some b => string_map to_lower b | None => "" end.

Definition stagesRequestedBackend (pluginDir : string) : bool :=
  let backend := if isEmpty requestedBackend then "ucx" else requestedBackend in
  exists_ (path_div pluginDir ("libplugin_" ++ string_map to_upper backend ++ ".so")).

Definition kFabricLibs : list string :=
  ["libnl-3.so.200"; "libnl-route-3.so.200"; "libibverbs.so.1"; "librdmacm.so.1"; "libefa.so.1"; "libfabric.so.1"].

(** The libraries opened so far, and whether one was claimed. *)
Definition claim (libDir : string) (st : list string * bool) (name : string) : list string * bool :=
  let '(opened, claimedAny) := st in
  let lib := path_div libDir name in
  if exists_ lib then (app opened [lib], claimedAny || dlopenGlobal lib) else (opened, claimedAny).
Definition preloadStagedFabricLibs (pluginDir : string) : list string * bool :=
  if negb (String.eqb requestedBackend "libfabric") then ([], false)
  else foldl (claim (parent_path (parent_path pluginDir))) ([], false) kFabricLibs.

Definition hasInfinibandPort : bool :=
  existsb (existsb (fun layer => bool_decide (layer = Some "InfiniBand"))) infiniband.

Definition selectVendorFlavor (base verbsDir plainDir : string) (requireIbPort allowVerbs : bool) : option string :=
  if allowVerbs && stagesRequestedBackend (path_div base verbsDir) && (negb requireIbPort || hasInfinibandPort)
     && dlopen "libibverbs.so.1" && dlopen "libmlx5.so.1"
  then Some (path_div base verbsDir)
  else if exists_ (path_div (path_div base plainDir) "libplugin_UCX.so") then Some (path_div base plainDir)
  else None.

Definition resolveAMD (base : string) (allowVerbsFlavor : bool) : option string :=
  if exists_ "/dev/kfd" then
    if (isEmpty requestedBackend || String.eqb requestedBackend "uccl")
       && exists_ (path_div (path_div base "rocm-uccl") "libplugin_UCCL.so")
    then Some (path_div base "rocm-uccl")
    else selectVendorFlavor base "rocm-verbs" "rocm" false allowVerbsFlavor
  else None.
Definition resolveNixlPluginDir (base : string) (allowVerbsFlavor : bool) : option string :=
  match (if exists_ "/dev/nvidiactl" then selectVendorFlavor base "cuda-verbs" "cuda" true allowVerbsFlavor
         else None) with
  | Some dir => Some dir
  | None => resolveAMD base allowVerbsFlavor
  end.

(** NixlPluginDirUnsupported.cpp. *)
Definition resolveNixlPluginDir_unsupported (base : string) (allowVerbsFlavor : bool) : option string := None.

(** ** Properties *)


Lemma path_div_inj p x y : before (Ascii.eqb "/") x = x → before (Ascii.eqb "/") y = y → path_div p x = path_div p y → x = y.
Proof.
  intros Hx Hy. assert (∀ z, before (Ascii.eqb "/") z = z →
    path_div p z = (if isEmpty p || endsWithSlash p then p else p ++ "/") ++ z) as Hd.
  { intros z Hz. unfold path_div. assert (∀ r, z ≠ String "/" r) as Hne by (intros r ->; simpl in Hz; done).
    destruct (isEmpty p || endsWithSlash p); rewrite ?string_app_assoc;
      (destruct z as [|[[] [] [] [] [] [] [] []] z]; try reflexivity); by destruct (Hne z). }
  rewrite !Hd by done. apply string_app_inv_head.
Qed.

Definition verbsUsable (dir : string) : bool :=
  stagesRequestedBackend dir && dlopen "libibverbs.so.1" && dlopen "libmlx5.so.1".

Lemma selectVendorFlavor_spec base verbsDir plainDir requireIbPort allowVerbs dir :
  selectVendorFlavor base verbsDir plainDir requireIbPort allowVerbs = Some dir →
  dir = path_div base verbsDir ∧ allowVerbs = true ∧ verbsUsable dir = true
    ∧ (requireIbPort = true → hasInfinibandPort = true)
  ∨ dir = path_div base plainDir ∧ exists_ (path_div dir "libplugin_UCX.so") = true.
Proof.
  unfold selectVendorFlavor, verbsUsable. case_match eqn:E.
  - intros [= <-]. left. rewrite !andb_true_iff in *. split_and!; try tauto.
    intros ->. simpl in E. tauto.
  - case_match; [|done]. intros [= <-]. by right.
Qed.

(** The directory [resolveNixlPluginDir] picks is one the host can use:
    the UCCL plugins only on an AMD GPU when they are staged and no other
    backend is asked for; a verbs flavor only when the caller allows it, it
    stages the requested backend and its libraries load, and on NVIDIA only
    with an InfiniBand port; a plain flavor only when it is staged.  A host
    without an InfiniBand port and without an AMD GPU is left where it would
    be if no verbs flavor existed. *)
Theorem nixl_flavor base allowVerbs :
  (∀ dir, resolveNixlPluginDir base allowVerbs = Some dir →
     (dir = path_div base "rocm-uccl" → exists_ "/dev/kfd" = true
        ∧ (requestedBackend = "" ∨ requestedBackend = "uccl") ∧ exists_ (path_div dir "libplugin_UCCL.so") = true)
     ∧ (dir = path_div base "cuda-verbs" ∨ dir = path_div base "rocm-verbs" →
          allowVerbs = true ∧ verbsUsable dir = true
          ∧ (dir = path_div base "cuda-verbs" → hasInfinibandPort = true))
     ∧ (dir = path_div base "cuda" ∨ dir = path_div base "rocm" →
          exists_ (path_div dir "libplugin_UCX.so") = true)
     ∧ dir ∈ map (path_div base) ["cuda-verbs"; "cuda"; "rocm-uccl"; "rocm-verbs"; "rocm"])
  ∧ (hasInfinibandPort = false → exists_ "/dev/kfd" = false →
     resolveNixlPluginDir base allowVerbs = resolveNixlPluginDir base false).
Proof.
  split.
  - intros dir H.
    assert (∃ name, dir = path_div base name ∧
      (name = "rocm-uccl" ∧ exists_ "/dev/kfd" = true ∧ (requestedBackend = "" ∨ requestedBackend = "uccl")
         ∧ exists_ (path_div dir "libplugin_UCCL.so") = true
       ∨ (name = "cuda-verbs" ∧ hasInfinibandPort = true ∨ name = "rocm-verbs") ∧ allowVerbs = true ∧ verbsUsable dir = true
       ∨ (name = "cuda" ∨ name = "rocm") ∧ exists_ (path_div dir "libplugin_UCX.so") = true)) as (name & -> & Hn).
    { unfold resolveNixlPluginDir, resolveAMD in H.
      destruct (if exists_ "/dev/nvidiactl" then _ else None) as [d|] eqn:E.
      - injection H as ->. destruct (exists_ "/dev/nvidiactl"); [|done].
        apply selectVendorFlavor_spec in E as [(-> & ? & ? & Hib)|[-> ?]];
          eexists; (split; [reflexivity|]); right; [left|right]; eauto 6.
      - destruct (exists_ "/dev/kfd") eqn:Ek; [|done]. case_match eqn:Eu.
        + injection H as <-. exists "rocm-uccl". split; [done|]. left.
          apply andb_true_iff in Eu as [Hb ?]. split_and!; try done.
          apply orb_true_iff in Hb as [Hb|Hb]; [left|right]; [by destruct requestedBackend|by apply String.eqb_eq].
        + apply selectVendorFlavor_spec in H as [(-> & ? & ? & _)|[-> ?]];
            eexists; (split; [reflexivity|]); right; [left|right]; eauto 6. }
    assert (Hne : ∀ other, before (Ascii.eqb "/") other = other → path_div base name = path_div base other → name = other).
    { intros other Ho. apply path_div_inj; [|done].
      destruct Hn as [[-> _]|[[[[-> _]| ->] _]|[[->| ->] _]]]; reflexivity. }
    split_and!.
    + intros He%Hne; [|reflexivity]. subst. naive_solver.
    + intros [He|He]; apply Hne in He; try reflexivity; subst; split_and!; try naive_solver.
      intros He%Hne; [|reflexivity]. done.
    + intros [He|He]; apply Hne in He; try reflexivity; subst; naive_solver.
    + apply list_elem_of_fmap_2. set_solver.
  - intros Hib Hk. unfold resolveNixlPluginDir, resolveAMD, selectVendorFlavor. rewrite Hib, Hk. simpl.
    by rewrite !andb_false_r.
Qed.

End NixlPluginDir.

Definition efaHost (path : string) : bool :=
  String.eqb path "/dev/nvidiactl" || String.eqb path "/opt/nixl/cuda-verbs/libplugin_UCX.so"
  || String.eqb path "/opt/nixl/cuda/libplugin_UCX.so".
Definition noEnv (_ : string) : option string := None.
Definition loadsAll (_ : string) : bool := true.

Lemma nixl_flavor_witness :
  resolveNixlPluginDir noEnv efaHost loadsAll [[Some "Ethernet"]] "/opt/nixl" true = Some "/opt/nixl/cuda"
  ∧ resolveNixlPluginDir noEnv efaHost loadsAll [[Some "InfiniBand"]] "/opt/nixl" true = Some "/opt/nixl/cuda-verbs".
Proof.
  split; [|vm_compute; reflexivity].
  rewrite (proj2 (nixl_flavor noEnv efaHost loadsAll loadsAll [[Some "Ethernet"]] "/opt/nixl" true)) by reflexivity.
  vm_compute. reflexivity.
Defined.

End NixlPluginDir.
