(* ===== verification/CPULimits.v ===== *)
(** The control-group CPU limits of Support/lib/Threading/HWInfo.cpp: the
    parsers of the version 1 and 2 files, the lookup of the limits of this
    process, and their conversion to millicores. *)
From S2P Require Import Prelude StringRef.

#[local] Open Scope string_scope.
#[local] Open Scope Z_scope.

Module CPULimits.

(** [Detail::linuxCPULimits] of HWInfo.h, two [int]s. *)
Record linuxCPULimits := mkLimits { quota_us : Z; period_us : Z }.
Definition defaultLimits : linuxCPULimits := mkLimits (-1) 100000.

Section CPULimits.
Context {SR : StringRefOps}.

(** The first line of the cpu,cpuacct hierarchy.  [None]: a line with fewer
    than three fields is indexed out of range. *)
Fixpoint findV1Cgroup (lines : list string) : option string :=
  match lines with
  | [] => Some ""
  | line :: lines =>
      let frags := split_all line ":" true in
      sys ← frags !! 1%nat;
      grp ← frags !! 2%nat;
      if String.eqb (trim whitespace sys) "cpu,cpuacct" then Some (trim whitespace grp)
      else findV1Cgroup lines
  end.

Definition parseV1CPUCgroupFile (buf : string) : option (ErrorOr string) :=
  cgroup ← findV1Cgroup (split_all buf "010" false);
  Some (if isEmpty cgroup then Error "could not parse v1 CPU cgroup" else Success cgroup).

Definition parseV1CPULimits (quotaBuf periodBuf : string) : ErrorOr linuxCPULimits :=
  match getAsInteger_int (trim whitespace quotaBuf) with
  | None => Error "can't parse CPU quota as an int"
  | Some quota =>
      match getAsInteger_int (trim whitespace periodBuf) with
      | None => Error "can't parse CPU period as an int"
      | Some period => Success (mkLimits quota period)
      end
  end.

Fixpoint findV2Cgroup (lines : list string) : string :=
  match lines with
  | [] => ""
  | line :: lines =>
      match consume_front line "0::" with
      | Some line => line
      | None => findV2Cgroup lines
      end
  end.

Definition cpuMaxPath (curr : string) : string := "/sys/fs/cgroup/" ++ curr ++ "/cpu.max".

(** The loop over the levels: [levels] iterations are left after this one. *)
Fixpoint walkUp (exists_ : string → bool) (levels : nat) (curr : string) : ErrorOr string :=
  if exists_ (cpuMaxPath curr) then Success curr
  else match rfind curr "/" with
       | Some p =>
           let curr := take_front curr p in
           match levels with
           | O => Success curr
           | S levels => walkUp exists_ levels curr
           end
       | None => Error "could not resolve CPU max file"
       end.

Definition parseV2CPUCgroupFile (buf : string) (exists_ : string → bool) : ErrorOr string :=
  let cgroup := findV2Cgroup (split_all buf "010" false) in
  if isEmpty cgroup then Error "could not parse v2 CPU cgroup"
  else
    let curr := trim whitespace cgroup in
    walkUp exists_ (count curr "/") curr.

Definition parseV2CPULimits (maxBuf : string) : ErrorOr linuxCPULimits :=
  match split_max maxBuf " " 2 with
  | [] => Error "can't parse empty CPU max and period"
  | first :: rest =>
      match (if String.eqb first "max" then Some (quota_us defaultLimits)
             else getAsInteger_int (trim whitespace first)) with
      | None => Error "can't parse CPU max as an int"
      | Some quota =>
          match rest with
          | [second] =>
              match getAsInteger_int (trim whitespace second) with
              | None => Error "can't parse CPU period as an int"
              | Some period => Success (mkLimits quota period)
              end
          | _ => Success (mkLimits quota (period_us defaultLimits))
          end
      end
  end.

(** ** [Detail::getLinuxCPULimits] *)

Section Lookup.
(** [fileBuffer], and [std::filesystem::exists]. *)
Variable fileBuffer : string → option string.
Variable exists_ : string → bool.

Definition isV1Layout : bool :=
  match fileBuffer "/sys/fs/cgroup/cgroup.controllers" with
  | Some controllers => negb (existsb (fun str => String.eqb str "cpu") (split_max controllers " " 2))
  | None => true
  end.

(** [None] from the out-of-range access; every failure gives the defaults. *)
Definition readLimits : option linuxCPULimits :=
  match fileBuffer "/proc/self/cgroup" with
  | None => Some defaultLimits
  | Some cgroupBuf =>
      if isV1Layout then
        errOrCgroup ← parseV1CPUCgroupFile cgroupBuf;
        Some match errOrCgroup with
        | Error _ => defaultLimits
        | Success cgroup =>
            match fileBuffer ("/sys/fs/cgroup/cpu/" ++ cgroup ++ "/cpu.cfs_quota_us"),
                  fileBuffer ("/sys/fs/cgroup/cpu/" ++ cgroup ++ "/cpu.cfs_period_us") with
            | Some quotaBuf, Some periodBuf =>
                match parseV1CPULimits quotaBuf periodBuf with
                | Success limits => limits
                | Error _ => defaultLimits
                end
            | _, _ => defaultLimits
            end
        end
      else
        Some match parseV2CPUCgroupFile cgroupBuf exists_ with
        | Error _ => defaultLimits
        | Success cgroup =>
            match fileBuffer (cpuMaxPath cgroup) with
            | None => defaultLimits
            | Some maxBuf =>
                match parseV2CPULimits maxBuf with
                | Success limits => limits
                | Error _ => defaultLimits
                end
            end
        end
  end.

Definition getLinuxCPULimits : option linuxCPULimits :=
  limits ← readLimits;
  Some (if negb (quota_us limits =? -1) && (quota_us limits <? 1000) then defaultLimits
        else if (period_us limits <? 1000) || (period_us limits >? 1000000) then defaultLimits
        else limits).

End Lookup.

(** [linuxCPULimits::toMillicores], in [uint64_t]. *)
Definition toMillicores (l : linuxCPULimits) : option Z :=
  if (quota_us l >=? 0) && (period_us l >? 0)
  then Some ((1000 * quota_us l) mod 2 ^ 64 / period_us l)
  else None.

(** ** What the limits mean *)

Definition validLimits (l : linuxCPULimits) : Prop :=
  (quota_us l = -1 ∨ 1000 ≤ quota_us l < 2 ^ 31) ∧ 1000 ≤ period_us l ≤ 1000000.

Lemma parseV1CPULimits_int q p l : parseV1CPULimits q p = Success l →
  quota_us l < 2 ^ 31 ∧ period_us l < 2 ^ 31.
Proof.
  unfold parseV1CPULimits. destruct (getAsInteger_int (trim _ q)) eqn:E1; [|done].
  destruct (getAsInteger_int (trim _ p)) eqn:E2; [|done]. intros [= <-]. simpl.
  apply getAsInteger_int_bounds in E1, E2. lia.
Qed.

Lemma parseV2CPULimits_int b l : parseV2CPULimits b = Success l →
  quota_us l < 2 ^ 31 ∧ period_us l < 2 ^ 31.
Proof.
  unfold parseV2CPULimits. destruct (split_max b " " 2) as [|f rest]; [done|].
  destruct (if String.eqb f "max" then _ else _) as [q|] eqn:Eq; [|done].
  assert (q < 2 ^ 31).
  { destruct (String.eqb f "max"); [injection Eq as <-; simpl; lia|].
    apply getAsInteger_int_bounds in Eq. lia. }
  destruct rest as [|s [|? ?]]; try (intros [= <-]; simpl; lia).
  destruct (getAsInteger_int (trim whitespace s)) eqn:E; [|discriminate]. intros [= <-]. simpl.
  apply getAsInteger_int_bounds in E. lia.
Qed.

Lemma readLimits_int fileBuffer exists_ l : readLimits fileBuffer exists_ = Some l →
  quota_us l < 2 ^ 31 ∧ period_us l < 2 ^ 31.
Proof.
  unfold readLimits.
  destruct (fileBuffer "/proc/self/cgroup") as [cg|]; [|intros [= <-]; simpl; lia].
  destruct (isV1Layout fileBuffer).
  - intros (e & _ & H)%bind_Some. injection H as <-.
    destruct e; [|simpl; lia]. repeat case_match; simpl; try lia. by eapply parseV1CPULimits_int.
  - intros [= <-]. repeat case_match; simpl; try lia. by eapply parseV2CPULimits_int.
Qed.

(** Whatever the control-group files contain, the limits returned are
    within the kernel's documented bounds, the default when the files are not;
    and the millicores computed from them are exact: no wrap-around, at least
    one millicore, and unlimited exactly when there is no quota. *)
Theorem getLinuxCPULimits_spec fileBuffer exists_ l :
  getLinuxCPULimits fileBuffer exists_ = Some l →
  validLimits l ∧
  (toMillicores l = None ↔ quota_us l = -1) ∧
  (∀ m, toMillicores l = Some m → m = 1000 * quota_us l / period_us l ∧ 1 ≤ m < 2 ^ 32).
Proof.
  unfold getLinuxCPULimits. intros (r & Hr & H)%bind_Some. injection H as <-.
  apply readLimits_int in Hr.
  set (l := if _ && _ then _ else _).
  assert (Hv : validLimits l).
  { unfold validLimits, l. destruct (_ && _) eqn:E1; [simpl; lia|].
    destruct (_ || _) eqn:E2; [simpl; lia|].
    apply orb_false_iff in E2 as [E2 E3]. bool_to_prop.
    destruct (Z.eqb_spec (quota_us r) (-1)); simpl in E1; bool_to_prop; lia. }
  split; [done|]. destruct Hv as [Hq Hp]. unfold toMillicores.
  destruct (Z.eq_dec (quota_us l) (-1)) as [E|E].
  { rewrite E. simpl. by split. }
  assert (1000 ≤ quota_us l < 2 ^ 31) as Hq' by lia.
  rewrite (proj2 (Z.geb_le _ _)) by lia. rewrite (proj2 (Z.gtb_lt _ _)) by lia. simpl.
  rewrite Z.mod_small by lia. split; [done|]. intros m [= <-]. split; [done|].
  split; [apply Z.div_le_lower_bound; lia|]. apply Z.div_lt_upper_bound; lia.
Qed.

(** The prefixes of a cgroup path, the deepest first. *)
Fixpoint ancestors (fuel : nat) (curr : string) : list string :=
  match fuel with
  | O => [curr]
  | S fuel =>
      match rfind curr "/" with
      | Some p => curr :: ancestors fuel (take_front curr p)
      | None => [curr]
      end
  end.

Lemma walkUp_spec exists_ levels curr : countChar "/" curr = levels →
  walkUp exists_ levels curr =
  match List.find (fun c => exists_ (cpuMaxPath c)) (ancestors levels curr) with
  | Some c => Success c
  | None => Error "could not resolve CPU max file"
  end.
Proof.
  revert curr. induction levels as [|levels IH]; intros curr Hc; cbn [walkUp ancestors].
  - simpl. destruct (exists_ (cpuMaxPath curr)); [done|].
    rewrite rfind_spec. destruct (lastIndexOf "/" curr) as [n|] eqn:E; [|done].
    apply lastIndexOf_take in E. lia.
  - rewrite rfind_spec. destruct (lastIndexOf "/" curr) as [n|] eqn:E.
    + simpl. destruct (exists_ (cpuMaxPath curr)); [done|]. rewrite take_front_spec.
      apply IH. apply lastIndexOf_take in E. lia.
    + apply lastIndexOf_none in E. lia.
Qed.

(** The version 2 lookup tries the group and then each of its ancestors,
    the deepest first, and answers with the first whose [cpu.max] exists; it
    is an error exactly when the file names no group or no level has one. *)
Theorem parseV2CPUCgroupFile_spec buf exists_ :
  let cgroup := findV2Cgroup (split_all buf "010" false) in
  let levels := ancestors (countChar "/" (trim whitespace cgroup)) (trim whitespace cgroup) in
  match parseV2CPUCgroupFile buf exists_ with
  | Success c =>
      cgroup ≠ "" ∧ ∃ deeper shallower, levels = app deeper (c :: shallower) ∧
        exists_ (cpuMaxPath c) = true ∧ Forall (fun d => exists_ (cpuMaxPath d) = false) deeper
  | Error e =>
      (cgroup = "" ∧ e = "could not parse v2 CPU cgroup") ∨
      (Forall (fun d => exists_ (cpuMaxPath d) = false) levels ∧ e = "could not resolve CPU max file")
  end.
Proof.
  cbv zeta. unfold parseV2CPUCgroupFile.
  set (cgroup := findV2Cgroup _). destruct (isEmpty cgroup) eqn:E.
  { left. by destruct cgroup. }
  assert (Hne : cgroup ≠ "") by (by intros H; rewrite H in E).
  rewrite count_spec, walkUp_spec by done. clearbody cgroup.
  generalize (ancestors (countChar "/" (trim whitespace cgroup)) (trim whitespace cgroup)) as levels.
  induction levels as [|c levels IH]; simpl; [by right|].
  destruct (exists_ (cpuMaxPath c)) eqn:Ec.
  - split; [done|]. exists [], levels. by split_and!.
  - destruct (List.find _ levels) as [d|].
    + split; [done|]. destruct IH as (_ & dp & sh & -> & Hd & Hf). exists (c :: dp), sh.
      split_and!; [done|done|by constructor].
    + destruct IH as [[? _]|[Hf _]]; [done|]. right. split; [by constructor|done].
Qed.

End CPULimits.

#[local] Existing Instance llvm_stringref.

Definition line (s : string) : string := s ++ String "010" "".

(** A version 2 system whose group [/a/b] inherits the limit of [/a]. *)
Definition sampleFiles (controllers : string) (path : string) : option string :=
  if String.eqb path "/sys/fs/cgroup/cgroup.controllers" then Some (line controllers)
  else if String.eqb path "/proc/self/cgroup" then Some (line "0::/a/b")
  else if String.eqb path "/sys/fs/cgroup//a/cpu.max" then Some (line "150000 100000")
  else None.
Definition sampleExists (path : string) : bool :=
  match sampleFiles "" path with Some _ => true | None => false end.

Lemma getLinuxCPULimits_spec_witness :
  getLinuxCPULimits (sampleFiles "cpuset cpu io") sampleExists = Some (mkLimits 150000 100000) ∧
  toMillicores (mkLimits 150000 100000) = Some 1500 ∧ validLimits (mkLimits 150000 100000).
Proof.
  assert (H : getLinuxCPULimits (sampleFiles "cpuset cpu io") sampleExists =
              Some (mkLimits 150000 100000)) by (vm_compute; reflexivity).
  split; [exact H|]. split; [reflexivity|].
  exact (proj1 (getLinuxCPULimits_spec _ _ _ H)).
Defined.

(** The version 2 hierarchy is missed when [cpu] is the last controller
    the kernel lists: its name is compared with the newline that ends the file
    still attached, so the quota of the group is ignored and the limits are
    the unlimited default. *)
Theorem cpu_controller_last_is_missed :
  getLinuxCPULimits (sampleFiles "cpuset cpu io") sampleExists = Some (mkLimits 150000 100000) ∧
  isV1Layout (sampleFiles "cpuset cpu") = true ∧
  (∀ path, path ≠ "/sys/fs/cgroup/cgroup.controllers" →
     sampleFiles "cpuset cpu" path = sampleFiles "cpuset cpu io" path) ∧
  parseV1CPUCgroupFile (line "0::/a/b") = Some (Error "could not parse v1 CPU cgroup") ∧
  getLinuxCPULimits (sampleFiles "cpuset cpu") sampleExists = Some defaultLimits.
Proof.
  split; [reflexivity|]. split; [reflexivity|]. split; [|by split].
  intros path Hp. unfold sampleFiles. by rewrite (proj2 (String.eqb_neq _ _) Hp).
Qed.

End CPULimits.
