(* ===== verification/CPUTopology.v ===== *)
(** The processor topology of Support/lib/Threading/HWInfo.cpp: reading
    /proc/cpuinfo into sockets, physical and virtual cores, the choice of CPU
    ids for a number of threads, and the count of performance cores. *)
From stdpp Require Import sorting.
From S2P Require Import Prelude StringRef.

#[local] Open Scope string_scope.
#[local] Open Scope Z_scope.

Module CPUTopology.

#[local] Abbreviation length := List.length (only parsing).

(** [CPUSystemInfo] of HWInfo.h. *)
Record PhysicalCore := mkCore { virtualCores : list Z }.
Record Socket := mkSocket { physicalCores : list PhysicalCore }.
Abbreviation CPUSystemInfo := (list Socket).

(** [~0] as a [size_t]. *)
Definition kNoAffinity : Z := 2 ^ 64 - 1.

(** ** [getLinuxX86CPUSystemInfoImpl] *)

Record Entry := mkEntry { physicalId : Z; coreId : Z; processor : Z }.
Definition freshEntry : Entry := mkEntry (-1) (-1) (-1).

(** [operator<=] from [operator<] on [std::tie]. *)
Definition entry_le (a b : Entry) : Prop :=
  physicalId a < physicalId b ∨
  physicalId a = physicalId b ∧
    (coreId a < coreId b ∨ coreId a = coreId b ∧ processor a ≤ processor b).

#[export] Instance entry_le_dec a b : Decision (entry_le a b).
Proof. unfold entry_le. apply _. Defined.

Definition illFormed : string := "ill-formed /proc/cpuinfo output".

(** [back()] of a vector, updated in place; [None] on an empty vector. *)
Fixpoint alterLast {A} (f : A → option A) (l : list A) : option (list A) :=
  match l with
  | [] => None
  | [x] => y ← f x; Some [y]
  | x :: l => l' ← alterLast f l; Some (x :: l')
  end.

Section Parse.
Context {SR : StringRefOps}.
(** [CPU_ISSET(cpu, &availableCpus)]. *)
Variable isAvailable : Z → bool.

(** One line of the file, on [entries] and [currEntry]. *)
Definition readLine (line : string) (st : list Entry * Entry) : ErrorOr (list Entry * Entry) :=
  let '(entries, curr) := st in
  let '(first, second) := split line ":" in
  let name := trim whitespace first in
  let val := trim whitespace second in
  if String.eqb name "processor" then
    match getAsInteger_int val with
    | None => Error illFormed
    | Some v => Success (entries, mkEntry (physicalId curr) (coreId curr) v)
    end
  else if String.eqb name "physical id" then
    match getAsInteger_int val with
    | None => Error illFormed
    | Some v => Success (entries, mkEntry v (coreId curr) (processor curr))
    end
  else if String.eqb name "core id" then
    match getAsInteger_int val with
    | None => Error illFormed
    | Some v =>
        let curr := mkEntry (physicalId curr) v (processor curr) in
        if (physicalId curr <? 0) || (coreId curr <? 0) || (processor curr <? 0)
        then Error illFormed
        else if isAvailable (processor curr) then Success (app entries [curr], freshEntry)
        else Success (entries, curr)
    end
  else Success (entries, curr).

Fixpoint readLines (lines : list string) (st : list Entry * Entry) : ErrorOr (list Entry) :=
  match lines with
  | [] => Success (fst st)
  | line :: lines => st ← readLine line st; readLines lines st
  end.

Definition addVirtualCore (p : Z) (c : PhysicalCore) : option PhysicalCore :=
  Some (mkCore (app (virtualCores c) [p])).

(** One iteration of the loop that builds the system info. *)
Definition addEntry (acc : CPUSystemInfo * Entry) (entry : Entry) : option (CPUSystemInfo * Entry) :=
  let '(sockets, prevEntry) := acc in
  let newSocket := negb (physicalId entry =? physicalId prevEntry) in
  let newCore := newSocket || negb (coreId entry =? coreId prevEntry) in
  let sockets := if newSocket then app sockets [mkSocket []] else sockets in
  sockets ← alterLast (fun socket =>
      let cores := physicalCores socket in
      let cores := if newCore then app cores [mkCore []] else cores in
      cores ← alterLast (addVirtualCore (processor entry)) cores;
      Some (mkSocket cores)) sockets;
  Some (sockets, entry).

Fixpoint addEntries (acc : CPUSystemInfo * Entry) (entries : list Entry) : option (CPUSystemInfo * Entry) :=
  match entries with
  | [] => Some acc
  | e :: entries => acc ← addEntry acc e; addEntries acc entries
  end.

(** [None]: [back()] of an empty vector. *)
Definition getLinuxX86CPUSystemInfoImpl (buf : string) : option (ErrorOr CPUSystemInfo) :=
  match readLines (split_all buf "010" false) ([], freshEntry) with
  | Error e => Some (Error e)
  | Success entries =>
      '(systemInfo, _) ← addEntries ([], freshEntry) (merge_sort entry_le entries);
      Some (Success systemInfo)
  end.

(** ** Specification: the topology with its numbers *)

Record NCore := mkNCore { n_coreId : Z; n_cpus : list Z }.
Record NSocket := mkNSocket { n_physicalId : Z; n_cores : list NCore }.

Definition eraseCore (c : NCore) : PhysicalCore := mkCore (n_cpus c).
Definition eraseSocket (s : NSocket) : Socket := mkSocket (map eraseCore (n_cores s)).

(** The entries a numbered topology stands for, in order. *)
Definition coreEntries (pid : Z) (c : NCore) : list Entry :=
  map (mkEntry pid (n_coreId c)) (n_cpus c).
Definition socketEntries (s : NSocket) : list Entry :=
  flat_map (coreEntries (n_physicalId s)) (n_cores s).

(** No core is empty, and the numbers increase. *)
Definition wfSocket (s : NSocket) : Prop :=
  n_cores s ≠ [] ∧ Forall (fun c => n_cpus c ≠ []) (n_cores s) ∧
  StronglySorted Z.lt (map n_coreId (n_cores s)).
Definition wfTopology (t : list NSocket) : Prop :=
  Forall wfSocket t ∧ StronglySorted Z.lt (map n_physicalId t).

Lemma alterLast_snoc {A} (f : A → option A) l x y : f x = Some y →
  alterLast f (app l [x]) = Some (app l [y]).
Proof.
  intros Hf. induction l as [|z l IH]; simpl; [by rewrite Hf|].
  rewrite IH. by destruct l.
Qed.

Lemma sorted_snoc (l : list Z) y x : StronglySorted Z.lt (app l [y]) → y < x →
  StronglySorted Z.lt (app (app l [y]) [x]).
Proof.
  induction l as [|z l IH]; simpl; intros Hs Hlt.
  - repeat constructor; lia.
  - apply StronglySorted_inv in Hs as [Hs Hz]. constructor; [by apply IH|].
    apply Forall_app. split; [done|]. apply Forall_app in Hz as [_ Hz].
    apply Forall_cons in Hz as [? _]. repeat constructor. lia.
Qed.

(** The loop's state: an erased numbered topology whose last entry is
    [prevEntry]. *)
Definition BuildInv (seen : list Entry) (acc : CPUSystemInfo * Entry) : Prop :=
  ∃ t, wfTopology t ∧ fst acc = map eraseSocket t ∧ flat_map socketEntries t = seen ∧
    (t = [] ∧ snd acc = freshEntry ∨
     ∃ t0 pid cs cid ps p, t = app t0 [mkNSocket pid (app cs [mkNCore cid (app ps [p])])] ∧
       snd acc = mkEntry pid cid p).

Lemma flat_map_snoc {A B} (f : A → list B) l x : flat_map f (app l [x]) = app (flat_map f l) (f x).
Proof. by rewrite flat_map_app; simpl; rewrite app_nil_r. Qed.

Lemma socketEntries_snoc pid cs c :
  socketEntries (mkNSocket pid (app cs [c])) =
  app (flat_map (coreEntries pid) cs) (coreEntries pid c).
Proof. unfold socketEntries. apply flat_map_snoc. Qed.

Lemma coreEntries_snoc pid cid ps p :
  coreEntries pid (mkNCore cid (app ps [p])) =
  app (coreEntries pid (mkNCore cid ps)) [mkEntry pid cid p].
Proof. unfold coreEntries. simpl. by rewrite map_app. Qed.

(** A new socket: its number is above the last one. *)
Lemma addEntry_socket seen sys prev pid cid p :
  BuildInv seen (sys, prev) → physicalId prev < pid →
  ∃ acc, addEntry (sys, prev) (mkEntry pid cid p) = Some acc ∧
    BuildInv (app seen [mkEntry pid cid p]) acc.
Proof.
  intros (t & [Hwf Hs] & Hsys & Hseen & Hlast) Hlt. cbn [fst snd] in *.
  unfold addEntry. cbn [physicalId coreId processor].
  rewrite (proj2 (Z.eqb_neq pid (physicalId prev))) by lia. cbn [negb orb].
  rewrite (alterLast_snoc _ sys (mkSocket []) (mkSocket [mkCore [p]])) by done.
  eexists. split; [reflexivity|].
  exists (app t [mkNSocket pid [mkNCore cid [p]]]). split_and!.
  - split.
    + apply Forall_app. split; [done|]. repeat constructor; done.
    + rewrite map_app. destruct Hlast as [[-> _]|(t0 & pid0 & cs & cid0 & ps & p0 & -> & Hp)].
      * repeat constructor.
      * rewrite map_app in Hs |- *. simpl in *. apply sorted_snoc; [done|]. by rewrite Hp in Hlt.
  - simpl. by rewrite Hsys, map_app.
  - rewrite flat_map_snoc, Hseen. done.
  - right. exists t, pid, [], cid, [], p. done.
Qed.

(** The same socket: a new core, or one more virtual core of the last one. *)
Lemma addEntry_same_socket seen sys prev cid p :
  BuildInv seen (sys, prev) → 0 ≤ physicalId prev → coreId prev ≤ cid →
  ∃ acc, addEntry (sys, prev) (mkEntry (physicalId prev) cid p) = Some acc ∧
    BuildInv (app seen [mkEntry (physicalId prev) cid p]) acc.
Proof.
  intros (t & [Hwf Hs] & Hsys & Hseen & [[_ Hp]|(t0 & pid & cs & cid0 & ps & p0 & -> & Hp)]) Hpid Hle;
    cbn [fst snd] in *; subst prev; [simpl in Hpid; lia|]. cbn [physicalId coreId] in *.
  unfold addEntry. cbn [physicalId coreId processor]. rewrite Z.eqb_refl. cbn [negb orb].
  apply Forall_app in Hwf as [Hwf0 (Hw & _)%Forall_cons]. destruct Hw as (_ & Hne & Hcs).
  cbn [n_cores] in *. rewrite map_app in Hcs. cbn [map n_coreId] in Hcs.
  rewrite Hsys, map_app. cbn [map]. unfold eraseSocket at 2. cbn [n_cores].
  destruct (Z.eqb_spec cid cid0) as [->|Hc]; cbn [negb].
  - rewrite (alterLast_snoc _ _ _ (eraseSocket (mkNSocket pid (app cs [mkNCore cid0 (app (app ps [p0]) [p])])))).
    2: { cbn [physicalCores]. rewrite map_app. cbn [map].
         rewrite (alterLast_snoc _ _ _ (eraseCore (mkNCore cid0 (app (app ps [p0]) [p])))) by done.
         unfold eraseSocket. cbn [n_cores]. by rewrite map_app. }
    eexists. split; [reflexivity|].
    exists (app t0 [mkNSocket pid (app cs [mkNCore cid0 (app (app ps [p0]) [p])])]). split_and!.
    + split; [|by rewrite map_app in Hs |- *]. apply Forall_app. split; [done|]. constructor; [|done].
      split_and!; [by destruct cs| |cbn [n_cores]; by rewrite map_app].
      apply Forall_app in Hne as [? _]. apply Forall_app. split; [done|]. constructor; [|done].
      simpl. by destruct (app ps [p0]).
    + by rewrite map_app.
    + rewrite <- Hseen, !flat_map_snoc, !socketEntries_snoc, (coreEntries_snoc _ _ (app ps [p0])).
      by rewrite !app_assoc.
    + right. by exists t0, pid, cs, cid0, (app ps [p0]), p.
  - rewrite (alterLast_snoc _ _ _
      (eraseSocket (mkNSocket pid (app (app cs [mkNCore cid0 (app ps [p0])]) [mkNCore cid [p]])))).
    2: { cbn [physicalCores].
         rewrite (alterLast_snoc _ _ _ (mkCore [p])) by done.
         unfold eraseSocket. cbn [n_cores]. by rewrite !map_app. }
    eexists. split; [reflexivity|].
    exists (app t0 [mkNSocket pid (app (app cs [mkNCore cid0 (app ps [p0])]) [mkNCore cid [p]])]). split_and!.
    + split; [|by rewrite map_app in Hs |- *]. apply Forall_app. split; [done|]. constructor; [|done].
      split_and!; [by destruct cs| |].
      * cbn [n_cores]. apply Forall_app. split; [done|]. by repeat constructor.
      * cbn [n_cores]. rewrite !map_app. cbn [map n_coreId]. apply sorted_snoc; [done|lia].
    + by rewrite map_app.
    + rewrite <- Hseen, !flat_map_snoc, socketEntries_snoc.
      change (socketEntries (mkNSocket pid (app cs [mkNCore cid0 (app ps [p0])])))
        with (flat_map (coreEntries pid) (app cs [mkNCore cid0 (app ps [p0])])).
      by rewrite app_assoc.
    + right. by exists t0, pid, (app cs [mkNCore cid0 (app ps [p0])]), cid, [], p.
Qed.

Definition validEntry (e : Entry) : Prop := 0 ≤ physicalId e ∧ 0 ≤ coreId e ∧ 0 ≤ processor e.

Lemma addEntries_spec seen acc entries :
  BuildInv seen acc → StronglySorted entry_le entries → Forall validEntry entries →
  Forall (entry_le (snd acc)) entries →
  ∃ acc', addEntries acc entries = Some acc' ∧ BuildInv (app seen entries) acc'.
Proof.
  revert seen acc. induction entries as [|[pid cid p] l IH]; intros seen [sys prev] Hinv Hs Hv Hle;
    cbn [addEntries].
  { eexists. split; [done|]. by rewrite app_nil_r. }
  apply StronglySorted_inv in Hs as [Hs Hse].
  apply Forall_cons in Hv as [(Hpid & Hcid & _) Hv]. apply Forall_cons in Hle as [Hle0 _].
  cbn [physicalId coreId snd] in *.
  assert (∃ acc, addEntry (sys, prev) (mkEntry pid cid p) = Some acc ∧
                 BuildInv (app seen [mkEntry pid cid p]) acc) as (acc & Ha & Hi).
  { unfold entry_le in Hle0. cbn [physicalId coreId processor] in Hle0.
    destruct Hle0 as [?|[Heq Hc]]; [by apply addEntry_socket|]. rewrite <- Heq in *.
    apply addEntry_same_socket; [done|done|lia]. }
  rewrite Ha. cbn [mbind option_bind].
  destruct (IH _ _ Hi Hs Hv) as (acc' & -> & Hi').
  { assert (snd acc = mkEntry pid cid p) as ->; [|done].
    unfold addEntry in Ha. apply bind_Some in Ha as (? & _ & [= <-]). done. }
  exists acc'. split; [done|]. by rewrite <- app_assoc in Hi'.
Qed.

#[local] Instance entry_le_trans : Transitive entry_le.
Proof. intros a b c. unfold entry_le. lia. Qed.
#[local] Instance entry_le_total : Total entry_le.
Proof. intros a b. unfold entry_le. lia. Qed.

(** The entries read are valid and available. *)
Lemma readLines_entries lines st entries :
  Forall (fun e => validEntry e ∧ isAvailable (processor e) = true) (fst st) →
  readLines lines st = Success entries →
  Forall (fun e => validEntry e ∧ isAvailable (processor e) = true) entries.
Proof.
  revert st. induction lines as [|l lines IH]; intros [es curr] Hall; cbn [readLines fst].
  { by intros [= <-]. }
  cbn [mbind ErrorOr_bind]. destruct (readLine l (es, curr)) as [st'|] eqn:E; [|done].
  apply IH. revert E. unfold readLine. destruct (split l ":") as [a b].
  destruct (String.eqb _ "processor"); [destruct (getAsInteger_int _); [|done]; by intros [= <-]|].
  destruct (String.eqb _ "physical id"); [destruct (getAsInteger_int _); [|done]; by intros [= <-]|].
  destruct (String.eqb _ "core id"); [|by intros [= <-]].
  destruct (getAsInteger_int _); [|done]. cbn [physicalId coreId processor].
  destruct (_ || _) eqn:Eo; [done|]. bool_to_prop.
  destruct (isAvailable (processor curr)) eqn:Ea; intros [= <-]; [|done].
  cbn [fst]. apply Forall_app. split; [done|]. repeat constructor; cbn; done || lia.
Qed.

(** Reading /proc/cpuinfo never runs past a vector.  It fails only with
    the ill-formed message; otherwise the result is a well-formed topology (no
    empty socket or core, sockets and cores in increasing order of their
    numbers, each number once) whose cores hold exactly the available
    processors that the file lists, each under its own numbers. *)
Theorem getLinuxX86CPUSystemInfoImpl_spec buf :
  ∃ r, getLinuxX86CPUSystemInfoImpl buf = Some r ∧
    match r with
    | Error e => readLines (split_all buf "010" false) ([], freshEntry) = Error e
    | Success info =>
        ∃ t entries, readLines (split_all buf "010" false) ([], freshEntry) = Success entries ∧
          info = map eraseSocket t ∧ wfTopology t ∧
          flat_map socketEntries t ≡ₚ entries ∧
          Forall (fun e => validEntry e ∧ isAvailable (processor e) = true) entries
    end.
Proof.
  unfold getLinuxX86CPUSystemInfoImpl.
  destruct (readLines _ _) as [entries|e] eqn:E; [|by eexists].
  apply readLines_entries in E as Hall; [|constructor].
  assert (Hperm : merge_sort entry_le entries ≡ₚ entries) by apply merge_sort_Permutation.
  assert (Hv : Forall (fun e => validEntry e ∧ isAvailable (processor e) = true) (merge_sort entry_le entries))
    by (by rewrite Hperm).
  destruct (addEntries_spec [] ([], freshEntry) (merge_sort entry_le entries))
    as ([sys prev] & -> & (t & Hwf & Hsys & Hseen & _)).
  - exists []. split_and!; [split; constructor|done|done|by left].
  - apply (StronglySorted_merge_sort entry_le).
  - eapply Forall_impl; [exact Hv|]. by intros e [? _].
  - eapply Forall_impl; [exact Hv|]. intros e [(? & _) _]. left. cbn. lia.
  - eexists. split; [reflexivity|]. exists t, entries. cbn [fst] in Hsys.
    split_and!; [done|done|done| |done]. rewrite Hseen. exact Hperm.
Qed.

End Parse.

(** The processors the caller may use, or the result of [sched_getaffinity],
    and the text of /proc/cpuinfo or why it cannot be read. *)
Definition getLinuxX86CPUSystemInfo `{StringRefOps} (callersAffinity : (Z → bool) + Z) (cpuinfo : ErrorOr string)
    : option (ErrorOr CPUSystemInfo) :=
  match callersAffinity with
  | inr rc => Some (Error ("can't retrieve schedule affinity for main thread: " ++
                            (if rc <? 0 then "-" ++ decimal (- rc) else decimal rc)))
  | inl isAvailable =>
      match cpuinfo with
      | Error message => Some (Error ("can't open /proc/cpuinfo: " ++ message))
      | Success buf => getLinuxX86CPUSystemInfoImpl isAvailable buf
      end
  end.
Definition CPUSystemInfo_get `{StringRefOps} (supported : bool) (callersAffinity : (Z → bool) + Z) (cpuinfo : ErrorOr string)
    : option (ErrorOr CPUSystemInfo) :=
  if supported then getLinuxX86CPUSystemInfo callersAffinity cpuinfo
  else Some (Error "CPUSystemInfo is not supported by this build").

(** ** [CPUSystemInfo::getPreferredCpuIDs] *)

Section Preferred.
Variable sockets : CPUSystemInfo.

Definition allCores : list PhysicalCore := flat_map physicalCores sockets.

(** The two nested loops of one pass, over a core. *)
Definition passStep (numThreads virtualCoreIndex : nat) (currentPass : list Z) (c : PhysicalCore) : list Z :=
  match virtualCores c !! virtualCoreIndex with
  | Some cpuID =>
      if (length currentPass <? numThreads)%nat then app currentPass [cpuID] else currentPass
  | None => currentPass
  end.
Definition currentPass (numThreads virtualCoreIndex : nat) : list Z :=
  fold_left (fun pass s => fold_left (passStep numThreads virtualCoreIndex) (physicalCores s) pass)
    sockets [].

(** The loop [while (true)]. *)
Fixpoint preferredLoop (fuel : nat) (numThreads virtualCoreIndex : nat) (cpuIDs : list Z)
    : option (list Z) :=
  match fuel with
  | O => None
  | S fuel =>
      let pass := currentPass numThreads virtualCoreIndex in
      let '(virtualCoreIndex, cpuIDs) :=
        if (length pass =? 0)%nat then (O, cpuIDs)
        else if (length pass + length cpuIDs <=? numThreads)%nat
        then (S virtualCoreIndex, app cpuIDs pass)
        else (virtualCoreIndex,
              app cpuIDs (replicate (numThreads - length cpuIDs) kNoAffinity)) in
      if (length cpuIDs =? numThreads)%nat then Some cpuIDs
      else preferredLoop fuel numThreads virtualCoreIndex cpuIDs
  end.

(** Each iteration but a recycling one adds an id, and two recycling ones never
    follow each other. *)
Definition preferredFuel (numThreads : nat) : nat := (2 * numThreads + 2)%nat.

Definition getPreferredCpuIDs (numThreads : nat) : option (list Z) :=
  preferredLoop (preferredFuel numThreads) numThreads 0 [].

(** The ids of a pass before the limit. *)
Definition passIDs (k : nat) : list Z := omap (fun c => virtualCores c !! k) allCores.

Lemma fold_passStep n k cs acc : (length acc ≤ n)%nat →
  fold_left (passStep n k) cs acc = take n (app acc (omap (fun c => virtualCores c !! k) cs)).
Proof.
  revert acc. induction cs as [|c cs IH]; intros acc Hl; simpl.
  - rewrite app_nil_r. by rewrite take_ge.
  - unfold passStep at 2. destruct (virtualCores c !! k) as [x|]; [|by apply IH].
    destruct (Nat.ltb_spec (length acc) n).
    + rewrite IH by (rewrite length_app; simpl; lia). by rewrite <- app_assoc.
    + rewrite IH by done. rewrite !take_app_ge by lia.
      replace (n - length acc)%nat with O by lia. by rewrite !take_0.
Qed.

Lemma currentPass_eq n k : currentPass n k = take n (passIDs k).
Proof.
  unfold currentPass, passIDs, allCores.
  assert (∀ ss acc, fold_left (fun pass s => fold_left (passStep n k) (physicalCores s) pass) ss acc =
                    fold_left (passStep n k) (flat_map physicalCores ss) acc) as ->.
  { induction ss as [|s ss IH]; intros acc; simpl; [done|]. by rewrite fold_left_app, IH. }
  by rewrite fold_passStep by (simpl; lia).
Qed.

(** Ids of the topology, and unpinned threads after them. *)
Definition preferredShape (ids : list Z) : Prop :=
  ∃ pinned m, ids = app pinned (replicate m kNoAffinity) ∧
    Forall (fun x => ∃ k, In x (passIDs k)) pinned.

Definition recycling (k : nat) : nat := if decide (passIDs k = []) then 1 else 0.

Lemma preferredLoop_spec fuel n k ids :
  passIDs 0 ≠ [] → (length ids < n)%nat →
  (2 * (n - length ids) + recycling k < fuel)%nat →
  Forall (fun x => ∃ k, In x (passIDs k)) ids →
  ∃ r rest, preferredLoop fuel n k ids = Some r ∧ length r = n ∧ preferredShape r ∧
    r = app ids rest ∧ (ids = [] → k = O → take n (passIDs 0) `prefix_of` r).
Proof.
  intros H0. revert k ids. induction fuel as [|fuel IH]; intros k ids Hl Hf Hids; [lia|].
  cbn [preferredLoop]. rewrite currentPass_eq, length_take.
  assert (Hrec : ∀ k, (recycling k ≤ 1)%nat) by (intros j; unfold recycling; destruct (decide _); lia).
  assert (Hpass : ∀ k, Forall (fun x => ∃ k, In x (passIDs k)) (take n (passIDs k))).
  { intros j. apply Forall_take, List.Forall_forall. eauto. }
  destruct (Nat.eqb_spec (n `min` length (passIDs k)) 0) as [Hz|Hz].
  - assert (Hk : passIDs k = []) by (apply nil_length_inv; lia).
    rewrite (proj2 (Nat.eqb_neq (length ids) n)) by lia.
    unfold recycling in Hf. rewrite decide_True in Hf by done.
    destruct (IH O ids Hl) as (r & rest & Hr & Hlen & Hs & He & _);
      [unfold recycling; rewrite decide_False by done; lia|done|].
    exists r, rest. split_and!; try done. intros _ ->. done.
  - assert (Hk : passIDs k ≠ []) by (intros Hk; rewrite Hk in Hz; simpl in Hz; lia).
    destruct (Nat.leb_spec (n `min` length (passIDs k) + length ids) n) as [Hle|Hgt].
    + rewrite length_app, length_take.
      destruct (Nat.eqb_spec (length ids + n `min` length (passIDs k)) n) as [He|He].
      * exists (app ids (take n (passIDs k))), (take n (passIDs k)).
        split_and!; [done|rewrite length_app, length_take; lia| |done|].
        -- exists (app ids (take n (passIDs k))), O. rewrite app_nil_r. split; [done|].
           by apply Forall_app.
        -- by intros -> ->.
      * destruct (IH (S k) (app ids (take n (passIDs k)))) as (r & rest & Hr & Hlen & Hs & -> & _).
        -- rewrite length_app, length_take. lia.
        -- rewrite length_app, length_take. specialize (Hrec (S k)). lia.
        -- by apply Forall_app.
        -- exists (app (app ids (take n (passIDs k))) rest), (app (take n (passIDs k)) rest).
           split_and!; [done|done|done|by rewrite app_assoc|]. intros -> ->. by eexists.
    + rewrite length_app, length_replicate.
      rewrite (proj2 (Nat.eqb_eq _ _)) by lia.
      exists (app ids (replicate (n - length ids) kNoAffinity)), (replicate (n - length ids) kNoAffinity).
      split_and!; [done|rewrite length_app, length_replicate; lia|by exists ids, (n - length ids)%nat|done|].
      intros -> _. simpl in Hgt. lia.
Qed.

(** With a virtual core on some physical core, the choice ends within the
    stated number of passes and gives exactly one id per thread: first the
    first virtual cores of the physical cores, in order, then further ids of
    the topology, and only after them threads without affinity. *)
Theorem getPreferredCpuIDs_spec n : passIDs 0 ≠ [] →
  ∃ r, getPreferredCpuIDs n = Some r ∧ length r = n ∧ preferredShape r ∧
    take n (passIDs 0) `prefix_of` r.
Proof.
  intros H0. unfold getPreferredCpuIDs. destruct n as [|n].
  - exists []. split_and!; [|done| |].
    + simpl. rewrite currentPass_eq, take_0. done.
    + exists [], O. by split.
    + rewrite take_0. by exists [].
  - destruct (preferredLoop_spec (preferredFuel (S n)) (S n) 0 [] H0) as (r & rest & Hr & Hl & Hs & _ & Hp).
    + simpl. lia.
    + unfold recycling, preferredFuel. rewrite decide_False by done. simpl. lia.
    + constructor.
    + exists r. split_and!; [done|done|done|by apply Hp].
Qed.

(** Without any first virtual core the loop never ends for a positive
    number of threads: it recycles forever. *)
Theorem getPreferredCpuIDs_diverges n fuel : passIDs 0 = [] → (0 < n)%nat →
  preferredLoop fuel n 0 [] = None.
Proof.
  intros H0 Hn. induction fuel as [|fuel IH]; [done|]. cbn [preferredLoop].
  rewrite currentPass_eq, H0, take_nil. cbn [length Nat.eqb].
  destruct n as [|n]; [lia|]. exact IH.
Qed.

End Preferred.

(** ** [getNumPerformanceCores] *)

Inductive Platform :=
  | Apple (perflevel0 : option Z)
  | LinuxX86
  | OtherPlatform.

Section Performance.
(** [getNumPhysicalCores()]; the [edx] and, on a pinned CPU, the [eax] that
    [cpuid] answers for leaves 7 and 26; the affinity mask of the caller; and
    the masks that [sched_setaffinity] accepts. *)
Variable platform : Platform.
Variable numPhysicalCores : Z.
Variable cpuid7_edx : Z.
Variable cpuid26_eax : Z → Z.
Variable getAffinityOk : bool.
Variable canSet : list Z → bool.
Variable sysInfo : ErrorOr CPUSystemInfo.

(** The state is the affinity mask of the thread. *)
Definition sched_setaffinity (mask : list Z) : State (list Z) bool := fun current =>
  if canSet mask then (true, mask) else (false, current).

Definition isPerformanceCore (cpuID : Z) : bool :=
  Z.land (Z.shiftr (cpuid26_eax cpuID) 24) 255 =? 64.

#[local] Arguments isPerformanceCore : simpl never.
#[local] Arguments Z.land : simpl never.
#[local] Arguments Z.shiftr : simpl never.

(** The innermost loop: whether a virtual core is a performance core; [None]
    when the thread cannot be pinned. *)
Fixpoint probeCore (vcs : list Z) : State (list Z) (option bool) :=
  match vcs with
  | [] => mret (Some false)
  | vc :: vcs =>
      ok ← sched_setaffinity [vc];
      if ok : bool then
        if isPerformanceCore vc then mret (Some true) else probeCore vcs
      else mret None
  end.

Fixpoint countCores (cores : list PhysicalCore) (count : Z) : State (list Z) (option Z) :=
  match cores with
  | [] => mret (Some count)
  | c :: cores =>
      r ← probeCore (virtualCores c);
      match r with
      | None => mret None
      | Some isP => countCores cores (if isP : bool then count + 1 else count)
      end
  end.

(** [None]: the value of an error is taken. *)
Definition getNumPerformanceCores (callersAffinity : list Z) : option (Z * list Z) :=
  match platform with
  | Apple (Some pcores) => Some (if 0 <? pcores then pcores else numPhysicalCores, callersAffinity)
  | Apple None | OtherPlatform => Some (numPhysicalCores, callersAffinity)
  | LinuxX86 =>
      if Z.land (Z.shiftr cpuid7_edx 15) 1 =? 0 then Some (numPhysicalCores, callersAffinity)
      else if negb getAffinityOk then Some (numPhysicalCores, callersAffinity)
      else match sysInfo with
      | Error _ => None
      | Success info =>
          Some ((count ← countCores (allCores info) 0;
                 _ ← sched_setaffinity callersAffinity;
                 mret (match count with
                       | None => numPhysicalCores
                       | Some n => if n =? 0 then numPhysicalCores else n
                       end)) callersAffinity)
      end
  end.

(** The cores with a performance core among their virtual cores. *)
Definition performanceCores (info : CPUSystemInfo) : list PhysicalCore :=
  List.filter (fun c => existsb isPerformanceCore (virtualCores c)) (allCores info).

Lemma probeCore_spec vcs aff : (∀ vc, canSet [vc] = true) →
  fst (probeCore vcs aff) = Some (existsb isPerformanceCore vcs).
Proof.
  intros Hc. revert aff. induction vcs as [|vc vcs IH]; intros aff; [reflexivity|].
  cbn [probeCore existsb]. cbv [mbind State_bind mret State_ret sched_setaffinity]. rewrite Hc.
  destruct (isPerformanceCore vc); [reflexivity|]. apply IH.
Qed.

Lemma countCores_spec cores count aff : (∀ vc, canSet [vc] = true) →
  fst (countCores cores count aff) =
  Some (count + Z.of_nat (length (List.filter (fun c => existsb isPerformanceCore (virtualCores c)) cores))).
Proof.
  intros Hc. revert count aff. induction cores as [|c cores IH]; intros count aff;
    cbn [countCores List.filter].
  - cbv [mret State_ret]. cbn [fst List.length Z.of_nat]. by rewrite Z.add_0_r.
  - cbv [mbind State_bind]. pose proof (probeCore_spec (virtualCores c) aff Hc) as Hp.
    destruct (probeCore (virtualCores c) aff) as [r aff']. cbn [fst] in Hp. subst r.
    rewrite IH. f_equal. destruct (existsb _ _); cbn [List.length]; lia.
Qed.

(** Counting the performance cores puts the thread back on its own
    processors on every path, including the ones where pinning fails halfway;
    and where every processor can be pinned, the answer is the number of
    physical cores having a performance core, or all of them if there is none. *)
Theorem getNumPerformanceCores_spec callers n aff :
  canSet callers = true →
  getNumPerformanceCores callers = Some (n, aff) →
  aff = callers ∧
  (platform = LinuxX86 → (∀ vc, canSet [vc] = true) → getAffinityOk = true →
   Z.land (Z.shiftr cpuid7_edx 15) 1 ≠ 0 → ∀ info, sysInfo = Success info →
   n = (if performanceCores info then numPhysicalCores
        else Z.of_nat (length (performanceCores info)))).
Proof.
  intros Hset. unfold getNumPerformanceCores.
  destruct platform as [[p|]| |]; try (intros [= <- <-]; by split).
  destruct (_ =? 0) eqn:E0; [apply Z.eqb_eq in E0; intros [= <- <-]; split; [done|]; intros _ _ _ Hne; by destruct Hne|].
  destruct getAffinityOk; simpl; [|intros [= <- <-]; by split].
  destruct sysInfo as [info|e]; [|done]. cbv [mbind State_bind].
  destruct (countCores (allCores info) 0 callers) as [c aff'] eqn:Ec.
  cbv [sched_setaffinity mret State_ret]. rewrite Hset. intros [= <- <-]. split; [done|].
  intros _ Hall _ _ info' [= <-].
  pose proof (countCores_spec (allCores info) 0 callers Hall) as Hc. rewrite Ec in Hc.
  simpl in Hc. subst c. fold (performanceCores info). rewrite Z.add_0_l.
  destruct (performanceCores info); [done|]. simpl length.
  by rewrite (proj2 (Z.eqb_neq _ 0)) by lia.
Qed.

End Performance.

(** ** [localMACs] *)

(** llvm/Support/Format.h. *)
Class LLVMFormat := {
  format_hex_no_prefix : Z → string;
  (** "Output N as a fixed width hexadecimal": width 2, upper case. *)
  format_hex_no_prefix_spec : ∀ n, 0 ≤ n < 256 →
    ∃ a b, format_hex_no_prefix n = String a (String b "")
}.

Section MACs.
Context {FMT : LLVMFormat}.

Fixpoint bytesToHexTail (bytes : list Z) : string :=
  match bytes with
  | [] => ""
  | b :: bytes => ":" ++ format_hex_no_prefix b ++ bytesToHexTail bytes
  end.
Definition bytesToHexStr (bytes : list Z) : string :=
  match bytes with
  | [] => ""
  | b :: bytes => format_hex_no_prefix b ++ bytesToHexTail bytes
  end.

(** The address structure of a link-layer interface as the kernel's headers
    lay it out: the hardware address follows a header of twelve bytes. *)
Record sockaddr_ll := mkSockaddr {
  sll_family : list Z;
  sll_protocol : list Z;
  sll_ifindex : list Z;
  sll_hatype : list Z;
  sll_pkttype : Z;
  sll_halen : Z;
  sll_addr : list Z
}.
Definition sockaddrBytes (a : sockaddr_ll) : list Z :=
  app (sll_family a) (app (sll_protocol a) (app (sll_ifindex a) (app (sll_hatype a)
    (sll_pkttype a :: sll_halen a :: sll_addr a)))).
Definition wfSockaddr (a : sockaddr_ll) : Prop :=
  length (sll_family a) = 2%nat ∧ length (sll_protocol a) = 2%nat ∧ length (sll_ifindex a) = 4%nat.

(** The interfaces of [getifaddrs] with an address of the packet family, and
    the adapters of [GetAdaptersInfo]. *)
Definition localMACs_posix (interfaces : list sockaddr_ll) : list string :=
  map (fun a => bytesToHexStr (take 6 (sockaddrBytes a))) interfaces.
Definition localMACs_win32 (adapters : list (list Z * nat)) : list string :=
  map (fun '(address, addressLength) => bytesToHexStr (take addressLength address)) adapters.

(** The same interface with another hardware address. *)
Definition withAddress (mac : list Z) (a : sockaddr_ll) : sockaddr_ll :=
  mkSockaddr (sll_family a) (sll_protocol a) (sll_ifindex a) (sll_hatype a)
             (sll_pkttype a) (sll_halen a) mac.

(** The head of the address structure, which is what is printed on Linux. *)
Definition sockaddrHead (a : sockaddr_ll) : list Z :=
  app (sll_family a) (app (sll_protocol a) (take 2 (sll_ifindex a))).
Lemma localMACs_posix_head interfaces : Forall wfSockaddr interfaces →
  localMACs_posix interfaces = map (fun a => bytesToHexStr (sockaddrHead a)) interfaces.
Proof.
  unfold localMACs_posix. induction 1 as [|a l (H1 & H2 & H3) _ IH]; [done|]. cbn [map]. rewrite IH. do 2 f_equal.
  unfold sockaddrBytes, sockaddrHead. rewrite !take_app_ge by lia. rewrite H1, take_app_le by lia. by rewrite H2.
Qed.
Lemma withAddress_wf macs interfaces : Forall wfSockaddr interfaces → Forall wfSockaddr (zip_with withAddress macs interfaces).
Proof. intros H. revert macs. induction H; intros [|m macs]; by constructor. Qed.
Lemma withAddress_head macs : ∀ interfaces, length macs = length interfaces →
  map (fun a => bytesToHexStr (sockaddrHead a)) (zip_with withAddress macs interfaces)
  = map (fun a => bytesToHexStr (sockaddrHead a)) interfaces.
Proof. induction macs as [|m macs IH]; intros [|a l] Hl; try done. simpl in *. by rewrite IH by lia. Qed.

(** On Linux the strings do not depend on the hardware addresses at all:
    they print the first six bytes of the address structure, which are its
    family, its protocol and half of the interface index. *)
Theorem localMACs_ignores_address interfaces macs :
  Forall wfSockaddr interfaces → length macs = length interfaces →
  localMACs_posix (zip_with withAddress macs interfaces) = localMACs_posix interfaces ∧
  localMACs_posix interfaces =
    map (fun a => bytesToHexStr (app (sll_family a) (app (sll_protocol a) (take 2 (sll_ifindex a))))) interfaces.
Proof.
  intros Hwf Hl. rewrite !localMACs_posix_head by (done || by apply withAddress_wf). by rewrite withAddress_head.
Qed.

End MACs.

(** ** Sample systems *)

#[local] Existing Instance llvm_stringref.

Definition nl (s : string) : string := s ++ String "010" "".
Definition cpuBlock (cpu socket core : string) : string :=
  nl ("processor : " ++ cpu) ++ nl ("physical id : " ++ socket) ++ nl ("core id : " ++ core).

Definition twoCores : CPUSystemInfo :=
  [mkSocket [mkCore [0; 2]; mkCore [1; 3]]].

Lemma getPreferredCpuIDs_spec_witness :
  ∃ r, getPreferredCpuIDs twoCores 3 = Some r ∧ length r = 3%nat.
Proof.
  destruct (getPreferredCpuIDs_spec twoCores 3 ltac:(discriminate)) as (r & H & Hl & _).
  by exists r.
Defined.

Lemma getPreferredCpuIDs_diverges_witness : preferredLoop [] 1000 4 0 [] = None.
Proof. apply getPreferredCpuIDs_diverges; [reflexivity|lia]. Defined.

(** More threads than virtual cores do not always repeat ids: with four
    virtual cores and five threads the fifth thread is left without affinity,
    while with six threads two ids are repeated. *)
Theorem getPreferredCpuIDs_unpinned :
  getPreferredCpuIDs twoCores 5 = Some [0; 1; 2; 3; kNoAffinity] ∧
  getPreferredCpuIDs twoCores 6 = Some [0; 1; 2; 3; 0; 1].
Proof. by split. Qed.

(** A processor outside the affinity set leaves its numbers behind: the
    next processor, though the file gives it no socket, is placed on the
    excluded one's socket; without the excluded processor the same lines are
    reported as ill-formed. *)
Theorem excluded_processor_leaks :
  let orphan := nl "processor : 1" ++ nl "core id : 4" in
  let available := fun cpu => cpu =? 1 in
  getLinuxX86CPUSystemInfoImpl available (cpuBlock "0" "7" "0" ++ orphan) =
    Some (Success [mkSocket [mkCore [1]]]) ∧
  getLinuxX86CPUSystemInfoImpl available orphan = Some (Error illFormed).
Proof. split; reflexivity. Qed.

Lemma getNumPerformanceCores_spec_witness :
  getNumPerformanceCores LinuxX86 2 32768 (fun cpu => if cpu <? 2 then 64 * 2 ^ 24 else 0)
    true (fun _ => true) (Success twoCores) [0; 1; 2; 3] = Some (2, [0; 1; 2; 3]).
Proof.
  destruct (getNumPerformanceCores LinuxX86 2 32768 (fun cpu => if cpu <? 2 then 64 * 2 ^ 24 else 0)
    true (fun _ => true) (Success twoCores) [0; 1; 2; 3]) as [[n aff]|] eqn:E;
    [|vm_compute in E; discriminate E].
  destruct (getNumPerformanceCores_spec _ _ _ _ _ (fun _ => true) _ [0; 1; 2; 3] n aff eq_refl E)
    as [-> Hn].
  rewrite (Hn eq_refl (fun _ => eq_refl) eq_refl ltac:(discriminate) twoCores eq_refl). reflexivity.
Defined.

Lemma localMACs_ignores_address_witness :
  let fmt := Build_LLVMFormat (fun n => String (ascii_of_nat (Z.to_nat n)) (String "0" ""))
               (fun n _ => ex_intro _ _ (ex_intro _ _ eq_refl)) in
  let a := mkSockaddr [17; 0] [0; 3] [2; 0; 0; 0] [1; 0] 0 6 [1; 2; 3; 4; 5; 6] in
  @localMACs_posix fmt [withAddress [9; 9; 9; 9; 9; 9] a] = @localMACs_posix fmt [a].
Proof.
  pose (fmt := Build_LLVMFormat (fun n => String (ascii_of_nat (Z.to_nat n)) (String "0" ""))
               (fun n _ => ex_intro _ _ (ex_intro _ _ eq_refl))).
  pose (a := mkSockaddr [17; 0] [0; 3] [2; 0; 0; 0] [1; 0] 0 6 [1; 2; 3; 4; 5; 6]).
  apply (proj1 (@localMACs_ignores_address fmt [a] [[9; 9; 9; 9; 9; 9]]
    ltac:(repeat constructor) eq_refl)).
Defined.

End CPUTopology.
