(* ===== verification/ThreadAffinity.v ===== *)
(** The choice of processors for the threads of the runtime and the runs with
    an affinity: AsyncRT/lib/Support/ThreadAffinity.cpp.  The core counts and
    the topology are those of [CPUTopology], the limit is that of
    [CPULimits]. *)
From S2P Require Import Prelude StringRef CPULimits CPUTopology.

#[local] Open Scope string_scope.
#[local] Open Scope Z_scope.

Module ThreadAffinity.
Import CPUTopology.

#[local] Abbreviation length := List.length (only parsing).

(** ** [CPULimits::get] *)

(** [None]: the file of the limits is indexed out of range. *)
Definition limitsGet `{StringRefOps} (supported : bool) (fileBuffer : string → option string) (exists_ : string → bool)
    : option (ErrorOr (option Z)) :=
  if supported then
    limits ← CPULimits.getLinuxCPULimits fileBuffer exists_;
    Some (Success (CPULimits.toMillicores limits))
  else Some (Error "CPULimits are not supported by this build").

(** ** [getThreadAffinityCpuIds] *)

Section CpuIds.
(** [__APPLE__]; the counts of cores; the limit of the control group;
    [haveThreadAffinity()]; [CPUSystemInfo::get()]. *)
Variable apple : bool.
Variables performanceCores physicalCores logicalCores : nat.
Variable limitsOr : ErrorOr (option Z).
Variable haveThreadAffinity : bool.
Variable systemInfo : ErrorOr CPUSystemInfo.

(** The rules for no number of threads: whether to use affinity, and how many
    threads. *)
Definition defaultThreads (withAffinity : bool) : bool * nat :=
  if negb (performanceCores =? physicalCores)%nat then ((if apple then false else withAffinity), performanceCores)
  else if withAffinity then (withAffinity, physicalCores)
  else (withAffinity, logicalCores).

(** [std::max<size_t>(1, millicores / 1000)]. *)
Definition threadLimit (millicores : Z) : nat := (1 `max` Z.to_nat (millicores / 1000))%nat.
Definition capByLimits (numThreads : nat) : nat :=
  match limitsOr with
  | Success (Some millicores) => if (threadLimit millicores <? numThreads)%nat then threadLimit millicores else numThreads
  | _ => numThreads
  end.
Definition capByMax (maxThreads numThreads : nat) : nat := if (maxThreads <? numThreads)%nat then maxThreads else numThreads.

(** [None]: the choice of the processors does not end. *)
Definition getThreadAffinityCpuIds (withAffinity : bool) (numThreads maxThreads : nat) : option (list Z) :=
  let '(withAffinity, numThreads) :=
    if (numThreads =? 0)%nat then defaultThreads withAffinity else (withAffinity, numThreads) in
  let numThreads := capByMax maxThreads (capByLimits numThreads) in
  if withAffinity && haveThreadAffinity then
    match systemInfo with
    | Error _ => Some (replicate numThreads kNoAffinity)
    | Success info => getPreferredCpuIDs info numThreads
    end
  else Some (replicate numThreads kNoAffinity).

(** ** How many threads, and where *)

Definition requested (withAffinity : bool) (numThreads : nat) : nat :=
  if (numThreads =? 0)%nat then snd (defaultThreads withAffinity) else numThreads.
Definition pinning (withAffinity : bool) (numThreads : nat) : bool :=
  (if (numThreads =? 0)%nat then fst (defaultThreads withAffinity) else withAffinity) && haveThreadAffinity.

Lemma capByMax_min m n : capByMax m n = (n `min` m)%nat.
Proof. unfold capByMax. destruct (Nat.ltb_spec m n); lia. Qed.
Lemma capByLimits_min n : capByLimits n = match limitsOr with Success (Some m) => (n `min` threadLimit m)%nat | _ => n end.
Proof. unfold capByLimits. destruct limitsOr as [[m|]|]; [|done..]. destruct (Nat.ltb_spec (threadLimit m) n); lia. Qed.

Lemma getThreadAffinityCpuIds_eq withAffinity numThreads maxThreads :
  getThreadAffinityCpuIds withAffinity numThreads maxThreads =
  let n := capByMax maxThreads (capByLimits (requested withAffinity numThreads)) in
  match pinning withAffinity numThreads, systemInfo with
  | true, Success info => getPreferredCpuIDs info n
  | _, _ => Some (replicate n kNoAffinity)
  end.
Proof.
  unfold getThreadAffinityCpuIds, requested, pinning.
  destruct (numThreads =? 0)%nat; [destruct (defaultThreads withAffinity) as [a n]; cbn [fst snd]; destruct a
    |destruct withAffinity]; cbn [andb]; try done; by destruct haveThreadAffinity, systemInfo.
Qed.


End CpuIds.

(** ** A machine with two kinds of cores *)

Lemma preferred_first info n : passIDs info 0 ≠ [] → (n ≤ length (passIDs info 0))%nat →
  getPreferredCpuIDs info n = Some (take n (passIDs info 0)).
Proof.
  intros H0 Hn. destruct (getPreferredCpuIDs_spec info n H0) as (r & -> & Hl & _ & [k Hk]). f_equal.
  apply (f_equal length) in Hk as Hlk. rewrite length_app, length_take, Hl in Hlk.
  assert (k = []) as -> by (apply nil_length_inv; lia). by rewrite app_nil_r in Hk.
Qed.

(** The default on a machine with some performance cores, away from macOS and
    without a limit: as many threads as there are performance cores, put on the
    first physical cores in the order of the topology, whatever their kind.
    The threads are on the performance cores exactly when those come first. *)
Theorem hybrid_pins_first_cores cpuid26_eax info logicalCores systemLimits maxThreads :
  let fast := performanceCores cpuid26_eax info in
  let ids := getThreadAffinityCpuIds false (length fast) (length (allCores info)) logicalCores systemLimits true (Success info) true 0 maxThreads in
  Forall (fun c => virtualCores c ≠ []) (allCores info) →
  systemLimits = Success None →
  fast ≠ [] → length fast ≠ length (allCores info) → (length fast ≤ maxThreads)%nat →
  ids = Some (omap (fun c => head (virtualCores c)) (take (length fast) (allCores info))) ∧
  (ids = Some (omap (fun c => head (virtualCores c)) fast) ↔
   omap (fun c => head (virtualCores c)) (take (length fast) (allCores info)) = omap (fun c => head (virtualCores c)) fast).
Proof.
  intros fast ids Hvc -> Hfast Hne Hmax.
  assert (Hpass : passIDs info 0 = omap (fun c => head (virtualCores c)) (allCores info)).
  { unfold passIDs. clear. induction (allCores info) as [|[[|v vs]] l IH]; csimpl; by rewrite ?IH. }
  assert (Hlen : ∀ k, length (omap (fun c => head (virtualCores c)) (take k (allCores info))) = length (take k (allCores info)) ∧
    omap (fun c => head (virtualCores c)) (take k (allCores info)) = take k (omap (fun c => head (virtualCores c)) (allCores info))).
  { clear -Hvc. induction Hvc as [|c l Hc Hl IH]; intros [|k]; [done..|]. destruct (IH k) as [H1 H2].
    destruct c as [[|v vs]]; [done|]. csimpl. by rewrite H1, H2. }
  assert (Hle : (length fast ≤ length (allCores info))%nat) by apply List.filter_length_le.
  assert (Hall : length (passIDs info 0) = length (allCores info)).
  { rewrite Hpass. destruct (Hlen (length (allCores info))) as [H1 _]. by rewrite firstn_all in H1. }
  assert (Hids : ids = Some (omap (fun c => head (virtualCores c)) (take (length fast) (allCores info)))).
  { subst ids. rewrite getThreadAffinityCpuIds_eq. unfold requested, pinning, defaultThreads. cbn [Nat.eqb].
    rewrite (proj2 (Nat.eqb_neq _ _)) by done. cbn [negb fst snd andb]. rewrite capByMax_min, capByLimits_min, Nat.min_l by done.
    rewrite preferred_first; [|intros E; rewrite E in Hall; destruct fast; [done|simpl in *; lia]|lia].
    by rewrite Hpass, (proj2 (Hlen _)). }
  split; [done|]. rewrite Hids. split; [by intros [= ->]|by intros ->].
Qed.

(** ** [runWithThreadAffinity] *)

(** What the library's function promises: on an error it has not run the work. *)
Class AffinityLib (W : Type) := {
  libRun : Z → (W → W) → W → ErrorOr unit * W;
  libSet : Z → W → ErrorOr unit * W;
  libRun_once : ∀ cpuID workFn w,
    libRun cpuID workFn w = (Success tt, workFn w) ∨ ∃ e, libRun cpuID workFn w = (Error e, w)
}.

Section Run.
Context {W : Type} (run : Z → (W → W) → W → ErrorOr unit * W) (set : Z → W → ErrorOr unit * W).

Definition runWithThreadAffinity (cpuID : Z) (workFn : W → W) (w : W) : W :=
  if cpuID =? kNoAffinity then workFn w
  else match run cpuID workFn w with
       | (Error _, w) => workFn w
       | (Success _, w) => w
       end.
Definition setThreadAffinity (cpuID : Z) (w : W) : W := if cpuID =? kNoAffinity then w else snd (set cpuID w).
End Run.

(** The work of a thread is done exactly once, with or without its processor;
    if the library could fail after the work, it would be done twice. *)
Theorem work_runs_once `{AffinityLib W} cpuID workFn w :
  runWithThreadAffinity libRun cpuID workFn w = workFn w ∧
  (∀ run e, cpuID ≠ kNoAffinity → run cpuID workFn w = (Error e, workFn w) →
   runWithThreadAffinity run cpuID workFn w = workFn (workFn w)).
Proof.
  unfold runWithThreadAffinity. split.
  - destruct (cpuID =? kNoAffinity); [done|]. by destruct (libRun_once cpuID workFn w) as [->|[e ->]].
  - intros run e Hne ->. by rewrite (proj2 (Z.eqb_neq _ _) Hne).
Qed.

(** ** Examples *)


(** Two slow cores that come first, and one fast core. *)
Definition slowFirst : CPUSystemInfo := [mkSocket [mkCore [0]; mkCore [1]; mkCore [2; 3]]].
Definition exampleKind (cpuID : Z) : Z := if cpuID <? 2 then 32 * 2 ^ 24 else 64 * 2 ^ 24.
Lemma hybrid_pins_first_cores_witness :
  getThreadAffinityCpuIds false 1 3 4 (Success None) true (Success slowFirst) true 0 16 = Some [0] ∧
  performanceCores exampleKind slowFirst = [mkCore [2; 3]].
Proof.
  destruct (hybrid_pins_first_cores exampleKind slowFirst 4 (Success None) 16) as [H _];
    [by repeat constructor|done|by vm_compute|by vm_compute|vm_compute; lia|].
  split; [exact H|by vm_compute].
Defined.

Definition exampleAffinity : AffinityLib (list string).
Proof.
  refine (Build_AffinityLib _ (fun cpuID workFn w => if cpuID =? 0 then (Error "no such processor", w) else (Success tt, workFn w)) (fun _ w => (Success tt, w)) _).
  intros cpuID workFn w. destruct (cpuID =? 0); [right; by eexists|by left].
Defined.
Lemma work_runs_once_witness :
  runWithThreadAffinity (@libRun _ exampleAffinity) 0 (fun w => "run" :: w) [] = ["run"] ∧
  runWithThreadAffinity (fun _ workFn w => (Error "not restored", workFn w)) 3 (fun w => "run" :: w) [] = ["run"; "run"].
Proof.
  split.
  - exact (proj1 (work_runs_once (H := exampleAffinity) 0 (fun w => "run" :: w) [])).
  - apply (proj2 (work_runs_once (H := exampleAffinity) 3 (fun w => "run" :: w) [])) with (e := "not restored"); [by vm_compute|done].
Defined.

End ThreadAffinity.
