(* ===== verification/NUMATopology.v ===== *)
(** [NUMATopology] of Support/lib/Threading/HWInfo.cpp: the parser of CPU
    lists, the query of the nodes, their processors and PCI devices, and the
    accessors of the maps it fills. *)
From stdpp Require Import sorting pretty.
From S2P Require Import Prelude StringRef.

#[local] Open Scope string_scope.
#[local] Open Scope Z_scope.

Module NUMATopology.

Section CpuList.
Context {SR : StringRefOps}.

(** [for (size_t i = start; i <= end; ++i)], the increment wrapping. *)
Fixpoint cpuRange (fuel : nat) (i last : Z) : option (list Z) :=
  match fuel with
  | O => None
  | S fuel =>
      if i <=? last then
        l ← cpuRange fuel ((i + 1) mod 2 ^ 64) last; Some (i :: l)
      else Some []
  end.
Definition rangeFuel (start last : Z) : nat := S (Z.to_nat (last - start + 1)).

(** [range.contains('-')], and the two sides of the first dash. *)
Definition parseRange (range : string) : option (ErrorOr (list Z)) :=
  match find_first_of ["-"%char] range with
  | Some _ =>
      let '(startStr, endStr) := split range "-" in
      match getAsInteger_size startStr, getAsInteger_size endStr with
      | Some start, Some last =>
          l ← cpuRange (rangeFuel start last) start last; Some (Success l)
      | _, _ => Some (Error ("Failed to parse CPU range: " ++ range))
      end
  | None =>
      Some match getAsInteger_size range with
      | Some cpuId => Success [cpuId]
      | None => Error ("Failed to parse CPU ID: " ++ range)
      end
  end.

Fixpoint parseRanges (ranges : list string) : option (ErrorOr (list Z)) :=
  match ranges with
  | [] => Some (Success [])
  | range :: ranges =>
      r ← parseRange range;
      match r with
      | Error e => Some (Error e)
      | Success ids =>
          rest ← parseRanges ranges;
          Some match rest with Success ids' => Success (app ids ids') | Error e => Error e end
      end
  end.

(** [None]: a range whose loop does not end within its length. *)
Definition parseCpuList (cpuList : string) : option (ErrorOr (list Z)) :=
  parseRanges (split_all (trim whitespace cpuList) "," false).

(** The numbers from [i] up, [n] of them. *)
Definition consecutive (i : Z) (n : nat) : list Z := map (fun k => i + Z.of_nat k) (seq 0 n).

Lemma consecutive_S i n : consecutive i (S n) = i :: consecutive (i + 1) n.
Proof.
  unfold consecutive. cbn [seq map]. f_equal; [lia|].
  rewrite <- seq_shift, map_map. apply map_ext. intros k. lia.
Qed.

Lemma cpuRange_spec fuel i last : 0 ≤ i → last < 2 ^ 64 - 1 → (Z.to_nat (last - i + 1) < fuel)%nat →
  cpuRange fuel i last = Some (consecutive i (Z.to_nat (last - i + 1))).
Proof.
  intros Hi Hl. revert i Hi. induction fuel as [|fuel IH]; intros i Hi Hf; [lia|].
  cbn [cpuRange]. destruct (Z.leb_spec i last) as [Hle|Hgt].
  - rewrite Z.mod_small by lia. rewrite IH by lia. cbn [mbind option_bind].
    replace (Z.to_nat (last - i + 1)) with (S (Z.to_nat (last - (i + 1) + 1))) by lia.
    by rewrite consecutive_S.
  - by replace (Z.to_nat (last - i + 1)) with O by lia.
Qed.

Lemma cpuRange_diverges fuel i : 0 ≤ i < 2 ^ 64 → cpuRange fuel i (2 ^ 64 - 1) = None.
Proof.
  revert i. induction fuel as [|fuel IH]; intros i Hi; [done|]. cbn [cpuRange].
  rewrite (proj2 (Z.leb_le _ _)) by lia.
  rewrite IH; [done|]. apply Z.mod_pos_bound. lia.
Qed.

(** A range is expanded to its consecutive numbers, none when its ends are
    reversed, and anything that is not two numbers is refused; but a range that
    ends at the largest [size_t] never ends, since the counter wraps to zero. *)
Theorem parseRange_spec a b start last :
  string_forall (fun c => negb (Ascii.eqb "-" c)) a = true →
  getAsInteger_size a = Some start → getAsInteger_size b = Some last →
  (last < 2 ^ 64 - 1 →
   parseRange (a ++ "-" ++ b) = Some (Success (consecutive start (Z.to_nat (last - start + 1))))) ∧
  (last = 2 ^ 64 - 1 → ∀ fuel, cpuRange fuel start last = None).
Proof.
  intros Ha Hs Hl. apply getAsInteger_size_bounds in Hs as Hsb. apply getAsInteger_size_bounds in Hl as Hlb.
  split; [|intros -> fuel; by apply cpuRange_diverges].
  intros Hlast. unfold parseRange. rewrite find_first_of_spec, split_spec.
  rewrite after_app, before_app by exact Ha. change ("-" ++ b) with (String "-" b).
  cbn [after before Ascii.eqb Bool.eqb].
  rewrite string_app_nil.
  assert (is_Some (indexOf (charIn ["-"%char]) (a ++ String "-" b))) as [n ->].
  { clear. induction a as [|c a IH]; simpl; [by eexists|].
    destruct (_ || _); [by eexists|]. destruct IH as [n ->]. by eexists. }
  rewrite Hs, Hl, cpuRange_spec; [done|lia|lia|unfold rangeFuel; lia].
Qed.

End CpuList.

(** [NUMATopology] of HWInfo.h; -1 is [kAnyNumaNode]. *)
Record Topology := mkTopology {
  numaNodes : list Z;
  cpuIdsPerNumaNode : gmap Z (list Z);
  cpuIdToNumaNode : gmap Z Z;
  pciBusesPerNumaNode : gmap Z (list string);
  pciBusToNumaNode : gmap string Z
}.
Definition kAnyNumaNode : Z := -1.
Definition emptyTopology : Topology := mkTopology [] ∅ ∅ ∅ ∅.

Section Query.
Context {SR : StringRefOps}.
(** The names in /sys/devices/system/node, or the error of the iterator; those
    in /sys/bus/pci/devices before an error ends the iteration; [fileBuffer]. *)
Variable nodeEntries : ErrorOr (list string).
Variable pciEntries : list string.
Variable fileBuffer : string → option string.

Definition nodeOfFilename (filename : string) : option Z :=
  match stripPrefix "node" filename with
  | Some _ => getAsInteger_int (drop_front filename 4)
  | None => None
  end.

Definition cpuListPath (node : Z) : string :=
  "/sys/devices/system/node/node" ++ pretty node ++ "/cpulist".

(** The CPU ids of a node; the outer option is the endless range. *)
Definition cpusOfNode (node : Z) : option (option (list Z)) :=
  match fileBuffer (cpuListPath node) with
  | None => Some None
  | Some buf =>
      r ← parseCpuList buf;
      Some match r with Success ids => Some ids | Error _ => None end
  end.

Definition addNode (t : Topology) (node : Z) : option Topology :=
  r ← cpusOfNode node;
  Some match r with
  | None => t
  | Some ids =>
      mkTopology (numaNodes t) (<[node := ids]> (cpuIdsPerNumaNode t))
        (fold_left (fun m cpuId => <[cpuId := node]> m) ids (cpuIdToNumaNode t))
        (pciBusesPerNumaNode t) (pciBusToNumaNode t)
  end.

Fixpoint addNodes (t : Topology) (nodes : list Z) : option Topology :=
  match nodes with
  | [] => Some t
  | node :: nodes => t ← addNode t node; addNodes t nodes
  end.

Fixpoint zeros (n : nat) : string := match n with O => "" | S n => String "0" (zeros n) end.

(** An eight-digit domain, in upper case. *)
Definition normalizePciBusId (pciBusId : string) : string :=
  let padded :=
    match indexOf (Ascii.eqb ":") pciBusId with
    | Some firstColon => if (firstColon <? 8)%nat then zeros (8 - firstColon) ++ pciBusId else pciBusId
    | None => pciBusId
    end in
  string_map to_upper padded.

Definition addDevice (t : Topology) (filename : string) : Topology :=
  let pciBusId := normalizePciBusId filename in
  match fileBuffer ("/sys/bus/pci/devices/" ++ filename ++ "/numa_node") with
  | None => t
  | Some buf =>
      match getAsInteger_int (trim whitespace buf) with
      | None => t
      | Some deviceNumaNode =>
          mkTopology (numaNodes t) (cpuIdsPerNumaNode t) (cpuIdToNumaNode t)
            (<[deviceNumaNode := app (default [] (pciBusesPerNumaNode t !! deviceNumaNode)) [pciBusId]]>
               (pciBusesPerNumaNode t))
            (<[pciBusId := deviceNumaNode]> (pciBusToNumaNode t))
      end
  end.

Definition string_le (a b : string) : Prop := String.leb a b = true.
#[export] Instance string_le_dec a b : Decision (string_le a b).
Proof. unfold string_le. apply _. Defined.

Definition queryNumaTopology : option (ErrorOr Topology) :=
  match nodeEntries with
  | Error message => Some (Error ("Failed to enumerate NUMA nodes: " ++ message))
  | Success filenames =>
      match omap nodeOfFilename filenames with
      | [] => Some (Error "No NUMA nodes found")
      | nodes =>
          t ← addNodes (mkTopology (merge_sort Z.le nodes) ∅ ∅ ∅ ∅) (merge_sort Z.le nodes);
          let t := fold_left addDevice pciEntries t in
          Some (Success (mkTopology (numaNodes t) (cpuIdsPerNumaNode t) (cpuIdToNumaNode t)
                  (merge_sort string_le <$> pciBusesPerNumaNode t) (pciBusToNumaNode t)))
      end
  end.

(** [NUMATopology::get]: the static keeps the first answer. *)
Definition getTopology (cached : option (ErrorOr Topology)) : option (ErrorOr Topology) :=
  match cached with Some r => Some r | None => queryNumaTopology end.

Definition getCpuIdsForNumaNode (t : Topology) (numaNode : Z) : list Z :=
  default [] (cpuIdsPerNumaNode t !! numaNode).
Definition getNumaNodeForCpuId (t : Topology) (cpuId : Z) : Z :=
  default kAnyNumaNode (cpuIdToNumaNode t !! cpuId).
Definition getPciBusesForNumaNode (t : Topology) (numaNode : Z) : list string :=
  default [] (pciBusesPerNumaNode t !! numaNode).
Definition getNumaNodeForPciBus (t : Topology) (pciBusId : string) : Z :=
  default (-1) (pciBusToNumaNode t !! pciBusId).

(** ** The two directions of the maps agree *)

Definition CpuInv (t : Topology) : Prop :=
  (∀ n ids, cpuIdsPerNumaNode t !! n = Some ids → cpusOfNode n = Some (Some ids)) ∧
  (∀ c n, cpuIdToNumaNode t !! c = Some n → c ∈ getCpuIdsForNumaNode t n) ∧
  (∀ n c, c ∈ getCpuIdsForNumaNode t n → is_Some (cpuIdToNumaNode t !! c)).

Definition PciInv (t : Topology) : Prop :=
  (∀ b n, pciBusToNumaNode t !! b = Some n → b ∈ getPciBusesForNumaNode t n) ∧
  (∀ n b, b ∈ getPciBusesForNumaNode t n → is_Some (pciBusToNumaNode t !! b)).

Lemma fold_insert_lookup (ids : list Z) node (m : gmap Z Z) c :
  fold_left (fun m cpuId => <[cpuId := node]> m) ids m !! c =
  if decide (c ∈ ids) then Some node else m !! c.
Proof.
  revert m. induction ids as [|x ids IH]; intros m; cbn [fold_left].
  - rewrite decide_False by (by intros ?%elem_of_nil). done.
  - rewrite IH. destruct (decide (c ∈ ids)) as [Hin|Hin].
    + rewrite decide_True; [done|]. by apply elem_of_cons; right.
    + destruct (decide (c = x)) as [->|Hne].
      * rewrite lookup_insert_eq, decide_True; [done|]. by apply elem_of_cons; left.
      * rewrite lookup_insert_ne by done. rewrite decide_False; [done|].
        by intros [?|?]%elem_of_cons.
Qed.

Lemma addNode_inv t node t' : addNode t node = Some t' → CpuInv t →
  CpuInv t' ∧ numaNodes t' = numaNodes t ∧
  pciBusesPerNumaNode t' = pciBusesPerNumaNode t ∧ pciBusToNumaNode t' = pciBusToNumaNode t.
Proof.
  unfold addNode. intros (r & Hr & H)%bind_Some Hinv. injection H as <-.
  destruct r as [ids|]; [|done]. destruct Hinv as (H1 & H2 & H3).
  split; [|done]. unfold CpuInv, getCpuIdsForNumaNode in *. cbn [cpuIdsPerNumaNode cpuIdToNumaNode].
  assert (Hsame : ∀ n ids', cpuIdsPerNumaNode t !! n = Some ids' → n = node → ids' = ids).
  { intros n ids' Hn ->. specialize (H1 _ _ Hn). congruence. }
  split_and!.
  - intros n ids'. destruct (decide (n = node)) as [->|Hne].
    + rewrite lookup_insert_eq. by intros [= <-].
    + rewrite lookup_insert_ne by done. apply H1.
  - intros c n. rewrite fold_insert_lookup. destruct (decide (c ∈ ids)) as [Hin|Hin].
    + intros [= <-]. by rewrite lookup_insert_eq.
    + intros Hc. specialize (H2 c n Hc). destruct (decide (n = node)) as [->|Hne].
      * rewrite lookup_insert_eq. simpl. destruct (cpuIdsPerNumaNode t !! node) as [ids'|] eqn:E.
        -- simpl in H2. by rewrite (Hsame node ids' E eq_refl) in H2.
        -- by apply elem_of_nil in H2.
      * by rewrite lookup_insert_ne by done.
  - intros n c. rewrite fold_insert_lookup. destruct (decide (c ∈ ids)) as [Hin|Hin]; [eauto|].
    destruct (decide (n = node)) as [->|Hne].
    + by rewrite lookup_insert_eq.
    + rewrite lookup_insert_ne by done. apply H3.
Qed.

Lemma addNodes_inv nodes t t' : addNodes t nodes = Some t' → CpuInv t →
  CpuInv t' ∧ numaNodes t' = numaNodes t ∧
  pciBusesPerNumaNode t' = pciBusesPerNumaNode t ∧ pciBusToNumaNode t' = pciBusToNumaNode t.
Proof.
  revert t. induction nodes as [|n nodes IH]; intros t; simpl; [by intros [= <-]|].
  intros (t1 & H1 & H2)%bind_Some Hinv.
  destruct (addNode_inv _ _ _ H1 Hinv) as (Hi & Hn & Hp & Hq).
  destruct (IH _ H2 Hi) as (Hi' & Hn' & Hp' & Hq'). split_and!; congruence || done.
Qed.

Lemma addDevice_inv t f : PciInv t →
  PciInv (addDevice t f) ∧ numaNodes (addDevice t f) = numaNodes t ∧
  cpuIdsPerNumaNode (addDevice t f) = cpuIdsPerNumaNode t ∧
  cpuIdToNumaNode (addDevice t f) = cpuIdToNumaNode t.
Proof.
  intros [H1 H2]. unfold addDevice. destruct (fileBuffer _) as [buf|]; [|done].
  destruct (getAsInteger_int _) as [d|]; [|done]. split; [|done].
  set (b := normalizePciBusId f).
  unfold PciInv, getPciBusesForNumaNode in *. cbn [pciBusesPerNumaNode pciBusToNumaNode]. split.
  - intros b' n. destruct (decide (b' = b)) as [->|Hb].
    + rewrite lookup_insert_eq. intros [= <-]. rewrite lookup_insert_eq. simpl.
      apply elem_of_app. right. by apply list_elem_of_singleton.
    + rewrite lookup_insert_ne by done. intros Hn. specialize (H1 _ _ Hn).
      destruct (decide (n = d)) as [->|Hne].
      * rewrite lookup_insert_eq. simpl. apply elem_of_app. by left.
      * by rewrite lookup_insert_ne by done.
  - intros n b' Hin. destruct (decide (b' = b)) as [->|Hb]; [rewrite lookup_insert_eq; eauto|].
    rewrite lookup_insert_ne by done. apply (H2 n). destruct (decide (n = d)) as [->|Hne].
    + rewrite lookup_insert_eq in Hin. simpl in Hin.
      apply elem_of_app in Hin as [?|?%list_elem_of_singleton]; done.
    + by rewrite lookup_insert_ne in Hin by done.
Qed.

Lemma addDevices_inv l t : PciInv t →
  PciInv (fold_left addDevice l t) ∧ numaNodes (fold_left addDevice l t) = numaNodes t ∧
  cpuIdsPerNumaNode (fold_left addDevice l t) = cpuIdsPerNumaNode t ∧
  cpuIdToNumaNode (fold_left addDevice l t) = cpuIdToNumaNode t.
Proof.
  revert t. induction l as [|f l IH]; intros t Hinv; simpl; [done|].
  destruct (addDevice_inv t f Hinv) as (Hi & Hn & Hp & Hq).
  destruct (IH _ Hi) as (Hi' & Hn' & Hp' & Hq'). split_and!; congruence || done.
Qed.

(** In a topology that the query returns, the nodes are not empty and in
    order, and the two directions of each map agree: the node reported for a
    processor or a PCI bus lists it, and whatever a node lists has a node. *)
Theorem queryNumaTopology_consistent t : queryNumaTopology = Some (Success t) →
  numaNodes t ≠ [] ∧ StronglySorted Z.le (numaNodes t) ∧
  (∀ c n, cpuIdToNumaNode t !! c = Some n → c ∈ getCpuIdsForNumaNode t n) ∧
  (∀ n c, c ∈ getCpuIdsForNumaNode t n → is_Some (cpuIdToNumaNode t !! c)) ∧
  (∀ b n, pciBusToNumaNode t !! b = Some n → b ∈ getPciBusesForNumaNode t n) ∧
  (∀ n b, b ∈ getPciBusesForNumaNode t n → is_Some (pciBusToNumaNode t !! b)).
Proof.
  unfold queryNumaTopology. destruct nodeEntries as [filenames|]; [|done].
  destruct (omap nodeOfFilename filenames) as [|n ns] eqn:En; [done|].
  intros (t1 & H1 & H)%bind_Some. injection H as <-.
  destruct (addNodes_inv _ _ _ H1) as ((_ & Hc1 & Hc2) & Hn & Hp & Hq).
  { split_and!; intros *; cbn; rewrite ?lookup_empty; try done. by intros ?%elem_of_nil. }
  assert (HP : PciInv t1).
  { unfold PciInv, getPciBusesForNumaNode. rewrite Hp, Hq. cbn.
    split; intros *; rewrite ?lookup_empty; [done|]. by intros ?%elem_of_nil. }
  destruct (addDevices_inv pciEntries t1 HP) as ([Hb1 Hb2] & Hn' & Hc & Hd).
  set (t2 := fold_left addDevice pciEntries t1) in *.
  assert (Hbus : ∀ n, getPciBusesForNumaNode (mkTopology (numaNodes t2) (cpuIdsPerNumaNode t2)
      (cpuIdToNumaNode t2) (merge_sort string_le <$> pciBusesPerNumaNode t2) (pciBusToNumaNode t2)) n
      ≡ₚ getPciBusesForNumaNode t2 n).
  { intros m. unfold getPciBusesForNumaNode. cbn [pciBusesPerNumaNode]. rewrite lookup_fmap.
    destruct (pciBusesPerNumaNode t2 !! m); simpl; [apply merge_sort_Permutation|done]. }
  cbn [numaNodes cpuIdToNumaNode pciBusToNumaNode]. split_and!.
  - rewrite Hn', Hn. cbn [numaNodes]. intros Hnil.
    assert (Hperm : merge_sort Z.le (n :: ns) ≡ₚ n :: ns) by apply merge_sort_Permutation.
    rewrite Hnil in Hperm. by apply Permutation_nil_cons in Hperm.
  - rewrite Hn', Hn. cbn [numaNodes]. apply (StronglySorted_merge_sort Z.le).
  - unfold getCpuIdsForNumaNode in *. cbn [cpuIdsPerNumaNode]. rewrite Hc, Hd. apply Hc1.
  - unfold getCpuIdsForNumaNode in *. cbn [cpuIdsPerNumaNode]. rewrite Hc, Hd. apply Hc2.
  - intros b m Hb. rewrite Hbus. by apply Hb1.
  - intros m b Hb. rewrite Hbus in Hb. by eapply Hb2.
Qed.

End Query.

#[local] Existing Instance llvm_stringref.

Lemma parseRange_spec_witness :
  parseRange "3-5" = Some (Success [3; 4; 5]) ∧ cpuRange 1000 0 (2 ^ 64 - 1) = None.
Proof.
  split.
  - apply (proj1 (@parseRange_spec llvm_stringref "3" "5" 3 5 eq_refl
      ltac:(vm_compute; reflexivity) ltac:(vm_compute; reflexivity))). lia.
  - apply (proj2 (@parseRange_spec llvm_stringref "0" "18446744073709551615" 0 (2 ^ 64 - 1) eq_refl
      ltac:(vm_compute; reflexivity) ltac:(vm_compute; reflexivity))).
    reflexivity.
Defined.

(** Two nodes and one device. *)
Definition sampleFile (path : string) : option string :=
  if String.eqb path (cpuListPath 0) then Some "0-1,4"
  else if String.eqb path (cpuListPath 1) then Some "2-3"
  else if String.eqb path "/sys/bus/pci/devices/0000:1a:00.0/numa_node" then Some "1"
  else None.

Lemma queryNumaTopology_consistent_witness :
  ∃ t, queryNumaTopology (Success ["node1"; "possible"; "node0"]) ["0000:1a:00.0"] sampleFile =
         Some (Success t) ∧
    getNumaNodeForCpuId t 3 = 1 ∧ 3 ∈ getCpuIdsForNumaNode t 1 ∧
    getNumaNodeForPciBus t "00000000:1A:00.0" = 1.
Proof.
  destruct (queryNumaTopology (Success ["node1"; "possible"; "node0"]) ["0000:1a:00.0"] sampleFile)
    as [[t|]|] eqn:E; [|vm_compute in E; discriminate E..].
  exists t. split; [done|].
  pose proof (queryNumaTopology_consistent _ _ _ t E) as (_ & _ & H & _).
  vm_compute in E. injection E as <-.
  split; [reflexivity|]. split; [|reflexivity]. apply H. reflexivity.
Defined.

End NUMATopology.
