(* ===== verification/Telemetry.v ===== *)
(** The telemetry context of Support/lib/Telemetry/TelemetryContext.cpp: the
    identifiers of the machine and the session, what is said of the host, and
    the exporters that are set up.  OpenTelemetry, hashes, random numbers and
    the facts about the host are parameters. *)
From stdpp Require Import sorting.
From S2P Require Import Prelude StringRef Configuration CPUTopology.

#[local] Open Scope string_scope.
#[local] Open Scope Z_scope.

Module Telemetry.
Import Config CPUTopology.

#[local] Abbreviation length := List.length (only parsing).

Inductive Level := L0 | L1 | L2.

(** opentelemetry's attribute values. *)
Inductive AttributeValue := VString (s : string) | VStrings (l : list string) | VNumber (z : Z) | VBool (b : bool).
(** Attributes, in the order they are set; a later one replaces an earlier. *)
Abbreviation Attributes := (list (string * AttributeValue)).

(** What a context sends to, and what OpenTelemetry logs of itself. *)
Inductive Exporter :=
  | FileExporter (path : string)
  | HttpExporter (url : string).
Inductive InternalLog := Noop | LogLevel (level : string).

Record LocalIDs := mkLocalIDs { machine : string; session : string }.
Record HostMachineInfo := mkHostInfo {
  cpuModelName : string; cpuArch : string; cpuFeatures : list string; numPhysicalCores : Z; osName : string; osVersion : string
}.
Record ModularVersion := mkVersion { major : Z; minor : Z; patch : Z; label : string; revision : string; buildType : string }.

(** The context; the event is the one sent when the program starts. *)
Record TelemetryContext := mkContext {
  attributes : Attributes;
  telemetryLevel : Level;
  internalLog : option InternalLog;
  metricReaders : list Exporter;
  logProcessors : list Exporter;
  initialized : option Attributes
}.

Section Telemetry.
Context {SR : StringRefOps}.
Variable GetEnv : string → option string.
Variable findConfigWithRunfiles : string → option string.
Variable overrides : KV.
(** [MODULAR_PRODUCTION] and [MODULAR_TELEMETRY_URL]. *)
Variable production : bool.
Variable MODULAR_TELEMETRY_URL : string.
(** Files: whether they exist, and their text. *)
Variable exists_ : string → bool.
Variable getFile : string → option string.

Abbreviation Settings A := (State KV A).
Definition getSetting (key : string) : Settings string := getValue GetEnv findConfigWithRunfiles overrides key.
Definition getSettingAsBool (key : string) (defaultValue : bool) : Settings bool :=
  getValueAsBool GetEnv findConfigWithRunfiles overrides key defaultValue.

Definition isModularEmployee : bool :=
  match GetEnv "HOME" with None => false | Some home => exists_ (path_div home ".modular-internal") end.

(** [None] is a failed assertion. *)
Definition levelFromString (levelStr : string) : option Level :=
  if isEmpty levelStr then Some L1
  else match getAsInteger_int levelStr with
       | Some 0 => Some L0
       | Some 1 => Some L1
       | Some 2 => Some L2
       | _ => None
       end.

Definition startsWith (s prefix : string) : bool := match consume_front s prefix with Some _ => true | None => false end.
Definition configureInternalLogging (internalLogConfig : string) : InternalLog :=
  if isEmpty internalLogConfig || String.eqb internalLogConfig "off" then Noop
  else if String.eqb internalLogConfig "error" then LogLevel "Error"
  else if startsWith internalLogConfig "warn" then LogLevel "Warning"
  else if String.eqb internalLogConfig "info" then LogLevel "Info"
  else if String.eqb internalLogConfig "debug" then LogLevel "Debug"
  else Noop.

Definition isTelemetryEnabled : Settings bool := getSettingAsBool "telemetry.enabled" production.
Definition isCrashReportingEnabled : Settings bool :=
  enabled ← isTelemetryEnabled; getSettingAsBool "crash_reporting.enabled" enabled.

(** ** Identifiers *)

(** The hash of what it was fed, in order, and its text; random bytes. *)
Variable blake3 : list string → string.
Variable encodeURLSafeBase64 : string → string.
Variable randomBytes : string.
(** [localMACs]. *)
Variable localMACs : list string.

(** The static, made by the first call. *)
Definition createLocalIDs : State (option LocalIDs) LocalIDs := fun ids =>
  match ids with
  | Some ids => (ids, Some ids)
  | None =>
      let macs := merge_sort String.le localMACs in
      let ids := mkLocalIDs (encodeURLSafeBase64 (blake3 macs)) (encodeURLSafeBase64 (blake3 (macs ++ [randomBytes])%list)) in
      (ids, Some ids)
  end.

(** [CPULimits::get]: the limit in millicores, when there is one. *)
Variable cpuLimits : ErrorOr (option Z).
Definition getMaxProcessors (hostInfo : HostMachineInfo) : Z :=
  match cpuLimits with
  | Success (Some millicores) => millicores / 1000
  | _ => numPhysicalCores hostInfo
  end.

(** ** The attributes *)

Variable getHostMachineInfo : ErrorOr HostMachineInfo.
Variable getHostCPUName : string.
Variable getHostTotalMemoryKB : ErrorOr Z.
Variable getHostIsInContainer : ErrorOr bool.
Variable getModularVersion : ModularVersion.

Definition hostAttributes : Attributes :=
  match getHostMachineInfo with
  | Success h =>
      [("cpu.description", VString (cpuModelName h)); ("cpu.arch", VString (cpuArch h));
       ("cpu.features", VStrings (cpuFeatures h)); ("cpu.cores", VNumber (numPhysicalCores h));
       ("cpu.max_cores", VNumber (getMaxProcessors h)); ("cpu.model_name", VString (cpuModelName h));
       ("os.type", VString (osName h)); ("os.version", VString (osVersion h))]
  | Error _ => [("cpu.arch", VString getHostCPUName)]
  end.
Definition memoryAttributes : Attributes :=
  ((match getHostTotalMemoryKB with Success kb => [("memory", VNumber kb)] | Error _ => [] end)
   ++ (match getHostIsInContainer with Success b => [("system.in.container", VBool b)] | Error _ => [] end))%list.
Definition versionAttributes : Attributes :=
  let version := getModularVersion in
  [("modular.version.major", VNumber (major version)); ("modular.version.minor", VNumber (minor version));
   ("modular.version.patch", VNumber (patch version)); ("modular.version.label", VString (label version));
   ("modular.version.revision", VString (revision version)); ("modular.version.buildtype", VString (buildType version))].

(** The characters that end the line of the web user's file. *)
Definition lineEnds : list ascii := ["010"; "013"; "012"; "011"]%char.
Definition firstLine (buffer : string) : string :=
  match find_first_of lineEnds buffer with Some n => take_front buffer n | None => buffer end.
Definition webAttributes (webId : string) : Attributes :=
  if isEmpty webId then
    match GetEnv "HOME" with
    | None => []
    | Some homeDir =>
        let webIdFile := path_div (path_div homeDir ".modular") "webUserId" in
        if exists_ webIdFile then
          match getFile webIdFile with
          | Some buffer => if isEmpty (firstLine buffer) then [] else [("web.user.id", VString (firstLine buffer))]
          | None => []
          end
        else []
    end
  else [("web.user.id", VString webId)].

(** ** The constructor *)

Definition exporters (enabled : bool) (filePath httpEndpoint suffix : string) : list Exporter :=
  ((if enabled && negb (isEmpty filePath) then [FileExporter filePath] else [])
   ++ (if enabled && negb (isEmpty httpEndpoint) then [HttpExporter (httpEndpoint ++ suffix)] else []))%list.

(** [called] says whether a context was made before in this process.  The
    level's assertion is the only way to fail. *)
Definition makeContext (ids : LocalIDs) (called : bool) (programName subCommand : string) : Settings (option TelemetryContext) :=
  webId ← getSetting "web.id";
  enabled ← isTelemetryEnabled;
  level ← getSetting "telemetry.level";
  match levelFromString level with
  | None => mret None
  | Some telemetryLevel =>
      internalLog ← (if called then mret None
                     else config ← getSetting "telemetry.internal_log"; mret (Some (configureInternalLogging config)) : Settings (option InternalLog));
      userId ← getSetting "user.id";
      let attrs :=
        (hostAttributes ++ memoryAttributes ++ versionAttributes
         ++ [("machineid", VString (machine ids)); ("sessionid", VString (session ids))]
         ++ webAttributes webId ++ [("modular.employee", VBool isModularEmployee); ("enduser.id", VString userId)]
         ++ (if isEmpty programName then [] else [("program.name", VString programName)]))%list in
      metricsEndpoint ← getSetting "telemetry.exporters.metrics.http_endpoint";
      metricsPath ← getSetting "telemetry.exporters.metrics.file_path";
      logsEndpoint ← getSetting "telemetry.exporters.logs.http_endpoint";
      let logsEndpoint := if isEmpty logsEndpoint then MODULAR_TELEMETRY_URL else logsEndpoint in
      logsPath ← getSetting "telemetry.exporters.logs.file_path";
      event ← (if negb (isEmpty programName) && enabled then
                 crash ← isCrashReportingEnabled;
                 mret (Some (("crash_reporting.enabled", VBool crash)
                             :: if isEmpty subCommand then [] else [("program.sub_command", VString subCommand)]))
               else mret None : Settings (option Attributes));
      mret (Some (mkContext attrs telemetryLevel internalLog
                    (exporters enabled metricsPath metricsEndpoint "/v1/metrics")
                    (exporters enabled logsPath logsEndpoint "/v1/logs") event))
  end.

(** ** Properties *)

(** The value of a setting; reading one changes no value of another. *)
Definition settingOf (kv : KV) (key : string) : string :=
  default "" (firstSome (layers GetEnv findConfigWithRunfiles overrides key kv)).
Definition boolOf (kv : KV) (key : string) (defaultValue : bool) : bool :=
  fst (getSettingAsBool key defaultValue kv).
Definition agree (kv kv' : KV) : Prop := ∀ key, lower key = key →
  firstSome (layers GetEnv findConfigWithRunfiles overrides key kv') = firstSome (layers GetEnv findConfigWithRunfiles overrides key kv).

Lemma getSetting_spec key kv : lower key = key →
  ∃ kv', getSetting key kv = (settingOf kv key, kv') ∧ agree kv kv'.
Proof.
  intros Hk. unfold getSetting, getValue, mbind, State_bind. rewrite maybeGetValue_eq. unfold settingOf.
  destruct (firstSome (layers GetEnv findConfigWithRunfiles overrides key kv)) as [v|] eqn:Hv; [|by exists kv].
  eexists. split; [reflexivity|]. intros k Hlow. unfold layers in *. rewrite Hk in *. rewrite Hlow.
  destruct (decide (k = key)) as [->|Hne].
  - rewrite lookup_insert_eq. simpl in *.
    destruct (overrides !! key), (GetEnv (envName key)), (findConfigWithRunfiles key); simpl in *; congruence.
  - by rewrite lookup_insert_ne.
Qed.

Lemma agree_settingOf kv kv' key : agree kv kv' → lower key = key → settingOf kv' key = settingOf kv key.
Proof. intros H Hk. unfold settingOf. by rewrite H. Qed.

Lemma getSettingAsBool_spec key d kv : lower key = key →
  ∃ kv', getSettingAsBool key d kv = (boolOf kv key d, kv') ∧ agree kv kv'.
Proof.
  intros Hk. destruct (getSetting_spec key kv Hk) as (kv' & E & Ha). exists kv'. split; [|done].
  unfold boolOf, getSettingAsBool, getValueAsBool, mbind, State_bind. fold (getSetting key kv). by rewrite E.
Qed.
Lemma agree_boolOf kv kv' key d : agree kv kv' → lower key = key → boolOf kv' key d = boolOf kv key d.
Proof.
  intros H Hk. unfold boolOf, getSettingAsBool, getValueAsBool, mbind, State_bind.
  fold (getSetting key kv) (getSetting key kv').
  destruct (getSetting_spec key kv Hk) as (k1 & -> & _), (getSetting_spec key kv' Hk) as (k2 & -> & _).
  simpl. by rewrite (agree_settingOf _ _ _ H Hk).
Qed.
Lemma agree_trans a b c : agree a b → agree b c → agree a c.
Proof. intros H1 H2 key Hk. by rewrite H2, H1. Qed.
Lemma agree_refl a : agree a a.
Proof. by intros key _. Qed.

(** The constructor as a function of the values of the settings. *)
Definition contextOf (kv : KV) (ids : LocalIDs) (called : bool) (programName subCommand : string) : option TelemetryContext :=
  let enabled := boolOf kv "telemetry.enabled" production in
  let logsEndpoint := settingOf kv "telemetry.exporters.logs.http_endpoint" in
  level ← levelFromString (settingOf kv "telemetry.level");
  Some (mkContext
    (hostAttributes ++ memoryAttributes ++ versionAttributes
     ++ [("machineid", VString (machine ids)); ("sessionid", VString (session ids))]
     ++ webAttributes (settingOf kv "web.id")
     ++ [("modular.employee", VBool isModularEmployee); ("enduser.id", VString (settingOf kv "user.id"))]
     ++ (if isEmpty programName then [] else [("program.name", VString programName)]))%list
    level
    (if called then None else Some (configureInternalLogging (settingOf kv "telemetry.internal_log")))
    (exporters enabled (settingOf kv "telemetry.exporters.metrics.file_path")
       (settingOf kv "telemetry.exporters.metrics.http_endpoint") "/v1/metrics")
    (exporters enabled (settingOf kv "telemetry.exporters.logs.file_path")
       (if isEmpty logsEndpoint then MODULAR_TELEMETRY_URL else logsEndpoint) "/v1/logs")
    (if negb (isEmpty programName) && enabled
     then Some (("crash_reporting.enabled", VBool (boolOf kv "crash_reporting.enabled" enabled))
                :: if isEmpty subCommand then [] else [("program.sub_command", VString subCommand)])
     else None)).

(** Read the next setting: its value is that of the start. *)
Ltac low_key := rewrite lower_spec; reflexivity.
Ltac read_setting Hag :=
  match goal with
  | |- context [getSetting ?key ?kv] =>
      let E := fresh in let A := fresh in let kv' := fresh "kv" in
      destruct (getSetting_spec key kv ltac:(low_key)) as (kv' & E & A); rewrite E; try rewrite (agree_settingOf _ _ key Hag ltac:(low_key));
      pose proof (agree_trans _ _ _ Hag A) as Hag'; clear E A Hag; rename Hag' into Hag; cbv iota beta
  end.

Lemma isTelemetryEnabled_spec kv : ∃ kv', isTelemetryEnabled kv = (boolOf kv "telemetry.enabled" production, kv') ∧ agree kv kv'.
Proof. apply getSettingAsBool_spec. low_key. Qed.

Lemma isCrashReportingEnabled_spec kv : ∃ kv',
  isCrashReportingEnabled kv = (boolOf kv "crash_reporting.enabled" (boolOf kv "telemetry.enabled" production), kv') ∧ agree kv kv'.
Proof.
  unfold isCrashReportingEnabled, mbind, State_bind. destruct (isTelemetryEnabled_spec kv) as (kv1 & -> & A1).
  set (d := boolOf kv "telemetry.enabled" production).
  destruct (getSettingAsBool_spec "crash_reporting.enabled" d kv1 ltac:(low_key)) as (kv2 & -> & A2).
  exists kv2. split; [|by eapply agree_trans]. by rewrite (agree_boolOf _ _ "crash_reporting.enabled" d A1 ltac:(low_key)).
Qed.

Lemma makeContext_eq ids called programName subCommand kv :
  fst (makeContext ids called programName subCommand kv) = contextOf kv ids called programName subCommand.
Proof.
  unfold makeContext, contextOf, mbind, State_bind, mret, State_ret. pose proof (agree_refl kv) as Hag.
  set (e := boolOf kv "telemetry.enabled" production).
  read_setting Hag.
  destruct (isTelemetryEnabled_spec kv0) as (kv1 & -> & A). rewrite (agree_boolOf _ _ "telemetry.enabled" _ Hag ltac:(low_key)). fold e.
  pose proof (agree_trans _ _ _ Hag A) as Hag'. clear A Hag. rename Hag' into Hag. cbv iota beta.
  read_setting Hag. destruct (levelFromString _) as [level|]; [|done]. simpl option_bind.
  destruct called; [|read_setting Hag]; do 5 read_setting Hag.
  all: destruct (negb (isEmpty programName) && e); [|done].
  all: match goal with |- context [isCrashReportingEnabled ?k] => destruct (isCrashReportingEnabled_spec k) as (kv' & -> & _) end.
  all: rewrite (agree_boolOf _ _ "telemetry.enabled" _ Hag ltac:(low_key)); fold e.
  all: rewrite (agree_boolOf _ _ "crash_reporting.enabled" _ Hag ltac:(low_key)); reflexivity.
Qed.


(** ** The machine's identifier *)

Lemma sorted_macs_unique l k : l ≡ₚ k → merge_sort String.le l = merge_sort String.le k.
Proof.
  intros H. apply (Sorted_unique String.le); [apply (Sorted_merge_sort String.le)..|].
  by rewrite (merge_sort_Permutation String.le l), (merge_sort_Permutation String.le k).
Qed.

End Telemetry.

(** ** The end of a context *)

Inductive Provider := Metrics | UserMetrics | Logger.
Inductive Call := ForceFlush (p : Provider) (timeout : Z) | Shutdown (p : Provider).
Definition providers (hasUserMetrics : bool) : list Provider :=
  Metrics :: (if hasUserMetrics then [UserMetrics] else []) ++ [Logger].
Definition flush (hasUserMetrics : bool) (timeout : Z) : list Call :=
  map (fun p => ForceFlush p timeout) (providers hasUserMetrics).
Definition destroyContext (hasUserMetrics : bool) (kShutdownFlushTimeout : Z) : list Call :=
  (flush hasUserMetrics kShutdownFlushTimeout ++ map Shutdown (providers hasUserMetrics))%list.

(** Whatever there is is flushed before anything is shut down. *)
Lemma flushed_before_shutdown hasUserMetrics timeout p i : destroyContext hasUserMetrics timeout !! i = Some (Shutdown p) →
  ∀ q, q ∈ providers hasUserMetrics → ∃ j, (j < i)%nat ∧ destroyContext hasUserMetrics timeout !! j = Some (ForceFlush q timeout).
Proof.
  unfold destroyContext, flush. intros Hi q Hq. apply lookup_app_Some in Hi as [Hi|[Hlen _]].
  { rewrite lookup_map in Hi. by destruct (providers hasUserMetrics !! i). }
  apply list_elem_of_lookup in Hq as [j Hj]. exists j. apply lookup_lt_Some in Hj as Hlt. rewrite length_map in Hlen.
  split; [lia|]. apply lookup_app_l_Some. by rewrite lookup_map, Hj.
Qed.

(** The identifiers of a machine and of a session.  They are made once in a
    process and do not depend on the order in which the interfaces are listed.
    On Linux they do not depend on the hardware addresses of the interfaces
    either: two machines whose interfaces have the same families, protocols
    and indices have the same identifier, whatever their addresses are. *)
Theorem machine_id_ignores_hardware `{LLVMFormat} blake3 encode randomBytes interfaces macs listed :
  Forall wfSockaddr interfaces → length macs = length interfaces →
  listed ≡ₚ localMACs_posix (zip_with withAddress macs interfaces) →
  let '(ids, ids') := createLocalIDs blake3 encode randomBytes listed None in
  machine ids = encode (blake3 (merge_sort String.le (map (fun a => bytesToHexStr (sockaddrHead a)) interfaces)))
  ∧ ∀ randomBytes' localMACs', createLocalIDs blake3 encode randomBytes' localMACs' ids' = (ids, ids').
Proof.
  intros Hwf Hlen Hp. simpl. split; [|done].
  rewrite (sorted_macs_unique _ _ Hp), localMACs_posix_head by (by apply withAddress_wf). by rewrite withAddress_head.
Qed.

(** ** Witnesses *)

Definition exampleHost : ErrorOr HostMachineInfo := Success (mkHostInfo "cpu" "arch" ["avx"] 8 "linux" "6.1").
Definition exampleContext (kv : KV) : option TelemetryContext :=
  fst (makeContext (SR := llvm_stringref) (fun _ => None) (fun _ => None) ∅ false "https://vendor" (fun _ => false) (fun _ => None)
    (Success (Some 500)) exampleHost "generic" (Success 1024) (Error "unknown") (mkVersion 1 2 3 "" "r" "release")
    (mkLocalIDs "m" "s") false "mojo" "build" kv).
Definition exampleSettings (enabled : string) : KV :=
  {["telemetry.enabled" := enabled; "telemetry.exporters.metrics.http_endpoint" := "http://m";
    "telemetry.exporters.logs.file_path" := "/tmp/logs"]}.


Definition exampleInterface (mac : list Z) : sockaddr_ll := mkSockaddr [17; 0] [8; 6] [2; 0; 0; 0] [1; 0] 0 6 mac.
Definition exampleFormat : LLVMFormat :=
  Build_LLVMFormat (fun n => String (ascii_of_nat (Z.to_nat n)) (String "0" "")) (fun n _ => ex_intro _ _ (ex_intro _ _ eq_refl)).
#[local] Existing Instance exampleFormat.
Lemma machine_id_ignores_hardware_witness :
  machine (fst (createLocalIDs (String.concat "") (fun s => s) "rnd" (localMACs_posix [exampleInterface [1; 2; 3; 4; 5; 6]]) None))
  = machine (fst (createLocalIDs (String.concat "") (fun s => s) "rnd" (localMACs_posix [exampleInterface [6; 5; 4; 3; 2; 1]]) None)).
Proof.
  assert (Hm : ∀ mac, machine (fst (createLocalIDs (String.concat "") (fun s => s) "rnd" (localMACs_posix [exampleInterface mac]) None))
    = String.concat "" (merge_sort String.le [bytesToHexStr (sockaddrHead (exampleInterface []))])); [|by rewrite !Hm].
  intros mac. apply (machine_id_ignores_hardware (String.concat "") (fun s => s) "rnd" [exampleInterface []] [mac]
    (localMACs_posix [exampleInterface mac])); [by repeat constructor|reflexivity|reflexivity].
Defined.

End Telemetry.
