(* ===== verification/SignalHandler.v ===== *)
(** The handler of fatal signals of development builds,
    Init/lib/DevelopmentSignalHandler.cpp: what it prints of a signal, when it
    is installed, and how the process ends, with the faults that happen while
    it runs and the alarm that is to end it. *)
From stdpp Require Import gmap sets.
From S2P Require Import Prelude StringRef.

#[local] Open Scope string_scope.
#[local] Open Scope Z_scope.

Module SignalHandler.

(** ** Signals of Linux on x86-64 *)

Definition SIGILL : Z := 4.
Definition SIGTRAP : Z := 5.
Definition SIGABRT : Z := 6.
Definition SIGBUS : Z := 7.
Definition SIGFPE : Z := 8.
Definition SIGSEGV : Z := 11.
Definition SIGUSR2 : Z := 12.
Definition SIGALRM : Z := 14.
Definition SIGCHLD : Z := 17.
Definition SIGSYS : Z := 31.

(** A [switch] over constants. *)
Fixpoint switch (cases : list (Z * string)) (other : string) (z : Z) : string :=
  match cases with
  | [] => other
  | (c, text) :: cases => if z =? c then text else switch cases other z
  end.

Definition getSignalName : Z → string :=
  switch [(SIGSEGV, "SIGSEGV"); (SIGABRT, "SIGABRT"); (SIGFPE, "SIGFPE"); (SIGILL, "SIGILL"); (SIGBUS, "SIGBUS");
          (SIGTRAP, "SIGTRAP"); (SIGSYS, "SIGSYS")] "UNKNOWN".
Definition getSignalDescription : Z → string :=
  switch [(SIGSEGV, "Segmentation fault"); (SIGABRT, "Abort signal"); (SIGFPE, "Floating point exception");
          (SIGILL, "Illegal instruction"); (SIGBUS, "Bus error"); (SIGTRAP, "Trace/breakpoint trap");
          (SIGSYS, "Bad system call")] "Unknown signal".

(** The codes in the order of the header, from 1. *)
Definition getSignalCodeDescription (sig code : Z) : string :=
  if sig =? SIGSEGV then
    switch [(1, "Address not mapped to object"); (2, "Invalid permissions for mapped object")]
      "Unknown segmentation fault cause" code
  else if sig =? SIGFPE then
    switch [(1, "Integer divide by zero"); (2, "Integer overflow"); (3, "Floating point divide by zero");
            (4, "Floating point overflow"); (5, "Floating point underflow"); (6, "Floating point inexact result");
            (7, "Floating point invalid operation"); (8, "Subscript out of range")] "Unknown floating point exception" code
  else if sig =? SIGILL then
    switch [(1, "Illegal opcode"); (2, "Illegal operand"); (3, "Illegal addressing mode"); (4, "Illegal trap");
            (5, "Privileged opcode"); (6, "Privileged register"); (7, "Coprocessor error"); (8, "Internal stack error")]
      "Unknown illegal instruction" code
  else if sig =? SIGBUS then
    switch [(1, "Invalid address alignment"); (2, "Non-existent physical address"); (3, "Object specific hardware error")]
      "Unknown bus error" code
  else "No additional information".

(** siginfo_t as the kernel's headers lay it out: after the code, a union.  The
    process and user that send a signal share their bytes with the address of
    a fault, and the status of a child follows. *)
Record siginfo_t := mkSiginfo { si_code : Z; word0 : Z; word1 : Z }.
Definition int32 (z : Z) : Z := (z + 2 ^ 31) mod 2 ^ 32 - 2 ^ 31.
Definition si_pid (i : siginfo_t) : Z := int32 (word0 i).
Definition si_uid (i : siginfo_t) : Z := word0 i / 2 ^ 32.
Definition si_addr (i : siginfo_t) : Z := word0 i.
Definition si_status (i : siginfo_t) : Z := int32 (word1 i).

(** The information of a signal sent by a process, and of a fault. *)
Definition sentBy (code pid uid : Z) : siginfo_t := mkSiginfo code (uid * 2 ^ 32 + pid mod 2 ^ 32) 0.
Definition faultAt (code address : Z) : siginfo_t := mkSiginfo code address 0.

Definition nl : string := String "010" "".
Definition number (z : Z) : string := if z <? 0 then "-" ++ decimal (- z) else decimal z.

Section Text.
(** Pointers, the process, the thread and the time as they are printed. *)
Variable pointer : Z → string.
Variable getpid : Z.
Variables thread_id ctime : string.

Definition line (label text : string) : string := label ++ text ++ nl.
Definition specificLine (sig : Z) (info : siginfo_t) : string :=
  if (sig =? SIGSEGV) || (sig =? SIGBUS) then line "  Fault Address: " (pointer (si_addr info))
  else if (sig =? SIGFPE) || (sig =? SIGILL) then line "  Fault Address: " (pointer (si_addr info))
  else if sig =? SIGCHLD then line "  Child Status: " (number (si_status info))
  else if negb (si_addr info =? 0) then line "  Address: " (pointer (si_addr info)) else "".

Definition buildSignalInformationString (sig : Z) (info : option siginfo_t) : string :=
  "Signal Information:" ++ nl
  ++ line "  Signal: " (number sig ++ " (" ++ getSignalName sig ++ ")")
  ++ line "  Description: " (getSignalDescription sig)
  ++ match info with
     | None => ""
     | Some info =>
         line "  Signal Code: " (number (si_code info) ++ " (" ++ getSignalCodeDescription sig (si_code info) ++ ")")
         ++ line "  Sending PID: " (number (si_pid info))
         ++ line "  Sending UID: " (number (si_uid info))
         ++ specificLine sig info
     end
  ++ line "  Process ID: " (number getpid) ++ line "  Thread ID: " thread_id
  ++ "  Timestamp: " ++ ctime.

(** ** What is printed of the union *)

Lemma sentBy_fields code pid uid : - 2 ^ 31 ≤ pid < 2 ^ 31 → 0 ≤ uid < 2 ^ 32 →
  si_pid (sentBy code pid uid) = pid ∧ si_uid (sentBy code pid uid) = uid.
Proof.
  intros Hp Hu. unfold si_pid, si_uid, sentBy, int32. cbn [word0]. split.
  - rewrite <- Zplus_mod_idemp_l, (Z.add_comm (uid * 2 ^ 32)), Z.mod_add, Zmod_mod, Zplus_mod_idemp_l by lia.
    rewrite Z.mod_small by lia. lia.
  - rewrite (Z.add_comm (uid * 2 ^ 32)), Z.div_add by lia. rewrite Z.div_small; [lia|]. apply Z.mod_pos_bound. lia.
Qed.

(** The sender is printed for faults and the address for signals that were
    sent, although each reads the bytes of the other: of a fault the sender
    is made of the halves of the address; of an abort that a process sends
    itself the address is its user and process number in one.  What
    belongs to the signal is right in both cases. *)
Theorem siginfo_fields_overlap sig code address pid uid :
  sig = SIGSEGV ∨ sig = SIGBUS ∨ sig = SIGFPE ∨ sig = SIGILL →
  - 2 ^ 31 ≤ pid < 2 ^ 31 → 0 ≤ uid < 2 ^ 32 → uid * 2 ^ 32 + pid mod 2 ^ 32 ≠ 0 →
  buildSignalInformationString sig (Some (faultAt code address))
  = "Signal Information:" ++ nl ++ line "  Signal: " (number sig ++ " (" ++ getSignalName sig ++ ")")
    ++ line "  Description: " (getSignalDescription sig)
    ++ (line "  Signal Code: " (number code ++ " (" ++ getSignalCodeDescription sig code ++ ")")
        ++ line "  Sending PID: " (number (int32 address)) ++ line "  Sending UID: " (number (address / 2 ^ 32))
        ++ line "  Fault Address: " (pointer address))
    ++ line "  Process ID: " (number getpid) ++ line "  Thread ID: " thread_id ++ "  Timestamp: " ++ ctime
  ∧ buildSignalInformationString SIGABRT (Some (sentBy code pid uid))
  = "Signal Information:" ++ nl ++ line "  Signal: " (number SIGABRT ++ " (SIGABRT)") ++ line "  Description: " "Abort signal"
    ++ (line "  Signal Code: " (number code ++ " (No additional information)")
        ++ line "  Sending PID: " (number pid) ++ line "  Sending UID: " (number uid)
        ++ line "  Address: " (pointer (uid * 2 ^ 32 + pid mod 2 ^ 32)))
    ++ line "  Process ID: " (number getpid) ++ line "  Thread ID: " thread_id ++ "  Timestamp: " ++ ctime.
Proof.
  intros Hsig Hp Hu Hne. destruct (sentBy_fields code pid uid Hp Hu) as [E1 E2]. split.
  - unfold buildSignalInformationString. do 3 f_equal. destruct Hsig as [->|[->|[->| ->]]]; reflexivity.
  - unfold buildSignalInformationString. rewrite E1, E2. do 4 f_equal. do 2 f_equal.
    unfold specificLine. change (si_addr (sentBy code pid uid)) with (uid * 2 ^ 32 + pid mod 2 ^ 32).
    rewrite (proj2 (Z.eqb_neq _ _) Hne). reflexivity.
Qed.

End Text.

(** ** The process *)

Record SignalInfo := mkSignalInfo { infoText : string; signal : Z }.

(** What goes to the standard error. *)
Inductive Output := Text (s : string) | CppTrace | PythonTrace | HostMachine.
(** How a process ends. *)
Inductive End_ := Exited (code : Z) | Killed (sig : Z).

Record Process := mkProcess {
  registered : bool;
  programNameStorage : string;
  sigactions : gset Z;
  pythonStackTraceEnabled : bool;
  (** Whether Python has put its own handler on SIGUSR2. *)
  faulthandler : bool;
  sigInfo : SignalInfo;
  now : Z;
  alarmAt : option Z;
  (** The signals that are blocked, and whether the handler of LLVM is inside
      its stack trace. *)
  blocked : gset Z;
  handlerRunning : bool;
  stderr : list Output;
  ended : option End_
}.
Definition freshProcess (faulthandler : bool) : Process :=
  mkProcess false "" ∅ false faulthandler (mkSignalInfo "" 0) 0 None ∅ false [] None.

Definition detailedSignals : list Z := [SIGSEGV; SIGABRT; SIGFPE; SIGILL; SIGBUS; SIGTRAP; SIGSYS].

(** What happens: a signal that comes from what the thread just did, some time,
    or the stack trace has been printed and the handler goes on. *)
Inductive Event := Fault (sig : Z) (info : option siginfo_t) | Elapse (seconds : Z) | TraceDone.

Section Process.
Variable isWin32 : bool.
Variable pointer : Z → string.
Variable getpid : Z.
Variables thread_id ctime : string.
(** The host machine or why there is none, as it is printed; and the signals on
    which LLVM runs its handlers by itself. *)
Variable hostMachine : ErrorOr unit.
Variable llvmSignals : gset Z.

Definition registerDevelopmentSignalHandler (programName : string) (p : Process) : Process :=
  if registered p then p
  else mkProcess true programName (if isWin32 then sigactions p else list_to_set detailedSignals)
         (pythonStackTraceEnabled p) (faulthandler p) (sigInfo p) (now p) (alarmAt p) (blocked p) (handlerRunning p) (stderr p) (ended p).
Definition enablePythonStackTraceCallback (p : Process) : Process :=
  mkProcess (registered p) (programNameStorage p) (sigactions p) true (faulthandler p) (sigInfo p) (now p) (alarmAt p)
    (blocked p) (handlerRunning p) (stderr p) (ended p).

Definition print (l : list Output) (p : Process) : Process :=
  mkProcess (registered p) (programNameStorage p) (sigactions p) (pythonStackTraceEnabled p) (faulthandler p) (sigInfo p) (now p)
    (alarmAt p) (blocked p) (handlerRunning p) (stderr p ++ l)%list (ended p).
Definition endProcess (e : End_) (p : Process) : Process :=
  mkProcess (registered p) (programNameStorage p) (sigactions p) (pythonStackTraceEnabled p) (faulthandler p) (sigInfo p) (now p)
    (alarmAt p) (blocked p) (handlerRunning p) (stderr p) (Some e).

Fixpoint equals (n : nat) : string := match n with O => "" | S n => String "=" (equals n) end.

(** [developmentSignalHandler] up to the stack trace, and from there on. *)
Definition handlerBegin (p : Process) : list Output :=
  [Text (nl ++ equals 70 ++ nl); Text (programNameStorage p ++ " crashed!" ++ nl); Text nl]
  ++ (if isEmpty (infoText (sigInfo p)) then [] else [Text (infoText (sigInfo p) ++ nl)])
  ++ [Text ("C++ stack trace:" ++ nl)].
Definition logHostMachineInfo : list Output :=
  match hostMachine with
  | Error _ => [Text ("Failed to get machine info. Not including it in the crash log." ++ nl)]
  | Success _ => [Text ("Host machine info:" ++ nl); HostMachine]
  end.
Definition handlerEnd (p : Process) : Process :=
  let p := print [CppTrace; Text nl] p in
  let originalSignal := signal (sigInfo p) in
  let finish p := endProcess (Exited (128 + originalSignal)) (print (logHostMachineInfo ++ [Text (nl ++ equals 70 ++ nl)]) p) in
  if negb isWin32 && pythonStackTraceEnabled p then
    let p := print [Text ("Python stack trace:" ++ nl)] p in
    if faulthandler p then finish (print [PythonTrace; Text nl] p) else endProcess (Killed SIGUSR2) p
  else finish p.

(** [RunSignalHandlers] runs a handler that is not running already. *)
Definition runSignalHandlers (sig : Z) (p : Process) : Process :=
  if registered p && negb (handlerRunning p) then
    let p := print (handlerBegin p) p in
    mkProcess (registered p) (programNameStorage p) (sigactions p) (pythonStackTraceEnabled p) (faulthandler p) (sigInfo p) (now p)
      (alarmAt p) ({[sig]} ∪ blocked p) true (stderr p) (ended p)
  else p.

Definition captureSignalInformation (sig : Z) (info : option siginfo_t) (p : Process) : Process :=
  runSignalHandlers sig
    (mkProcess (registered p) (programNameStorage p) (sigactions p) (pythonStackTraceEnabled p) (faulthandler p)
       (mkSignalInfo (buildSignalInformationString pointer getpid thread_id ctime sig info) sig) (now p)
       (Some (now p + 30)) (blocked p) (handlerRunning p) (stderr p) (ended p)).

Definition elapsed (seconds : Z) (p : Process) : Process :=
  mkProcess (registered p) (programNameStorage p) (sigactions p) (pythonStackTraceEnabled p) (faulthandler p) (sigInfo p)
    (now p + seconds) (alarmAt p) (blocked p) (handlerRunning p) (stderr p) (ended p).

(** The system: a fault with its signal blocked, or with no handler, ends the
    process, and so does the alarm. *)
Definition step (e : Event) (p : Process) : Process :=
  match ended p with
  | Some _ => p
  | None =>
      match e with
      | Fault sig info =>
          if bool_decide (sig ∈ blocked p) then endProcess (Killed sig) p
          else if bool_decide (sig ∈ sigactions p) then captureSignalInformation sig info p
          else if bool_decide (sig ∈ llvmSignals) then runSignalHandlers sig p
          else endProcess (Killed sig) p
      | Elapse seconds =>
          match alarmAt p with
          | Some t => if t <=? now p + seconds then endProcess (Killed SIGALRM) (elapsed seconds p) else elapsed seconds p
          | None => elapsed seconds p
          end
      | TraceDone => if handlerRunning p then handlerEnd p else p
      end
  end.
Definition run (es : list Event) (p : Process) : Process := fold_left (fun p e => step e p) es p.

(** ** How a crash ends *)

Lemma step_ended e p x : ended p = Some x → step e p = p.
Proof. intros H. unfold step. by rewrite H. Qed.
Lemma run_ended es p x : ended p = Some x → run es p = p.
Proof. revert p. induction es as [|e es IH]; intros p H; [done|]. cbn. rewrite (step_ended e p x H). by apply IH. Qed.

Lemma step_capture sig info p : ended p = None → sig ∉ blocked p → sig ∈ sigactions p →
  step (Fault sig info) p = captureSignalInformation sig info p.
Proof. intros H1 H2 H3. unfold step. by rewrite H1, bool_decide_false, bool_decide_true. Qed.
Lemma step_llvm sig info p : ended p = None → sig ∉ blocked p → sig ∉ sigactions p → sig ∈ llvmSignals →
  step (Fault sig info) p = runSignalHandlers sig p.
Proof. intros H1 H2 H3 H4. unfold step. by rewrite H1, bool_decide_false, bool_decide_false, bool_decide_true. Qed.
Lemma step_trace_done p : ended p = None → handlerRunning p = true → step TraceDone p = handlerEnd p.
Proof. intros H1 H2. unfold step. by rewrite H1, H2. Qed.
Lemma step_elapse seconds p : ended p = None → (∀ t, alarmAt p = Some t → now p + seconds < t) →
  step (Elapse seconds) p = elapsed seconds p.
Proof.
  intros H1 H2. unfold step. rewrite H1. destruct (alarmAt p) as [t|]; [|done]. by rewrite (proj2 (Z.leb_gt _ _) (H2 t eq_refl)).
Qed.

Lemma registered_start name other hasPython : isWin32 = false →
  registerDevelopmentSignalHandler other (registerDevelopmentSignalHandler name (freshProcess hasPython))
  = mkProcess true name (list_to_set detailedSignals) false hasPython (mkSignalInfo "" 0) 0 None ∅ false [] None.
Proof. intros H. unfold registerDevelopmentSignalHandler. cbn [registered freshProcess]. by rewrite H. Qed.

Definition banner (name : string) : list Output := [Text (nl ++ equals 70 ++ nl); Text (name ++ " crashed!" ++ nl); Text nl].
Definition trailer : list Output := (logHostMachineInfo ++ [Text (nl ++ equals 70 ++ nl)])%list.

(** C35: A program that has registered the handler and gets one of the detailed
    signals prints its information and exits with 128 and the signal;
    later registrations do not count.  If Python traces are enabled but Python has
    not put a handler on SIGUSR2, that signal ends the process instead, before
    the machine is printed.  A signal that only LLVM knows of is printed without
    information and exits with 128, whichever signal it was. *)
Theorem crash_outcome name other sig info seconds hasPython python :
  isWin32 = false → sig ∈ detailedSignals → 0 ≤ seconds < 30 →
  let start := registerDevelopmentSignalHandler other (registerDevelopmentSignalHandler name (freshProcess hasPython)) in
  let start := if python : bool then enablePythonStackTraceCallback start else start in
  let crashed := run [Fault sig info; Elapse seconds; TraceDone] start in
  ended crashed = Some (if python && negb hasPython then Killed SIGUSR2 else Exited (128 + sig))
  ∧ stderr crashed =
      (banner name ++ [Text (buildSignalInformationString pointer getpid thread_id ctime sig info ++ nl); Text ("C++ stack trace:" ++ nl)]
       ++ [CppTrace; Text nl]
       ++ (if python then [Text ("Python stack trace:" ++ nl)] else [])
       ++ (if python && hasPython then [PythonTrace; Text nl] else [])
       ++ (if python && negb hasPython then [] else trailer))%list
  ∧ ∀ sig', sig' ∉ detailedSignals → sig' ∈ llvmSignals → python = false →
      let crashed := run [Fault sig' info; Elapse seconds; TraceDone] start in
      ended crashed = Some (Exited 128)
      ∧ stderr crashed = (banner name ++ [Text ("C++ stack trace:" ++ nl); CppTrace; Text nl] ++ trailer)%list.
Proof.
  intros Hw Hsig Hs. rewrite registered_start by done. cbv zeta.
  set (B := buildSignalInformationString pointer getpid thread_id ctime sig info).
  assert (HB : isEmpty B = false) by done.
  assert (Hstart : ∀ r : Process → Prop,
    r (mkProcess true name (list_to_set detailedSignals) python hasPython (mkSignalInfo "" 0) 0 None ∅ false [] None) →
    r (if python : bool then enablePythonStackTraceCallback
          (mkProcess true name (list_to_set detailedSignals) false hasPython (mkSignalInfo "" 0) 0 None ∅ false [] None)
       else mkProcess true name (list_to_set detailedSignals) false hasPython (mkSignalInfo "" 0) 0 None ∅ false [] None)).
  { intros r Hr. by destruct python. }
  apply Hstart. clear Hstart. unfold run. cbn [fold_left].
  rewrite (step_capture sig); [|done|apply not_elem_of_empty|by apply elem_of_list_to_set].
  unfold captureSignalInformation, runSignalHandlers. cbn [registered handlerRunning andb negb].
  unfold handlerBegin. cbn [sigInfo infoText programNameStorage]. fold B. rewrite HB.
  rewrite step_elapse; [|done|cbn; intros t [= <-]; lia].
  rewrite step_trace_done by done. unfold handlerEnd. rewrite Hw. cbn [negb andb pythonStackTraceEnabled print sigInfo signal faulthandler elapsed].
  split_and!.
  - by destruct python, hasPython.
  - unfold trailer, banner. destruct python, hasPython; cbn [stderr endProcess print andb negb]; rewrite <- ?app_assoc; reflexivity.
  - intros sig' Hsig' Hllvm ->.
    rewrite (step_llvm sig'); [|done|apply not_elem_of_empty|cbn [sigactions]; by rewrite elem_of_list_to_set|done].
    unfold runSignalHandlers. cbn [registered handlerRunning andb negb].
    rewrite step_elapse; [|done|done]. rewrite step_trace_done by done. unfold handlerEnd. rewrite Hw.
    split; [done|]. unfold trailer, banner. cbn [stderr endProcess print elapsed handlerBegin sigInfo infoText isEmpty]. by rewrite <- ?app_assoc.
Qed.

(** ** Faults inside the handler *)

(** Once the handler runs: if the stack trace hangs, the process ends by the
    alarm after 30 seconds, however the time passes. *)
Lemma hang_bounded times p t : ended p = None → alarmAt p = Some t → Forall (fun d => 0 ≤ d) times →
  now p < t → t ≤ now p + fold_right Z.add 0 times →
  ended (run (map Elapse times) p) = Some (Killed SIGALRM).
Proof.
  revert p. induction times as [|d times IH]; intros p He Ha Hd Hn Ht; cbn in *; [lia|].
  apply Forall_cons in Hd as [Hd Hds]. destruct (Z.leb_spec t (now p + d)).
  - unfold step. rewrite He, Ha, (proj2 (Z.leb_le _ _)) by done. eapply eq_trans; [apply f_equal; eapply run_ended; done|done].
  - rewrite step_elapse; [|done|intros t' [= <-]%(eq_trans (eq_sym Ha)); done].
    apply IH; cbn [ended elapsed alarmAt now]; [done..|lia].
Qed.

(** A fault of another signal that the same instruction causes again each time
    its handler returns, every [d] seconds. *)
Fixpoint faultsAgain (n : nat) (d sig : Z) (info : option siginfo_t) : list Event :=
  match n with O => [] | S n => Fault sig info :: Elapse d :: faultsAgain n d sig info end.

(** C17: While the handler prints the stack trace of one signal, a fault with
    the same signal ends the process at once, and a hang is ended after 30
    seconds.  A fault with another of the signals is not: it runs no
    handler, only sets the alarm again, and returns to what caused it, so
    that the process never ends if that happens more often than the alarm. *)
Theorem nested_fault_never_ends p sig sig' info d n :
  handlerRunning p = true → ended p = None → sig ∈ blocked p → sig' ∉ blocked p → sig' ∈ sigactions p → 0 < d < 30 →
  ended (step (Fault sig info) p) = Some (Killed sig)
  ∧ (∀ times t, alarmAt p = Some t → Forall (fun d => 0 ≤ d) times → now p < t → t ≤ now p + fold_right Z.add 0 times →
       ended (run (map Elapse times) p) = Some (Killed SIGALRM))
  ∧ ended (run (faultsAgain n d sig' info) p) = None
  ∧ now (run (faultsAgain n d sig' info) p) = now p + Z.of_nat n * d
  ∧ stderr (run (faultsAgain n d sig' info) p) = stderr p.
Proof.
  intros Hr He Hb Hb' Ha Hd. split; [|split].
  - unfold step. rewrite He, bool_decide_true by done. done.
  - intros times t Ht Hf Hn Hs. by eapply hang_bounded.
  - clear Hb. revert p Hr He Hb' Ha. induction n as [|n IH]; intros p Hr He Hb' Ha; [cbn; split_and!; [done|lia|done]|].
    cbn [faultsAgain run fold_left]. rewrite (step_capture sig') by done.
    unfold captureSignalInformation, runSignalHandlers. cbn [registered handlerRunning]. rewrite Hr, andb_false_r.
    rewrite step_elapse; [|done|cbn; intros t [= <-]; lia].
    match goal with |- context [elapsed d ?q] => destruct (IH (elapsed d q)) as (H1 & H2 & H3); [done..|] end.
    fold (run (faultsAgain n d sig' info)) in *. unfold run in *. rewrite H1, H2, H3. cbn [elapsed now stderr]. split_and!; [done|lia|done].
Qed.

End Process.

(** ** Examples *)

Definition examplePointer (a : Z) : string := "0x" ++ decimal a.

(** A null pointer, and an abort of process 77 of user 1000. *)
Lemma siginfo_fields_overlap_witness :
  buildSignalInformationString examplePointer 77 "1" "now" SIGSEGV (Some (faultAt 1 0))
  = "Signal Information:" ++ nl ++ "  Signal: 11 (SIGSEGV)" ++ nl ++ "  Description: Segmentation fault" ++ nl
    ++ "  Signal Code: 1 (Address not mapped to object)" ++ nl ++ "  Sending PID: 0" ++ nl ++ "  Sending UID: 0" ++ nl
    ++ "  Fault Address: 0x0" ++ nl ++ "  Process ID: 77" ++ nl ++ "  Thread ID: 1" ++ nl ++ "  Timestamp: now".
Proof.
  rewrite (proj1 (siginfo_fields_overlap examplePointer 77 "1" "now" SIGSEGV 1 0 77 1000
    ltac:(by left) ltac:(lia) ltac:(lia) ltac:(by vm_compute))).
  vm_compute. reflexivity.
Defined.

Lemma crash_outcome_witness :
  ended (run false examplePointer 77 "1" "now" (Success tt) ∅ [Fault SIGFPE None; Elapse 2; TraceDone]
    (registerDevelopmentSignalHandler false "other" (registerDevelopmentSignalHandler false "mojo" (freshProcess false))))
  = Some (Exited 136).
Proof.
  exact (proj1 (crash_outcome false examplePointer 77 "1" "now" (Success tt) ∅ "mojo" "other" SIGFPE None 2 false false
    eq_refl ltac:(right; right; left) ltac:(lia))).
Defined.

(** An abort whose stack trace runs into a segmentation fault every second. *)
Definition exampleAbort : Process :=
  mkProcess true "mojo" (list_to_set detailedSignals) false false (mkSignalInfo "" SIGABRT) 0 (Some 30) {[SIGABRT]} true [] None.
Lemma nested_fault_never_ends_witness :
  ended (run false examplePointer 77 "1" "now" (Success tt) ∅ (faultsAgain 1000 1 SIGSEGV None) exampleAbort) = None
  ∧ now (run false examplePointer 77 "1" "now" (Success tt) ∅ (faultsAgain 1000 1 SIGSEGV None) exampleAbort) = 1000.
Proof.
  destruct (nested_fault_never_ends false examplePointer 77 "1" "now" (Success tt) ∅ exampleAbort SIGABRT SIGSEGV None 1 1000
    eq_refl eq_refl ltac:(cbn; by apply elem_of_singleton) ltac:(by vm_compute) ltac:(by vm_compute) ltac:(lia)) as (_ & _ & H1 & H2 & _).
  split; [exact H1|]. exact H2.
Defined.

End SignalHandler.
