(* ===== verification/CrashReporting.v ===== *)
(** Random bytes and crash reports: Support/lib/Random.cpp and the two
    implementations of Support/lib/CrashReporting.  The settings are read by
    [Configuration]; crashpad and the system calls are parameters. *)
From stdpp Require Import gmap.
From S2P Require Import Prelude StringRef.

#[local] Open Scope string_scope.
#[local] Open Scope Z_scope.

(** ** Random.cpp *)

Module Random.

#[local] Abbreviation length := List.length (only parsing).

(** One call of getrandom: a negative result, or the bytes it has written. *)
Inductive Read := Negative (rc : Z) | Got (bytes : list Z).

Section Random.
Variable to_string : Z → string.

(** The loop on Linux, with the bytes written so far, which are in front of what
    the buffer held; [None] when a further call has not come back.  The calls
    are told how many bytes are needed. *)
Fixpoint fill (reads : list Read) (bytesNeeded : nat) (written : list Z) : option (ErrorOr unit * list Z) :=
  match reads with
  | [] => None
  | Negative rc :: _ => Some (Error ("random read failed with " ++ to_string rc), written)
  | Got bytes :: reads =>
      let bytesNeeded := (bytesNeeded - length bytes)%nat in
      let written := (written ++ bytes)%list in
      if (0 <? bytesNeeded)%nat then fill reads bytesNeeded written else Some (Success tt, written)
  end.

Inductive Platform := Apple (bytes : list Z) | Linux (reads : list Read) | Win32 (result : ErrorOr (list Z) ) | OtherPlatform.

(** The result and the buffer after it; CryptGenRandom fills the buffer or
    leaves it. *)
Definition getRandomBytes (platform : Platform) (buf : list Z) : option (ErrorOr unit * list Z) :=
  match platform with
  | Apple bytes => Some (Success tt, bytes)
  | Linux reads => '(r, written) ← fill reads (length buf) []; Some (r, (written ++ drop (length written) buf)%list)
  | Win32 (Success bytes) => Some (Success tt, bytes)
  | Win32 (Error err) => Some (Error ("random read failed with " ++ err), buf)
  | OtherPlatform => Some (Error "unsupported platform - could not generate random data", buf)
  end.

(** getrandom writes at most what it is asked for. *)
Fixpoint withinNeeded (reads : list Read) (needed : nat) : Prop :=
  match reads with
  | Got bytes :: reads => (length bytes ≤ needed)%nat ∧ withinNeeded reads (needed - length bytes)
  | _ => True
  end.
Definition bytesOf (reads : list Read) : list Z := reads ≫= fun r => match r with Got bytes => bytes | Negative _ => [] end.

Lemma fill_spec reads : ∀ needed written r w, withinNeeded reads needed →
  fill reads needed written = Some (r, w) →
  ∃ used rest, reads = (used ++ rest)%list ∧ w = (written ++ bytesOf used)%list ∧ (length (bytesOf used) ≤ needed)%nat
    ∧ (r = Success tt → length (bytesOf used) = needed).
Proof.
  induction reads as [|[rc|bytes] reads IH]; intros needed written r w Hin H; [done| |].
  - injection H as <- <-. exists [], (Negative rc :: reads). cbn. split_and!; [done|by rewrite app_nil_r|lia|done].
  - destruct Hin as [Hb Hin]. cbn [fill] in H. destruct (Nat.ltb_spec 0 (needed - length bytes)) as [Hlt|Hge].
    + apply IH in H as (used & rest & -> & -> & Hu & Hs); [|done].
      exists (Got bytes :: used), rest. csimpl. rewrite length_app. split_and!; [done|by rewrite app_assoc|lia|].
      intros Hr. specialize (Hs Hr). fold (bytesOf used). lia.
    + injection H as <- <-. exists [Got bytes], reads. csimpl. rewrite app_nil_r. split_and!; [done|done|lia|lia].
Qed.

Lemma fill_ends reads : ∀ needed written, Forall (fun r => match r with Got bytes => bytes ≠ [] | Negative _ => True end) reads →
  (0 < needed)%nat → (needed ≤ length reads)%nat → ∃ r, fill reads needed written = Some r.
Proof.
  induction reads as [|[rc|bytes] reads IH]; intros needed written Hr Hn Hl; [cbn in Hl; lia|by eexists|].
  apply Forall_cons in Hr as [Hb Hr]. cbn [fill]. destruct (Nat.ltb_spec 0 (needed - length bytes)); [|by eexists].
  apply IH; [done|done|]. cbn in Hl. destruct bytes; [done|cbn in *; lia].
Qed.

(** On Linux the buffer is filled from the front by as many calls as it takes:
    success means every byte is one that was read, in order; a call never
    writes behind the buffer, and after an error what was not reached
    is as it was.  If each call gives a byte or an error, the loop ends
    after at most as many calls as there are bytes. *)
Theorem random_bytes_filled reads buf :
  withinNeeded reads (length buf) →
  (∀ r out, getRandomBytes (Linux reads) buf = Some (r, out) →
     length out = length buf
     ∧ ∃ used rest, reads = (used ++ rest)%list ∧ out = (bytesOf used ++ drop (length (bytesOf used)) buf)%list
         ∧ (r = Success tt → out = bytesOf used))
  ∧ (Forall (fun r => match r with Got bytes => bytes ≠ [] | Negative _ => True end) reads →
     buf ≠ [] → (length buf ≤ length reads)%nat → ∃ r out, getRandomBytes (Linux reads) buf = Some (r, out)).
Proof.
  intros Hin. split.
  - intros r out H. cbn in H. destruct (fill reads (length buf) []) as [[r' w]|] eqn:E; [|done]. injection H as <- <-.
    apply fill_spec in E as (used & rest & -> & -> & Hu & Hs); [|done]. cbn. split; [rewrite length_app, length_drop; lia|].
    exists used, rest. split_and!; [done|done|]. intros Hr. specialize (Hs Hr). rewrite drop_ge by lia. by rewrite app_nil_r.
  - intros Hb Hne Hl. destruct (fill_ends reads (length buf) [] Hb) as [[r w] Hf]; [destruct buf; [done|cbn; lia]|done|].
    cbn. rewrite Hf. by eexists _, _.
Qed.

End Random.

Lemma random_bytes_filled_witness :
  getRandomBytes decimal (Linux [Got [7; 8]; Got [9]]) [0; 0; 0] = Some (Success tt, [7; 8; 9])
  ∧ ∃ r out, getRandomBytes decimal (Linux [Got [7]; Got [8]; Got [9]]) [0; 0; 0] = Some (r, out).
Proof.
  split; [reflexivity|].
  apply (proj2 (random_bytes_filled decimal [Got [7]; Got [8]; Got [9]] [0; 0; 0] ltac:(cbn; lia))); [by repeat constructor|done|done].
Defined.

End Random.

(** ** CrashReporting *)

Module CrashReporting.

Definition kHandlerProgramName : string := "modular-crashpad-handler".
Definition kDefaultURL : string := "https://crash-reporting.modular.com".

(** What is asked of crashpad, in order. *)
Inductive Event :=
  | InitializeDatabase (path : string)
  | SetUploadsEnabled
  | StartHandler (handler database metrics url : string) (annotations : list (string * string)) (arguments : list string)
  | Print (text : string).

(** The database: there is none, or it has no settings, or the settings cannot
    say whether uploads are enabled, or they do. *)
Inductive Database := NoDatabase | NoSettings | Unreadable | UploadsEnabled (b : bool).

(** [std::map::operator[]] in the order of the keys. *)
Fixpoint setAnnotation (key value : string) (m : list (string * string)) : list (string * string) :=
  match m with
  | [] => [(key, value)]
  | (k, v) :: m =>
      if String.eqb k key then (key, value) :: m
      else match String.compare key k with Lt => (key, value) :: (k, v) :: m | _ => (k, v) :: setAnnotation key value m end
  end.

Definition getCrashDatabasePath (dataFolder : string) : string := path_div dataFolder "crashdb".

Section Crashpad.
(** The settings if there are any: what each key is set to. *)
Variable settings : option (string → string).
Variable findProgramByName : string → option string.

Definition getCrashpadHandlerPath : ErrorOr string :=
  let program := match settings with Some getValue => getValue "crash_reporting.handler_path" | None => "" end in
  let program := if isEmpty program then default "" (findProgramByName kHandlerProgramName) else program in
  if isEmpty program then Error "unable to locate crashpad handler executable" else Success program.

Variable getModularDataFolderPath : ErrorOr string.
Variable database : string → Database.
Variable version : string.
(** Whether the handler starts. *)
Variable startHandler : bool.

Definition url (program : string) : string :=
  let url := match settings with Some getValue => getValue "crash_reporting.url" | None => "" end in
  (if isEmpty url then kDefaultURL else url) ++ "/" ++ program.
Definition enableUploads (d : Database) : list Event :=
  match d with Unreadable | UploadsEnabled false => [SetUploadsEnabled] | _ => [] end.
Definition annotations (program machineID sessionID : string) : list (string * string) :=
  setAnnotation "sessionid" sessionID
    (setAnnotation "machineid" machineID (setAnnotation "version" version (setAnnotation "program" program []))).

Definition launch (handlerPath databasePath program machineID sessionID : string) : list Event :=
  (InitializeDatabase databasePath :: enableUploads (database databasePath)
   ++ [StartHandler handlerPath databasePath databasePath (url program) (annotations program machineID sessionID)
         ["--no-rate-limit"]])%list.

Definition tryInitCrashpad (program machineID sessionID : string) : ErrorOr unit * list Event :=
  match getModularDataFolderPath with
  | Error msg => (Error msg, [])
  | Success dataFolder =>
      let databasePath := getCrashDatabasePath dataFolder in
      match getCrashpadHandlerPath with
      | Error msg => (Error ("while locating crashpad handler: " ++ msg), [])
      | Success handlerPath =>
          (if startHandler then Success tt else Error "crashpad failed to start handler",
           launch handlerPath databasePath program machineID sessionID)
      end
  end.

(** On Windows there is no crashpad. *)
Definition getCrashpadHandlerPath_win32 : ErrorOr string := Error "crash reporting is not built for this platform".
Definition initCrashpadForProgram (isWin32 : bool) (program machineID sessionID : string) : list Event :=
  if isWin32 then []
  else match tryInitCrashpad program machineID sessionID with
       | (Success _, log) => log
       | (Error msg, log) =>
           (log ++ [Print ("Failed to initialize Crashpad.  Crash reporting will not be available.  Cause: " ++ msg
                           ++ String "010" "")])%list
       end.

(** What the log of a launch holds, with messages behind it. *)
Definition isStart (e : Event) : bool := match e with StartHandler _ _ _ _ _ _ => true | _ => false end.
Definition onlyPrints (tail : list Event) : Prop := ∀ e, e ∈ tail → ∃ t, e = Print t.

Lemma url_base program : ∃ base, url program = base ++ "/" ++ program ∧ base ≠ "".
Proof. unfold url. eexists. split; [done|]. destruct (isEmpty _) eqn:E; [done|]. intros E'. by rewrite E' in E. Qed.
Lemma handler_nonempty h : getCrashpadHandlerPath = Success h → h ≠ "".
Proof.
  unfold getCrashpadHandlerPath. intros H ->. destruct (isEmpty (if isEmpty _ then _ else _)) eqn:E; [done|].
  injection H as H. by rewrite H in E.
Qed.
Lemma enableUploads_elem e d : e ∈ enableUploads d ↔ e = SetUploadsEnabled ∧ (d = Unreadable ∨ d = UploadsEnabled false).
Proof.
  destruct d as [| | |[]]; cbn; rewrite ?list_elem_of_singleton; (split; [try (intros H; by apply not_elem_of_nil in H)|intros [? [?|?]]]); auto; done.
Qed.
Lemma launch_elem e tail handler db program machineID sessionID : onlyPrints tail →
  e ∈ (launch handler db program machineID sessionID ++ tail)%list ↔
  e = InitializeDatabase db ∨ (e = SetUploadsEnabled ∧ (database db = Unreadable ∨ database db = UploadsEnabled false))
  ∨ e = StartHandler handler db db (url program) (annotations program machineID sessionID) ["--no-rate-limit"] ∨ e ∈ tail.
Proof.
  intros Ht. unfold launch. rewrite elem_of_app, elem_of_cons, elem_of_app, list_elem_of_singleton, enableUploads_elem. tauto.
Qed.
Lemma no_start l : (∀ e, e ∈ l → isStart e = false) → List.filter isStart l = [].
Proof.
  induction l as [|e l IH]; intros Hl; [done|]. cbn. rewrite (Hl e (list_elem_of_here _ _)). apply IH. intros e' He'. apply Hl. by right.
Qed.
Lemma launch_starts_once tail handler db program machineID sessionID : onlyPrints tail →
  List.length (List.filter isStart (launch handler db program machineID sessionID ++ tail)) = 1%nat.
Proof.
  intros Ht. unfold launch. rewrite List.filter_app, List.length_app. cbn [List.filter isStart]. rewrite List.filter_app, List.length_app.
  rewrite (no_start (enableUploads _)), (no_start tail); [done|intros e He; by destruct (Ht e He) as [? ->]|].
  by intros e [-> _]%enableUploads_elem.
Qed.
Lemma init_cases program machineID sessionID :
  (∃ msg, fst (tryInitCrashpad program machineID sessionID) = Error msg
     ∧ initCrashpadForProgram false program machineID sessionID
       = [Print ("Failed to initialize Crashpad.  Crash reporting will not be available.  Cause: " ++ msg ++ String "010" "")]
     ∧ ¬ (∃ dataFolder handler, getModularDataFolderPath = Success dataFolder ∧ getCrashpadHandlerPath = Success handler))
  ∨ ∃ dataFolder handler tail, getModularDataFolderPath = Success dataFolder ∧ getCrashpadHandlerPath = Success handler
     ∧ initCrashpadForProgram false program machineID sessionID
       = (launch handler (getCrashDatabasePath dataFolder) program machineID sessionID ++ tail)%list
     ∧ onlyPrints tail ∧ (tail = [] ∧ fst (tryInitCrashpad program machineID sessionID) = Success tt
                          ∨ ∃ t msg, tail = [Print t] ∧ fst (tryInitCrashpad program machineID sessionID) = Error msg).
Proof.
  unfold initCrashpadForProgram, tryInitCrashpad.
  destruct getModularDataFolderPath as [folder|m1]; [destruct getCrashpadHandlerPath as [handler|m2]|].
  2-3: left; eexists; split_and!; [done|done|by intros (?&?&?&?)].
  right. destruct startHandler; cbn [fst].
  - exists folder, handler, []. rewrite app_nil_r. split_and!; [done..|by intros e H%not_elem_of_nil|by left].
  - exists folder, handler. eexists. split_and!; [done..|intros e H%list_elem_of_singleton; by eexists|right; by eexists _, _].
Qed.

(** The handler starts at most once, after the database, which then has uploads
    enabled if it can be reached, with the identifiers it was given and an URL
    that names the program; it does if and only if the data folder and a handler
    are there.  Every failure is printed once and nothing else is; and nothing
    at all happens on Windows. *)
Theorem crashpad_outcome program machineID sessionID :
  let log := initCrashpadForProgram false program machineID sessionID in
  (∀ handler db metrics u notes args, StartHandler handler db metrics u notes args ∈ log →
     (∃ dataFolder, getModularDataFolderPath = Success dataFolder ∧ db = getCrashDatabasePath dataFolder
        ∧ (SetUploadsEnabled ∈ log ↔ database db = Unreadable ∨ database db = UploadsEnabled false))
     ∧ getCrashpadHandlerPath = Success handler ∧ handler ≠ "" ∧ metrics = db
     ∧ (∃ base, u = base ++ "/" ++ program ∧ base ≠ "")
     ∧ notes = [("machineid", machineID); ("program", program); ("sessionid", sessionID); ("version", version)])
  ∧ ((∃ dataFolder handler, getModularDataFolderPath = Success dataFolder ∧ getCrashpadHandlerPath = Success handler)
     ↔ List.length (List.filter isStart log) = 1%nat)
  ∧ ((∃ text, Print text ∈ log) ↔ ∃ msg, fst (tryInitCrashpad program machineID sessionID) = Error msg)
  ∧ initCrashpadForProgram true program machineID sessionID = [].
Proof.
  cbv zeta. destruct (init_cases program machineID sessionID) as [(msg & Hr & -> & Hno)|(folder & handler & tail & Hf & Hh & -> & Ht & Htail)].
  - split_and!; [intros * H; by apply list_elem_of_singleton in H|by split|by split; intros _; [eexists|eexists; left]|done].
  - split_and!; [|split; [intros _; by apply launch_starts_once|intros _; by exists folder, handler]|split|done].
    + intros h d m u n a H. apply launch_elem in H as [H|[[H _]|[H|H]]]; [done|done| |by destruct (Ht _ H)|done].
      injection H as -> -> -> -> -> _. split_and!; [|done|by apply handler_nonempty|done|by apply url_base|done].
      exists folder. split_and!; [done|done|]. rewrite launch_elem by done. split; [|auto].
      intros [H|[[_ H]|[H|H]]]; [done|done|done|by destruct (Ht _ H)].
    + intros [t H]. apply launch_elem in H as [H|[[H _]|[H|H]]]; [done..| |done].
      destruct Htail as [[-> _]|(? & msg & -> & ->)]; [by apply not_elem_of_nil in H|by eexists].
    + intros [msg Hm]. destruct Htail as [[_ E]|(t & ? & -> & _)]; [congruence|]. exists t. apply elem_of_app. right. by left.
Qed.

End Crashpad.

Lemma crashpad_outcome_witness :
  initCrashpadForProgram None (fun name => Some ("/usr/bin/" ++ name)) (Success "/data") (fun _ => UploadsEnabled false) "1.0" true
    false "mojo" "m" "s"
  = [InitializeDatabase "/data/crashdb"; SetUploadsEnabled;
     StartHandler "/usr/bin/modular-crashpad-handler" "/data/crashdb" "/data/crashdb" "https://crash-reporting.modular.com/mojo"
       [("machineid", "m"); ("program", "mojo"); ("sessionid", "s"); ("version", "1.0")] ["--no-rate-limit"]]
  ∧ List.length (List.filter isStart (initCrashpadForProgram None (fun name => Some ("/usr/bin/" ++ name)) (Success "/data")
       (fun _ => UploadsEnabled false) "1.0" true false "mojo" "m" "s")) = 1%nat.
Proof.
  split; [reflexivity|].
  apply (proj1 (proj2 (crashpad_outcome None (fun name => Some ("/usr/bin/" ++ name)) (Success "/data")
    (fun _ => UploadsEnabled false) "1.0" true "mojo" "m" "s"))). by eexists _, _.
Defined.

End CrashReporting.
