(* ===== verification/PlatformGlue.v ===== *)
(** Small pieces that hide the platform: Support/PortableEnv.h, the shim that
    fixes the paths of programs bazel runs (bazel/internal/runtool-shim.cpp),
    Support/lib/Debugger.cpp and Support/STLExtras.h. *)
From stdpp Require Import gmap.
From S2P Require Import Prelude StringRef.

#[local] Open Scope string_scope.
#[local] Open Scope Z_scope.

(** ** PortableEnv.h *)

Module PortableEnv.

Abbreviation Environment := (gmap string string).
Fixpoint hasEquals (s : string) : bool :=
  match s with EmptyString => false | String c s => Ascii.eqb c "=" || hasEquals s end.
Definition invalidName (name : string) : bool := isEmpty name || hasEquals name.

(** setenv and unsetenv as POSIX has them. *)
Definition posix_setenv (name value : string) (overwrite : bool) (env : Environment) : Z * Environment :=
  if invalidName name then (-1, env)
  else if negb overwrite && bool_decide (is_Some (env !! name)) then (0, env) else (0, <[name := value]> env).
Definition posix_unsetenv (name : string) (env : Environment) : Z * Environment :=
  if invalidName name then (-1, env) else (0, delete name env).

(** _putenv_s of the C runtime of Windows: an empty value removes. *)
Definition putenv_s (name value : string) (env : Environment) : bool * Environment :=
  if invalidName name then (false, env)
  else (true, if isEmpty value then delete name env else <[name := value]> env).

Definition setenv (name value : string) (overwrite : bool) (env : Environment) : Z * Environment :=
  if negb overwrite && bool_decide (is_Some (env !! name)) then (0, env)
  else let '(ok, env) := putenv_s name value env in (if ok : bool then 0 else -1, env).
Definition unsetenv (name : string) (env : Environment) : Z * Environment :=
  let '(ok, env) := putenv_s name "" env in (if ok : bool then 0 else -1, env).

(** On Windows the two functions do what POSIX says, results included, but for
    one case: setting a variable to the empty string removes it. *)
Theorem setenv_portable name value overwrite env :
  (∀ n, invalidName n = true → env !! n = None) →
  unsetenv name env = posix_unsetenv name env
  ∧ (value ≠ "" → setenv name value overwrite env = posix_setenv name value overwrite env)
  ∧ (invalidName name = false → overwrite = true ∨ env !! name = None →
     snd (setenv name "" overwrite env) !! name = None ∧ snd (posix_setenv name "" overwrite env) !! name = Some "").
Proof.
  intros Henv. assert (Hinv : invalidName name = true → bool_decide (is_Some (env !! name)) = false).
  { intros H. rewrite (Henv _ H). by apply bool_decide_eq_false, is_Some_None. }
  unfold setenv, unsetenv, posix_setenv, posix_unsetenv, putenv_s. split_and!.
  - by destruct (invalidName name).
  - intros Hv. destruct (invalidName name) eqn:E; [by rewrite (Hinv eq_refl), andb_false_r|].
    destruct (negb overwrite && _); [done|]. by destruct value.
  - intros -> Ho. assert (negb overwrite && bool_decide (is_Some (env !! name)) = false) as ->.
    { destruct Ho as [->|Hn]; [done|]. rewrite Hn. apply andb_false_intro2. by apply bool_decide_eq_false, is_Some_None. }
    cbn. split; [apply lookup_delete_eq|apply lookup_insert_eq].
Qed.

Lemma setenv_portable_witness :
  setenv "A" "1" false ∅ = posix_setenv "A" "1" false ∅ ∧ snd (setenv "A" "" true ∅) !! "A" = None.
Proof.
  destruct (setenv_portable "A" "1" false ∅ ltac:(intros; apply lookup_empty)) as (_ & H1 & _).
  destruct (setenv_portable "A" "" true ∅ ltac:(intros; apply lookup_empty)) as (_ & _ & H2).
  split; [by apply H1|]. by apply H2; [|left].
Defined.

End PortableEnv.

(** ** runtool-shim.cpp *)

Module RuntoolShim.
Import PortableEnv.

(** The environment and the directory of the process. *)
Record World := mkWorld { env : Environment; current_path : string }.

(** What [std::getline] gives up to each comma: nothing after a last one. *)
Fixpoint getlines (cur s : string) : list string :=
  match s with
  | EmptyString => if isEmpty cur then [] else [cur]
  | String c s => if Ascii.eqb c "," then cur :: getlines "" s else getlines (cur ++ String c "") s
  end.
(** Paths are those of POSIX. *)
Definition is_relative (p : string) : bool := match p with String "/" _ => false | _ => true end.

Section Shim.
Variable isWin32 : bool.
(** [path::lexically_normal], and the generic text of a path. *)
Variable lexically_normal : string → string.

Definition setEnv (key value : string) (overwrite : bool) (e : Environment) : Environment :=
  if isWin32 then
    if negb overwrite && bool_decide (is_Some (e !! key)) then e else snd (putenv_s key value e)
  else snd (posix_setenv key value overwrite e).

Definition absolute (cwd path : string) : string := if is_relative path then lexically_normal (path_div cwd path) else path.
Definition addPath (cwd result path : string) : string :=
  (if isEmpty result then result else result ++ ",") ++ absolute cwd path.
Definition makeImportPathsAbsolute (w : World) : World :=
  match env w !! "MODULAR_MOJO_MAX_IMPORT_PATH" with
  | None | Some "" => w
  | Some importPath =>
      let result := fold_left (addPath (current_path w)) (getlines "" importPath) "" in
      mkWorld (setEnv "MODULAR_MOJO_MAX_IMPORT_PATH" result true (env w)) (current_path w)
  end.

(** [None]: a required variable is missing, and the process is aborted. *)
Definition fix_bazel_paths (w : World) : option World :=
  match env w !! "RUNNING_DIRECTLY" with
  | None => Some w
  | Some _ =>
      workspaceDir ← env w !! "BUILD_WORKSPACE_DIRECTORY";
      let w := mkWorld (setEnv "MODULAR_HOME" (path_div workspaceDir ".derived") false (env w)) (current_path w) in
      if String.eqb (filename (current_path w)) "_main" then
        let w := makeImportPathsAbsolute w in
        workingDir ← env w !! "BUILD_WORKING_DIRECTORY"; Some (mkWorld (env w) workingDir)
      else Some w
  end.

(** The entries joined by commas. *)
Fixpoint commaJoin (l : list string) : string :=
  match l with [] => "" | [x] => x | x :: l => x ++ "," ++ commaJoin l end.

Lemma addPath_join cwd paths result : (∀ p, absolute cwd p ≠ "") → result ≠ "" →
  fold_left (addPath cwd) paths result = commaJoin (result :: map (absolute cwd) paths).
Proof.
  intros Ha. revert result. induction paths as [|p paths IH]; intros result Hr; [done|].
  cbn [fold_left map]. unfold addPath at 2. destruct (isEmpty result) eqn:E; [by destruct result|].
  rewrite IH by (destruct result; [done|discriminate]). cbn [map commaJoin]. destruct (map _ paths); by rewrite !string_app_assoc.
Qed.

(** Programs that bazel runs see their import paths as absolute ones, in the
    same order and number, with the paths that were absolute as they were,
    before the process changes to the directory it was started from;
    MODULAR_HOME is only set where it was not.  Programs that are not run
    directly see no change. *)
Theorem bazel_paths_fixed w w' importPath home :
  (∀ p, lexically_normal (String "/" p) ≠ "" ∧ is_relative (lexically_normal (String "/" p)) = false) →
  is_relative (current_path w) = false → filename (current_path w) = "_main" →
  env w !! "MODULAR_MOJO_MAX_IMPORT_PATH" = Some importPath → importPath ≠ "" → getlines "" importPath ≠ [] →
  env w !! "MODULAR_HOME" = Some home →
  fix_bazel_paths w = Some w' →
  (env w !! "RUNNING_DIRECTLY" = None ∧ w' = w)
  ∨ (env w' !! "MODULAR_HOME" = Some home
     ∧ env w' !! "MODULAR_MOJO_MAX_IMPORT_PATH"
         = Some (commaJoin (map (absolute (current_path w)) (getlines "" importPath)))
     ∧ Forall (fun p => is_relative p = false) (map (absolute (current_path w)) (getlines "" importPath))
     ∧ env w !! "BUILD_WORKING_DIRECTORY" = Some (current_path w')).
Proof.
  intros Hnorm Hcwd Hmain Himp Hne Hlines Hhome H. unfold fix_bazel_paths in H.
  destruct (env w !! "RUNNING_DIRECTLY"); [right|by left; injection H as ->].
  destruct (env w !! "BUILD_WORKSPACE_DIRECTORY") as [ws|]; [|done].
  assert (Hset : setEnv "MODULAR_HOME" (path_div ws ".derived") false (env w) = env w).
  { unfold setEnv, posix_setenv. change (invalidName "MODULAR_HOME") with false. rewrite bool_decide_true by by rewrite Hhome. by destruct isWin32. }
  assert (Habs : ∀ p, absolute (current_path w) p ≠ "" ∧ is_relative (absolute (current_path w) p) = false).
  { intros p. unfold absolute. destruct (is_relative p) eqn:E; [|by split; [intros ->|]].
    destruct (current_path w) as [|c cwd]; [done|]. assert (c = "/"%char) as -> by (by destruct c as [[] [] [] [] [] [] [] []]).
    unfold path_div. destruct p as [|d p]; [by destruct (_ || _); apply Hnorm|].
    destruct d as [[] [] [] [] [] [] [] []]; try (by destruct (_ || _); apply Hnorm). done. }
  cbn [mbind option_bind current_path env] in H. rewrite Hset, Hmain in H. cbn [String.eqb] in H.
  set (result := commaJoin (map (absolute (current_path w)) (getlines "" importPath))).
  assert (Hresult : fold_left (addPath (current_path w)) (getlines "" importPath) "" = result).
  { unfold result. destruct (getlines "" importPath) as [|p ps]; [done|]. cbn [fold_left map]. unfold addPath at 2. cbn [isEmpty String.append].
    apply addPath_join; apply Habs. }
  assert (Hrne : result ≠ "").
  { unfold result. destruct (getlines "" importPath) as [|p ps]; [done|]. cbn [map commaJoin]. destruct (Habs p) as [Hp _].
    destruct (map _ ps); destruct (absolute _ p); done. }
  assert (Hmake : makeImportPathsAbsolute (mkWorld (env w) (current_path w))
                  = mkWorld (<["MODULAR_MOJO_MAX_IMPORT_PATH" := result]> (env w)) (current_path w)).
  { unfold makeImportPathsAbsolute. cbn [env current_path]. rewrite Himp. destruct importPath as [|c0 s0]; [done|].
    rewrite Hresult. f_equal. unfold setEnv, putenv_s, posix_setenv. change (invalidName "MODULAR_MOJO_MAX_IMPORT_PATH") with false.
    cbn [negb andb snd]. assert (isEmpty result = false) as -> by (clear -Hrne; destruct result; done). by destruct isWin32. }
  change (String.eqb "_main" "_main") with true in H. cbv iota in H. rewrite Hmake in H. cbn [env current_path] in H.
  rewrite lookup_insert_ne in H by done. destruct (env w !! "BUILD_WORKING_DIRECTORY") as [dir|]; [|done]. injection H as <-.
  cbn [env current_path]. rewrite lookup_insert_ne, lookup_insert_eq by done. split_and!; [done|done| |done].
  apply List.Forall_forall. intros q Hq. apply in_map_iff in Hq as (p & <- & _). apply Habs.
Qed.

End Shim.

Lemma bazel_paths_fixed_witness :
  let w := mkWorld {["RUNNING_DIRECTLY" := "1"; "BUILD_WORKSPACE_DIRECTORY" := "/ws"; "BUILD_WORKING_DIRECTORY" := "/home";
                     "MODULAR_HOME" := "/opt"; "MODULAR_MOJO_MAX_IMPORT_PATH" := "a,/b"]} "/run/_main" in
  ∃ w', fix_bazel_paths false id w = Some w'
    ∧ env w' !! "MODULAR_MOJO_MAX_IMPORT_PATH" = Some "/run/_main/a,/b".
Proof.
  intros w. eexists. split; [vm_compute; reflexivity|].
  destruct (bazel_paths_fixed false id w _ "a,/b" "/opt" ltac:(intros p; by split) eq_refl eq_refl eq_refl
    ltac:(done) ltac:(done) eq_refl eq_refl) as [[H _]|(_ & H & _)]; [discriminate|]. exact H.
Defined.

End RuntoolShim.

(** ** Debugger.cpp *)

Module Debugger.

#[local] Abbreviation length := List.length (only parsing).

Inductive Platform := Win32 | Apple | Linux.
(** What is printed, and the ways to wait. *)
Inductive Event := Line (text : string) | Sleep (milliseconds : Z) | RaiseSIGSTOP.

Section Debugger.
Variables getProcessExecutablePath processId : string.
(** When a debugger attaches, if ever; times are in milliseconds. *)
Variable attachedAt : option Z.

Definition IsDebuggerPresent (now : Z) : bool := match attachedAt with Some t => t <=? now | None => false end.
Definition pollInterval : Z := 200.

(** The loop of Windows: the time when it ends. *)
Fixpoint pollUntil (fuel : nat) (deadline now : Z) : option Z :=
  if IsDebuggerPresent now || negb (now <? deadline) then Some now
  else match fuel with O => None | S fuel => pollUntil fuel deadline (now + pollInterval) end.
Definition pollFuel (timeoutSeconds : Z) : nat := Z.to_nat (5 * timeoutSeconds).

Definition waitingLine (timeoutSeconds : Z) : Event := Line ("Waiting for " ++ decimal timeoutSeconds ++ " seconds...").
Definition banner (timeoutSeconds : Z) : list Event :=
  [Line "======== Pausing for debugger attach ========"; Line ("Process name: " ++ getProcessExecutablePath);
   Line ("Process ID: " ++ processId); Line ""; Line "Attach to this process using one of these options:";
   Line ("  * vmojo debug --pid " ++ processId ++ " (recommended for VS Code users)");
   Line ("  * br //:lldb -- -p " ++ processId ++ " (to use monorepo build of lldb)");
   Line ("  * lldb -p " ++ processId ++ " (to use installed lldb)"); waitingLine timeoutSeconds].
Definition resuming : Event := Line "======= Resuming execution ========".

(** What happens and, where it can be told, the time when execution resumes. *)
Definition waitForDebuggerToAttach (platform : Platform) (timeoutSeconds now : Z) : list Event * option Z :=
  match platform with
  | Win32 =>
      ((banner timeoutSeconds ++ [resuming])%list, pollUntil (pollFuel timeoutSeconds) (now + 1000 * timeoutSeconds) now)
  | Apple => ((banner timeoutSeconds ++ [RaiseSIGSTOP; resuming])%list, None)
  | Linux =>
      ((banner timeoutSeconds ++ [waitingLine timeoutSeconds; Sleep (1000 * timeoutSeconds); resuming])%list,
       Some (now + 1000 * timeoutSeconds))
  end.

Lemma pollUntil_spec fuel : ∀ deadline now, now < deadline + pollInterval → deadline ≤ now + pollInterval * Z.of_nat fuel →
  ∃ t, pollUntil fuel deadline now = Some t ∧ now ≤ t < deadline + pollInterval
    ∧ (deadline ≤ t ∨ IsDebuggerPresent t = true)
    ∧ (t = now ∨ IsDebuggerPresent (t - pollInterval) = false).
Proof.
  assert (Hp : pollInterval = 200) by done.
  induction fuel as [|fuel IH]; intros deadline now Hd Hf; cbn [pollUntil].
  - rewrite (proj2 (Z.ltb_ge now deadline)), orb_true_r by lia. exists now. split_and!; [done|lia|lia|lia|by left].
  - destruct (IsDebuggerPresent now || negb (now <? deadline)) eqn:E.
    + exists now. split_and!; [done|lia|lia| |by left]. apply orb_true_iff in E as [->|E]; [by right|]. left. bool_to_prop. lia.
    + apply orb_false_iff in E as [Ep E]. bool_to_prop.
      destruct (IH deadline (now + pollInterval)) as (t & -> & Ht & Hor & Hprev); [lia|lia|]. exists t.
      split_and!; [done|lia|lia|done|]. right. destruct Hprev as [->|Hprev]; [|done]. by replace (now + pollInterval - pollInterval) with now by lia.
Qed.

(** On Windows execution resumes within the promised time and one poll; if a
    debugger attaches before, then at the first poll after it has.  On Linux
    it resumes exactly then, but the line that says so is printed twice. *)
Theorem debugger_wait_bounded timeoutSeconds now : 0 ≤ timeoutSeconds →
  (∃ t, snd (waitForDebuggerToAttach Win32 timeoutSeconds now) = Some t
     ∧ now ≤ t < now + 1000 * timeoutSeconds + pollInterval
     ∧ (∀ a, attachedAt = Some a → now ≤ a < now + 1000 * timeoutSeconds → a ≤ t < a + pollInterval ∨ now + 1000 * timeoutSeconds ≤ t)
     ∧ (attachedAt = None → now + 1000 * timeoutSeconds ≤ t))
  ∧ snd (waitForDebuggerToAttach Linux timeoutSeconds now) = Some (now + 1000 * timeoutSeconds)
  ∧ ∃ before after, fst (waitForDebuggerToAttach Linux timeoutSeconds now)
      = (before ++ waitingLine timeoutSeconds :: waitingLine timeoutSeconds :: after)%list.
Proof.
  intros Hs. split; [|split; [done|]].
  - destruct (pollUntil_spec (pollFuel timeoutSeconds) (now + 1000 * timeoutSeconds) now) as (t & Ht & Hb & Hor & Hprev);
      [unfold pollInterval; lia|unfold pollInterval, pollFuel; lia|].
    exists t. split_and!; [exact Ht|lia|lia| |].
    + intros a Ha Hna. destruct Hor as [?|Hor]; [by right|]. left. unfold IsDebuggerPresent in *. rewrite Ha in *. bool_to_prop.
      destruct Hprev as [->|Hprev]; [unfold pollInterval; lia|]. bool_to_prop. lia.
    + intros Hn. destruct Hor as [?|Hor]; [done|]. unfold IsDebuggerPresent in Hor. by rewrite Hn in Hor.
  - eexists (take 8 (banner timeoutSeconds)), _. reflexivity.
Qed.
End Debugger.

Lemma debugger_wait_bounded_witness :
  snd (waitForDebuggerToAttach "mojo" "7" (Some 450) Win32 60 0) = Some 600
  ∧ ∃ t, snd (waitForDebuggerToAttach "mojo" "7" (Some 450) Win32 60 0) = Some t ∧ t < 60200.
Proof.
  split; [reflexivity|].
  destruct (debugger_wait_bounded "mojo" "7" (Some 450) 60 0 ltac:(lia)) as [(t & H & Hb & _) _]. exists t. split; [exact H|].
  unfold pollInterval in Hb. lia.
Defined.

End Debugger.

(** ** STLExtras.h *)

Module STLExtras.

Section Interleave.
Context {A S : Type}.
(** The two functions say whether they succeed and change a state. *)
Variable eachFn : A → S → bool * S.
Variable betweenFn : S → bool * S.

Fixpoint interleaveRest (l : list A) (s : S) : bool * S :=
  match l with
  | [] => (true, s)
  | x :: l =>
      let '(ok, s) := betweenFn s in
      if ok : bool then let '(ok, s) := eachFn x s in if ok : bool then interleaveRest l s else (false, s) else (false, s)
  end.
Definition failableInterleave (l : list A) (s : S) : bool * S :=
  match l with
  | [] => (true, s)
  | x :: l => let '(ok, s) := eachFn x s in if ok : bool then interleaveRest l s else (false, s)
  end.

(** The reference: all calls in their order, up to the first that fails. *)
Fixpoint calls (l : list A) : list (S → bool * S) :=
  match l with [] => [] | [x] => [eachFn x] | x :: l => eachFn x :: betweenFn :: calls l end.
Fixpoint untilFailure (fs : list (S → bool * S)) (s : S) : bool * S :=
  match fs with [] => (true, s) | f :: fs => let '(ok, s) := f s in if ok : bool then untilFailure fs s else (false, s) end.

Lemma interleaveRest_calls l s :
  interleaveRest l s = match l with [] => (true, s) | _ => untilFailure (betweenFn :: calls l) s end.
Proof.
  revert s. induction l as [|x l IH]; intros s; [done|]. cbn [interleaveRest untilFailure]. destruct (betweenFn s) as [[] s']; [|done].
  destruct l as [|y l]; cbn [calls untilFailure]; destruct (eachFn x s') as [[] s'']; done || (rewrite IH; reflexivity).
Qed.

(** Each element is visited in order with the second function between
    two of them and nowhere else, and nothing is called after a failure. *)
Theorem failable_interleave_spec l s : failableInterleave l s = untilFailure (calls l) s.
Proof.
  destruct l as [|x l]; [done|]. cbn [failableInterleave]. destruct l as [|y l]; cbn [calls untilFailure];
    destruct (eachFn x s) as [[] s']; try done. by rewrite interleaveRest_calls.
Qed.
End Interleave.

Definition contains_if {A} (pred : A → bool) (l : list A) : bool := match List.find pred l with Some _ => true | None => false end.

(** An allocator is its alignment; [allocate] counts elements, and the bytes
    are a [size_t]. *)
Record AlignedAllocator := mkAllocator { align : Z }.
Definition rebind (a : AlignedAllocator) : AlignedAllocator := mkAllocator (align a).
Definition allocateBytes (sizeofT n : Z) : Z := (n * sizeofT) mod 2 ^ 64.
Definition equals (a b : AlignedAllocator) : bool := align a =? align b.

End STLExtras.
