(* ===== verification/Materialize.v ===== *)
(** [InterpreterMemoryConverter] of Mojo/lib/KGENToLLVM/LLVMLoweringUtils.cpp:
    the instructions that rebuild a blob of interpreter memory at run time,
    executed on a memory of byte cells. *)
From S2P Require Import Prelude LLVMSupport.

Module Materialize.

(** [PointerRegion]: a pointer to [offset] in blob [blobIndex] is stored at
    [regionOffset] of this blob. *)
Record PointerRegion := mkRegion {
  regionOffset : Z;
  blobIndex : nat;
  offset : Z
}.

(** The memory instructions emitted on one allocation, offsets in bytes. *)
Inductive MemOp :=
  | StoreBytes (idx : Z) (bytes : list Z) (align : Z)
  | Memset (idx : Z) (value : Z) (numReps : Z)
  | StorePtr (idx : Z) (target : nat) (targetOffset : Z) (align : Z).

Section Stores.
Context {LM : LLVMMath}.
(** The pointer size and the SIMD width in bytes; the blob's data, alignment
    and pointer regions. *)
Variable pointerSize simdWidth : Z.
Variable data : list Z.
Variable align : Z.

Definition slice (idx size : Z) : list Z := take (Z.to_nat size) (drop (Z.to_nat idx) data).
Definition dataAt (j : Z) : Z := default 0 (data !! Z.to_nat j).

(** Vector stores of decreasing powers of two.  [None]: out of fuel. *)
Fixpoint materializeVectorStores (fuel : nat) (idx size : Z) : option (list MemOp) :=
  if size =? 0 then Some []
  else if size =? 1 then Some [StoreBytes idx [dataAt idx] align]
  else match fuel with
  | O => None
  | S fuel =>
      let curSize := NextPowerOf2 size / 2 in
      let remaining := size - curSize in
      rest ← materializeVectorStores fuel (idx + curSize) remaining;
      Some (StoreBytes idx (slice idx curSize) align :: rest)
  end.

Definition materializeStoreImpl (idx size : Z) : option (list MemOp) :=
  materializeVectorStores (Z.to_nat size) idx size.

Record CompressionState := mkCompression { startIdx : Z; value : Z; numReps : Z }.

(** What has been emitted for the blob, and what is being tracked. *)
Record StoreState := mkStoreState {
  emitted : list MemOp;
  compressionState : option CompressionState
}.

(** [for (i = 0; i < numReps; i += simdWidth)]. *)
Fixpoint commitLoop (fuel : nat) (start i reps : Z) : option (list MemOp) :=
  if i <? reps then
    match fuel with
    | O => None
    | S fuel =>
        ops ← materializeStoreImpl (start + i) (Z.min simdWidth (reps - i));
        rest ← commitLoop fuel start (i + simdWidth) reps;
        Some (app ops rest)
    end
  else Some [].

Definition commitCompressedStores (st : StoreState) : option StoreState :=
  match compressionState st with
  | None => Some st
  | Some c =>
      if numReps c <=? 8 * simdWidth then
        ops ← commitLoop (Z.to_nat (numReps c)) (startIdx c) 0 (numReps c);
        Some (mkStoreState (app (emitted st) ops) None)
      else Some (mkStoreState (app (emitted st) [Memset (startIdx c) (value c) (numReps c)]) None)
  end.

(** [llvm::all_equal]. *)
Definition all_equal (l : list Z) : bool :=
  match l with [] => true | x :: l => forallb (Z.eqb x) l end.

Definition materializeStore (idx size : Z) (st : StoreState) : option StoreState :=
  if size =? 0 then Some st
  else if negb (all_equal (slice idx size)) then
    st ← commitCompressedStores st;
    ops ← materializeStoreImpl idx size;
    Some (mkStoreState (app (emitted st) ops) (compressionState st))
  else match compressionState st with
  | None => Some (mkStoreState (emitted st) (Some (mkCompression idx (dataAt idx) size)))
  | Some c =>
      if value c =? dataAt idx then
        Some (mkStoreState (emitted st)
                (Some (mkCompression (startIdx c) (value c) (numReps c + size))))
      else
        st ← commitCompressedStores st;
        Some (mkStoreState (emitted st) (Some (mkCompression idx (dataAt idx) size)))
  end.

(** The loop over the blob in chunks of the SIMD width. *)
Fixpoint storeBlobLoop (fuel : nat) (i : Z) (regions : list PointerRegion) (st : StoreState)
    : option StoreState :=
  let e := Z.of_nat (length data) in
  if i <? e then
    match fuel with
    | O => None
    | S fuel =>
        let plain :=
          st ← materializeStore i (Z.min simdWidth (e - i)) st;
          storeBlobLoop fuel (i + simdWidth) regions st in
        match regions with
        | r :: regions' =>
            if (i <=? regionOffset r) && (regionOffset r <? i + simdWidth) then
              let partSize := regionOffset r - i in
              st ← materializeStore i partSize st;
              let i := i + partSize in
              st ← commitCompressedStores st;
              let st := mkStoreState (app (emitted st) [StorePtr i (blobIndex r) (offset r) align])
                                     (compressionState st) in
              storeBlobLoop fuel (i + pointerSize) regions' st
            else plain
        | [] => plain
        end
    end
  else Some st.

(** The stores of one blob, ending with the pending ones. *)
Definition storeBlob (regions : list PointerRegion) : option (list MemOp) :=
  st ← storeBlobLoop (length data) 0 regions (mkStoreState [] None);
  st ← commitCompressedStores st;
  Some (emitted st).

(** ** Execution on a memory of cells *)

Inductive Cell :=
  | Byte (b : Z)
  | PtrByte (target : nat) (targetOffset : Z) (k : Z)
  | UndefByte.

Definition Memory := Z → Cell.

Definition execOp (m : Memory) (op : MemOp) : Memory := fun j =>
  match op with
  | StoreBytes idx bytes _ =>
      if (idx <=? j) && (j <? idx + Z.of_nat (length bytes))
      then Byte (default 0 (bytes !! Z.to_nat (j - idx))) else m j
  | Memset idx v n => if (idx <=? j) && (j <? idx + n) then Byte v else m j
  | StorePtr idx t o _ =>
      if (idx <=? j) && (j <? idx + pointerSize) then PtrByte t o (j - idx) else m j
  end.
Definition exec (ops : list MemOp) (m : Memory) : Memory := fold_left execOp ops m.

(** ** Specification: the contents of the blob *)

Fixpoint contents (regions : list PointerRegion) (j : Z) : Cell :=
  match regions with
  | [] => Byte (dataAt j)
  | r :: regions =>
      if (regionOffset r <=? j) && (j <? regionOffset r + pointerSize)
      then PtrByte (blobIndex r) (offset r) (j - regionOffset r)
      else contents regions j
  end.

(** The regions are in order, disjoint, and inside the blob. *)
Fixpoint wfRegions (from : Z) (regions : list PointerRegion) : Prop :=
  match regions with
  | [] => True
  | r :: regions =>
      from ≤ regionOffset r ∧ regionOffset r + pointerSize ≤ Z.of_nat (length data) ∧
      wfRegions (regionOffset r + pointerSize) regions
  end.

(** [ops] writes [target] on [[lo, hi)] and nothing else. *)
Definition fills (ops : list MemOp) (lo hi : Z) (target : Z → Cell) : Prop :=
  ∀ m j, exec ops m j = if (lo <=? j) && (j <? hi) then target j else m j.

Definition dataCell (j : Z) : Cell := Byte (dataAt j).

Lemma execOps_app ops1 ops2 m : exec (app ops1 ops2) m = exec ops2 (exec ops1 m).
Proof. apply fold_left_app. Qed.

Lemma fills_nil lo target : fills [] lo lo target.
Proof.
  intros m j. simpl. destruct (Z.leb_spec lo j), (Z.ltb_spec j lo); simpl; try done; lia.
Qed.

Lemma fills_app ops1 ops2 lo mid hi target : lo ≤ mid ≤ hi →
  fills ops1 lo mid target → fills ops2 mid hi target → fills (app ops1 ops2) lo hi target.
Proof.
  intros Hle H1 H2 m j. rewrite execOps_app, H2, H1.
  destruct (Z.leb_spec lo j), (Z.ltb_spec j mid), (Z.leb_spec mid j), (Z.ltb_spec j hi);
    simpl; try done; lia.
Qed.

Lemma fills_ext ops lo hi t t' : (∀ j, lo ≤ j < hi → t j = t' j) →
  fills ops lo hi t → fills ops lo hi t'.
Proof.
  intros Heq H m j. rewrite H. destruct (Z.leb_spec lo j), (Z.ltb_spec j hi); simpl; try done.
  apply Heq. lia.
Qed.

Lemma slice_length idx size : 0 ≤ idx → 0 ≤ size → idx + size ≤ Z.of_nat (length data) →
  Z.of_nat (length (slice idx size)) = size.
Proof. intros. unfold slice. rewrite length_take, length_drop. lia. Qed.

Lemma slice_lookup idx size j : 0 ≤ idx → 0 ≤ j < size →
  default 0 (slice idx size !! Z.to_nat j) = dataAt (idx + j).
Proof.
  intros. unfold slice, dataAt. rewrite lookup_take_lt by lia. rewrite lookup_drop.
  by replace (Z.to_nat idx + Z.to_nat j)%nat with (Z.to_nat (idx + j)) by lia.
Qed.

Lemma fills_bytes idx size a : 0 ≤ idx → 0 ≤ size → idx + size ≤ Z.of_nat (length data) →
  fills [StoreBytes idx (slice idx size) a] idx (idx + size) dataCell.
Proof.
  intros Hi Hs Hle m j. simpl. rewrite slice_length by done.
  destruct (Z.leb_spec idx j), (Z.ltb_spec j (idx + size)); simpl; try done.
  rewrite slice_lookup by lia. unfold dataCell. do 2 f_equal. lia.
Qed.

Lemma fills_byte idx a : 0 ≤ idx →
  fills [StoreBytes idx [dataAt idx] a] idx (idx + 1) dataCell.
Proof.
  intros Hi m j. simpl. replace (Z.of_nat 1) with 1 by lia.
  destruct (Z.leb_spec idx j), (Z.ltb_spec j (idx + 1)); simpl; try done.
  assert (j = idx) as -> by lia. by rewrite Z.sub_diag.
Qed.

(** The vector stores end and write their range of the data. *)
Lemma materializeVectorStores_fills fuel idx size :
  0 ≤ idx → 0 ≤ size → idx + size ≤ Z.of_nat (length data) → size ≤ Z.of_nat fuel →
  ∃ ops, materializeVectorStores fuel idx size = Some ops ∧ fills ops idx (idx + size) dataCell.
Proof.
  revert idx size. induction fuel as [|fuel IH]; intros idx size Hi Hs Hle Hf;
    cbn [materializeVectorStores].
  { rewrite (proj2 (Z.eqb_eq size 0)) by lia. eexists. split; [done|].
    replace (idx + size) with idx by lia. apply fills_nil. }
  destruct (Z.eqb_spec size 0) as [->|H0].
  { eexists. split; [done|]. rewrite Z.add_0_r. apply fills_nil. }
  destruct (Z.eqb_spec size 1) as [->|H1].
  { eexists. split; [done|]. by apply fills_byte. }
  destruct (NextPowerOf2_half size ltac:(lia)) as [-> Hcur].
  set (cur := 2 ^ Z.log2 size) in *.
  destruct (IH (idx + cur) (size - cur)) as (ops & -> & Hops); [lia..|].
  eexists. split; [reflexivity|].
  change (StoreBytes idx (slice idx cur) align :: ops)
    with (app [StoreBytes idx (slice idx cur) align] ops).
  apply fills_app with (idx + cur); [lia|apply fills_bytes; lia|].
  by replace (idx + size) with (idx + cur + (size - cur)) by lia.
Qed.

Lemma materializeStoreImpl_fills idx size :
  0 ≤ idx → 0 ≤ size → idx + size ≤ Z.of_nat (length data) →
  ∃ ops, materializeStoreImpl idx size = Some ops ∧ fills ops idx (idx + size) dataCell.
Proof. intros. apply materializeVectorStores_fills; lia. Qed.

Hypothesis simdWidth_pos : 0 < simdWidth.
Hypothesis pointerSize_pos : 0 < pointerSize.

Lemma commitLoop_fills fuel start i reps :
  0 ≤ start → 0 ≤ i → 0 ≤ reps → start + reps ≤ Z.of_nat (length data) → reps - i ≤ Z.of_nat fuel →
  ∃ ops, commitLoop fuel start i reps = Some ops ∧
    fills ops (start + Z.min i reps) (start + reps) dataCell.
Proof.
  intros Hs Hi Hr Hle. revert i Hi. induction fuel as [|fuel IH]; intros i Hi Hf; cbn [commitLoop];
    destruct (Z.ltb_spec i reps) as [Hlt|Hge]; try lia.
  1,3: eexists; split; [done|]; replace (Z.min i reps) with reps by lia; apply fills_nil.
  destruct (materializeStoreImpl_fills (start + i) (Z.min simdWidth (reps - i))) as (ops & -> & Hops); [lia..|].
  destruct (IH (i + simdWidth)) as (rest & -> & Hrest); [lia..|].
  eexists. split; [reflexivity|].
  apply fills_app with (start + Z.min (i + simdWidth) reps); [lia| |done].
  replace (start + Z.min i reps) with (start + i) by lia.
  by replace (start + Z.min (i + simdWidth) reps) with (start + i + Z.min simdWidth (reps - i)) by lia.
Qed.

(** The instructions so far write [target] below [i], except for the tracked
    chunk that ends at [i] and repeats one byte. *)
Definition StoreInv (target : Z → Cell) (st : StoreState) (i : Z) : Prop :=
  0 ≤ i ≤ Z.of_nat (length data) ∧
  match compressionState st with
  | None => fills (emitted st) 0 i target
  | Some c =>
      0 ≤ startIdx c ∧ startIdx c + numReps c = i ∧ 0 < numReps c ∧
      fills (emitted st) 0 (startIdx c) target ∧
      ∀ j, startIdx c ≤ j < i → dataAt j = value c ∧ target j = dataCell j
  end.

Lemma commit_spec target st i : StoreInv target st i →
  ∃ st', commitCompressedStores st = Some st' ∧ compressionState st' = None ∧
    StoreInv target st' i.
Proof.
  intros [Hi H]. unfold commitCompressedStores.
  destruct (compressionState st) as [c|] eqn:Ec; [|exists st; split_and!; [done|done|split; [done|by rewrite Ec]]].
  destruct H as (H0 & Hc & Hn & Hf & Hj).
  assert (Hadd : ∀ ops, fills ops (startIdx c) i target →
    StoreInv target (mkStoreState (app (emitted st) ops) None) i).
  { intros ops Hops. split; [done|]. cbn [compressionState emitted].
    apply fills_app with (startIdx c); [lia|done|done]. }
  destruct (numReps c <=? 8 * simdWidth).
  - destruct (commitLoop_fills (Z.to_nat (numReps c)) (startIdx c) 0 (numReps c)) as (ops & -> & Hops); [lia..|].
    eexists. split; [reflexivity|]. split; [done|]. apply Hadd.
    apply fills_ext with dataCell; [intros; symmetry; by apply Hj|].
    replace (startIdx c + Z.min 0 (numReps c)) with (startIdx c) in Hops by lia. by rewrite Hc in Hops.
  - eexists. split; [reflexivity|]. split; [done|]. apply Hadd. intros m j. simpl. rewrite Hc.
    destruct (Z.leb_spec (startIdx c) j), (Z.ltb_spec j i); simpl; try done.
    destruct (Hj j) as [Hv Ht]; [lia|]. rewrite Ht. unfold dataCell. by rewrite Hv.
Qed.

Lemma all_equal_spec idx size : 0 ≤ idx → 0 ≤ size → idx + size ≤ Z.of_nat (length data) →
  all_equal (slice idx size) = true → ∀ j, idx ≤ j < idx + size → dataAt j = dataAt idx.
Proof.
  intros Hi Hs Hle Heq j Hj.
  assert (Hall : ∀ x, In x (slice idx size) → x = dataAt idx).
  { pose proof (slice_lookup idx size 0 Hi ltac:(lia)) as H0. rewrite Z.add_0_r in H0. rewrite <- H0.
    destruct (slice idx size) as [|y l]; [done|]. simpl in Heq.
    change (Z.to_nat 0) with O. cbn [lookup list_lookup default from_option id].
    intros x [<-|Hx]; [done|]. rewrite forallb_forall in Heq. symmetry. by apply Z.eqb_eq, Heq. }
  rewrite <- (Hall (dataAt j)); [done|].
  pose proof (slice_lookup idx size (j - idx) Hi ltac:(lia)) as Hl.
  replace (idx + (j - idx)) with j in Hl by lia. rewrite <- Hl.
  pose proof (slice_length idx size Hi Hs Hle).
  destruct (lookup_lt_is_Some_2 (slice idx size) (Z.to_nat (j - idx))) as [x Hx]; [lia|].
  rewrite Hx. simpl. apply list_elem_of_In. by eapply list_elem_of_lookup_2.
Qed.

Lemma materializeStore_spec target i size st : StoreInv target st i →
  0 ≤ size → i + size ≤ Z.of_nat (length data) →
  (∀ j, i ≤ j < i + size → target j = dataCell j) →
  ∃ st', materializeStore i size st = Some st' ∧ StoreInv target st' (i + size).
Proof.
  intros Hinv Hs Hle Ht. unfold materializeStore.
  destruct (Z.eqb_spec size 0) as [->|Hne]; [exists st; by rewrite Z.add_0_r|].
  destruct (all_equal (slice i size)) eqn:Eq; cbn [negb].
  - assert (Hall : ∀ j, i ≤ j < i + size → dataAt j = dataAt i ∧ target j = dataCell j).
    { intros j Hj. split; [|by apply Ht]. destruct Hinv as [? _]. apply (all_equal_spec i size); done || lia. }
    assert (Hstart : ∀ st', compressionState st' = None → StoreInv target st' i →
      StoreInv target (mkStoreState (emitted st') (Some (mkCompression i (dataAt i) size))) (i + size)).
    { intros st' Hc [? H]. rewrite Hc in H. split; [lia|]. cbn. split_and!; [lia|lia|lia|done|exact Hall]. }
    destruct (compressionState st) as [c|] eqn:Ec; [|eexists; split; [reflexivity|by apply Hstart]].
    destruct (Z.eqb_spec (value c) (dataAt i)) as [Hv|Hv].
    + eexists. split; [reflexivity|]. destruct Hinv as [Hi H]. rewrite Ec in H.
      destruct H as (H0 & Hc & Hn & Hf & Hj). split; [lia|]. cbn. split_and!; [lia|lia|lia|done|].
      intros j Hr. destruct (Z.lt_ge_cases j i); [apply Hj; lia|]. rewrite Hv. apply Hall. lia.
    + destruct (commit_spec target st i Hinv) as (st' & -> & Hn & Hinv'). cbn [mbind option_bind].
      eexists. split; [reflexivity|by apply Hstart].
  - destruct (commit_spec target st i Hinv) as (st' & -> & Hn & Hinv'). cbn [mbind option_bind].
    destruct Hinv' as [Hi H]. rewrite Hn in H.
    destruct (materializeStoreImpl_fills i size) as (ops & -> & Hops); [lia..|]. cbn [mbind option_bind].
    eexists. split; [reflexivity|]. split; [lia|]. cbn [compressionState emitted]. rewrite Hn.
    apply fills_app with i; [lia|done|]. apply fills_ext with dataCell; [|done].
    intros. symmetry. by apply Ht.
Qed.

Lemma contents_before regions from j : wfRegions from regions → j < from → contents regions j = dataCell j.
Proof.
  revert from. induction regions as [|r regions IH]; intros from; simpl; [done|].
  intros (H1 & H2 & H3) Hj. destruct (Z.leb_spec (regionOffset r) j); [lia|]. simpl.
  apply (IH _ H3). lia.
Qed.

Lemma wfRegions_weaken a b regions : a ≤ b → wfRegions b regions → wfRegions a regions.
Proof. destruct regions as [|r l]; simpl; [done|]. intros ? (? & ?). split; [lia|done]. Qed.

Lemma fills_ptr r a target : (∀ j, regionOffset r ≤ j < regionOffset r + pointerSize →
    target j = PtrByte (blobIndex r) (offset r) (j - regionOffset r)) →
  fills [StorePtr (regionOffset r) (blobIndex r) (offset r) a]
    (regionOffset r) (regionOffset r + pointerSize) target.
Proof.
  intros Ht m j. simpl.
  destruct (Z.leb_spec (regionOffset r) j), (Z.ltb_spec j (regionOffset r + pointerSize)); simpl; try done.
  symmetry. apply Ht. lia.
Qed.

Lemma storeBlobLoop_spec target fuel i regions st :
  0 ≤ i → Z.of_nat (length data) - i ≤ Z.of_nat fuel →
  StoreInv target st (Z.min i (Z.of_nat (length data))) →
  wfRegions i regions → (∀ j, i ≤ j → target j = contents regions j) →
  ∃ st', storeBlobLoop fuel i regions st = Some st' ∧
    StoreInv target st' (Z.of_nat (length data)).
Proof.
  revert i regions st. induction fuel as [|fuel IH]; intros i regions st Hi Hf Hinv Hwf Ht;
    cbn [storeBlobLoop]; destruct (Z.ltb_spec i (Z.of_nat (length data))) as [Hlt|Hge]; try lia.
  1,3: exists st; split; [done|]; by rewrite Z.min_r in Hinv by lia.
  rewrite Z.min_l in Hinv by lia. set (e := Z.of_nat (length data)) in *.
  assert (Hplain : wfRegions (i + simdWidth) regions →
    ∃ st', (st ← materializeStore i (Z.min simdWidth (e - i)) st;
            storeBlobLoop fuel (i + simdWidth) regions st) = Some st' ∧ StoreInv target st' e).
  { intros Hwf'. destruct (materializeStore_spec target i (Z.min simdWidth (e - i)) st Hinv) as (st1 & -> & H1);
      [lia|lia| |].
    - intros j Hj. rewrite Ht by lia. apply (contents_before _ _ _ Hwf'). lia.
    - cbn [mbind option_bind]. apply IH; [lia|lia| |done|intros; apply Ht; lia].
      by replace (Z.min (i + simdWidth) e) with (i + Z.min simdWidth (e - i)) by lia. }
  destruct regions as [|r regions]; [by apply Hplain|].
  destruct Hwf as (Hr1 & Hr2 & Hr3).
  destruct (Z.leb_spec i (regionOffset r)), (Z.ltb_spec (regionOffset r) (i + simdWidth)); cbn [andb];
    try lia; [|by apply Hplain].
  destruct (materializeStore_spec target i (regionOffset r - i) st Hinv) as (st1 & -> & H1); [lia|lia| |].
  { intros j Hj. rewrite Ht by lia. apply (contents_before _ (regionOffset r)); [|lia]. by split_and!. }
  cbn [mbind option_bind]. replace (i + (regionOffset r - i)) with (regionOffset r) in * by lia.
  destruct (commit_spec target st1 _ H1) as (st2 & -> & Hn & [Hi2 H2]). rewrite Hn in H2.
  cbn [mbind option_bind]. apply IH; [lia|lia| |done|].
  - rewrite Z.min_l by lia. split; [lia|]. cbn [compressionState emitted]. rewrite Hn.
    apply fills_app with (regionOffset r); [lia|done|]. apply fills_ptr. intros j Hj.
    rewrite Ht by lia. simpl.
    by rewrite (proj2 (Z.leb_le _ _)), (proj2 (Z.ltb_lt _ _)) by lia.
  - intros j Hj. rewrite Ht by lia. simpl.
    destruct (Z.leb_spec (regionOffset r) j), (Z.ltb_spec j (regionOffset r + pointerSize)); done || lia.
Qed.

Lemma storeBlob_fills regions : wfRegions 0 regions →
  ∃ ops, storeBlob regions = Some ops ∧
    fills ops 0 (Z.of_nat (length data)) (contents regions).
Proof.
  intros Hwf. unfold storeBlob.
  destruct (storeBlobLoop_spec (contents regions) (length data) 0 regions (mkStoreState [] None))
    as (st & -> & Hinv); [lia|lia| |done|done|].
  { rewrite Z.min_l by lia. split; [lia|]. apply fills_nil. }
  cbn [mbind option_bind]. destruct (commit_spec _ _ _ Hinv) as (st' & -> & Hn & [_ Hf]).
  rewrite Hn in Hf. by exists (emitted st').
Qed.

(** The instructions emitted for a blob rebuild it exactly: whatever the
    memory held, after them every byte of the blob is the interpreter's, every
    pointer region holds the remapped pointer, and no byte outside the blob is
    touched; chunking, partial chunks before pointers, runs turned into memsets
    and vector stores of decreasing size all included. *)
Theorem storeBlob_spec regions : wfRegions 0 regions →
  ∃ ops, storeBlob regions = Some ops ∧
    ∀ m j, exec ops m j = if (0 <=? j) && (j <? Z.of_nat (length data)) then contents regions j else m j.
Proof. apply storeBlob_fills. Qed.

End Stores.

#[local] Existing Instance llvm_math.

Lemma storeBlob_spec_witness :
  ∃ ops, storeBlob 8 16 [0; 0; 0; 9; 9; 9; 9; 9; 9; 9; 9; 5; 6] 8 [mkRegion 3 1 4] = Some ops ∧
    map (exec 8 ops (fun _ => UndefByte)) [2; 3; 11; 12; 13] =
      [Byte 0; PtrByte 1 4 0; Byte 5; Byte 6; UndefByte].
Proof.
  destruct (@storeBlob_spec llvm_math 8 16 [0; 0; 0; 9; 9; 9; 9; 9; 9; 9; 9; 5; 6] 8
    ltac:(lia) ltac:(lia) [mkRegion 3 1 4]) as (ops & Hs & Hx).
  - vm_compute. intuition congruence.
  - exists ops. split; [exact Hs|]. simpl map. rewrite !Hx. reflexivity.
Defined.

(** Every store carries the alignment of the blob, also those that do not
    start at a multiple of it: the last byte of a three-byte blob aligned to
    four bytes is stored at offset two with a claimed alignment of four. *)
Theorem store_alignment_overstated a b c :
  storeBlob 8 16 [a; b; c] 4 [] = Some [StoreBytes 0 [a; b] 4; StoreBytes 2 [c] 4].
Proof.
  with_strategy transparent [Z.of_nat Z.to_nat] cbv -[all_equal].
  by destruct (all_equal [a; b; c]).
Qed.

End Materialize.
