(* ===== verification/MaterializeWalk.v ===== *)
(** [InterpreterMemoryConverter] of Mojo/lib/KGENToLLVM/LLVMLoweringUtils.cpp,
    continued: the walk over the blobs that a memory reference reaches, the
    allocations and globals it creates, and the table of blobs already
    materialized in a scope. *)
From S2P Require Import Prelude LLVMSupport Materialize.

Module MaterializeWalk.
Import Materialize.

#[export] Instance PointerRegion_eq_dec : EqDecision PointerRegion.
Proof. solve_decision. Defined.

Inductive MemoryKind := Stack | Persistent | ConstGlobal | OtherMemory.

#[export] Instance MemoryKind_eq_dec : EqDecision MemoryKind.
Proof. solve_decision. Defined.

(** [MemoryBlobAttr], with its handle. *)
Record Blob := mkBlob {
  kind : MemoryKind;
  isString : bool;
  bytes : list Z;
  getAlign : Z;
  addressSpace : Z;
  getPointerRegions : list PointerRegion
}.

#[export] Instance Blob_eq_dec : EqDecision Blob.
Proof. solve_decision. Defined.

(** A materialized blob: an LLVM global, or the result of an allocation. *)
Inductive BlobPtr := GlobalPtr (id : nat) | AllocPtr (id : nat).

Abbreviation Materialized := (gmap nat BlobPtr).

(** The instructions outside [MemOp]: allocations, and the stores of a blob
    with the pointers its regions are remapped to. *)
Inductive Instr :=
  | StackAllocation (id : nat) (size align : Z)
  | AlignedAlloc (id : nat) (align size : Z)
  | WriteBlob (id : nat) (ops : list MemOp) (pointers : Materialized).

Record GlobalOp := mkGlobal {
  global_blob : Blob;
  global_constant : bool;
  global_align : Z;
  global_space : Z
}.

(** The converter's table of globals, and the code emitted so far. *)
Record EmitState := mkEmit {
  globals : list GlobalOp;
  nextAlloc : nat;
  code : list Instr
}.

Section Walk.
Context {LM : LLVMMath}.
Variable pointerSize simdWidth : Z.
(** [isGlobalBlob], and the blobs of the memory space. *)
Variable isGlobalBlob : Blob → bool.
Variable space : list Blob.

Fixpoint findGlobal (blob : Blob) (gs : list GlobalOp) : option nat :=
  match gs with
  | [] => None
  | g :: gs => if decide (global_blob g = blob) then Some O else S <$> findGlobal blob gs
  end.

Definition getOrCreateGlobal (blob : Blob) (es : EmitState) : nat * EmitState :=
  match findGlobal blob (globals es) with
  | Some global => (global, es)
  | None =>
      (length (globals es),
       mkEmit (app (globals es)
                 [mkGlobal blob (bool_decide (kind blob = ConstGlobal)) (getAlign blob) (addressSpace blob)])
              (nextAlloc es) (code es))
  end.

(** The lambda [materializeBlob]. *)
Definition materializeBlob (blob : Blob) (idx : nat) (st : Materialized * EmitState)
    : Materialized * EmitState :=
  let '(materialized, es) := st in
  match materialized !! idx with
  | Some _ => st
  | None =>
      if isGlobalBlob blob then
        let '(g, es) := getOrCreateGlobal blob es in (<[idx := GlobalPtr g]> materialized, es)
      else
        let size := Z.of_nat (length (bytes blob)) in
        let alloc :=
          match kind blob with
          | Stack | Persistent => StackAllocation (nextAlloc es) size (getAlign blob)
          | _ => AlignedAlloc (nextAlloc es) (getAlign blob) size
          end in
        (<[idx := AllocPtr (nextAlloc es)]> materialized,
         mkEmit (globals es) (S (nextAlloc es)) (app (code es) [alloc]))
  end.

Definition indirectStackError : string := "indirect access to interpreter stack memory".

(** The recursive lambda [materializePtrRegionBlobs], on the regions of a
    blob.  [None]: out of fuel, or a region outside the space. *)
Fixpoint materializePtrRegionBlobs (fuel : nat) (regions : list PointerRegion)
    (st : Materialized * EmitState) {struct fuel} : option (ErrorOr (Materialized * EmitState)) :=
  let fix go (regions : list PointerRegion) (st : Materialized * EmitState) :=
    match regions with
    | [] => Some (Success st)
    | r :: regions =>
        match fst st !! blobIndex r with
        | Some _ => go regions st
        | None =>
            match fuel with
            | O => None
            | S fuel =>
                ptrBlob ← space !! blobIndex r;
                if decide (kind ptrBlob = Stack) then Some (Error indirectStackError)
                else
                  result ← materializePtrRegionBlobs fuel (getPointerRegions ptrBlob)
                             (materializeBlob ptrBlob (blobIndex r) st);
                  match result with
                  | Error e => Some (Error e)
                  | Success st => go regions st
                  end
            end
        end
    end in
  go regions st.

(** The loop that writes every materialized blob that is not a global. *)
Fixpoint writeBlobs (idx : nat) (blobs : list Blob) (materialized : Materialized) (es : EmitState)
    : option EmitState :=
  match blobs with
  | [] => Some es
  | blob :: blobs =>
      es ← (if isGlobalBlob blob then Some es
            else match materialized !! idx with
            | Some (AllocPtr id) =>
                ops ← storeBlob pointerSize simdWidth (bytes blob) (getAlign blob) (getPointerRegions blob);
                Some (mkEmit (globals es) (nextAlloc es) (app (code es) [WriteBlob id ops materialized]))
            | Some (GlobalPtr _) => None
            | None => Some es
            end);
      writeBlobs (S idx) blobs materialized es
  end.

(** [getOrMaterialize] for one memory space; the scope's entry for the space is
    the state that lives across calls. *)
Definition getOrMaterialize (refIndex : nat) (scope : option Materialized) (es : EmitState)
    : option (ErrorOr (BlobPtr * Materialized * EmitState)) :=
  match (blobs ← scope; blobs !! refIndex) with
  | Some p => Some (Success (p, default ∅ scope, es))
  | None =>
      blob ← space !! refIndex;
      result ← materializePtrRegionBlobs (length space) (getPointerRegions blob)
                 (materializeBlob blob refIndex (∅, es));
      match result with
      | Error e => Some (Error e)
      | Success (materialized, es) =>
          es ← writeBlobs 0 space materialized es;
          let blobs := match scope with Some blobs => blobs ∪ materialized | None => materialized end in
          p ← blobs !! refIndex;
          Some (Success (p, blobs, es))
      end
  end.

(** ** What the walk reaches *)

Inductive Reaches : list PointerRegion → nat → Prop :=
  | ReachHere r rs : In r rs → Reaches rs (blobIndex r)
  | ReachThrough r rs blob i : In r rs → space !! blobIndex r = Some blob →
      Reaches (getPointerRegions blob) i → Reaches rs i.

(** The pointers of blob [i] lead into [m]. *)
Definition closedAt (m : Materialized) (i : nat) : Prop :=
  ∀ blob r, space !! i = Some blob → In r (getPointerRegions blob) → is_Some (m !! blobIndex r).

Definition grows (m m' : Materialized) : Prop := ∀ i, is_Some (m !! i) → m' !! i = m !! i.

(** The entries the walk adds over [regions]: reachable from them, off the
    stack, closed under the pointer regions. *)
Definition visited (regions : list PointerRegion) (m m' : Materialized) : Prop :=
  grows m m' ∧
  ∀ i, m !! i = None → is_Some (m' !! i) →
    closedAt m' i ∧ Reaches regions i ∧ ∃ blob, space !! i = Some blob ∧ kind blob ≠ Stack.

(** A stack blob that is reached and was not materialized. *)
Definition reachesStack (regions : list PointerRegion) (m : Materialized) : Prop :=
  ∃ i blob, Reaches regions i ∧ space !! i = Some blob ∧ kind blob = Stack ∧ m !! i = None.

Definition walked (regions : list PointerRegion) (m : Materialized)
    (r : ErrorOr (Materialized * EmitState)) : Prop :=
  match r with
  | Success (m', _) => visited regions m m' ∧ ∀ r, In r regions → is_Some (m' !! blobIndex r)
  | Error e => e = indirectStackError ∧ reachesStack regions m
  end.

Lemma Reaches_tail r0 regions i : Reaches regions i → Reaches (r0 :: regions) i.
Proof.
  inversion 1; subst; [apply ReachHere; by right|eapply ReachThrough; [by right|done|done]].
Qed.

Lemma grows_trans m1 m2 m3 : grows m1 m2 → grows m2 m3 → grows m1 m3.
Proof. intros H1 H2 i Hi. rewrite H2; rewrite (H1 i Hi); done. Qed.

Lemma grows_None m m' i : grows m m' → m' !! i = None → m !! i = None.
Proof. intros Hg Hn. destruct (m !! i) eqn:E; [|done]. specialize (Hg i). rewrite E in Hg. rewrite Hg in Hn; eauto. Qed.

Lemma grows_Some m m' i : grows m m' → is_Some (m !! i) → is_Some (m' !! i).
Proof. intros Hg Hs. by rewrite (Hg i Hs). Qed.

Lemma grows_insert m i p : m !! i = None → grows m (<[i := p]> m).
Proof. intros Hn j [q Hj]. rewrite lookup_insert_ne; [done|]. intros <-. congruence. Qed.

Lemma closedAt_grows m m' i : grows m m' → closedAt m i → closedAt m' i.
Proof. intros Hg Hc blob r Hb Hr. eapply grows_Some; [done|by eapply Hc]. Qed.

Lemma visited_refl regions m : visited regions m m.
Proof. split; [by intros i _|]. intros i -> [? ?]. done. Qed.

Lemma materializeBlob_insert blob idx m es : m !! idx = None →
  ∃ p es', materializeBlob blob idx (m, es) = (<[idx := p]> m, es').
Proof.
  intros Hn. unfold materializeBlob. rewrite Hn. destruct (isGlobalBlob blob).
  - destruct (getOrCreateGlobal blob es) as [g es']. eauto.
  - eauto.
Qed.

(** A region that is already materialized is skipped. *)
Lemma walked_skip r0 regions m r : is_Some (m !! blobIndex r0) →
  walked regions m r → walked (r0 :: regions) m r.
Proof.
  intros H0. destruct r as [[m' es']|e]; cbn [walked].
  - intros [[Hg Hn] Hi]. split; [split; [done|]|].
    + intros i Hm Hm'. destruct (Hn i Hm Hm') as (? & ? & ?). split_and!; [done|by apply Reaches_tail|done].
    + intros r [<-|Hr]; [by eapply grows_Some|by apply Hi].
  - intros (-> & i & b & Hr & Hrest). split; [done|]. exists i, b. split; [by apply Reaches_tail|done].
Qed.

(** Visiting a new blob and its regions, then the remaining regions. *)
Lemma visited_step r0 regions blob p m m1 m' :
  m !! blobIndex r0 = None → space !! blobIndex r0 = Some blob → kind blob ≠ Stack →
  visited (getPointerRegions blob) (<[blobIndex r0 := p]> m) m1 →
  (∀ r, In r (getPointerRegions blob) → is_Some (m1 !! blobIndex r)) →
  visited regions m1 m' → visited (r0 :: regions) m m'.
Proof.
  intros Hn Hb Hk [Hg1 H1] Hi1 [Hg2 H2].
  assert (Hg : grows m m1) by (eapply grows_trans; [by apply grows_insert|done]).
  split; [by eapply grows_trans|]. intros i Hi Hs.
  destruct (m1 !! i) as [q|] eqn:E.
  - destruct (decide (i = blobIndex r0)) as [->|Hne].
    + split_and!; [|by apply ReachHere; left|by exists blob].
      apply closedAt_grows with m1; [done|]. intros b r Hb' Hr. simplify_eq. by apply Hi1.
    + destruct (H1 i) as (Hc & Hr & Hx); [by rewrite lookup_insert_ne|by rewrite E|].
      split_and!; [by eapply closedAt_grows|eapply ReachThrough; [by left|done|done]|done].
  - destruct (H2 i E Hs) as (? & ? & ?). split_and!; [done|by apply Reaches_tail|done].
Qed.

Lemma walked_step r0 regions blob p m m1 r :
  m !! blobIndex r0 = None → space !! blobIndex r0 = Some blob → kind blob ≠ Stack →
  visited (getPointerRegions blob) (<[blobIndex r0 := p]> m) m1 →
  (∀ r, In r (getPointerRegions blob) → is_Some (m1 !! blobIndex r)) →
  walked regions m1 r → walked (r0 :: regions) m r.
Proof.
  intros Hn Hb Hk Hv1 Hi1.
  assert (Hg : grows m m1) by (eapply grows_trans; [by apply grows_insert|by destruct Hv1]).
  destruct r as [[m' es']|e]; cbn [walked].
  - intros [Hv Hi]. split; [by eapply visited_step|]. intros r [<-|Hr]; [|by apply Hi].
    destruct Hv as [Hg2 _], Hv1 as [Hg1 _]. apply (grows_Some m1); [done|].
    apply (grows_Some (<[blobIndex r0 := p]> m)); [done|]. by rewrite lookup_insert_eq.
  - intros (-> & i & b & Hr & Hb' & Hk' & Hi). split; [done|].
    exists i, b. split_and!; [by apply Reaches_tail|done|done|by eapply grows_None].
Qed.

Lemma walk_spec fuel regions m es r :
  materializePtrRegionBlobs fuel regions (m, es) = Some r → walked regions m r.
Proof.
  revert regions m es r. induction fuel as [|fuel IHf]; intros regions;
    induction regions as [|r0 regions IH]; intros m es r; cbn [materializePtrRegionBlobs fst].
  1,3: intros [= <-]; split; [apply visited_refl|done].
  - destruct (m !! blobIndex r0) as [p|] eqn:E; [|done]. intros H.
    apply walked_skip; [by rewrite E|by eapply IH].
  - destruct (m !! blobIndex r0) as [p|] eqn:E.
    { intros H. apply walked_skip; [by rewrite E|by eapply IH]. }
    intros (blob & Hb & H)%bind_Some. destruct (decide (kind blob = Stack)) as [Hk|Hk].
    { injection H as <-. split; [done|]. exists (blobIndex r0), blob. split_and!; [|done..].
      apply ReachHere. by left. }
    destruct (materializeBlob_insert blob (blobIndex r0) m es E) as (p & es1 & Hm). rewrite Hm in H.
    apply bind_Some in H as (res & Hres & H). specialize (IHf _ _ _ _ Hres).
    destruct res as [[m1 es2]|e].
    + destruct IHf as [Hv1 Hi1]. eapply walked_step; [done..|]. by eapply IH.
    + injection H as <-. destruct IHf as (-> & i & b & Hr & Hb' & Hk' & Hi). split; [done|].
      exists i, b. split_and!; [eapply ReachThrough; [by left|done|done]|done|done|].
      eapply grows_None; [by apply grows_insert|done].
Qed.

(** ** The walk ends *)

(** The pointer regions of every blob fit it and stay in the space. *)
Definition validRegions (regions : list PointerRegion) : Prop :=
  ∀ r, In r regions → (blobIndex r < length space)%nat.
Definition validSpace : Prop := ∀ i blob, space !! i = Some blob →
  wfRegions pointerSize (bytes blob) 0 (getPointerRegions blob) ∧ validRegions (getPointerRegions blob).

Definition unvisited (m : Materialized) : gset nat := set_seq 0 (length space) ∖ dom m.

Lemma unvisited_grows m m' : grows m m' → (size (unvisited m') ≤ size (unvisited m))%nat.
Proof.
  intros Hg. apply subset_eq_size || apply subseteq_size. intros i.
  unfold unvisited. rewrite !elem_of_difference, !not_elem_of_dom. intros [? ?].
  split; [done|by eapply grows_None].
Qed.

Lemma unvisited_insert m i p : m !! i = None → (i < length space)%nat →
  (size (unvisited (<[i := p]> m)) < size (unvisited m))%nat.
Proof.
  intros Hn Hi. apply subset_size. split.
  - intros j. unfold unvisited. rewrite !elem_of_difference, !not_elem_of_dom, lookup_insert_None. tauto.
  - intros Hsub. specialize (Hsub i). unfold unvisited in Hsub.
    rewrite !elem_of_difference, !not_elem_of_dom, elem_of_set_seq, lookup_insert_eq in Hsub.
    destruct Hsub as [_ Hx]; [split; [lia|done]|done].
Qed.

Lemma walk_ends fuel regions m es : validSpace → validRegions regions →
  (size (unvisited m) ≤ fuel)%nat →
  ∃ r, materializePtrRegionBlobs fuel regions (m, es) = Some r.
Proof.
  intros Hvs. revert regions m es. induction fuel as [|fuel IHf]; intros regions;
    induction regions as [|r0 regions IH]; intros m es Hvr Hf; cbn [materializePtrRegionBlobs fst].
  1,3: by eexists.
  all: assert (Hr0 : (blobIndex r0 < length space)%nat) by (apply Hvr; by left).
  all: assert (Hvr' : validRegions regions) by (intros r Hr; apply Hvr; by right).
  all: destruct (m !! blobIndex r0) as [p|] eqn:E; [by apply IH|].
  { exfalso. pose proof (unvisited_insert m (blobIndex r0) (GlobalPtr O) E Hr0). lia. }
  destruct (lookup_lt_is_Some_2 space (blobIndex r0) Hr0) as [blob Hb]. rewrite Hb. cbn [mbind option_bind].
  destruct (decide (kind blob = Stack)); [by eexists|].
  destruct (materializeBlob_insert blob (blobIndex r0) m es E) as (p & es1 & ->).
  destruct (IHf (getPointerRegions blob) (<[blobIndex r0 := p]> m) es1) as [res Hres].
  { by apply (Hvs _ _ Hb). }
  { pose proof (unvisited_insert m (blobIndex r0) p E Hr0). lia. }
  rewrite Hres. cbn [mbind option_bind]. destruct res as [[m1 es2]|e]; [|by eexists].
  apply IH; [done|]. apply walk_spec in Hres as [[Hg _] _].
  pose proof (unvisited_grows _ _ Hg). pose proof (unvisited_insert m (blobIndex r0) p E Hr0). lia.
Qed.

(** ** Writing the blobs *)

(** Blobs that are not globals are allocations. *)
Definition allocated (m : Materialized) : Prop :=
  ∀ i p blob, m !! i = Some p → space !! i = Some blob → isGlobalBlob blob = false →
    ∃ id, p = AllocPtr id.

Lemma materializeBlob_allocated blob idx m es : space !! idx = Some blob →
  allocated m → allocated (fst (materializeBlob blob idx (m, es))).
Proof.
  intros Hb Ha. unfold materializeBlob. destruct (m !! idx) eqn:E; [done|].
  destruct (isGlobalBlob blob) eqn:Eg; [destruct (getOrCreateGlobal blob es)|]; cbn [fst];
    intros i p b; rewrite lookup_insert_Some; intros [[<- <-]|[_ Hi]]; eauto; congruence.
Qed.

Lemma walk_allocated fuel regions m es m' es' : allocated m →
  materializePtrRegionBlobs fuel regions (m, es) = Some (Success (m', es')) → allocated m'.
Proof.
  revert regions m es m' es'. induction fuel as [|fuel IHf]; intros regions;
    induction regions as [|r0 regions IH]; intros m es m' es' Ha; cbn [materializePtrRegionBlobs fst].
  1,3: by intros [= <- _].
  - destruct (m !! blobIndex r0); [|done]. by apply IH.
  - destruct (m !! blobIndex r0); [by apply IH|]. intros (blob & Hb & H)%bind_Some.
    destruct (decide (kind blob = Stack)); [done|].
    pose proof (materializeBlob_allocated blob _ m es Hb Ha) as Ha1.
    destruct (materializeBlob blob (blobIndex r0) (m, es)) as [m1 es1].
    apply bind_Some in H as (res & Hres & H). destruct res as [[m2 es2]|e]; [|done].
    eapply IH; [|done]. by eapply IHf.
Qed.

Hypothesis simdWidth_pos : 0 < simdWidth.
Hypothesis pointerSize_pos : 0 < pointerSize.

Lemma writeBlobs_total m idx blobs es : validSpace → allocated m →
  (∀ j, blobs !! j = space !! (idx + j)%nat) → ∃ es', writeBlobs idx blobs m es = Some es'.
Proof.
  intros Hvs Ha. revert idx es. induction blobs as [|blob blobs IH]; intros idx es Hb; cbn [writeBlobs];
    [by eexists|].
  assert (Hi : space !! idx = Some blob) by (rewrite <- (Nat.add_0_r idx), <- Hb; done).
  assert (Hrest : ∀ es, ∃ es', writeBlobs (S idx) blobs m es = Some es').
  { intros es1. apply IH. intros j. replace (S idx + j)%nat with (idx + S j)%nat by lia. by rewrite <- Hb. }
  destruct (isGlobalBlob blob) eqn:Eg; [apply Hrest|].
  destruct (m !! idx) as [p|] eqn:E; [|apply Hrest].
  destruct (Ha _ _ _ E Hi Eg) as [id ->].
  destruct (storeBlob_fills pointerSize simdWidth (bytes blob) (getAlign blob) simdWidth_pos
    pointerSize_pos (getPointerRegions blob)) as (ops & -> & _); [by apply (Hvs _ _ Hi)|].
  cbn [mbind option_bind]. apply Hrest.
Qed.

(** Everything reached through regions that lead into a closed table is in it. *)
Lemma Reaches_closed (m : Materialized) regions i :
  (∀ r, In r regions → is_Some (m !! blobIndex r)) →
  (∀ j, is_Some (m !! j) → closedAt m j) → Reaches regions i → is_Some (m !! i).
Proof.
  intros H Hc Hr. revert H. induction Hr as [r rs Hin|r rs blob i Hin Hb Hr IH]; intros H; [by apply H|].
  apply IH. intros r' Hr'. by apply (Hc (blobIndex r) (H r Hin) blob).
Qed.

(** Materializing a reference into a fresh scope always answers, with as
    much fuel as the space has blobs: it fails exactly when the referenced
    blob reaches another blob of interpreter stack memory, and otherwise the
    scope holds the referenced blob and exactly the blobs it reaches, cyclic
    structures included. *)
Theorem getOrMaterialize_spec refIndex blob es : validSpace → space !! refIndex = Some blob →
  let reached := Reaches (getPointerRegions blob) in
  let badStack := ∃ i b, reached i ∧ i ≠ refIndex ∧ space !! i = Some b ∧ kind b = Stack in
  ∃ r, getOrMaterialize refIndex None es = Some r ∧
    match r with
    | Error e => badStack ∧ e = indirectStackError
    | Success (p, blobs, _) => ¬ badStack ∧ blobs !! refIndex = Some p ∧
        ∀ i, is_Some (blobs !! i) ↔ i = refIndex ∨ reached i
    end.
Proof.
  intros Hvs Hb reached badStack. unfold getOrMaterialize. cbn [mbind option_bind]. rewrite Hb. cbn [mbind option_bind].
  destruct (materializeBlob_insert blob refIndex ∅ es) as (p & es1 & Hm); [done|].
  pose proof (materializeBlob_allocated blob refIndex ∅ es Hb) as Ha. rewrite Hm in *. cbn [fst] in Ha.
  destruct (walk_ends (length space) (getPointerRegions blob) (<[refIndex := p]> ∅) es1) as [res Hres]; [done| | |].
  { by apply (Hvs _ _ Hb). }
  { assert (size (unvisited ∅) = length space).
    { unfold unvisited. rewrite dom_empty_L, difference_empty_L. apply size_set_seq. }
    assert (Hlt : (refIndex < length space)%nat) by (apply lookup_lt_is_Some; by rewrite Hb).
    pose proof (unvisited_insert ∅ refIndex p (lookup_empty _) Hlt). lia. }
  rewrite Hres. cbn [mbind option_bind]. pose proof (walk_spec _ _ _ _ _ Hres) as Hw.
  destruct res as [[m' es']|e]; cbn [walked] in Hw.
  - destruct Hw as [[Hg Hv] Hi]. destruct (writeBlobs_total m' 0 space es' Hvs) as [es2 ->]; [|done|].
    { eapply walk_allocated; [|done]. by apply Ha. }
    cbn [mbind option_bind].
    assert (Hp : m' !! refIndex = Some p) by (rewrite Hg; rewrite lookup_insert_eq; eauto).
    rewrite Hp. cbn [mbind option_bind]. eexists. split; [reflexivity|].
    assert (Hcl : ∀ j, is_Some (m' !! j) → closedAt m' j).
    { intros j Hj. destruct (decide (j = refIndex)) as [->|Hne]; [|apply Hv; [by rewrite lookup_insert_ne|done]].
      intros b r Hb' Hr. simplify_eq. by apply Hi. }
    split_and!; [|done|].
    + intros (i & b & Hr & Hne & Hb' & Hk).
      destruct (Hv i) as (_ & _ & b' & Hb'' & Hk'); [by rewrite lookup_insert_ne| |congruence].
      by eapply Reaches_closed.
    + intros i. split.
      * intros Hs. destruct (decide (i = refIndex)) as [->|Hne]; [by left|right].
        apply Hv; [by rewrite lookup_insert_ne|done].
      * intros [->|Hr]; [by rewrite Hp|by eapply Reaches_closed].
  - destruct Hw as (-> & i & b & Hr & Hb' & Hk & Hn). eexists. split; [reflexivity|]. split; [|done].
    exists i, b. split_and!; try done. intros ->. by rewrite lookup_insert_eq in Hn.
Qed.

End Walk.

(** ** A space with sharing *)

#[local] Existing Instance llvm_math.

Definition sampleIsGlobal (blob : Blob) : bool := bool_decide (kind blob = ConstGlobal).
Definition heapBlob (regions : list PointerRegion) : Blob :=
  mkBlob OtherMemory false (replicate 8 7) 8 0 regions.

(** Blobs 0 and 1 both hold a pointer to blob 2, which points to itself. *)
Definition sharingSpace : list Blob :=
  [heapBlob [mkRegion 0 2 0]; heapBlob [mkRegion 0 2 0]; heapBlob [mkRegion 0 2 0]].

Lemma getOrMaterialize_spec_witness :
  ∃ r, getOrMaterialize 8 16 sampleIsGlobal sharingSpace 0 None (mkEmit [] 0 []) = Some r ∧
    isError r = false.
Proof.
  destruct (@getOrMaterialize_spec llvm_math 8 16 sampleIsGlobal sharingSpace ltac:(lia) ltac:(lia)
    0 (heapBlob [mkRegion 0 2 0]) (mkEmit [] 0 [])) as (r & Hr & _).
  - intros [|[|[|i]]] blob H; [injection H as <-..|discriminate H]; (split; [vm_compute; intuition congruence|]);
      intros r [<-|[]]; simpl; lia.
  - reflexivity.
  - exists r. split; [exact Hr|]. vm_compute in Hr. injection Hr as <-. reflexivity.
Defined.

(** Sharing is lost between two references into one space.  Blobs 0 and 1
    point to blob 2.  The first reference allocates blob 2; the second, to
    blob 1, starts from an empty table although the scope knows blob 2, so it
    allocates it again: blob 1 points to the new copy while blob 0, and the
    scope, hold the old one. *)
Theorem aliasing_lost :
  ∃ s1 e1 s2 e2 m1 m2 ops1 ops2 before between,
    getOrMaterialize 8 16 sampleIsGlobal sharingSpace 0 None (mkEmit [] 0 [])
      = Some (Success (AllocPtr 0, s1, e1)) ∧
    getOrMaterialize 8 16 sampleIsGlobal sharingSpace 1 (Some s1) e1
      = Some (Success (AllocPtr 2, s2, e2)) ∧
    code e2 = app before (WriteBlob 0 [StorePtr 0 2 0 8] m1 :: ops1 ::
                app between [WriteBlob 2 [StorePtr 0 2 0 8] m2; ops2]) ∧
    m1 !! 2%nat = Some (AllocPtr 1) ∧ m2 !! 2%nat = Some (AllocPtr 3) ∧
    s2 !! 2%nat = Some (AllocPtr 1).
Proof.
  do 8 eexists. exists [AlignedAlloc 0 8 8; AlignedAlloc 1 8 8], [AlignedAlloc 2 8 8; AlignedAlloc 3 8 8].
  split_and!; vm_compute; reflexivity.
Qed.

End MaterializeWalk.
