(* ===== verification/ParamToLLVM.v ===== *)
(** [convertParameterToLLVM] and its helpers (Mojo/lib/KGENToLLVM/
    LLVMLoweringUtils.cpp): the lowering of constant parameters to LLVM values.
    As in Variant.v the IR that is built is modelled by the values it computes;
    globals, memory references and stack slots go through the state. *)
From S2P Require Import Prelude LLVMSupport BitOps LLVMTypes DataLayout TypeConverter Variant.
From S2P Require Import UnionStorage Materialize MaterializeWalk.

Module ParamToLLVM.
Import MaterializeWalk.

(** ** Attributes *)

(** [DTypeValue]: one element of a SIMD constant. *)
Inductive DTypeValue :=
  | BoolVal (b : bool)
  | IntVal (v : BV)
  | IndexVal (v : Z)
  | FloatVal (kind : FloatKind) (bits : Z).

(** The constants the conversion tells apart.  [IndexCst], [IntegerCst] and
    [FloatCst] are the builtin [IntegerAttr] and [FloatAttr]. *)
Inductive Attr :=
  | SingletonAttr (type : KTy)
  | UninitMemAttr (type : KTy)
  | IndexCst (value : Z)
  | IntegerCst (value : BV)
  | FloatCst (kind : FloatKind) (bits : Z)
  | DTypeConstantAttr (dtype : Z)
  | NoneAttr
  | PointerAttr (addressSpace addr : Z)
  | StoreToMemAttr (addressSpace : Z) (value : Attr)
  | MemRefAttr (addressSpace : Z) (memory : nat) (index : nat) (refOffset : Z)
  | StringAttr (chars : list Z)
  | CallableSymbolAttr (isCapturing : bool) (symbol : string)
  | SIMDAttr (dtype : KGENDType) (values : list DTypeValue)
  | ArrayAttr (type : KTy) (values : list Attr)
  | StructAttr (type : KTy) (values : list Attr)
  | UnionAttr (types : list KTy) (value : Attr)
  | OtherAttr (id : nat).

Section AttrInd.
Variable P : Attr → Prop.
Hypothesis Hleaf : ∀ a, match a with StoreToMemAttr _ _ | ArrayAttr _ _ | StructAttr _ _ | UnionAttr _ _ => True
                        | _ => P a end.
Hypothesis Hstore : ∀ s v, P v → P (StoreToMemAttr s v).
Hypothesis Harray : ∀ t vs, Forall P vs → P (ArrayAttr t vs).
Hypothesis Hstruct : ∀ t vs, Forall P vs → P (StructAttr t vs).
Hypothesis Hunion : ∀ ts v, P v → P (UnionAttr ts v).

Fixpoint Attr_nested_ind (a : Attr) : P a :=
  let fix go (l : list Attr) : Forall P l :=
    match l with
    | [] => List.Forall_nil P
    | x :: l => List.Forall_cons P x l (Attr_nested_ind x) (go l)
    end in
  match a with
  | StoreToMemAttr s v => Hstore s v (Attr_nested_ind v)
  | ArrayAttr t vs => Harray t vs (go vs)
  | StructAttr t vs => Hstruct t vs (go vs)
  | UnionAttr ts v => Hunion ts v (Attr_nested_ind v)
  | a => Hleaf a
  end.
End AttrInd.

(** The converter's globals and code, the scope's table of materialized blobs
    per memory space, and the stack slots filled by [StoreToMemAttr]. *)
Record ConvState := mkConv {
  emit : EmitState;
  blobs : gmap nat Materialized;
  slots : list LVal
}.

(** [None]: the C++ asserts, or the operation it builds is malformed. *)
Abbreviation Result A := (option (ErrorOr (A * ConvState))).

Section Convert.
Context {LM : LLVMMath} {TD : TargetDataLayout} {KL : KGENLayout}.
(** [UndefOp] of a type, the conversion of builtin float types (the base class
    of the converter owns both), and the run-time addresses of blobs, stack
    slots and symbols. *)
Variable undef : Ty → LVal.
Variable convertFloatType : FloatKind → Ty.
Variable blobAddress : BlobPtr → Z.
Variable slotAddress : nat → Z.
Variable symbolAddress : string → Z.
(** The target and the memory spaces; [MemoryHandleAttr::get] of a string. *)
Variable pointerSize simdWidth : Z.
Variable isGlobalBlob : Blob → bool.
Variable spaces : list (list Blob).
Variable stringBlob : list Z → Blob.
(** Whether [imc] and [scope] are non-null; [ParameterAttr::
    validateForElaborator] (success for other attributes); [getParamAsString]. *)
Variable imc scope : bool.
Variable validateForElaborator : Attr → ErrorOr unit.
Variable getParamAsString : Attr → string.

Definition indexWidth : Z := indexBitwidth.

(** [ConstantOp] of a scalar type with the given bits. *)
Definition constant (type : Ty) (bits : Z) : option LVal :=
  match type with
  | IntegerType w => Some (VInt (mkBV w (bits mod 2 ^ w)))
  | FloatType k => Some (VFloat k bits)
  | _ => None
  end.

(** [IntToPtrOp] to [type]. *)
Definition intToPtr (type : option Ty) (addr : Z) : option LVal :=
  match type with
  | Some (LLVMPointerType a) => Some (VPtr a addr)
  | _ => None
  end.

(** [InsertValueOp]: the position must exist in the aggregate. *)
Definition insertValue (container element : LVal) (position : Z) : option LVal :=
  if (position <? 0) then None else
  match container with
  | VStruct fields =>
      if position <? Z.of_nat (length fields)
      then Some (VStruct (<[Z.to_nat position := element]> fields)) else None
  | VArray e elements =>
      if position <? Z.of_nat (length elements)
      then Some (VArray e (<[Z.to_nat position := element]> elements)) else None
  | _ => None
  end.

(** ** SIMD constants *)

Definition simdBool (v : DTypeValue) : option LVal :=
  match v with BoolVal b => Some (VInt (mkBV 1 (Z.b2z b))) | _ => None end.
(** [IntegerAttr] checks that the [APInt] has the width of the type. *)
Definition simdInt (w : Z) (v : DTypeValue) : option LVal :=
  match v with
  | IntVal b => if bv_width b =? w then Some (VInt b) else None
  | _ => None
  end.
Definition simdIndex (v : DTypeValue) : option Z :=
  match v with IndexVal x => Some (x mod 2 ^ indexWidth) | _ => None end.
(** A float constant of a type lowered as an integer has that integer type. *)
Definition simdFloat (fpType : FloatKind) (v : DTypeValue) : option LVal :=
  match v with
  | FloatVal _ bits =>
      match isFPTyLoweredAsInt fpType with
      | Some intWidth => Some (VInt (mkBV intWidth bits))
      | None => Some (VFloat fpType bits)
      end
  | _ => None
  end.

Definition simdElementType (dtype : KGENDType) : option Ty :=
  match dtype with
  | DTBool => Some (IntegerType 1)
  | DTInt w => Some (IntegerType w)
  | DTIndex | DTUIndex => Some (IntegerType indexWidth)
  | DTAddress => Some (LLVMPointerType 0)
  | DTFloat (Some fpType) =>
      match isFPTyLoweredAsInt fpType with
      | Some intWidth => Some (IntegerType intWidth)
      | None => Some (FloatType fpType)
      end
  | DTFloat None | DTOther => None
  end.

Definition simdElement (dtype : KGENDType) (value : DTypeValue) : option LVal :=
  match dtype with
  | DTBool => simdBool value
  | DTInt w => simdInt w value
  | DTIndex | DTUIndex => x ← simdIndex value; Some (VInt (mkBV indexWidth x))
  | DTAddress => x ← simdIndex value; Some (VPtr 0 x)
  | DTFloat (Some fpType) => simdFloat fpType value
  | DTFloat None | DTOther => None
  end.

(** The scalar case has one value; otherwise a vector constant. *)
Definition convertSIMDAttr (dtype : KGENDType) (values : list DTypeValue) : option LVal :=
  match values with
  | [value] => simdElement dtype value
  | _ =>
      elements ← mapM (simdElement dtype) values;
      e ← simdElementType dtype;
      Some (VVector e elements)
  end.

(** ** Strings, structs, memory references *)

(** The global holds the terminator, the size does not count it. *)
Definition lowerStringToGlobalConstant (chars : list Z) (st : ConvState) : option (LVal * ConvState) :=
  let '(global, es) := getOrCreateGlobal (stringBlob (app chars [0])) (emit st) in
  let sizeVal := VInt (mkBV indexWidth (Z.of_nat (length chars))) in
  let undefOp := undef (getLLVMTypeForKGENStringType (IntegerType indexWidth)) in
  structVal0 ← insertValue undefOp (VPtr 0 (blobAddress (GlobalPtr global))) 0;
  v ← insertValue structVal0 sizeVal 1;
  Some (v, mkConv es (blobs st) (slots st)).

Fixpoint insertAll (container : LVal) (index : Z) (elements : list LVal) : option LVal :=
  match elements with
  | [] => Some container
  | element :: elements =>
      container ← insertValue container element index;
      insertAll container (index + 1) elements
  end.

Definition materializeLLVMStruct (structType : Ty) (elements : list LVal) : option LVal :=
  insertAll (undef structType) 0 elements.

(** [getBlobPointer]: the blob's address plus the offset, as a [ptrType]. *)
Definition getBlobPointer (ptrType : option Ty) (value : BlobPtr) (refOffset : Z) : option LVal :=
  intToPtr ptrType (blobAddress value + refOffset).

Definition convertMemRef (addressSpace : Z) (memory index : nat) (refOffset : Z) (st : ConvState)
    : Result LVal :=
  space ← spaces !! memory;
  materialized ← getOrMaterialize pointerSize simdWidth isGlobalBlob space index (blobs st !! memory) (emit st);
  match materialized with
  | Error e => Some (Error e)
  | Success (value, table, es) =>
      ptr ← getBlobPointer (convertType (KPointer addressSpace)) value refOffset;
      Some (Success (ptr, mkConv es (<[memory := table]> (blobs st)) (slots st)))
  end.

(** [getRemappedFieldIndex], on a struct type that has been converted: the
    index recorded by the conversion. *)
Definition getRemappedFieldIndex (structType : KTy) (logicalIndex : nat) : option Z :=
  match structType with
  | KStruct (Some elementTypes) =>
      members ← mapM (fun t => u ← convertType t; Some (mkUnionMember t u)) elementTypes;
      '(_, fieldIndex) ← convertStructBody structType members;
      fieldIndex !! logicalIndex
  | _ => None
  end.

(** ** The conversion *)

Definition noTypeUninit : string := "unknown type lowering uninitialized memory".
Definition noTargetMemory : string := "cannot lower string constant without target memory model".
Definition capturingClosure : string :=
  "TODO: capturing closures cannot be materialized as runtime values".
Definition noTypeArray : string := "cannot lower array constant with unknown type".
Definition noTypeStruct : string := "cannot lower struct constant with unknown type".
Definition noTypeUnion : string := "cannot lower union constant with unknown type".
Definition unknownAttr (attr : Attr) : string :=
  String.append "cannot lower unknown attribute to LLVM: " (getParamAsString attr).

(** The failure at the end of the function. *)
Definition reportFailure (attr : Attr) : Result LVal :=
  match validateForElaborator attr with
  | Error errorMessage => Some (Error errorMessage)
  | Success _ => Some (Error (unknownAttr attr))
  end.

Definition pure (v : option LVal) (st : ConvState) : Result LVal :=
  v ← v; Some (Success (v, st)).

(** The loop that converts the values and inserts each at its position. *)
Definition insertValues (convert : Attr → ConvState → Result LVal) (position : nat → option Z)
    : nat → list Attr → LVal → ConvState → Result LVal :=
  fix loop logicalIdx values aggregate st :=
    match values with
    | [] => Some (Success (aggregate, st))
    | value :: values =>
        loweredValue ← convert value st;
        match loweredValue with
        | Error e => Some (Error e)
        | Success (v, st) =>
            llvmIdx ← position logicalIdx;
            aggregate ← insertValue aggregate v llvmIdx;
            loop (S logicalIdx) values aggregate st
        end
    end.

Fixpoint convertParameterToLLVM (attr : Attr) (st : ConvState) : Result LVal :=
  match attr with
  | SingletonAttr t | UninitMemAttr t =>
      match convertType t with
      | None => Some (Error noTypeUninit)
      | Some type => Some (Success (undef type, st))
      end
  | IndexCst value => pure (constant (IntegerType indexWidth) value) st
  | IntegerCst value => pure (Some (VInt value)) st
  | FloatCst k bits =>
      match isFPTyLoweredAsInt k with
      | Some _ => pure (constant (convertFloatType k) bits) st
      | None => pure (Some (VFloat k bits)) st
      end
  | DTypeConstantAttr dtype => pure (constant i8Type dtype) st
  | NoneAttr => Some (Success (undef (LLVMStructType []), st))
  | PointerAttr a addr => pure (intToPtr (convertType (KPointer a)) (addr mod 2 ^ indexWidth)) st
  | StoreToMemAttr a value =>
      loweredValue ← convertParameterToLLVM value st;
      match loweredValue with
      | Error e => Some (Error e)
      | Success (v, st) =>
          pure (intToPtr (convertType (KPointer a)) (slotAddress (length (slots st))))
               (mkConv (emit st) (blobs st) (app (slots st) [v]))
      end
  | MemRefAttr a memory index refOffset =>
      if scope then convertMemRef a memory index refOffset st else reportFailure attr
  | StringAttr chars =>
      if imc then
        '(v, st) ← lowerStringToGlobalConstant chars st;
        Some (Success (v, st))
      else Some (Error noTargetMemory)
  | CallableSymbolAttr true _ => Some (Error capturingClosure)
  | CallableSymbolAttr false symbol =>
      pure (intToPtr (convertType (KFunc false)) (symbolAddress symbol)) st
  | SIMDAttr dtype values => pure (convertSIMDAttr dtype values) st
  | ArrayAttr t values =>
      match convertType t with
      | None => Some (Error noTypeArray)
      | Some type => insertValues convertParameterToLLVM (fun idx => Some (Z.of_nat idx)) O values (undef type) st
      end
  | StructAttr t values =>
      match convertType t with
      | None => Some (Error noTypeStruct)
      | Some type => insertValues convertParameterToLLVM (getRemappedFieldIndex t) O values (undef type) st
      end
  | UnionAttr types value =>
      loweredValue ← convertParameterToLLVM value st;
      match loweredValue with
      | Error e => Some (Error e)
      | Success (v, st) =>
          match convertType (KUnion types) with
          | None => Some (Error noTypeUnion)
          | Some (LLVMStructType body) => pure (materializeLLVMUnion body v) st
          | Some _ => None
          end
      end
  | OtherAttr _ => reportFailure attr
  end.

(** ** Specification: the type of a constant, and well-typed constants *)

Definition loweredType (attr : Attr) : option Ty :=
  match attr with
  | SingletonAttr t | UninitMemAttr t | ArrayAttr t _ | StructAttr t _ => convertType t
  | IndexCst _ => Some (IntegerType indexWidth)
  | IntegerCst v => Some (IntegerType (bv_width v))
  | FloatCst k _ =>
      Some (match isFPTyLoweredAsInt k with Some _ => convertFloatType k | None => FloatType k end)
  | DTypeConstantAttr _ => convertType KDType
  | NoneAttr => convertType KNone
  | PointerAttr a _ | StoreToMemAttr a _ | MemRefAttr a _ _ _ => convertType (KPointer a)
  | StringAttr _ => convertType KString
  | CallableSymbolAttr capturing _ => convertType (KFunc capturing)
  | SIMDAttr dtype values => convertType (KSIMD (Some (Z.of_nat (length values))) (Some dtype))
  | UnionAttr types _ => convertType (KUnion types)
  | OtherAttr _ => None
  end.

Definition wfConversion (t : KTy) : Prop := ∀ type, convertType t = Some type → wfTy type.

Definition isPointer (t : option Ty) : bool :=
  match t with Some (LLVMPointerType _) => true | _ => false end.

Fixpoint wellTyped (attr : Attr) : Prop :=
  match attr with
  | SingletonAttr t | UninitMemAttr t => wfConversion t
  | StoreToMemAttr _ v => wellTyped v
  | CallableSymbolAttr false _ => isPointer functionValueType = true
  | SIMDAttr dtype values =>
      is_Some (simdElementType dtype) ∧ Forall (fun v => is_Some (simdElement dtype v)) values
  | ArrayAttr t values =>
      wfConversion t ∧
      match t with
      | KArray (Some n) e => n = Z.of_nat (length values) ∧
          allP (fun v => wellTyped v ∧ loweredType v = convertType e) values
      | _ => False
      end
  | StructAttr t values =>
      wfConversion t ∧
      match t with
      | KStruct (Some ts) => all2P (fun v t => wellTyped v ∧ loweredType v = convertType t) values ts
      | _ => False
      end
  | UnionAttr types v =>
      wellTyped v ∧ wfConversion (KUnion types) ∧ In (loweredType v) (map convertType types)
  | _ => True
  end.

(** Elements of arrays and vectors have the element type, at every depth. *)
Fixpoint wtVal (v : LVal) : Prop :=
  match v with
  | VArray e vs | VVector e vs => allP (fun v => wtVal v ∧ typeOf v = e) vs
  | VStruct vs => allP wtVal vs
  | _ => True
  end.

(** ** Lemmas: packing keeps the type of the storage *)

Lemma wtVal_array e vs : wtVal (VArray e vs) ↔ Forall (fun v => wtVal v ∧ typeOf v = e) vs.
Proof. apply allP_Forall. Qed.
Lemma wtVal_vector e vs : wtVal (VVector e vs) ↔ Forall (fun v => wtVal v ∧ typeOf v = e) vs.
Proof. apply allP_Forall. Qed.
Lemma wtVal_struct vs : wtVal (VStruct vs) ↔ Forall wtVal vs.
Proof. apply allP_Forall. Qed.

Lemma advance_cells st amt n st' : advanceStoragePtr st amt = Some (n, st') → cells st' = cells st.
Proof.
  unfold advanceStoragePtr. intros (c & _ & H)%bind_Some. simplify_eq. by destruct (_ =? _).
Qed.

Lemma padLoop_cells fuel padding added st st' :
  padLoop fuel padding added st = Some st' → cells st' = cells st.
Proof.
  revert added st. induction fuel as [|fuel IH]; intros added st; cbn [padLoop];
    (destruct (_ =? _); [by intros [= <-]|]); [done|].
  intros ([n st1] & H1 & H2)%bind_Some. rewrite (IH _ _ H2). by eapply advance_cells.
Qed.

Lemma addStoragePadding_cells st off a st' off' :
  addStoragePadding st off a = Some (st', off') → cells st' = cells st.
Proof.
  unfold addStoragePadding. intros (st1 & H & H')%bind_Some. simplify_eq. by eapply padLoop_cells.
Qed.

Lemma storeLoop_widths fuel nv off st st' : storeLoop fuel nv off st = Some st' → sameWidths st st'.
Proof.
  revert off st. induction fuel as [|fuel IH]; intros off st; cbn [storeLoop];
    (destruct (_ =? _); [by intros [= <-]|]); [done|].
  intros (cur & Hc & H)%bind_Some. cbv zeta in H. apply bind_Some in H as ([n st1] & H1 & H2).
  eapply sameWidths_trans; [|by eapply IH]. apply advance_cells in H1. unfold sameWidths.
  rewrite H1. cbn [cells]. by apply map_insert_same with cur.
Qed.

Lemma walkAll_widths vs s s' :
  Forall (fun v => ∀ s s', walkAndCreateVariant v s = Some s' → sameWidths (fst s) (fst s')) vs →
  walkAll vs s = Some s' → sameWidths (fst s) (fst s').
Proof.
  intros H. revert s. induction H as [|v vs Hv _ IH]; intros s; cbn [walkAll]; [by intros [= <-]|].
  intros (s1 & H1 & H2)%bind_Some. eapply sameWidths_trans; [by apply Hv|by apply IH].
Qed.

Lemma walk_widths v : ∀ s s', walkAndCreateVariant v s = Some s' → sameWidths (fst s) (fst s').
Proof.
  induction v as [v nv Hn|v Hn IH] using LVal_ind_fields; intros [st off] s'.
  - rewrite (walk_leaf v nv _ Hn). intros ([st1 off1] & H1 & H)%bind_Some.
    apply bind_Some in H as (st2 & H2 & [= <-]). apply addStoragePadding_cells in H1.
    eapply sameWidths_trans; [|by eapply storeLoop_widths]. unfold sameWidths. by rewrite H1.
  - rewrite (walk_aggregate v _ Hn). intros ([st1 off1] & H1 & H)%bind_Some.
    apply addStoragePadding_cells in H1. eapply sameWidths_trans; [|by eapply walkAll_widths].
    unfold sameWidths. cbn [fst] in *. by rewrite H1.
Qed.

Lemma castCell_type r b : isLeaf r → bv_width b = getTypeSizeInBits r → typeOf (castCell r b) = r.
Proof. destruct r; try done; cbn. by intros _ ->. Qed.

(** The storage of a lowered union: the representative's cell, then bytes. *)
Lemma repr_cell r front back cs : isLeaf r → reprCells r = Some front →
  map bv_width cs = map bv_width (app front back) →
  ∃ c cs', cs = c :: cs' ∧ bv_width c = getTypeSizeInBits r ∧ map bv_width cs' = map bv_width back.
Proof.
  intros Hl Hf Hw. destruct r; try done; cbn [reprCells] in Hf; injection Hf as <-; cbn [app map] in Hw;
    (destruct cs as [|c cs]; [done|]); injection Hw as H1 H2; by exists c, cs.
Qed.

Lemma byte_tail n r back cs : tailCells [r; LLVMArrayType i8Type n] = Some back →
  map bv_width cs = map bv_width back → 0 ≤ n →
  Z.of_nat (length cs) = n ∧ Forall (fun b => bv_width b = 8) cs.
Proof.
  cbn. intros [= <-] Hcs Hn. split.
  - rewrite <- (length_map bv_width), Hcs, length_map, length_replicate. lia.
  - apply Forall_lookup. intros i b Hi.
    assert (Hm : map bv_width cs !! i = Some (bv_width b)) by (by rewrite lookup_map, Hi).
    rewrite Hcs, map_replicate in Hm. by apply lookup_replicate in Hm as [-> _].
Qed.

(** A union value has the type of the lowered union. *)
Lemma materializeLLVMUnion_typed types members body value content :
  lowerUnion types members = LLVMStructType body → wfTy (LLVMStructType body) →
  materializeLLVMUnion body value = Some content →
  typeOf content = LLVMStructType body ∧ wtVal content.
Proof.
  unfold lowerUnion. destruct (_ =? 0); [by intros [= <-] _ [= <-]|].
  set (r := getUnionReprType types members). set (n := _ - _).
  pose proof (getUnionReprType_isLeaf types members) as Hleaf. fold r in Hleaf.
  intros Hbody Hwf Hm. assert (Hb0 : ∃ rest, body = r :: rest) by (injection Hbody as <-; eauto).
  destruct Hb0 as [rest ->]. cbn [materializeLLVMUnion] in Hm.
  apply bind_Some in Hm as (front & Hf & H). apply bind_Some in H as (back & Hb & H).
  apply bind_Some in H as ([st off] & Hw & H). apply walk_widths in Hw.
  unfold sameWidths in Hw. cbn [fst cells] in Hw.
  destruct (repr_cell r front back (cells st) Hleaf Hf Hw) as (c & cs & Hc & Hcw & Hcs).
  assert (Hp : packRepr r (cells st) = (castCell r c, cs)).
  { rewrite Hc. unfold packRepr. by destruct r. }
  rewrite Hp in H. injection Hbody as Hrest. destruct (Z.eqb_spec n 0) as [E|E]; subst rest; injection H as <-.
  { cbn [typeOf map]. rewrite castCell_type by done. split; [done|]. cbn. destruct r; done. }
  apply wfTy_struct in Hwf. apply Forall_cons in Hwf as [_ Hwf]. apply Forall_cons in Hwf as [[Hn _] _].
  destruct (byte_tail n r back cs Hb Hcs) as [Hlen Hw8]; [done|]. split.
  - cbn [typeOf map]. rewrite castCell_type by done. unfold i8Type. by rewrite length_map, Hlen.
  - rewrite wtVal_struct, !Forall_cons, wtVal_array. split_and!; [by destruct r| |done].
    apply Forall_map. eapply Forall_impl; [exact Hw8|]. intros b H8. split; [done|]. cbn. by rewrite H8.
Qed.

(** ** Lemmas: the types of the constants *)

Lemma constant_typed t bits v : constant t bits = Some v → typeOf v = t ∧ wtVal v.
Proof. destruct t; intros [= <-]; done. Qed.

Lemma intToPtr_typed t addr v : intToPtr t addr = Some v → t = Some (typeOf v) ∧ wtVal v.
Proof. destruct t as [[]|]; intros [= <-]; done. Qed.

Lemma simdElementType_dtype dtype : simdElementType dtype = getMLIRTypeForDType dtype indexBitwidth.
Proof. by destruct dtype as [| | | |w|[k|]|]. Qed.

Lemma simdElement_typed dtype value v : simdElement dtype value = Some v →
  simdElementType dtype = Some (typeOf v) ∧ wtVal v.
Proof.
  destruct dtype as [| | | |w|[k|]|], value; cbn [simdElement simdElementType]; intros H; try done;
    cbn in H; repeat case_match; bool_to_prop; simplify_eq; done.
Qed.

Lemma convertSIMDAttr_typed dtype values v : convertSIMDAttr dtype values = Some v →
  convertType (KSIMD (Some (Z.of_nat (length values))) (Some dtype)) = Some (typeOf v) ∧ wtVal v.
Proof.
  intros H. cbn [convertType mbind option_bind]. rewrite <- simdElementType_dtype.
  assert (Hvec : length values ≠ 1%nat →
    (elements ← mapM (simdElement dtype) values; e ← simdElementType dtype; Some (VVector e elements)) = Some v →
    (t ← simdElementType dtype; Some (if Z.of_nat (length values) =? 1 then t
       else VectorType (Z.of_nat (length values)) t)) = Some (typeOf v) ∧ wtVal v).
  { intros Hlen (vs & Hvs & He)%bind_Some. apply bind_Some in He as (e & He & [= <-]). rewrite He.
    apply mapM_Some in Hvs. cbn [mbind option_bind typeOf]. rewrite (proj2 (Z.eqb_neq _ _)) by lia.
    rewrite (Forall2_length _ _ _ Hvs). split; [done|]. apply wtVal_vector.
    clear -Hvs He. induction Hvs as [|x y xs ys Hx _ IH]; constructor; [|done].
    apply simdElement_typed in Hx as [Hx ?]. split; [done|]. congruence. }
  destruct values as [|x [|y values]]; [by apply Hvec| |by apply Hvec].
  apply simdElement_typed in H as [-> ?]. done.
Qed.

Lemma insertValue_array c v i e n c' : typeOf c = LLVMArrayType e n → wtVal c →
  typeOf v = e → wtVal v → insertValue c v i = Some c' → typeOf c' = LLVMArrayType e n ∧ wtVal c'.
Proof.
  unfold insertValue. intros Hc Hw Hv Hwv. destruct (i <? 0); [done|].
  destruct c as [| | |e' vs| |]; try done. destruct (_ <? _); [|done]. intros [= <-].
  cbn [typeOf] in *. rewrite length_insert. split; [done|]. rewrite wtVal_array in *.
  apply Forall_insert; [done|]. split; [done|]. congruence.
Qed.

Lemma insertValue_struct c v i body c' : typeOf c = LLVMStructType body → wtVal c →
  body !! Z.to_nat i = Some (typeOf v) → wtVal v → insertValue c v i = Some c' →
  typeOf c' = LLVMStructType body ∧ wtVal c'.
Proof.
  unfold insertValue. intros Hc Hw Hv Hwv. destruct (i <? 0); [done|].
  destruct c as [| | | |vs|]; try done. destruct (_ <? _); [|done]. intros [= <-].
  cbn [typeOf] in *. injection Hc as <-. rewrite lookup_map in Hv.
  apply fmap_Some in Hv as (x & Hx & Hv). split.
  - f_equal. by apply map_insert_same with x.
  - rewrite wtVal_struct in *. by apply Forall_insert.
Qed.

(** Each recorded index of a converted struct holds the field's type. *)
Lemma addStructFields_index members acc acc' : addStructFields acc members = Some acc' →
  (∃ suffix, llvmTypes acc' = app (llvmTypes acc) suffix) ∧
  ∃ idx, fieldIndex acc' = app (fieldIndex acc) (map Z.of_nat idx) ∧
    Forall2 (fun i m => llvmTypes acc' !! i = Some (llvmType m)) idx members.
Proof.
  revert acc. induction members as [|m members IH]; intros acc; cbn [addStructFields].
  { intros [= <-]. split; [exists []|exists []; split; [|constructor]]; by rewrite app_nil_r. }
  intros (acc1 & H1 & H2)%bind_Some. destruct (IH _ H2) as ([suf Hs] & idx & Hi & HF).
  unfold addStructField in H1. apply bind_Some in H1 as (a & _ & H1).
  apply bind_Some in H1 as (z & _ & [= <-]). cbn [llvmTypes fieldIndex] in Hs, Hi.
  set (padded := if _ >? _ then _ else _) in Hs, Hi.
  assert (∃ p, padded = app (llvmTypes acc) p) as [p Hp].
  { unfold padded. destruct (_ >? _); eauto. exists []. by rewrite app_nil_r. }
  split; [exists (app (app p [llvmType m]) suf); by rewrite Hs, Hp, !app_assoc|].
  exists (length padded :: idx). split; [by rewrite Hi, <- app_assoc|]. constructor; [|done].
  rewrite Hs, <- app_assoc. by rewrite lookup_app_r, Nat.sub_diag.
Qed.

Definition convertMember (t : KTy) : option UnionMember :=
  u ← convertType t; Some (mkUnionMember t u).

Lemma convertMembers_mapM l :
  (fix go (l : list KTy) : option (list UnionMember) :=
     match l with
     | [] => Some []
     | t :: l => u ← convertType t; rest ← go l; Some (mkUnionMember t u :: rest)
     end) l = mapM convertMember l.
Proof.
  induction l as [|t l IH]; [done|].
  transitivity (u ← convertType t; rest ← mapM convertMember l; Some (mkUnionMember t u :: rest)).
  { by rewrite <- IH. }
  change (mapM convertMember (t :: l)) with (y ← convertMember t; k ← mapM convertMember l; Some (y :: k)).
  assert (convertMember t = u ← convertType t; Some (mkUnionMember t u)) as -> by done.
  destruct (convertType t); reflexivity.
Qed.

Lemma convertStruct_members ts :
  convertType (KStruct (Some ts)) =
  members ← mapM convertMember ts; '(tys, _) ← convertStructBody (KStruct (Some ts)) members;
  Some (LLVMStructType tys).
Proof.
  cbn [convertType]. by rewrite convertMembers_mapM.
Qed.

Lemma convertUnion_members ts :
  convertType (KUnion ts) = members ← mapM convertMember ts; Some (lowerUnion ts members).
Proof.
  cbn [convertType]. by rewrite convertMembers_mapM.
Qed.

Lemma getRemappedFieldIndex_spec ts type : convertType (KStruct (Some ts)) = Some type →
  ∃ body, type = LLVMStructType body ∧ ∀ i t u, ts !! i = Some t → convertType t = Some u →
    ∃ j, getRemappedFieldIndex (KStruct (Some ts)) i = Some (Z.of_nat j) ∧ body !! j = Some u.
Proof.
  rewrite convertStruct_members. intros (members & Hm & H)%bind_Some.
  apply bind_Some in H as ([tys fi] & Hb & [= <-]). exists tys. split; [done|].
  intros i t u Ht Hu. unfold getRemappedFieldIndex. fold convertMember.
  change (mapM (fun t => u ← convertType t; Some (mkUnionMember t u)) ts) with (mapM convertMember ts).
  rewrite Hm. cbn [mbind option_bind]. rewrite Hb. cbn [mbind option_bind].
  unfold convertStructBody in Hb. apply bind_Some in Hb as (acc & Ha & Hb).
  apply bind_Some in Hb as (ka & _ & Hb). injection Hb as Htys <-.
  destruct (addStructFields_index _ _ _ Ha) as (_ & idx & Hi & HF). cbn [fieldIndex app] in Hi.
  apply mapM_Some in Hm. destruct (Forall2_lookup_l _ _ _ _ _ Hm Ht) as (m & Hmi & Hmt).
  unfold convertMember in Hmt. rewrite Hu in Hmt. injection Hmt as <-.
  destruct (Forall2_lookup_r _ _ _ _ _ HF Hmi) as (j & Hj & Hju). exists j.
  rewrite Hi, lookup_map, Hj. split; [done|]. cbn [llvmType] in Hju. rewrite <- Htys.
  destruct (_ >? _); [|done]. by apply lookup_app_l_Some.
Qed.

Hypothesis undef_type : ∀ t, wfTy t → typeOf (undef t) = t ∧ wtVal (undef t).
Hypothesis index_nonneg : 0 ≤ indexBitwidth.

(** What the conversion of [a] promises of the value it returns. *)
Definition typed (a : Attr) : Prop := ∀ st v st',
  convertParameterToLLVM a st = Some (Success (v, st')) → loweredType a = Some (typeOf v) ∧ wtVal v.

Lemma pure_inv r st v st' : pure r st = Some (Success (v, st')) → r = Some v.
Proof. unfold pure. by intros (x & -> & [= -> _])%bind_Some. Qed.

Lemma convertMemRef_typed a memory index off st v st' :
  convertMemRef a memory index off st = Some (Success (v, st')) →
  convertType (KPointer a) = Some (typeOf v) ∧ wtVal v.
Proof.
  unfold convertMemRef. intros (space & _ & H)%bind_Some. apply bind_Some in H as (r & _ & H).
  destruct r as [[[value table] es]|e]; [|done]. apply bind_Some in H as (ptr & Hp & [= <- _]).
  by eapply intToPtr_typed.
Qed.

Lemma lowerString_typed chars st v st' :
  lowerStringToGlobalConstant chars st = Some (v, st') → convertType KString = Some (typeOf v) ∧ wtVal v.
Proof.
  unfold lowerStringToGlobalConstant. destruct (getOrCreateGlobal _ _) as [g es].
  intros (v0 & H0 & H)%bind_Some. apply bind_Some in H as (v1 & H1 & [= <- _]).
  destruct (undef_type (getLLVMTypeForKGENStringType (IntegerType indexWidth))) as [Hu Hw].
  { cbn. by split_and!. }
  eapply insertValue_struct in H0 as [Ht0 Hw0]; [|done..].
  eapply insertValue_struct in H1 as [Ht1 Hw1]; [|done..].
  cbn [convertType]. by rewrite Ht1.
Qed.

(** The loop keeps the type of the aggregate, given the types of the elements
    at the positions it fills. *)
Lemma insertValues_typed position (Inv : LVal → Prop) values :
  (∀ k a i v c c', values !! k = Some a → position k = Some i → loweredType a = Some (typeOf v) →
     wtVal v → Inv c → insertValue c v i = Some c' → Inv c') →
  Forall typed values →
  ∀ c st c' st', Inv c →
    insertValues convertParameterToLLVM position 0 values c st = Some (Success (c', st')) → Inv c'.
Proof.
  intros Hstep Hall. assert (Hgen : ∀ n rest, (∀ k, rest !! k = values !! (n + k)%nat) → Forall typed rest →
    ∀ c st c' st', Inv c →
      insertValues convertParameterToLLVM position n rest c st = Some (Success (c', st')) → Inv c').
  { intros n rest Hrest Hty. revert n Hrest.
    induction Hty as [|a rest Ha _ IH]; intros n Hrest c st c' st' Hc; cbn [insertValues].
    { by intros [= <- _]. }
    intros (r & Hr & H)%bind_Some. destruct r as [[v st1]|e]; [|done].
    apply bind_Some in H as (i & Hi & H). apply bind_Some in H as (c1 & Hc1 & H).
    destruct (Ha _ _ _ Hr) as [Ht Hw]. eapply (IH (S n)); [|eapply Hstep|exact H]; try done.
    - intros k. specialize (Hrest (S k)). by rewrite Nat.add_succ_r in Hrest.
    - by rewrite <- (Nat.add_0_r n), <- Hrest. }
  by apply Hgen.
Qed.

Lemma array_typed t values type st v st' :
  match t with
  | KArray (Some n) e => n = Z.of_nat (length values) ∧ Forall (fun a => typed a ∧ loweredType a = convertType e) values
  | _ => False
  end → wfConversion t → convertType t = Some type →
  insertValues convertParameterToLLVM (fun idx => Some (Z.of_nat idx)) 0 values (undef type) st
    = Some (Success (v, st')) → typeOf v = type ∧ wtVal v.
Proof.
  destruct t as [| | | | | |[n|] e| | | | |]; try done. intros [-> Hall] Hwf Ht H.
  pose proof (undef_type type (Hwf _ Ht)) as Hu. cbn [convertType mbind option_bind] in Ht.
  apply bind_Some in Ht as (te & He & [= <-]).
  refine (insertValues_typed _ (fun c => typeOf c = LLVMArrayType te _ ∧ wtVal c) values _ _ _ _ _ _ Hu H).
  - intros k a i x c c' Hk _ Hta Hw [Hc Hwc] Hins.
    destruct (Forall_lookup_1 _ _ _ _ Hall Hk) as [_ Hl].
    eapply (insertValue_array c x i); [exact Hc|done| |done|done]. rewrite He, Hta in Hl. congruence.
  - eapply Forall_impl; [exact Hall|]. by intros a [? _].
Qed.

Lemma struct_typed t values type st v st' :
  match t with
  | KStruct (Some ts) => Forall2 (fun a t => typed a ∧ loweredType a = convertType t) values ts
  | _ => False
  end → wfConversion t → convertType t = Some type →
  insertValues convertParameterToLLVM (getRemappedFieldIndex t) 0 values (undef type) st
    = Some (Success (v, st')) → typeOf v = type ∧ wtVal v.
Proof.
  destruct t as [| | | | | | |[ts|]| | | |]; try done. intros Hall Hwf Ht H.
  pose proof (undef_type type (Hwf _ Ht)) as Hu.
  destruct (getRemappedFieldIndex_spec ts type Ht) as (body & -> & Hidx).
  refine (insertValues_typed _ (fun c => typeOf c = LLVMStructType body ∧ wtVal c) values _ _ _ _ _ _ Hu H).
  - intros k a i x c c' Hk Hi Hta Hw [Hc Hwc] Hins.
    destruct (Forall2_lookup_l _ _ _ _ _ Hall Hk) as (tk & Htk & _ & Hl). rewrite Hta in Hl.
    destruct (Hidx k tk (typeOf x) Htk) as (j & Hj & Hb); [done|]. rewrite Hi in Hj. injection Hj as ->.
    eapply (insertValue_struct c x); [exact Hc|done| |done|done]. by rewrite Nat2Z.id.
  - apply Forall_lookup. intros k a Hk. by destruct (Forall2_lookup_l _ _ _ _ _ Hall Hk) as (? & _ & ? & _).
Qed.

Lemma convert_typed attr : wellTyped attr → typed attr.
Proof.
  revert attr. refine (Attr_nested_ind (fun a => wellTyped a → typed a) _ _ _ _ _); [intros a|intros s a IH|intros t vs IH|intros t vs IH|intros ts a IH].
  - destruct a; try done; cbn [wellTyped]; intros Hw st v st'; cbn [convertParameterToLLVM loweredType].
    1-2: destruct (convertType type) eqn:E; intros [= <- _]; destruct (undef_type _ (Hw _ E)) as [-> ?]; done.
    (* scalars *)
    1: intros [-> ?]%pure_inv%constant_typed; done.
    1: intros [= <-]%pure_inv; done.
    1: destruct (isFPTyLoweredAsInt _); [intros [-> ?]%pure_inv%constant_typed|intros [= <-]%pure_inv]; done.
    1: intros [-> ?]%pure_inv%constant_typed; done.
    1: intros [= <- _]; destruct (undef_type (LLVMStructType []) I) as [-> ?]; done.
    1: intros H%pure_inv; by eapply intToPtr_typed.
    + destruct scope; [apply convertMemRef_typed|]. unfold reportFailure. by destruct (validateForElaborator _).
    + destruct imc; [|done]. intros ([x st1] & H & [= <- _])%bind_Some. by eapply lowerString_typed.
    + destruct isCapturing; [done|]. intros H%pure_inv. by eapply intToPtr_typed.
    + intros H%pure_inv. by apply convertSIMDAttr_typed.
    + unfold reportFailure. by destruct (validateForElaborator _).
  - cbn [wellTyped]. intros Hw st v st'. cbn [convertParameterToLLVM loweredType].
    intros (r & Hr & H)%bind_Some. destruct r as [[x st1]|e]; [|done].
    apply pure_inv in H. by eapply intToPtr_typed.
  - cbn [wellTyped]. intros [Hwf Hall] st v st'. cbn [convertParameterToLLVM loweredType].
    destruct (convertType t) as [type|] eqn:E; [|done]. intros H.
    destruct (array_typed t vs type st v st') as [-> ?]; try done.
    destruct t as [| | | | | |[n|] e| | | | |]; try done. destruct Hall as [-> Hall]. split; [done|].
    apply allP_Forall in Hall. eapply Forall_impl_in; [|exact Hall].
    eapply Forall_impl; [exact IH|]. intros a Ha [? ?]. split; [by apply Ha|done].
  - cbn [wellTyped]. intros [Hwf Hall] st v st'. cbn [convertParameterToLLVM loweredType].
    destruct (convertType t) as [type|] eqn:E; [|done]. intros H.
    destruct (struct_typed t vs type st v st') as [-> ?]; try done.
    destruct t as [| | | | | | |[ts|]| | | |]; try done. apply all2P_Forall2 in Hall.
    clear -Hall IH. induction Hall as [|a t vs ts [Ha Ht] _ IHl]; [constructor|].
    apply Forall_cons in IH as [Hty IH]. constructor; [split; [by apply Hty|done]|by apply IHl].
  - cbn [wellTyped]. intros (Hw & Hwf & _) st v st'. cbn [convertParameterToLLVM loweredType].
    intros (r & _ & H)%bind_Some. destruct r as [[x st1]|e]; [|done].
    destruct (convertType (KUnion ts)) as [type|] eqn:E; [|done]. specialize (Hwf _ E).
    destruct type as [| | | | |body]; try done. apply pure_inv in H.
    rewrite convertUnion_members in E. apply bind_Some in E as (members & _ & [= Hl]).
    destruct (materializeLLVMUnion_typed ts members body x v) as [-> ?]; done.
Qed.

(** ** The conversion answers *)

Hypothesis convertFloatType_int : ∀ k w, isFPTyLoweredAsInt k = Some w → convertFloatType k = IntegerType w.

(** No reference to interpreter memory and no union, at any depth. *)
Fixpoint plain (attr : Attr) : Prop :=
  match attr with
  | StoreToMemAttr _ v => plain v
  | ArrayAttr _ values | StructAttr _ values => allP plain values
  | MemRefAttr _ _ _ _ | UnionAttr _ _ => False
  | _ => True
  end.

Definition answers (a : Attr) : Prop := ∀ st, ∃ r, convertParameterToLLVM a st = Some r.

Lemma insertValue_struct_total c v j body : typeOf c = LLVMStructType body → (j < length body)%nat →
  ∃ c', insertValue c v (Z.of_nat j) = Some c'.
Proof.
  intros Hc Hj. destruct c as [| | | |vs|]; try done. cbn [typeOf] in Hc. injection Hc as <-.
  rewrite length_map in Hj. unfold insertValue.
  rewrite (proj2 (Z.ltb_ge _ _)), (proj2 (Z.ltb_lt _ _)) by lia. eauto.
Qed.

Lemma insertValue_array_total c v j e n : typeOf c = LLVMArrayType e n → Z.of_nat j < n →
  ∃ c', insertValue c v (Z.of_nat j) = Some c'.
Proof.
  intros Hc Hj. destruct c as [| | |e' vs| |]; try done. cbn [typeOf] in Hc. injection Hc as <- <-.
  unfold insertValue. rewrite (proj2 (Z.ltb_ge _ _)), (proj2 (Z.ltb_lt _ _)) by lia. eauto.
Qed.

Lemma insertValues_answers position (Inv : LVal → Prop) values :
  (∀ k a v c, values !! k = Some a → loweredType a = Some (typeOf v) → wtVal v → Inv c →
     ∃ i c', position k = Some i ∧ insertValue c v i = Some c' ∧ Inv c') →
  Forall (fun a => typed a ∧ answers a) values →
  ∀ c st, Inv c → ∃ r, insertValues convertParameterToLLVM position 0 values c st = Some r.
Proof.
  intros Hstep Hall. assert (Hgen : ∀ n rest, (∀ k, rest !! k = values !! (n + k)%nat) →
    Forall (fun a => typed a ∧ answers a) rest → ∀ c st, Inv c →
      ∃ r, insertValues convertParameterToLLVM position n rest c st = Some r).
  { intros n rest Hrest Hty. revert n Hrest.
    induction Hty as [|a rest [Ha Hans] _ IH]; intros n Hrest c st Hc; cbn [insertValues]; [eauto|].
    destruct (Hans st) as [r Hr]. rewrite Hr. cbn [mbind option_bind]. destruct r as [[v st1]|e]; [|eauto].
    destruct (Ha _ _ _ Hr) as [Ht Hw].
    destruct (Hstep n a v c) as (i & c1 & -> & Hc1 & Hi); try done.
    { by rewrite <- (Nat.add_0_r n), <- Hrest. }
    cbn [mbind option_bind]. rewrite Hc1. cbn [mbind option_bind]. apply (IH (S n)); [|done].
    intros k. specialize (Hrest (S k)). by rewrite Nat.add_succ_r in Hrest. }
  by apply Hgen.
Qed.

Lemma array_answers t values type st :
  match t with
  | KArray (Some n) e => n = Z.of_nat (length values) ∧ Forall (fun a => typed a ∧ loweredType a = convertType e) values
  | _ => False
  end → Forall answers values → wfConversion t → convertType t = Some type →
  ∃ r, insertValues convertParameterToLLVM (fun idx => Some (Z.of_nat idx)) 0 values (undef type) st = Some r.
Proof.
  destruct t as [| | | | | |[n|] e| | | | |]; try done. intros [-> Hall] Hans Hwf Ht.
  pose proof (undef_type type (Hwf _ Ht)) as Hu. cbn [convertType mbind option_bind] in Ht.
  apply bind_Some in Ht as (te & He & [= <-]).
  apply (insertValues_answers _ (fun c => typeOf c = LLVMArrayType te _ ∧ wtVal c)) with (3 := Hu).
  - intros k a v c Hk Hta Hw [Hc Hwc]. pose proof (lookup_lt_Some _ _ _ Hk).
    destruct (insertValue_array_total c v k _ _ Hc) as [c' Hc']; [lia|].
    exists (Z.of_nat k), c'. split; [done|]. split; [done|]. destruct (Forall_lookup_1 _ _ _ _ Hall Hk) as [_ Hl].
    eapply (insertValue_array c v); [exact Hc|done| |done|done]. rewrite He, Hta in Hl. congruence.
  - apply Forall_and. split; [|done]. eapply Forall_impl; [exact Hall|]. by intros a [? _].
Qed.

Lemma struct_answers t values type st :
  match t with
  | KStruct (Some ts) => Forall2 (fun a t => typed a ∧ loweredType a = convertType t) values ts
  | _ => False
  end → Forall answers values → wfConversion t → convertType t = Some type →
  ∃ r, insertValues convertParameterToLLVM (getRemappedFieldIndex t) 0 values (undef type) st = Some r.
Proof.
  destruct t as [| | | | | | |[ts|]| | | |]; try done. intros Hall Hans Hwf Ht.
  pose proof (undef_type type (Hwf _ Ht)) as Hu.
  destruct (getRemappedFieldIndex_spec ts type Ht) as (body & -> & Hidx).
  apply (insertValues_answers _ (fun c => typeOf c = LLVMStructType body ∧ wtVal c)) with (3 := Hu).
  - intros k a v c Hk Hta Hw [Hc Hwc].
    destruct (Forall2_lookup_l _ _ _ _ _ Hall Hk) as (tk & Htk & _ & Hl). rewrite Hta in Hl.
    destruct (Hidx k tk (typeOf v) Htk) as (j & Hj & Hb); [done|].
    destruct (insertValue_struct_total c v j body Hc) as [c' Hc']; [by eapply lookup_lt_Some|].
    exists (Z.of_nat j), c'. split; [done|]. split; [done|].
    eapply (insertValue_struct c v); [exact Hc|done| |done|done]. by rewrite Nat2Z.id.
  - apply Forall_and. split; [|done]. apply Forall_lookup. intros k a Hk.
    by destruct (Forall2_lookup_l _ _ _ _ _ Hall Hk) as (? & _ & ? & _).
Qed.

Lemma lowerString_answers chars st : ∃ r, lowerStringToGlobalConstant chars st = Some r.
Proof.
  unfold lowerStringToGlobalConstant. destruct (getOrCreateGlobal _ _) as [g es].
  destruct (undef_type (getLLVMTypeForKGENStringType (IntegerType indexWidth))) as [Hu Hw].
  { cbn. by split_and!. }
  destruct (insertValue_struct_total _ (VPtr 0 (blobAddress (GlobalPtr g))) 0 _ Hu) as [c0 H0]; [simpl; lia|].
  change (Z.of_nat 0) with 0 in H0. rewrite H0. cbn [mbind option_bind].
  eapply insertValue_struct in H0 as [Ht0 Hw0]; [|done..].
  destruct (insertValue_struct_total _ (VInt (mkBV indexWidth (Z.of_nat (length chars)))) 1 _ Ht0) as [c1 H1];
    [simpl; lia|].
  replace (Z.of_nat 1) with 1 in H1 by lia. rewrite H1. eauto.
Qed.

Lemma convertSIMDAttr_answers dtype values : is_Some (simdElementType dtype) →
  Forall (fun v => is_Some (simdElement dtype v)) values → ∃ v, convertSIMDAttr dtype values = Some v.
Proof.
  intros [e He] Hall. unfold convertSIMDAttr.
  assert (∃ vs, mapM (simdElement dtype) values = Some vs) as [vs Hvs] by (by apply mapM_is_Some).
  destruct values as [|x [|y values]]; [| |].
  - rewrite Hvs, He. eauto.
  - apply Forall_cons in Hall as [[v Hv] _]. eauto.
  - rewrite Hvs, He. eauto.
Qed.

Lemma reportFailure_answers a : ∃ r, reportFailure a = Some r.
Proof. unfold reportFailure. destruct (validateForElaborator a); eauto. Qed.

Lemma convert_answers attr : wellTyped attr → plain attr → answers attr.
Proof.
  revert attr. refine (Attr_nested_ind (fun a => wellTyped a → plain a → answers a) _ _ _ _ _);
    [intros a|intros s a IH|intros t vs IH|intros t vs IH|done].
  - destruct a; try done; cbn [wellTyped]; intros Hw _ st; cbn [convertParameterToLLVM]; try by eexists.
    1-2: destruct (convertType type); eauto.
    + destruct (isFPTyLoweredAsInt _) eqn:E; [|by eexists]. rewrite (convertFloatType_int _ _ E). by eexists.
    + destruct imc; [|by eexists]. destruct (lowerString_answers chars st) as [[v st1] ->]. by eexists.
    + destruct isCapturing; [by eexists|]. cbn [convertType]. unfold isPointer in Hw.
      destruct functionValueType as [[]|]; try done. by eexists.
    + destruct Hw as [He Hv]. destruct (convertSIMDAttr_answers dtype values He Hv) as [v ->]. by eexists.
    + apply reportFailure_answers.
  - cbn [wellTyped plain]. intros Hw Hp st. cbn [convertParameterToLLVM].
    destruct (IH Hw Hp st) as [[[x st1]|e] ->]; by eexists.
  - cbn [wellTyped plain]. intros [Hwf Hall] Hp st. cbn [convertParameterToLLVM].
    destruct (convertType t) as [type|] eqn:E; [|by eexists]. apply allP_Forall in Hp.
    destruct t as [| | | | | |[n|] e| | | | |]; try done. destruct Hall as [-> Hall]. apply allP_Forall in Hall.
    eapply array_answers; [|..|done|done].
    + split; [done|]. eapply Forall_impl; [exact Hall|]. intros a [? ?]. split; [by apply convert_typed|done].
    + eapply Forall_impl_in; [|exact Hp]. eapply Forall_impl_in; [|exact Hall].
      eapply Forall_impl; [exact IH|]. intros a Ha [? ?] ?. by apply Ha.
  - cbn [wellTyped plain]. intros [Hwf Hall] Hp st. cbn [convertParameterToLLVM].
    destruct (convertType t) as [type|] eqn:E; [|by eexists]. apply allP_Forall in Hp.
    destruct t as [| | | | | | |[ts|]| | | |]; try done. apply all2P_Forall2 in Hall.
    eapply struct_answers; [|..|done|done].
    + eapply Forall2_impl; [exact Hall|]. intros a t [? ?]. split; [by apply convert_typed|done].
    + eapply Forall_impl_in; [|exact Hp]. eapply Forall_impl_in; [exact IH|].
      apply Forall_lookup. intros k a Hk. by destruct (Forall2_lookup_l _ _ _ _ _ Hall Hk) as (? & _ & ? & _).
Qed.

(** C14: A well-typed constant is lowered to a value of exactly the type its own
    type is converted to, with every element of every array and vector inside
    it of the declared element type; padding fields of structs, the cells of
    packed unions and the pointers to interpreter memory included.  Without
    interpreter memory and unions the conversion also always answers: it never
    asserts, inserts out of range, or runs into an unrecorded field index. *)
Theorem convertParameterToLLVM_typed attr : wellTyped attr →
  (∀ st v st', convertParameterToLLVM attr st = Some (Success (v, st')) →
     loweredType attr = Some (typeOf v) ∧ wtVal v) ∧
  (plain attr → ∀ st, ∃ r, convertParameterToLLVM attr st = Some r).
Proof. intros Hw. split; [by apply convert_typed|by apply convert_answers]. Qed.

End Convert.

(** ** [getWorkGroupSizeRange] *)

(** [APInt::getSExtValue] and [IntegerAttr::getInt]. *)
Definition sext (b : BV) : Z :=
  if bv_val b <? 2 ^ (bv_width b - 1) then bv_val b else bv_val b - 2 ^ bv_width b.

Definition workGroupValue (attr : Attr) : option Z :=
  match attr with
  | IntegerCst v => Some (sext v)
  | IndexCst v => Some v
  | SIMDAttr _ (IntVal v :: _) => Some (sext v)
  | _ => None
  end.

Definition getWorkGroupSizeRangeHelper (values : list Z) : option (Z * Z) :=
  match (match values with [x] => 1 :: values | _ => values end) with
  | lo :: hi :: _ => Some (lo, hi)
  | _ => None
  end.

(** [None]: an element that is neither an integer nor an integer SIMD value. *)
Definition getWorkGroupSizeRange (value : Attr) : option (ErrorOr (Z * Z)) :=
  match value with
  | ArrayAttr _ elements =>
      if (Nat.eqb (length elements) 1 || Nat.eqb (length elements) 2)%bool then
        values ← mapM workGroupValue elements;
        Success <$> getWorkGroupSizeRangeHelper values
      else Some (Error "ArrayAttr must contain exactly one or two values")
  | IntegerCst _ | IndexCst _ =>
      x ← workGroupValue value; Success <$> getWorkGroupSizeRangeHelper [x]
  | _ => Some (Error "attribute type must be either an ArrayAttr of 1 or 2 elements or an IntegerAttr")
  end.

(** ** [squashPointlessCasts] *)

(** An SSA value: the result of an [UnrealizedConversionCastOp], or not. *)
Inductive Value :=
  | OtherValue (id : nat) (type : Ty)
  | CastResult (operands : list Value) (results : list Ty) (resultNumber : nat).

Definition getType (v : Value) : option Ty :=
  match v with
  | OtherValue _ type => Some type
  | CastResult _ results k => results !! k
  end.

(** [None]: [getOperand(0)] of a cast without operands. *)
Fixpoint squashPointlessCasts (v : Value) : option Value :=
  match v with
  | CastResult [CastResult operands2 results2 k2] [_] _ =>
      match operands2 with
      | [] => None
      | operand :: _ =>
          if decide (getType operand = getType v) then squashPointlessCasts operand else Some v
      end
  | _ => Some v
  end.

(** Every cast in the chain has one operand and one result. *)
Fixpoint unaryCasts (v : Value) : Prop :=
  match v with
  | OtherValue _ _ => True
  | CastResult [operand] [_] O => unaryCasts operand
  | _ => False
  end.

(** On chains of one-to-one casts the squashing answers with a value of the
    same type that means the same under every meaning for which a cast there
    and back is the identity, and it leaves no such pair at the end of the
    chain. *)
Theorem squashPointlessCasts_spec (D : Type) (denote : Value → D) v :
  (∀ operand t u, getType operand = Some u →
     denote (CastResult [CastResult [operand] [t] 0] [u] 0) = denote operand) →
  unaryCasts v →
  ∃ w, squashPointlessCasts v = Some w ∧ getType w = getType v ∧ denote w = denote v ∧
    ∀ operand t u, w = CastResult [CastResult [operand] [t] 0] [u] 0 → getType operand ≠ Some u.
Proof.
  intros Hround. revert v. fix IH 1. intros v Hv.
  destruct v as [id t|ops res k]; [by exists (OtherValue id t)|].
  destruct ops as [|inner [|]], res as [|u [|]], k; try done.
  destruct inner as [id t|ops2 res2 k2]; [eexists; split_and!; done|].
  destruct ops2 as [|x [|]], res2 as [|t [|]], k2; try done.
  cbn [squashPointlessCasts]. case_decide as Hd.
  - destruct (IH x Hv) as (w & -> & Hty & Hden & Hirr). exists w. split_and!; [done|congruence| |done].
    rewrite Hden. symmetry. by apply Hround.
  - eexists. split_and!; [done..|]. intros operand t' u' [= -> -> ->]. exact Hd.
Qed.

(** The leaf a chain of casts starts from: a meaning that ignores casts. *)
Fixpoint origin (v : Value) : Value :=
  match v with
  | CastResult (operand :: _) _ _ => origin operand
  | v => v
  end.

Lemma squashPointlessCasts_spec_witness :
  let i64 := IntegerType 64 in
  let chain := CastResult [CastResult [OtherValue 3 i64] [LLVMPointerType 0] 0] [i64] 0 in
  squashPointlessCasts chain = Some (OtherValue 3 i64) ∧ origin chain = OtherValue 3 i64.
Proof.
  intros i64 chain.
  destruct (squashPointlessCasts_spec Value origin chain) as (w & Hw & _ & Ho & _); [done|done|].
  assert (w = OtherValue 3 i64) as -> by (vm_compute in Hw; by injection Hw).
  split; [exact Hw|]. by rewrite <- Ho.
Defined.

(** The guard on the inner cast looks at the outer one again: an inner cast of
    two operands is squashed to its first one, whatever the second is. *)
Theorem squash_drops_operand a b t u :
  squashPointlessCasts (CastResult [CastResult [OtherValue a t; b] [u] 0] [t] 0) = Some (OtherValue a t).
Proof. cbn [squashPointlessCasts]. by rewrite decide_True. Qed.

(** ** A structure constant *)

#[local] Existing Instance llvm_math.
#[local] Existing Instance x86_64_layout.
#[local] Existing Instance natural_kgen_layout.

(** An undefined value with all bits clear. *)
Fixpoint zeroOf (t : Ty) : LVal :=
  match t with
  | IntegerType w => VInt (mkBV w 0)
  | FloatType k => VFloat k 0
  | LLVMPointerType a => VPtr a 0
  | VectorType n e => VVector e (replicate (Z.to_nat n) (zeroOf e))
  | LLVMArrayType e n => VArray e (replicate (Z.to_nat n) (zeroOf e))
  | LLVMStructType body => VStruct (map zeroOf body)
  end.

Lemma zeroOf_typed t : wfTy t → typeOf (zeroOf t) = t ∧ wtVal (zeroOf t).
Proof.
  induction t as [w|k|a|n e IH|e n IH|body IH] using Ty_nested_ind; try done.
  - intros [Hn He]. destruct (IH He). cbn [zeroOf typeOf]. rewrite length_replicate, Z2Nat.id by done.
    split; [done|]. apply wtVal_vector. by apply Forall_replicate.
  - intros [Hn He]. destruct (IH He). cbn [zeroOf typeOf]. rewrite length_replicate, Z2Nat.id by done.
    split; [done|]. apply wtVal_array. by apply Forall_replicate.
  - rewrite wfTy_struct. intros Hwf. cbn [zeroOf typeOf]. rewrite wtVal_struct.
    pose proof (Forall_impl_in _ _ _ IH Hwf) as H. clear IH Hwf. split.
    + f_equal. induction H as [|t l [Ht _] _ IHl]; [done|]. cbn [map]. by rewrite Ht, IHl.
    + apply Forall_map. eapply Forall_impl; [exact H|]. by intros t [_ ?].
Qed.

Definition natConvertFloatType (k : FloatKind) : Ty :=
  match isFPTyLoweredAsInt k with Some w => IntegerType w | None => FloatType k end.

(** A byte, a 64-bit integer and an array of two 16-bit integers; the struct is
    padded to the 16 bytes of its alignment. *)
Definition sampleArray : Attr :=
  ArrayAttr (KArray (Some 2) (kInt 16)) [SIMDAttr (DTInt 16) [IntVal (mkBV 16 60)]; IntegerCst (mkBV 16 64)].
Definition sampleStruct : Attr :=
  StructAttr (KStruct (Some [kInt 8; kInt 64; KArray (Some 2) (kInt 16)]))
    [SIMDAttr (DTInt 8) [IntVal (mkBV 8 5)]; IntegerCst (mkBV 64 7); sampleArray].

Definition convertSample (st : ConvState) : Result LVal :=
  convertParameterToLLVM zeroOf natConvertFloatType (fun _ => 0) (fun _ => 0) (fun _ => 0) 8 16
    (fun _ => false) [] (fun chars => mkBlob ConstGlobal true chars 1 0 []) true true
    (fun _ => Success tt) (fun _ => EmptyString) sampleStruct st.

Lemma convertParameterToLLVM_typed_witness :
  ∃ v st, convertSample (mkConv (mkEmit [] 0 []) ∅ []) = Some (Success (v, st)) ∧
    loweredType natConvertFloatType sampleStruct = Some (typeOf v).
Proof.
  destruct (@convertParameterToLLVM_typed llvm_math x86_64_layout natural_kgen_layout zeroOf natConvertFloatType
    (fun _ => 0) (fun _ => 0) (fun _ => 0) 8 16 (fun _ => false) [] (fun chars => mkBlob ConstGlobal true chars 1 0 [])
    true true (fun _ => Success tt) (fun _ => EmptyString) zeroOf_typed ltac:(vm_compute; discriminate)
    ltac:(unfold natConvertFloatType; by intros k w ->) sampleStruct) as [Hty Hans].
  - assert (Hwf : ∀ t, match convertType t with Some type => wfTy type | None => True end → wfConversion t).
    { intros t Hw type Htype. by rewrite Htype in Hw. }
    split; [apply Hwf; vm_compute; intuition discriminate|].
    repeat split; try (by eexists); try (by repeat constructor; eexists).
    apply Hwf; vm_compute; intuition discriminate.
  - destruct (Hans ltac:(by repeat split) (mkConv (mkEmit [] 0 []) ∅ [])) as [r Hr].
    unfold convertSample. rewrite Hr. destruct r as [[v st]|e]; [|exfalso; vm_compute in Hr; discriminate Hr].
    exists v, st. split; [done|]. by destruct (Hty _ _ _ Hr).
Defined.

End ParamToLLVM.
