(* ===== verification/FieldIndexCache.v ===== *)
(** [structFieldIndexCache] of [POPToLLVMTypeConverter] (Mojo/lib/KGENToLLVM/
    LLVMLoweringUtils.cpp): the conversion of types with the table it fills,
    from the fields of structs to the fields of their LLVM structs, and what
    [getRemappedFieldIndex] finds in it. *)
From S2P Require Import Prelude LLVMSupport LLVMTypes DataLayout TypeConverter ParamToLLVM.

#[local] Open Scope Z_scope.

Module FieldIndexCache.
Import ParamToLLVM.

(** ** Equality and induction on KGEN's types *)

#[export] Instance KGENDType_eq_dec : EqDecision KGENDType.
Proof. solve_decision. Defined.

Definition KTy_eq_dec : ∀ a b : KTy, {a = b} + {a ≠ b}.
Proof.
  fix F 1. intros a b.
  destruct a as [| | |c|g|n|n e|o|n d| |ts|], b as [| | |c'|g'|n'|n' e'|o'|n' d'| |ts'|]; try (by left); try (by right).
  - destruct (decide (c = c')); [left|right]; congruence.
  - destruct (F g g'); [left|right]; congruence.
  - destruct (decide (n = n')); [left|right]; congruence.
  - destruct (decide (n = n')), (F e e'); [left|right|right|right]; congruence.
  - destruct o as [l|], o' as [k|]; try (by left); try (by right).
    destruct (List.list_eq_dec F l k); [left|right]; congruence.
  - destruct (decide (n = n')), (decide (d = d')); [left|right|right|right]; congruence.
  - destruct (List.list_eq_dec F ts ts'); [left|right]; congruence.
Defined.
#[export] Instance KTy_eqdecision : EqDecision KTy := KTy_eq_dec.

Section NestedInd.
Variable P : KTy → Prop.
Hypothesis Hgenerator : ∀ body, P body → P (KGenerator body).
Hypothesis Harray : ∀ n e, P e → P (KArray n e).
Hypothesis Hstruct : ∀ ts, Forall P ts → P (KStruct (Some ts)).
Hypothesis Hunion : ∀ ts, Forall P ts → P (KUnion ts).
Hypothesis Hother : ∀ t, match t with KGenerator _ | KArray _ _ | KStruct (Some _) | KUnion _ => False | _ => True end → P t.

Fixpoint KTy_nested_ind (t : KTy) : P t :=
  let all := fix go (l : list KTy) : Forall P l :=
    match l with [] => List.Forall_nil P | x :: l => List.Forall_cons P x l (KTy_nested_ind x) (go l) end in
  match t with
  | KGenerator body => Hgenerator body (KTy_nested_ind body)
  | KArray n e => Harray n e (KTy_nested_ind e)
  | KStruct (Some ts) => Hstruct ts (all ts)
  | KUnion ts => Hunion ts (all ts)
  | t => Hother t I
  end.
End NestedInd.

(** ** The conversion with its table *)

(** The table: from a struct type and a field to the LLVM field. *)
Definition Cache := list ((KTy * nat) * Z).
Definition cacheFind (key : KTy * nat) (cache : Cache) : option Z :=
  snd <$> List.find (fun entry => bool_decide (fst entry = key)) cache.

(** [try_emplace] with the assertion behind it, which fails with [None]. *)
Definition cacheField (key : KTy * nat) (index : Z) (cache : Cache) : option Cache :=
  match cacheFind key cache with
  | Some index' => if index' =? index then Some cache else None
  | None => Some ((key, index) :: cache)
  end.

Section Conversion.
Context {LM : LLVMMath} {TD : TargetDataLayout} {KL : KGENLayout}.

Section Loops.
Variable conv : KTy → Cache → option (option Ty * Cache).

(** The loop over the fields of a struct: the type of the field is converted,
    laid out, and its index recorded. *)
Fixpoint structLoop (structType : KTy) (acc : StructAcc) (i : nat) (elements : list KTy) (cache : Cache)
    : option (option StructAcc * Cache) :=
  match elements with
  | [] => Some (Some acc, cache)
  | t :: elements =>
      '(type, cache) ← conv t cache;
      match type ≫= (fun u => addStructField acc (mkUnionMember t u)) with
      | None => Some (None, cache)
      | Some acc' =>
          cache ← cacheField (structType, i) (Z.of_nat (pred (length (llvmTypes acc')))) cache;
          structLoop structType acc' (S i) elements cache
      end
  end.

(** The loop over the members of a union. *)
Fixpoint unionLoop (members : list KTy) (cache : Cache) : option (option (list UnionMember) * Cache) :=
  match members with
  | [] => Some (Some [], cache)
  | t :: members =>
      '(type, cache) ← conv t cache;
      match type with
      | None => Some (None, cache)
      | Some u => '(rest, cache) ← unionLoop members cache; Some (fmap (M := option) (cons (mkUnionMember t u)) rest, cache)
      end
  end.
End Loops.

(** What follows the loop over the fields. *)
Definition closeStruct (structType : KTy) (acc : StructAcc) : option (list Ty) :=
  kgenTotalAlign ← kgenABIAlign structType;
  let llvmOffset := alignTo (offset acc) (getTypeABIAlign (LLVMStructType (llvmTypes acc))) in
  let kgenOffset := alignTo (offset acc) kgenTotalAlign in
  Some (if kgenOffset >? llvmOffset
        then (llvmTypes acc ++ [LLVMArrayType i8Type (kgenOffset - offset acc)])%list
        else llvmTypes acc).

(** The outer option is a failed assertion. *)
Fixpoint convertTypeCached (type : KTy) (cache : Cache) : option (option Ty * Cache) :=
  match type with
  | KGenerator body => convertTypeCached body cache
  | KArray size elementType =>
      match size with
      | None => Some (None, cache)
      | Some n => '(type, cache) ← convertTypeCached elementType cache; Some (fmap (M := option) (fun elt => LLVMArrayType elt n) type, cache)
      end
  | KStruct (Some elementTypes) =>
      '(acc, cache) ← structLoop convertTypeCached type (mkStructAcc [] 0 []) 0 elementTypes cache;
      Some (fmap (M := option) LLVMStructType (mbind (M := option) (closeStruct type) acc), cache)
  | KUnion types =>
      '(members, cache) ← unionLoop convertTypeCached types cache;
      Some (fmap (M := option) (lowerUnion types) members, cache)
  | type => Some (convertType type, cache)
  end.

(** [getRemappedFieldIndex]; [None] is the unreachable statement. *)
Definition remappedFieldIndex (structType : KTy) (logicalIndex : nat) (cache : Cache) : option Z :=
  cacheFind (structType, logicalIndex) cache.

(** ** What the table holds *)

(** The index the conversion without a table records for a field, whether or
    not the fields behind it convert. *)
Definition recordedIndex (ts : list KTy) (i : nat) : option Z :=
  members ← mapM convertMember (take (S i) ts);
  acc ← addStructFields (mkStructAcc [] 0 []) members;
  fieldIndex acc !! i.
Definition consistent (cache : Cache) : Prop :=
  ∀ s i j, cacheFind (s, i) cache = Some j → ∃ ts, s = KStruct (Some ts) ∧ recordedIndex ts i = Some j.
Definition extends (cache cache' : Cache) : Prop :=
  ∀ key j, cacheFind key cache = Some j → cacheFind key cache' = Some j.

(** The struct types in a type that its conversion goes through. *)
Inductive within : KTy → KTy → Prop :=
  | within_struct ts : within (KStruct (Some ts)) (KStruct (Some ts))
  | within_generator s body : within s body → within s (KGenerator body)
  | within_array s n e : within s e → within s (KArray n e)
  | within_field s t ts : In t ts → within s t → within s (KStruct (Some ts))
  | within_member s t ts : In t ts → within s t → within s (KUnion ts).
Definition covers (cache : Cache) (t : KTy) : Prop :=
  ∀ ts i, within (KStruct (Some ts)) t → (i < length ts)%nat → is_Some (cacheFind (KStruct (Some ts), i) cache).

Lemma extends_refl c : extends c c.
Proof. by intros key j. Qed.
Lemma extends_trans a b c : extends a b → extends b c → extends a c.
Proof. intros H1 H2 key j H. by apply H2, H1. Qed.
#[local] Hint Resolve extends_refl : core.

Lemma covers_extends a b t : extends a b → covers a t → covers b t.
Proof. intros He Hc ts i Hw Hi. destruct (Hc ts i Hw Hi) as [j Hj]. exists j. by apply He. Qed.

Lemma cacheFind_cons key j k c : cacheFind k ((key, j) :: c) = if bool_decide (key = k) then Some j else cacheFind k c.
Proof. unfold cacheFind. simpl. by destruct (bool_decide _). Qed.

(** Recording an index that is the right one. *)
Lemma cacheField_ok ts i j c : consistent c → recordedIndex ts i = Some j →
  ∃ c', cacheField (KStruct (Some ts), i) j c = Some c' ∧ consistent c' ∧ extends c c'
        ∧ cacheFind (KStruct (Some ts), i) c' = Some j.
Proof.
  intros Hc Hj. unfold cacheField. destruct (cacheFind _ c) as [j'|] eqn:E.
  { destruct (Hc _ _ _ E) as (ts' & [= <-] & Hj'). assert (j' = j) as -> by congruence. rewrite Z.eqb_refl. by exists c. }
  eexists. split; [reflexivity|]. split_and!.
  - intros s k j'. rewrite cacheFind_cons. case_bool_decide as Ek; [injection Ek as <- <-|apply Hc]. intros [= <-]. by exists ts.
  - intros key j' H. rewrite cacheFind_cons. case_bool_decide; [congruence|done].
  - rewrite cacheFind_cons. by rewrite bool_decide_eq_true_2.
Qed.

Lemma addStructField_last acc m acc' : addStructField acc m = Some acc' →
  fieldIndex acc' = (fieldIndex acc ++ [Z.of_nat (pred (length (llvmTypes acc')))])%list.
Proof.
  unfold addStructField. intros (a & _ & (n & _ & [= <-])%bind_Some)%bind_Some. cbn [fieldIndex llvmTypes].
  do 3 f_equal. rewrite length_app. simpl. lia.
Qed.

Lemma addStructFields_app l k acc : addStructFields acc (l ++ k)%list = acc ← addStructFields acc l; addStructFields acc k.
Proof. revert acc. induction l as [|m l IH]; intros acc; [done|]. simpl. destruct (addStructField acc m); [apply IH|done]. Qed.

Lemma addStructFields_fieldIndex l : ∀ acc acc', addStructFields acc l = Some acc' →
  ∃ new, fieldIndex acc' = (fieldIndex acc ++ new)%list ∧ length new = length l.
Proof.
  induction l as [|m l IH]; intros acc acc'; simpl; [intros [= <-]; exists []; by rewrite app_nil_r|].
  destruct (addStructField acc m) as [acc1|] eqn:E; [|done]. simpl. intros H.
  destruct (IH _ _ H) as (new & Hn & Hl). rewrite (addStructField_last _ _ _ E), <- app_assoc in Hn.
  eexists. split; [exact Hn|]. simpl. by rewrite Hl.
Qed.

(** ** The loops *)

(** What a conversion with the table promises of a type. *)
Definition cachedOk (conv : KTy → Cache → option (option Ty * Cache)) (t : KTy) : Prop :=
  ∀ c, consistent c → ∃ c', conv t c = Some (convertType t, c') ∧ consistent c' ∧ extends c c'
       ∧ (is_Some (convertType t) → covers c' t).

Lemma convertMember_type t : convertMember t = u ← convertType t; Some (mkUnionMember t u).
Proof. reflexivity. Qed.
Lemma convertMember_None t : convertType t = None → convertMember t = None.
Proof. intros H. by rewrite convertMember_type, H. Qed.
Lemma convertMember_Some t u : convertType t = Some u → convertMember t = Some (mkUnionMember t u).
Proof. intros H. by rewrite convertMember_type, H. Qed.

Lemma mapM_member_cons t l : mapM convertMember (t :: l) = m ← convertMember t; ms ← mapM convertMember l; Some (m :: ms).
Proof. done. Qed.

Lemma unionLoop_ok conv l : Forall (cachedOk conv) l → ∀ c, consistent c →
  ∃ c', unionLoop conv l c = Some (mapM convertMember l, c') ∧ consistent c' ∧ extends c c'
        ∧ (is_Some (mapM convertMember l) → ∀ t, In t l → covers c' t).
Proof.
  induction 1 as [|t l Ht _ IH]; intros c Hc; [by exists c|].
  destruct (Ht c Hc) as (c1 & E1 & Hc1 & He1 & Hv1). rewrite mapM_member_cons. simpl unionLoop. rewrite E1. simpl.
  destruct (convertType t) as [u|] eqn:Et.
  2:{ rewrite (convertMember_None _ Et). exists c1. split_and!; [done..|]. by intros [? [=]]. }
  destruct (IH c1 Hc1) as (c2 & -> & Hc2 & He2 & Hv2). rewrite (convertMember_Some _ _ Et). simpl.
  exists c2. split_and!; [by destruct (mapM convertMember l)|done|by eapply extends_trans|].
  intros Hs t' [<-|Hin]; [eapply covers_extends; [exact He2|apply Hv1; by eexists]|].
  apply Hv2; [|done]. destruct (mapM convertMember l); [by eexists|by destruct Hs].
Qed.

(** One more field: the members so far, their layout, and the index recorded. *)
Lemma nextField ts done t l ms acc u acc' : ts = (done ++ t :: l)%list → mapM convertMember done = Some ms →
  addStructFields (mkStructAcc [] 0 []) ms = Some acc → length (fieldIndex acc) = length done →
  convertType t = Some u → addStructField acc (mkUnionMember t u) = Some acc' →
  mapM convertMember (done ++ [t]) = Some (ms ++ [mkUnionMember t u])%list
  ∧ addStructFields (mkStructAcc [] 0 []) (ms ++ [mkUnionMember t u])%list = Some acc'
  ∧ length (fieldIndex acc') = length (done ++ [t])
  ∧ recordedIndex ts (length done) = Some (Z.of_nat (pred (length (llvmTypes acc')))).
Proof.
  intros Hts Hms Hacc Hlen Et Ea. pose proof (addStructField_last _ _ _ Ea) as Hfi.
  assert (Hms' : mapM convertMember (done ++ [t]) = Some (ms ++ [mkUnionMember t u])%list).
  { apply mapM_Some. apply mapM_Some in Hms. apply Forall2_app; [done|]. constructor; [by apply convertMember_Some|constructor]. }
  assert (Hacc' : addStructFields (mkStructAcc [] 0 []) (ms ++ [mkUnionMember t u])%list = Some acc').
  { rewrite addStructFields_app, Hacc. simpl. by rewrite Ea. }
  split_and!; [done|done|rewrite Hfi, !length_app; simpl; lia|].
  unfold recordedIndex. replace (take _ ts) with (done ++ [t])%list.
  - rewrite Hms'. simpl. rewrite Hacc'. simpl. rewrite Hfi, lookup_app_r, Hlen, Nat.sub_diag by lia. done.
  - rewrite Hts, take_app, take_ge by lia. by replace (S (length done) - length done)%nat with 1%nat by lia.
Qed.

(** The fields behind the first [i], with the first converted to [ms] and laid
    out in [acc]. *)
Lemma structLoop_ok conv ts l : Forall (cachedOk conv) l → ∀ done ms acc c, ts = (done ++ l)%list →
  mapM convertMember done = Some ms → addStructFields (mkStructAcc [] 0 []) ms = Some acc →
  length (fieldIndex acc) = length done → consistent c →
  let result := members ← mapM convertMember l; addStructFields acc members in
  ∃ c', structLoop conv (KStruct (Some ts)) acc (length done) l c = Some (result, c') ∧ consistent c' ∧ extends c c'
        ∧ (is_Some result → (∀ t, In t l → covers c' t)
             ∧ ∀ i, (length done ≤ i < length ts)%nat → is_Some (cacheFind (KStruct (Some ts), i) c')).
Proof.
  induction 1 as [|t l Ht _ IH]; intros done ms acc c Hts Hms Hacc Hlen Hc result.
  { exists c. split_and!; [done..|]. intros _. split; [done|]. intros i Hi. rewrite Hts, app_nil_r in Hi. lia. }
  destruct (Ht c Hc) as (c1 & E1 & Hc1 & He1 & Hv1). subst result. rewrite mapM_member_cons. simpl structLoop. rewrite E1. simpl.
  destruct (convertType t) as [u|] eqn:Et.
  2:{ rewrite (convertMember_None _ Et). exists c1. split_and!; [done..|]. by intros [? [=]]. }
  rewrite (convertMember_Some _ _ Et). simpl. destruct (addStructField acc (mkUnionMember t u)) as [acc'|] eqn:Ea.
  2:{ exists c1. split_and!; [|done..|].
      - destruct (mapM convertMember l); simpl; [by rewrite Ea|done].
      - intros [x Hx]. destruct (mapM convertMember l); simpl in Hx; [by rewrite Ea in Hx|done]. }
  destruct (nextField _ _ _ _ _ _ _ _ Hts Hms Hacc Hlen Et Ea) as (Hms' & Hacc' & Hlen' & Hrec).
  destruct (cacheField_ok _ _ _ c1 Hc1 Hrec) as (c2 & -> & Hc2 & He2 & Hf2). simpl.
  destruct (IH (done ++ [t])%list (ms ++ [mkUnionMember t u])%list acc' c2) as (c3 & E3 & Hc3 & He3 & Hv3); try done.
  { by rewrite <- app_assoc. }
  rewrite length_app, Nat.add_1_r in E3, Hv3. rewrite E3. exists c3.
  assert (Hr : (members ← (ms0 ← mapM convertMember l; Some (mkUnionMember t u :: ms0)); addStructFields acc members)
               = members ← mapM convertMember l; addStructFields acc' members).
  { destruct (mapM convertMember l); simpl; [by rewrite Ea|done]. }
  rewrite Hr. split_and!; [done|done|by eapply extends_trans; [|eapply extends_trans]|].
  intros Hs. destruct (Hv3 Hs) as [Hin Hi]. split.
  - intros t' [<-|Ht']; [|by apply Hin]. apply (covers_extends c1); [by eapply extends_trans|]. apply Hv1. by eexists.
  - intros i [Hi1 Hi2]. destruct (Nat.eq_dec i (length done)) as [->|]; [|apply Hi; lia]. eexists. by apply He3.
Qed.

(** ** The whole conversion *)

Lemma closeStruct_body s members : convertStructBody s members =
  acc ← addStructFields (mkStructAcc [] 0 []) members; tys ← closeStruct s acc; Some (tys, fieldIndex acc).
Proof.
  unfold convertStructBody, closeStruct. destruct (addStructFields _ members) as [acc|]; [|done]. simpl.
  by destruct (kgenABIAlign s).
Qed.

Lemma convertStruct_close ts : convertType (KStruct (Some ts)) =
  LLVMStructType <$> (acc ← (members ← mapM convertMember ts; addStructFields (mkStructAcc [] 0 []) members);
                      closeStruct (KStruct (Some ts)) acc).
Proof.
  rewrite convertStruct_members. destruct (mapM convertMember ts) as [ms|]; [|done]. simpl. rewrite closeStruct_body.
  destruct (addStructFields _ ms) as [acc|]; [|done]. simpl. by destruct (closeStruct _ acc).
Qed.

Lemma struct_cachedOk ts : Forall (cachedOk convertTypeCached) ts → cachedOk convertTypeCached (KStruct (Some ts)).
Proof.
  intros IH c Hc. destruct (structLoop_ok _ ts ts IH [] [] (mkStructAcc [] 0 []) c) as (c' & E & Hc' & He & Hv); try done.
  simpl in E. cbn [convertTypeCached]. rewrite E, convertStruct_close. exists c'. split_and!; [done..|].
  intros Hs. destruct Hv as [Hin Hi]; [by destruct (members ← _; _); [eexists|destruct Hs]|].
  intros us i Hw Hlt. inversion Hw; subst; [apply Hi; simpl; lia|]. by eapply Hin.
Qed.

Lemma union_cachedOk ts : Forall (cachedOk convertTypeCached) ts → cachedOk convertTypeCached (KUnion ts).
Proof.
  intros IH c Hc. destruct (unionLoop_ok _ ts IH c Hc) as (c' & E & Hc' & He & Hv). cbn [convertTypeCached].
  rewrite E, convertUnion_members. exists c'. split_and!; [by destruct (mapM convertMember ts)|done|done|].
  intros Hs us i Hw Hlt. inversion Hw; subst. eapply Hv; [by destruct (mapM convertMember ts); [eexists|destruct Hs]|done..].
Qed.

Lemma convertTypeCached_ok t : cachedOk convertTypeCached t.
Proof.
  induction t as [body IH|n e IH|ts IH|ts IH|t Ht] using KTy_nested_ind.
  - intros c Hc. destruct (IH c Hc) as (c' & E & Hc' & He & Hv). exists c'. split_and!; [done..|].
    intros Hs us i Hw Hlt. inversion Hw; subst. by eapply Hv.
  - intros c Hc. destruct n as [n|]; [|exists c; by split_and!; [..|intros [? [=]]]].
    destruct (IH c Hc) as (c' & E & Hc' & He & Hv). cbn [convertTypeCached]. rewrite E. exists c'.
    cbn [convertType mbind option_bind]. split_and!; [by destruct (convertType e)|done|done|].
    intros Hs us i Hw Hlt. inversion Hw; subst. eapply Hv; [|done..]. destruct (convertType e); [by eexists|by destruct Hs].
  - by apply struct_cachedOk.
  - by apply union_cachedOk.
  - intros c Hc. exists c. split_and!; [|done..|].
    + by destruct t as [| | | | | | |[]| | | |].
    + intros _ us i Hw. by inversion Hw; subst.
Qed.

(** What a type that converts goes through converts. *)
Lemma members_convert ts t : is_Some (mapM convertMember ts) → In t ts → is_Some (convertType t).
Proof.
  intros [ms Hm] Hin. apply mapM_Some in Hm. apply list_elem_of_In, list_elem_of_lookup_1 in Hin as [k Hk].
  destruct (Forall2_lookup_l _ _ _ _ _ Hm Hk) as (m & _ & Hmt). rewrite convertMember_type in Hmt.
  destruct (convertType t); [by eexists|done].
Qed.
Lemma within_converts s t : within s t → is_Some (convertType t) → is_Some (convertType s).
Proof.
  induction 1 as [ts|s body _ IH|s n e _ IH|s t ts Hin _ IH|s t ts Hin _ IH]; [done|done|..]; intros Hs.
  - apply IH. destruct n; [|by destruct Hs]. cbn [convertType mbind option_bind] in Hs. by destruct (convertType e); [eexists|destruct Hs].
  - apply IH, (members_convert ts); [|done]. rewrite convertStruct_close in Hs. by destruct (mapM convertMember ts); [eexists|destruct Hs].
  - apply IH, (members_convert ts); [|done]. rewrite convertUnion_members in Hs. by destruct (mapM convertMember ts); [eexists|destruct Hs].
Qed.

(** A sequence of conversions. *)
Lemma conversions_ok types : ∀ before cache, consistent cache →
  ∃ cache', fold_left (fun r t => '(tys, c) ← r; '(ty, c) ← convertTypeCached t c; Some ((tys ++ [ty])%list, c)) types (Some (before, cache))
            = Some ((before ++ map convertType types)%list, cache')
    ∧ consistent cache' ∧ extends cache cache' ∧ ∀ t, In t types → is_Some (convertType t) → covers cache' t.
Proof.
  induction types as [|t types IH]; intros before cache Hc.
  { exists cache. split_and!; [by rewrite app_nil_r|done|done|done]. }
  destruct (convertTypeCached_ok t cache Hc) as (c1 & E1 & Hc1 & He1 & Hv1). cbn [fold_left mbind option_bind]. rewrite E1.
  cbn [mbind option_bind]. destruct (IH (before ++ [convertType t])%list c1 Hc1) as (c2 & E2 & Hc2 & He2 & Hv2).
  exists c2. split_and!; [by rewrite E2, <- app_assoc|done|by eapply extends_trans|].
  intros t' [<-|Hin] Hs; [|by apply Hv2]. eapply covers_extends; [exact He2|by apply Hv1].
Qed.

(** The index of a field of a struct that converts is the one recorded when the
    loop reaches it. *)
Lemma recordedIndex_remapped ts i : is_Some (convertType (KStruct (Some ts))) →
  recordedIndex ts i = getRemappedFieldIndex (KStruct (Some ts)) i ∨ (length ts ≤ i)%nat.
Proof.
  rewrite convertStruct_close. intros [t Ht]. destruct (decide (i < length ts)%nat) as [Hi|]; [left|right; lia].
  unfold getRemappedFieldIndex, recordedIndex. fold convertMember.
  change (mapM (fun t => u ← convertType t; Some (mkUnionMember t u)) ts) with (mapM convertMember ts).
  destruct (mapM convertMember ts) as [ms|] eqn:Em; [|done]. simpl in Ht |- *. rewrite closeStruct_body.
  pose proof Em as Em'. apply mapM_Some in Em'.
  assert (mapM convertMember (take (S i) ts) = Some (take (S i) ms)) as ->.
  { apply mapM_Some. by apply Forall2_take. }
  destruct (addStructFields _ ms) as [acc|] eqn:Ea; [|done]. simpl in Ht |- *.
  destruct (closeStruct _ acc) as [tys|]; [|done]. simpl.
  rewrite <- (take_drop (S i) ms), addStructFields_app in Ea.
  destruct (addStructFields _ (take (S i) ms)) as [acc1|] eqn:E1; [|done]. simpl in Ea |- *.
  destruct (addStructFields_fieldIndex _ _ _ E1) as [l1 [Hl1 Hn1]]. destruct (addStructFields_fieldIndex _ _ _ Ea) as [l2 [Hl2 _]].
  rewrite Hl2. symmetry. apply lookup_app_l. rewrite Hl1, length_app, Hn1, length_take.
  apply Forall2_length in Em'. cbn [fieldIndex length]. lia.
Qed.

(** C32: Converting types with the table of field indices.  From a table whose
    entries are right, and so from the empty one, any sequence of conversions
    gives each type what the conversion without a table gives it, the assertion
    that a field keeps its index never fails, entries are only added and stay
    right; and for every struct type that a converted type goes through, the
    table answers for each of its fields with the index of the field in the
    LLVM struct, so that the lookup is not unreachable. *)
Theorem field_indices_recorded types cache : consistent cache →
  ∃ cache', fold_left (fun r t => '(tys, c) ← r; '(ty, c) ← convertTypeCached t c; Some ((tys ++ [ty])%list, c)) types (Some ([], cache))
            = Some (map convertType types, cache')
    ∧ consistent cache' ∧ extends cache cache'
    ∧ ∀ t ts i, In t types → is_Some (convertType t) → within (KStruct (Some ts)) t → (i < length ts)%nat →
        is_Some (remappedFieldIndex (KStruct (Some ts)) i cache')
        ∧ remappedFieldIndex (KStruct (Some ts)) i cache' = getRemappedFieldIndex (KStruct (Some ts)) i.
Proof.
  intros Hc. destruct (conversions_ok types [] cache Hc) as (cache' & E & Hc' & He & Hv).
  exists cache'. split_and!; [exact E|done|done|]. intros t ts i Hin Hs Hw Hi.
  destruct (Hv t Hin Hs ts i Hw Hi) as [j Hj]. unfold remappedFieldIndex. rewrite Hj. split; [by eexists|].
  destruct (Hc' _ _ _ Hj) as (ts' & [= <-] & <-).
  destruct (recordedIndex_remapped ts i (within_converts _ _ Hw Hs)); [done|lia].
Qed.

End Conversion.

(** ** Witness *)

(** A struct in which the second field is aligned to 16 bytes, twice, in an
    array and alone. *)
Definition exampleLayout : KGENLayout := {|
  kgenABIAlign := fun t => match t with KPointer _ => Some 16 | KStruct _ => Some 16 | _ => Some 1 end;
  kgenAllocSize := fun t => match t with KPointer _ => Some 16 | KStruct _ => Some 32 | _ => Some 1 end;
  unionTypeAlign := fun _ => Some 1;
  functionValueType := Some (LLVMPointerType 0);
  indexBitwidth := 64
|}.
Definition exampleStruct : KTy := KStruct (Some [KDType; KPointer 0; KDType]).

Lemma field_indices_recorded_witness : ∃ cache',
  fold_left (fun r t => '(tys, c) ← r;
               '(ty, c) ← convertTypeCached (LM := llvm_math) (TD := x86_64_layout) (KL := exampleLayout) t c; Some ((tys ++ [ty])%list, c))
    [KArray (Some 4) exampleStruct; exampleStruct] (Some ([], []))
  = Some (map (convertType (LM := llvm_math) (TD := x86_64_layout) (KL := exampleLayout)) [KArray (Some 4) exampleStruct; exampleStruct], cache')
  ∧ length cache' = 3%nat.
Proof.
  destruct (field_indices_recorded (LM := llvm_math) (TD := x86_64_layout) (KL := exampleLayout)
    [KArray (Some 4) exampleStruct; exampleStruct] []) as (cache' & E & _); [intros s i j [=]|].
  exists cache'. split; [exact E|]. revert E. vm_compute. by intros [= <-].
Defined.

End FieldIndexCache.
