(* ===== verification/POPTypes.v ===== *)
(** The element types and values of the POP dialect, as far as the folders of
    Mojo/lib/POPDialect/POPOpsFolders.cpp ask about them.  [KGENDType] is not
    in the repository: its queries are a class, with the laws the folders rely
    on, and an instance. *)
From S2P Require Import Prelude LLVMSupport LLVMTypes.

Module POPTypes.

Class DTypes := {
  DType : Type;
  isBool : DType → bool;
  isInt : DType → bool;
  isSInt : DType → bool;
  isUInt : DType → bool;
  isIndex : DType → bool;
  isUIndex : DType → bool;
  isIntLike : DType → bool;
  isFloat : DType → bool;
  isComplex : DType → bool;
  isInvalid : DType → bool;
  (** -1 when the width depends on the target. *)
  getWidthInBits : DType → Z;
  isUInt_not_SInt : ∀ t, isUInt t = true → isSInt t = false
}.

(** ** Integers of a width, as residues *)

(** The value of [x], of [w] bits, read as signed or not. *)
Definition toSigned (w x : Z) : Z := if x <? 2 ^ (w - 1) then x else x - 2 ^ w.
Definition readAs (signed : bool) (w x : Z) : Z := if signed then toSigned w x else x.
Definition inWidth (w x : Z) : Prop := 0 ≤ x < 2 ^ w.

Lemma toSigned_congr w x : 0 ≤ w → toSigned w x mod 2 ^ w = x mod 2 ^ w.
Proof.
  intros Hw. unfold toSigned. destruct (_ <? _); [done|].
  replace (x - 2 ^ w) with (x + (-1) * 2 ^ w) by lia. apply Z_mod_plus_full.
Qed.

Lemma readAs_congr s w x : 0 ≤ w → readAs s w x mod 2 ^ w = x mod 2 ^ w.
Proof. destruct s; [apply toSigned_congr|done]. Qed.

(** Congruent modulo a power of two, so modulo a smaller one. *)
Lemma congr_smaller x y v w : 0 ≤ v ≤ w → x mod 2 ^ w = y mod 2 ^ w → x mod 2 ^ v = y mod 2 ^ v.
Proof.
  intros Hv Heq. assert (Hmod : ∀ z, z mod 2 ^ v = (z mod 2 ^ w) mod 2 ^ v).
  { intros z. rewrite (Znumtheory.Zmod_div_mod (2 ^ v) (2 ^ w) z); [done|lia|lia|].
    exists (2 ^ (w - v)). rewrite <- Z.pow_add_r by lia. f_equal. lia. }
  by rewrite (Hmod x), Heq, <- Hmod.
Qed.

(** ** A concrete set of types *)

Inductive Elem :=
  | EBool | EInt (signed : bool) (width : Z) | EIndex | EUIndex
  | EFloat (kind : FloatKind) | EComplex (kind : FloatKind) | EInvalid.

Definition elemIsSInt (t : Elem) : bool := match t with EInt s _ => s | EIndex => true | _ => false end.
Definition elemIsUInt (t : Elem) : bool := match t with EInt s _ => negb s | EUIndex => true | _ => false end.

Lemma elem_uint_not_sint t : elemIsUInt t = true → elemIsSInt t = false.
Proof. by destruct t as [|[]| | | | |]. Qed.

Definition elem_dtypes : DTypes := {|
  DType := Elem;
  isBool t := match t with EBool => true | _ => false end;
  isInt t := match t with EInt _ _ => true | _ => false end;
  isSInt := elemIsSInt;
  isUInt := elemIsUInt;
  isIndex t := match t with EIndex => true | _ => false end;
  isUIndex t := match t with EUIndex => true | _ => false end;
  isIntLike t := match t with EInt _ _ | EIndex | EUIndex => true | _ => false end;
  isFloat t := match t with EFloat _ => true | _ => false end;
  isComplex t := match t with EComplex _ => true | _ => false end;
  isInvalid t := match t with EInvalid => true | _ => false end;
  getWidthInBits t := match t with
                      | EBool => 8 | EInt _ w => w | EFloat k => floatWidth k
                      | EComplex k => 2 * floatWidth k | _ => -1
                      end;
  isUInt_not_SInt := elem_uint_not_sint
|}.

End POPTypes.
