(* ===== verification/POPCast.v ===== *)
(** [CastOp::canonicalize] of Mojo/lib/POPDialect/POPOpsFolders.cpp: when a
    cast of a cast is replaced by one cast, against the meaning of the casts. *)
From S2P Require Import Prelude LLVMSupport LLVMTypes POPTypes.

Module POPCast.
Import POPTypes.

Section Cast.
Context {DT : DTypes}.

(** The lambda [isUnsupportedType]; an unresolved type is [None]. *)
Definition isUnsupportedType (t : option DType) : bool :=
  match t with
  | None => true
  | Some t => negb (isIntLike t) && (isComplex t || negb (isFloat t))
  end.

(** The lambda [getWidthInBits]: index types ask the target. *)
Definition castWidth (target : option Z) (type : DType) : Z :=
  let width := getWidthInBits type in
  if negb (width =? -1) then width
  else if negb (isIndex type) && negb (isUIndex type) then -1
  else match target with None => -1 | Some w => w end.

(** The tests of the three ways the last width compares to the intermediate
    one: is the intermediate cast redundant? *)
Definition redundant (inType intermediateType outType : DType) (isFast : bool)
    (inWidth intermediateWidth outWidth : Z) : bool :=
  if outWidth <? intermediateWidth then
    negb ((isIntLike inType && (outWidth >? inWidth)) ||
          (negb (isIntLike inType) && (intermediateWidth <=? inWidth) && negb isFast))
  else if outWidth >? intermediateWidth then
    negb (isIntLike intermediateType && negb (Bool.eqb (isSInt intermediateType) (isSInt outType))) &&
    negb ((intermediateWidth <=? inWidth) || (isSInt inType && negb (isSInt intermediateType)))
  else
    negb (intermediateWidth <? inWidth) &&
    negb (isInt intermediateType && negb (isIndex outType) && negb (isUIndex outType) &&
          negb (Bool.eqb (isSInt intermediateType) (isSInt outType))).

(** [true]: the pattern rewrites [cast(cast(x : T1 to T2) : T3)] to
    [cast(x : T1 to T3)]. *)
Definition canonicalizeCast (hasOneUse : bool) (inType intermediateType outType : option DType)
    (isFast : bool) (target : option Z) : bool :=
  if negb hasOneUse then false
  else if isUnsupportedType inType || isUnsupportedType intermediateType || isUnsupportedType outType
  then false
  else match inType, intermediateType, outType with
  | Some inType, Some intermediateType, Some outType =>
      if negb (Bool.eqb (isIntLike intermediateType) (isIntLike inType)) ||
         negb (Bool.eqb (isIntLike intermediateType) (isIntLike outType)) then false
      else
        let inWidth := castWidth target inType in
        let intermediateWidth := castWidth target intermediateType in
        let outWidth := castWidth target outType in
        if (inWidth =? -1) || (intermediateWidth =? -1) || (outWidth =? -1) then false
        else redundant inType intermediateType outType isFast inWidth intermediateWidth outWidth
  | _, _, _ => false
  end.

(** ** The meaning of an integer cast: the value of the source type, in the
    width of the result *)

Definition castInt (target : option Z) (from to : DType) (x : Z) : Z :=
  readAs (isSInt from) (castWidth target from) x mod 2 ^ castWidth target to.

(** Reading back an extended value: nothing changed, if the extension was wide
    enough and did not turn a sign into a magnitude. *)
Lemma readAs_extended s1 s2 w1 w2 x : 0 < w1 < w2 → inWidth w1 x → (s1 = true → s2 = true) →
  readAs s2 w2 (readAs s1 w1 x mod 2 ^ w2) = readAs s1 w1 x.
Proof.
  intros Hw [Hx0 Hx1] Hs. unfold inWidth in *.
  assert (Hhalf : 2 ^ w1 = 2 * 2 ^ (w1 - 1)) by (rewrite <- Z.pow_succ_r by lia; f_equal; lia).
  assert (Hhalf2 : 2 ^ w2 = 2 * 2 ^ (w2 - 1)) by (rewrite <- Z.pow_succ_r by lia; f_equal; lia).
  assert (Hle : 2 ^ w1 ≤ 2 ^ (w2 - 1)) by (apply Z.pow_le_mono_r; lia).
  assert (Hneg : s1 = true → 2 ^ (w1 - 1) ≤ x →
    readAs s2 w2 ((x - 2 ^ w1) mod 2 ^ w2) = x - 2 ^ w1).
  { intros H1 Hge. rewrite (Hs H1). unfold readAs, toSigned.
    rewrite <- (Z.mod_unique (x - 2 ^ w1) (2 ^ w2) (-1) (x - 2 ^ w1 + 2 ^ w2)) by lia.
    destruct (Z.ltb_spec (x - 2 ^ w1 + 2 ^ w2) (2 ^ (w2 - 1))); lia. }
  assert (Hpos : readAs s2 w2 (x mod 2 ^ w2) = x).
  { rewrite Z.mod_small by lia. destruct s2; [|done]. unfold readAs, toSigned.
    destruct (Z.ltb_spec x (2 ^ (w2 - 1))); lia. }
  destruct s1; [|exact Hpos]. unfold readAs at 2 3, toSigned.
  destruct (Z.ltb_spec x (2 ^ (w1 - 1))); [exact Hpos|by apply Hneg].
Qed.

Lemma redundant_sound target t1 t2 t3 fast x :
  let w1 := castWidth target t1 in let w2 := castWidth target t2 in let w3 := castWidth target t3 in
  isIntLike t1 = true → isIntLike t2 = true → 0 < w1 → 0 < w2 → 0 < w3 → inWidth w1 x →
  redundant t1 t2 t3 fast w1 w2 w3 = true →
  castInt target t2 t3 (castInt target t1 t2 x) = castInt target t1 t3 x.
Proof.
  intros w1 w2 w3 H1 H2 Hw1 Hw2 Hw3 Hx. unfold redundant, castInt. fold w1 w2 w3. rewrite H1, H2.
  assert (Hnarrow : w3 ≤ w2 → readAs (isSInt t2) w2 (readAs (isSInt t1) w1 x mod 2 ^ w2) mod 2 ^ w3 =
    readAs (isSInt t1) w1 x mod 2 ^ w3).
  { intros Hle. apply congr_smaller with w2; [lia|]. rewrite readAs_congr by lia. by rewrite Zmod_mod. }
  destruct (Z.ltb_spec w3 w2); [intros _; apply Hnarrow; lia|].
  destruct (w3 >? w2) eqn:E; [|intros _; bool_to_prop; apply Hnarrow; lia].
  intros Hred. bool_to_prop. rewrite readAs_extended; [done|lia|done|].
  intros Hs. rewrite Hs in *. by destruct (isSInt t2).
Qed.

(** Replacing a cast of a cast between integer-like types by one cast never
    changes the value: whenever the pattern fires, whatever the widths and the
    signs, every value of the first type is mapped to the same value. *)
Theorem canonicalizeCast_sound hasOneUse t1 t2 t3 fast target x :
  canonicalizeCast hasOneUse (Some t1) (Some t2) (Some t3) fast target = true →
  isIntLike t1 = true →
  0 < castWidth target t1 → 0 < castWidth target t2 → 0 < castWidth target t3 →
  inWidth (castWidth target t1) x →
  castInt target t2 t3 (castInt target t1 t2 x) = castInt target t1 t3 x.
Proof.
  unfold canonicalizeCast. intros H H1 Hw1 Hw2 Hw3 Hx.
  destruct hasOneUse; [|done]. destruct (_ || _ || _); [done|]. cbn [negb] in H.
  destruct (negb (Bool.eqb (isIntLike t2) (isIntLike t1)) || _) eqn:E; [done|]. cbv zeta in H.
  destruct ((_ =? -1) || _ || _); [done|].
  apply (redundant_sound target t1 t2 t3 fast); try done.
  bool_to_prop. rewrite H1 in *. by destruct (isIntLike t2).
Qed.

End Cast.

#[local] Existing Instance elem_dtypes.

Lemma canonicalizeCast_sound_witness :
  castInt None (EInt true 32) (EInt true 64) (castInt None (EInt true 8) (EInt true 32) 200)
    = castInt None (EInt true 8) (EInt true 64) 200.
Proof.
  apply (@canonicalizeCast_sound elem_dtypes true (EInt true 8) (EInt true 32) (EInt true 64) false None 200);
    try reflexivity. split; [discriminate|reflexivity].
Defined.

(** ** Floats *)

(** The significant bits of the binary formats of 16 bits or more. *)
Definition precision (k : FloatKind) : Z :=
  match k with
  | F16 => 11 | BF16 => 8 | F32 => 24 | F64 => 53 | F80 => 64 | F128 => 113 | TF32 => 11
  | _ => 0
  end.

(** [m] rounded to [p] significant bits, ties to even: what a conversion does
    to the significand of a number in the range of both formats. *)
Definition roundSignificand (p m : Z) : Z :=
  let drop := Z.log2 m + 1 - p in
  if drop <=? 0 then m
  else
    let q := Z.shiftr m drop in
    let r := m - Z.shiftl q drop in
    let half := 2 ^ (drop - 1) in
    let up := (r >? half) || ((r =? half) && Z.odd q) in
    Z.shiftl (if up then q + 1 else q) drop.

Definition castFloat (to : FloatKind) (m : Z) : Z := roundSignificand (precision to) m.

(** Between floats of one width the pattern fires although the intermediate
    format rounds: f16 to bf16 and back is replaced by no conversion, without
    fast math, and 1 + 2^-10 (significand 1025), which is 1 in bf16, comes out
    unrounded. *)
Theorem cast_through_bf16_dropped target :
  canonicalizeCast true (Some (EFloat F16)) (Some (EFloat BF16)) (Some (EFloat F16)) false target = true ∧
  castFloat F16 1025 = 1025 ∧
  castFloat F16 (castFloat BF16 1025) = 1024.
Proof. repeat split. Qed.

End POPCast.
