(* ===== verification/POPReshape.v ===== *)
(** [BitcastOp] of Mojo/lib/POPDialect/POPOpsFolders.cpp: the [reshape] that
    folds a bitcast of a SIMD constant to another number of elements. *)
From S2P Require Import Prelude LLVMSupport LLVMTypes BitOps POPTypes.

Module POPReshape.
Import POPTypes.

Section Reshape.
Context {DT : DTypes}.

(** Bool has one bit of data despite its 8-bit storage. *)
Definition bitcastWidth (t : DType) : Z := if isBool t then 1 else getWidthInBits t.

(** The data of an element as it is read: a bool is truncated to its bit. *)
Definition elementBits (t : DType) (v : Z) : Z := if isBool t then v mod 2 else v.

(** [APInt::extractBits]. *)
Definition extractBits (v numBits bitPosition : Z) : Z := Z.shiftr v bitPosition mod 2 ^ numBits.

(** The loop over the elements of one output. *)
Fixpoint combineLoop (isLittleEndian : bool) (inW outW elementsPerOutput elemIdx : Z)
    (inputs : list Z) (combined : Z) : Z :=
  match inputs with
  | [] => combined
  | input :: inputs =>
      let shiftAmount :=
        if isLittleEndian then elemIdx * inW else (elementsPerOutput - 1 - elemIdx) * inW in
      combineLoop isLittleEndian inW outW elementsPerOutput (elemIdx + 1) inputs
        (Z.lor combined (Z.shiftl input shiftAmount mod 2 ^ outW))
  end.

(** [outSize] outputs, each of [elementsPerOutput] inputs; [None]: an element
    is read out of range. *)
Fixpoint widenLoop (outSize : nat) (isLittleEndian : bool) (inW outW : Z) (elementsPerOutput : nat)
    (values : list Z) : option (list Z) :=
  match outSize with
  | O => Some []
  | S outSize =>
      if Nat.ltb (length values) elementsPerOutput then None
      else
        rest ← widenLoop outSize isLittleEndian inW outW elementsPerOutput (drop elementsPerOutput values);
        Some (combineLoop isLittleEndian inW outW (Z.of_nat elementsPerOutput) 0
                (take elementsPerOutput values) 0 :: rest)
  end.

(** The chunks of one input. *)
Fixpoint splitLoop (n : nat) (isLittleEndian : bool) (outW numChunks chunk value : Z) : list Z :=
  match n with
  | O => []
  | S n =>
      let bitPos := if isLittleEndian then chunk * outW else (numChunks - 1 - chunk) * outW in
      extractBits value outW bitPos :: splitLoop n isLittleEndian outW numChunks (chunk + 1) value
  end.

(** [addValue] stores the bits of the output type: its value for integers, a
    truth value for bool, the bits of the format for floats ([semanticsSizeInBits]
    of a float type is its width). *)
Definition addValue (outputDType : DType) (value : Z) : Z :=
  if isBool outputDType then (if value =? 0 then 0 else 1)
  else if isFloat outputDType then extractBits value (getWidthInBits outputDType) 0
  else value.

Definition reshape (values : list Z) (inputDType : DType) (inSize : Z) (outputDType : DType)
    (outSize : Z) (littleEndian : option bool) : option (list Z) :=
  let outW := bitcastWidth outputDType in
  let inW := bitcastWidth inputDType in
  if negb (inSize * inW =? outSize * outW) then None
  else
    let isLittleEndian := default true littleEndian in
    if inW <? outW then
      outs ← widenLoop (Z.to_nat outSize) isLittleEndian inW outW (Z.to_nat (outW / inW))
               (map (elementBits inputDType) values);
      Some (map (addValue outputDType) outs)
    else
      let numChunks := inW / outW in
      Some (map (addValue outputDType)
             (flat_map (splitLoop (Z.to_nat numChunks) isLittleEndian outW numChunks 0)
                (take (Z.to_nat inSize) values))).

(** ** Specification: the elements laid out in memory *)

(** The bits of the elements of width [w] in memory order, the first lowest;
    on a big-endian target the first is the highest. *)
Fixpoint memoryLE (w : Z) (values : list Z) : Z :=
  match values with [] => 0 | v :: values => v + 2 ^ w * memoryLE w values end.
Definition memory (littleEndian : bool) (w : Z) (values : list Z) : Z :=
  memoryLE w (if littleEndian then values else rev values).

(** ** Lemmas: memory *)

Lemma memoryLE_app w a b :
  0 ≤ w → memoryLE w (app a b) = memoryLE w a + 2 ^ (w * Z.of_nat (length a)) * memoryLE w b.
Proof.
  intros Hw. induction a as [|x a IH]; cbn [app memoryLE length].
  { change (Z.of_nat 0) with 0. rewrite Z.mul_0_r, Z.pow_0_r. lia. }
  rewrite IH. replace (w * Z.of_nat (S (length a))) with (w + w * Z.of_nat (length a)) by lia.
  rewrite Z.pow_add_r by lia. ring.
Qed.

Lemma memoryLE_bound w l : 0 ≤ w → Forall (inWidth w) l → 0 ≤ memoryLE w l < 2 ^ (w * Z.of_nat (length l)).
Proof.
  intros Hw H. induction H as [|x l [Hx0 Hx1] _ IH]; cbn [memoryLE length].
  { change (Z.of_nat 0) with 0. rewrite Z.mul_0_r. simpl. lia. }
  replace (w * Z.of_nat (S (length l))) with (w + w * Z.of_nat (length l)) by lia.
  rewrite Z.pow_add_r by lia. nia.
Qed.

Lemma memoryLE_single w x : memoryLE w [x] = x.
Proof. cbn. lia. Qed.

(** A value below [2^n] and a multiple of [2^n] share no bit. *)
Lemma lor_disjoint a b n : 0 ≤ n → 0 ≤ a < 2 ^ n → Z.lor a (b * 2 ^ n) = a + b * 2 ^ n.
Proof.
  intros Hn Ha. assert (Hl : Z.land a (b * 2 ^ n) = 0).
  { apply Z.bits_inj'. intros i Hi. rewrite Z.land_spec, Z.bits_0.
    destruct (Z.lt_ge_cases i n).
    - by rewrite Z.mul_pow2_bits_low, andb_false_r.
    - by rewrite (testbit_below a n). }
  rewrite <- Z.lxor_lor by done. symmetry. by apply Z.add_nocarry_lxor.
Qed.

(** ** Lemmas: several inputs make one output *)

Lemma shift_fits x inW outW pos : inWidth inW x → 0 ≤ inW → 0 ≤ pos → pos + inW ≤ outW →
  Z.shiftl x pos mod 2 ^ outW = x * 2 ^ pos.
Proof.
  intros [Hx0 Hx1] Hw Hp Hle. rewrite Z.shiftl_mul_pow2 by done. apply Z.mod_small.
  assert (x * 2 ^ pos < 2 ^ (inW + pos)) by (rewrite Z.pow_add_r by lia; nia).
  assert (2 ^ (inW + pos) ≤ 2 ^ outW) by (apply Z.pow_le_mono_r; lia). nia.
Qed.

Lemma combineLoop_LE inW outW n idx inputs combined :
  0 ≤ inW → 0 ≤ idx → Forall (inWidth inW) inputs → (idx + Z.of_nat (length inputs)) * inW ≤ outW →
  0 ≤ combined < 2 ^ (idx * inW) →
  combineLoop true inW outW n idx inputs combined = combined + 2 ^ (idx * inW) * memoryLE inW inputs.
Proof.
  intros Hw Hidx Hall. revert idx combined Hidx.
  induction Hall as [|x l Hx _ IH]; intros idx combined Hidx Hle Hc; cbn [combineLoop memoryLE length] in *; [lia|].
  rewrite (shift_fits x inW), lor_disjoint by (done || nia).
  assert (Hpow : 2 ^ ((idx + 1) * inW) = 2 ^ (idx * inW) * 2 ^ inW) by (rewrite <- Z.pow_add_r by nia; f_equal; lia).
  destruct Hx as [Hx0 Hx1]. rewrite IH; [rewrite Hpow; ring|lia|nia|]. rewrite Hpow. nia.
Qed.

Lemma combineLoop_BE inW outW n idx inputs k :
  0 ≤ inW → 0 ≤ idx → Forall (inWidth inW) inputs → idx + Z.of_nat (length inputs) = n → n * inW ≤ outW →
  combineLoop false inW outW n idx inputs (k * 2 ^ (inW * Z.of_nat (length inputs))) =
  k * 2 ^ (inW * Z.of_nat (length inputs)) + memoryLE inW (rev inputs).
Proof.
  intros Hw Hidx Hall. revert idx k Hidx.
  induction Hall as [|x l Hx _ IH]; intros idx k Hidx Hn Hle; cbn [combineLoop rev length] in *; [simpl; lia|].
  assert (Hpos : (n - 1 - idx) * inW = inW * Z.of_nat (length l)) by nia.
  rewrite Hpos, (shift_fits x inW) by (done || nia).
  replace (inW * Z.of_nat (S (length l))) with (inW + inW * Z.of_nat (length l)) by lia.
  rewrite Z.pow_add_r by nia. set (p := 2 ^ (inW * Z.of_nat (length l))) in *.
  assert (Hp : 0 < p) by (apply Z.pow_pos_nonneg; nia).
  assert (Hlor : Z.lor (k * (2 ^ inW * p)) (x * p) = (k * 2 ^ inW + x) * p).
  { replace (k * (2 ^ inW * p)) with (k * 2 ^ (inW + inW * Z.of_nat (length l)))
      by (rewrite Z.pow_add_r by nia; done).
    rewrite Z.lor_comm, lor_disjoint by (rewrite ?Z.pow_add_r by nia; fold p; destruct Hx; nia).
    rewrite Z.pow_add_r by nia. fold p. ring. }
  rewrite Hlor, IH by lia. rewrite memoryLE_app, length_rev, memoryLE_single by done. fold p. ring.
Qed.

(** One output holds its group of inputs. *)
Lemma combineLoop_group le inW outW group :
  0 ≤ inW → Forall (inWidth inW) group → Z.of_nat (length group) * inW = outW →
  combineLoop le inW outW (Z.of_nat (length group)) 0 group 0 = memory le inW group.
Proof.
  intros Hw Hall Hlen. destruct le; unfold memory.
  - rewrite combineLoop_LE by (done || lia). rewrite Z.mul_0_l. simpl. lia.
  - pose proof (combineLoop_BE inW outW (Z.of_nat (length group)) 0 group 0) as H.
    rewrite Z.mul_0_l in H. apply H; (done || lia).
Qed.

Lemma memory_bound le w l : 0 ≤ w → Forall (inWidth w) l → 0 ≤ memory le w l < 2 ^ (w * Z.of_nat (length l)).
Proof.
  intros Hw Hall. destruct le; [by apply memoryLE_bound|]. rewrite <- length_rev.
  apply memoryLE_bound; [done|by apply Forall_rev].
Qed.

(** Prepending a group of elements to the memory. *)
Lemma memory_app le w a b : 0 ≤ w →
  memory le w (app a b) =
  if le then memory le w a + 2 ^ (w * Z.of_nat (length a)) * memory le w b
  else memory le w b + 2 ^ (w * Z.of_nat (length b)) * memory le w a.
Proof.
  intros Hw. destruct le; unfold memory; [by apply memoryLE_app|].
  by rewrite rev_app_distr, memoryLE_app, length_rev.
Qed.

Lemma memory_cons le w x l : 0 ≤ w →
  memory le w (x :: l) = if le then x + 2 ^ w * memory le w l
                         else memory le w l + 2 ^ (w * Z.of_nat (length l)) * x.
Proof.
  intros Hw. change (x :: l) with (app [x] l). rewrite memory_app by done.
  destruct le; unfold memory; cbn [length rev app]; rewrite memoryLE_single; [|done].
  by replace (w * Z.of_nat 1) with w by lia.
Qed.

Lemma widenLoop_spec le inW outW per outSize values :
  0 ≤ inW → Z.of_nat per * inW = outW → Forall (inWidth inW) values →
  length values = (outSize * per)%nat →
  ∃ outs, widenLoop outSize le inW outW per values = Some outs ∧ length outs = outSize ∧
    Forall (inWidth outW) outs ∧ memory le outW outs = memory le inW values.
Proof.
  intros Hw Hper. revert values. induction outSize as [|outSize IH]; intros values Hall Hlen; cbn [widenLoop].
  { exists []. apply nil_length_inv in Hlen as ->. split_and!; [done|done|constructor|by destruct le]. }
  rewrite (proj2 (Nat.ltb_ge _ _)) by lia.
  assert (Hgl : length (take per values) = per) by (rewrite length_take; lia).
  destruct (IH (drop per values)) as (outs & -> & Hol & How & Hm);
    [by apply Forall_drop|rewrite length_drop; lia|]. cbn [mbind option_bind].
  assert (Hg : combineLoop le inW outW (Z.of_nat per) 0 (take per values) 0 = memory le inW (take per values)).
  { rewrite <- Hgl at 1. apply combineLoop_group; [done|by apply Forall_take|by rewrite Hgl]. }
  rewrite Hg. eexists. split; [reflexivity|]. split; [simpl; lia|]. split.
  - constructor; [|done]. pose proof (memory_bound le inW (take per values) Hw (Forall_take _ _ _ Hall)) as H.
    rewrite Hgl in H. unfold inWidth. by replace outW with (inW * Z.of_nat per) by lia.
  - rewrite <- (take_drop per values) at 2. rewrite memory_cons, memory_app, Hm, Hgl, Hol, length_drop by nia.
    destruct le; do 3 f_equal; nia.
Qed.

(** ** Lemmas: one input makes several outputs *)

Lemma extract_in w v p : 0 ≤ w → inWidth w (extractBits v w p).
Proof. intros. apply Z.mod_pos_bound. lia. Qed.

Lemma splitLoop_in n le w num chunk v : 0 ≤ w → Forall (inWidth w) (splitLoop n le w num chunk v).
Proof.
  intros Hw. revert chunk. induction n as [|n IH]; intros chunk; cbn [splitLoop]; constructor; [|apply IH].
  by apply extract_in.
Qed.

Lemma splitLoop_length n le w num chunk v : length (splitLoop n le w num chunk v) = n.
Proof. revert chunk. induction n as [|n IH]; intros chunk; cbn [splitLoop length]; [done|]. by rewrite IH. Qed.

(** The low [a + b] bits are the low [a] bits and the next [b] bits. *)
Lemma mod_split v a b : 0 ≤ a → 0 ≤ b →
  v mod 2 ^ a + 2 ^ a * (Z.shiftr v a mod 2 ^ b) = v mod 2 ^ (a + b).
Proof.
  intros Ha Hb. rewrite Z.shiftr_div_pow2, Z.pow_add_r by done. symmetry. apply Z.rem_mul_r; lia.
Qed.

Lemma splitLoop_LE n w num chunk v : 0 ≤ w → 0 ≤ chunk → 0 ≤ v →
  memoryLE w (splitLoop n true w num chunk v) = Z.shiftr v (chunk * w) mod 2 ^ (w * Z.of_nat n).
Proof.
  intros Hw Hc Hv. revert chunk Hc. induction n as [|n IH]; intros chunk Hc; cbn [splitLoop memoryLE].
  { change (Z.of_nat 0) with 0. by rewrite Z.mul_0_r, Z.pow_0_r, Z.mod_1_r. }
  rewrite IH by lia. unfold extractBits.
  replace (w * Z.of_nat (S n)) with (w + w * Z.of_nat n) by lia. rewrite <- mod_split by nia.
  rewrite Z.shiftr_shiftr by done. do 4 f_equal. lia.
Qed.

Lemma splitLoop_BE n w num chunk v : 0 ≤ w → chunk + Z.of_nat n = num → 0 ≤ v →
  memoryLE w (rev (splitLoop n false w num chunk v)) = v mod 2 ^ (w * Z.of_nat n).
Proof.
  intros Hw Hc Hv. revert chunk Hc. induction n as [|n IH]; intros chunk Hc; cbn [splitLoop rev].
  { change (Z.of_nat 0) with 0. by rewrite Z.mul_0_r, Z.pow_0_r, Z.mod_1_r. }
  rewrite memoryLE_app, IH by lia. rewrite length_rev, splitLoop_length, memoryLE_single. unfold extractBits.
  replace (w * Z.of_nat (S n)) with (w * Z.of_nat n + w) by lia. rewrite <- mod_split by nia.
  do 4 f_equal. nia.
Qed.

Lemma splitLoop_memory n le w v : 0 ≤ w → inWidth (w * Z.of_nat n) v →
  memory le w (splitLoop n le w (Z.of_nat n) 0 v) = v.
Proof.
  intros Hw [Hv0 Hv1]. destruct le; unfold memory.
  - rewrite splitLoop_LE by lia. rewrite Z.mul_0_l, Z.shiftr_0_r. apply Z.mod_small. lia.
  - rewrite splitLoop_BE by lia. apply Z.mod_small. lia.
Qed.

Lemma split_all_memory n le w values : 0 ≤ w → Forall (inWidth (w * Z.of_nat n)) values →
  length (flat_map (splitLoop n le w (Z.of_nat n) 0) values) = (length values * n)%nat ∧
  Forall (inWidth w) (flat_map (splitLoop n le w (Z.of_nat n) 0) values) ∧
  memory le w (flat_map (splitLoop n le w (Z.of_nat n) 0) values) = memory le (w * Z.of_nat n) values.
Proof.
  intros Hw H. induction H as [|v values Hv _ (IHl & IHw & IHm)]; cbn [flat_map];
    [split_and!; [done|constructor|by destruct le]|].
  split_and!.
  - rewrite length_app, splitLoop_length, IHl. simpl. lia.
  - apply Forall_app. split; [by apply splitLoop_in|done].
  - rewrite memory_app, memory_cons, splitLoop_memory, splitLoop_length, IHm, IHl by (done || nia).
    destruct le; [done|]. do 3 f_equal. nia.
Qed.

(** ** Storing and reading elements in range changes nothing *)

Lemma addValue_id type v : inWidth (bitcastWidth type) v → addValue type v = v.
Proof.
  unfold addValue, bitcastWidth. destruct (isBool type).
  - intros [H0 H1]. destruct (Z.eqb_spec v 0); [done|]. lia.
  - intros H. destruct (isFloat type); [|done]. unfold extractBits. rewrite Z.shiftr_0_r. by apply Z.mod_small.
Qed.

Lemma elementBits_id type v : inWidth (bitcastWidth type) v → elementBits type v = v.
Proof.
  unfold elementBits, bitcastWidth. destruct (isBool type); [|done]. intros H. by apply Z.mod_small.
Qed.

Lemma map_id_in {A} (f : A → A) (P : A → Prop) l : (∀ x, P x → f x = x) → Forall P l → map f l = l.
Proof. intros Hf H. induction H as [|x l Hx _ IH]; [done|]. cbn [map]. by rewrite Hf, IH. Qed.

(** Folding a bitcast between SIMD types of different lengths keeps the bits:
    when the total sizes agree and one element width divides the other, the
    fold answers with as many elements as the result type has, each in range,
    and laid out in memory, in the byte order of the target, they are the bits
    of the operand; when the sizes differ it does not fold. *)
Theorem reshape_memory values inType inSize outType outSize littleEndian :
  let inW := bitcastWidth inType in let outW := bitcastWidth outType in
  let le := default true littleEndian in
  0 < inW → 0 < outW → (inW | outW) ∨ (outW | inW) → 0 ≤ outSize →
  inSize = Z.of_nat (length values) → Forall (inWidth inW) values →
  (inSize * inW ≠ outSize * outW → reshape values inType inSize outType outSize littleEndian = None) ∧
  (inSize * inW = outSize * outW →
   ∃ outs, reshape values inType inSize outType outSize littleEndian = Some outs ∧
     Z.of_nat (length outs) = outSize ∧ Forall (inWidth outW) outs ∧
     memory le outW outs = memory le inW values).
Proof.
  intros inW outW le Hi Ho Hdiv Hs -> Hall. unfold reshape. fold inW outW le.
  split; intros Heq; [by rewrite (proj2 (Z.eqb_neq _ _) Heq)|]. rewrite (proj2 (Z.eqb_eq _ _) Heq). cbn [negb].
  destruct (Z.ltb_spec inW outW) as [Hlt|Hge].
  - destruct Hdiv as [[k Hk]|[k Hk]]; [|exfalso; assert (k ≤ 0 ∨ 1 ≤ k) as [?|?] by lia; nia]. assert (Hkpos : 0 < k) by nia.
    assert (Hq : outW / inW = k) by (rewrite Hk; apply Z.div_mul; lia).
    rewrite (map_id_in _ _ _ (elementBits_id inType) Hall), Hq.
    destruct (widenLoop_spec le inW outW (Z.to_nat k) (Z.to_nat outSize) values) as (outs & -> & Hl & Hw & Hm);
      [lia|lia|done|nia|]. cbn [mbind option_bind]. rewrite (map_id_in _ _ _ (addValue_id outType) Hw).
    exists outs. split_and!; [done|lia|done|done].
  - assert (∃ k, inW = k * outW) as [k Hk].
    { destruct Hdiv as [[k Hk]|[k Hk]]; [|by exists k]. exists 1. assert (0 < k) by nia. assert (k ≤ 1) by nia. assert (k = 1) as -> by lia. lia. }
    assert (Hkpos : 0 < k) by nia. assert (Hq : inW / outW = k) by (rewrite Hk; apply Z.div_mul; lia).
    destruct (Z_of_nat_complete k) as [n ->]; [lia|]. rewrite Hq, !Nat2Z.id, take_ge by lia.
    destruct (split_all_memory n le outW values) as (Hl & Hw & Hm); [lia| |].
    { by replace (outW * Z.of_nat n) with inW by lia. }
    rewrite (map_id_in _ _ _ (addValue_id outType) Hw). eexists. split; [reflexivity|].
    split; [rewrite Hl; nia|]. split; [done|].
    rewrite Hm. f_equal. lia.
Qed.

End Reshape.

#[local] Existing Instance elem_dtypes.

(** Four bytes as one 32-bit integer, in both orders. *)
Lemma reshape_memory_witness :
  ∃ outs, reshape [1; 2; 3; 4] (EInt false 8) 4 (EInt false 32) 1 (Some false) = Some outs ∧ outs = [16909060].
Proof.
  destruct (@reshape_memory elem_dtypes [1; 2; 3; 4] (EInt false 8) 4 (EInt false 32) 1 (Some false))
    as [_ H]; [reflexivity|reflexivity|left; by exists 4|lia|reflexivity|repeat constructor; simpl; lia|].
  destruct H as (outs & Hr & _); [reflexivity|]. exists outs. split; [exact Hr|].
  vm_compute in Hr. by injection Hr as <-.
Defined.

End POPReshape.
