(* ===== verification/POPFolds.v ===== *)
(** The folders and canonicalizations of integer and boolean operations in
    Mojo/lib/POPDialect/POPOpsFolders.cpp, against the meaning of the
    operations.  The generic element-wise folder ([foldSIMDOp]) is not in the
    repository: it is a class with its law and an instance. *)
From S2P Require Import Prelude LLVMSupport LLVMTypes POPTypes.

Module POPFolds.
Import POPTypes.

(** An SSA value, as far as the folders look at it: a SIMD constant, the result
    of a [SIMDXOrOp], or anything else. *)
Inductive Value :=
  | Const (lanes : list Z)
  | Other (id : nat)
  | XOrResult (lhs rhs : Value).

(** [OpFoldResult]: a constant, a value, or null. *)
Inductive OpFoldResult :=
  | FoldAttr (lanes : list Z)
  | FoldValue (v : Value)
  | NoFold.

(** [adaptor.getX()], and [matchPattern(v, m_Constant(&attr))]. *)
Definition constantOf (v : Value) : option (list Z) :=
  match v with Const l => Some l | _ => None end.

(** The operation on every pair of elements. *)
Definition lanes2 (f : Z → Z → option Z) (a b : list Z) : option (list Z) :=
  mapM (fun p => f (fst p) (snd p)) (zip a b).

Class SIMDFolding := {
  foldSIMDOp : (Z → Z → option Z) → option (list Z) → option (list Z) → option (list Z);
  (** It folds constants only, element by element. *)
  foldSIMDOp_spec : ∀ f a b r, foldSIMDOp f a b = Some r →
    ∃ l k, a = Some l ∧ b = Some k ∧ lanes2 f l k = Some r;
  (** [APInt::isPowerOf2], [APInt::logBase2]. *)
  isPowerOf2 : Z → bool;
  logBase2 : Z → Z;
  isPowerOf2_spec : ∀ v, isPowerOf2 v = true → ∃ k, 0 ≤ k ∧ v = 2 ^ k;
  logBase2_spec : ∀ k, 0 ≤ k → logBase2 (2 ^ k) = k
}.

(** ** The element operations the folders pass, on elements of [w] bits *)

Definition apAdd (w x y : Z) : option Z := Some ((x + y) mod 2 ^ w).
Definition apSub (w x y : Z) : option Z := Some ((x - y) mod 2 ^ w).
Definition apMul (w x y : Z) : option Z := Some ((x * y) mod 2 ^ w).
Definition apMax (signed : bool) (w x y : Z) : option Z :=
  Some (if readAs signed w x >? readAs signed w y then x else y).
Definition apMin (signed : bool) (w x y : Z) : option Z :=
  Some (if readAs signed w x <? readAs signed w y then x else y).
Definition apRem (signed : bool) (w x y : Z) : option Z :=
  if y =? 0 then None else Some (Z.rem (readAs signed w x) (readAs signed w y) mod 2 ^ w).
Definition apAnd (x y : Z) : option Z := Some (Z.land x y).
Definition apOr (x y : Z) : option Z := Some (Z.lor x y).
Definition apXor (x y : Z) : option Z := Some (Z.lxor x y).

Section Folds.
Context {SF : SIMDFolding}.
(** The width and the sign of the elements, and whether the type is int-like;
    identity of SSA values. *)
Variable w : Z.
Variable signed intLike : bool.
Variable sameValue : Value → Value → bool.

Definition attrOr (r : option (list Z)) (otherwise : OpFoldResult) : OpFoldResult :=
  match r with Some l => FoldAttr l | None => otherwise end.

(** All elements equal: their value. *)
Definition getIntVal (val : Value) : option Z :=
  match constantOf val with
  | Some (constVal :: l) => if forallb (Z.eqb constVal) l then Some constVal else None
  | _ => None
  end.

Definition isIntZero (val : Value) : bool :=
  match getIntVal val with Some c => c =? 0 | None => false end.

Definition AddOp_fold (lhs rhs : Value) : OpFoldResult :=
  attrOr (foldSIMDOp (apAdd w) (constantOf lhs) (constantOf rhs))
    (if intLike then
       if isIntZero lhs then FoldValue rhs
       else if isIntZero rhs then FoldValue lhs else NoFold
     else NoFold).

Definition SubOp_fold (lhs rhs : Value) : OpFoldResult :=
  attrOr (foldSIMDOp (apSub w) (constantOf lhs) (constantOf rhs))
    (if intLike then if isIntZero rhs then FoldValue lhs else NoFold else NoFold).

(** The lambda [foldTrivialMultiplication]. *)
Definition foldTrivialMultiplication (lhs rhs : Value) : OpFoldResult :=
  match getIntVal lhs with
  | Some constVal =>
      if constVal =? 0 then FoldValue lhs
      else if constVal =? 1 then FoldValue rhs else NoFold
  | None => NoFold
  end.

Definition MulOp_fold (lhs rhs : Value) : OpFoldResult :=
  attrOr (foldSIMDOp (apMul w) (constantOf lhs) (constantOf rhs))
    (if intLike then
       match foldTrivialMultiplication lhs rhs with
       | NoFold => foldTrivialMultiplication rhs lhs
       | res => res
       end
     else NoFold).

Definition foldRemOp (lhs rhs : Value) : OpFoldResult :=
  match constantOf lhs, constantOf rhs with
  | Some l, Some r => attrOr (foldSIMDOp (apRem signed w) (Some l) (Some r)) NoFold
  | _, _ => NoFold
  end.

Definition MaxOp_fold (lhs rhs : Value) : OpFoldResult :=
  attrOr (foldSIMDOp (apMax signed w) (constantOf lhs) (constantOf rhs))
    (if sameValue lhs rhs then FoldValue lhs else NoFold).
Definition MinOp_fold (lhs rhs : Value) : OpFoldResult :=
  attrOr (foldSIMDOp (apMin signed w) (constantOf lhs) (constantOf rhs))
    (if sameValue lhs rhs then FoldValue lhs else NoFold).

Definition SIMDAndOp_fold (lhs rhs : Value) : OpFoldResult :=
  attrOr (foldSIMDOp apAnd (constantOf lhs) (constantOf rhs)) NoFold.
Definition SIMDOrOp_fold (lhs rhs : Value) : OpFoldResult :=
  attrOr (foldSIMDOp apOr (constantOf lhs) (constantOf rhs)) NoFold.

(** All bits set: [isMask] of the whole width, or [true]. *)
Definition isAllOnes (v : Z) : bool := v =? 2 ^ w - 1.

Definition SIMDXOrOp_fold (lhs rhs : Value) : OpFoldResult :=
  attrOr (foldSIMDOp apXor (constantOf lhs) (constantOf rhs))
    match constantOf rhs with
    | Some rhsAttr =>
        if forallb (Z.eqb 0) rhsAttr then
          match constantOf lhs with Some l => FoldAttr l | None => FoldValue lhs end
        else if forallb isAllOnes rhsAttr then
          match lhs with
          | XOrResult x y => if sameValue y rhs then FoldValue x else NoFold
          | _ => NoFold
          end
        else NoFold
    | None => NoFold
    end.

(** [SIMDSelectOp::fold]; [isBoolType]: the result type is of bools. *)
Definition selectLanes (cond t f : list Z) : list Z :=
  zip_with (fun c p => if c =? 0 then snd p else fst p) cond (zip t f).

Definition SIMDSelectOp_fold (isBoolType : bool) (cond trueValue falseValue : Value) : OpFoldResult :=
  match constantOf cond, constantOf trueValue, constantOf falseValue with
  | Some c, Some t, Some f => FoldAttr (selectLanes c t f)
  | condVals, trueVals, falseVals =>
      if sameValue trueValue falseValue then FoldValue trueValue
      else
        let allTrue := match condVals with Some c => forallb (fun x => negb (x =? 0)) c | None => false end in
        let allFalse := match condVals with Some c => forallb (Z.eqb 0) c | None => false end in
        if allTrue then FoldValue trueValue
        else if allFalse then FoldValue falseValue
        else match trueVals, falseVals with
        | Some t, Some f =>
            if isBoolType && forallb (fun x => negb (x =? 0)) t && forallb (Z.eqb 0) f
            then FoldValue cond else NoFold
        | _, _ => NoFold
        end
  end.

(** ** The meaning of values and results *)

Variable env : nat → list Z.

Fixpoint eval (v : Value) : list Z :=
  match v with
  | Const l => l
  | Other id => env id
  | XOrResult a b => zip_with Z.lxor (eval a) (eval b)
  end.

Definition denotes (r : OpFoldResult) (l : list Z) : Prop :=
  match r with
  | FoldAttr k => k = l
  | FoldValue v => eval v = l
  | NoFold => True
  end.

(** [v], and every operand it is computed from, holds [n] elements of the
    width. *)
Fixpoint ofWidth (n : nat) (v : Value) : Prop :=
  match v with
  | XOrResult a b => ofWidth n a ∧ ofWidth n b
  | _ => length (eval v) = n ∧ Forall (inWidth w) (eval v)
  end.

(** A folder of two operands is sound for an element operation: whenever the
    operation is defined on the operands, the result denotes its value. *)
Definition soundFold (fold : Value → Value → OpFoldResult) (op : Z → Z → option Z) : Prop :=
  ∀ n lhs rhs l, ofWidth n lhs → ofWidth n rhs →
    lanes2 op (eval lhs) (eval rhs) = Some l → denotes (fold lhs rhs) l.

(** ** Lemmas: element-wise operations *)

Hypothesis w_pos : 0 < w.
(** SSA values that are the same hold the same. *)
Hypothesis sameValue_eval : ∀ a b, sameValue a b = true → eval a = eval b.

Lemma lanes2_left f a b : Forall2 (fun x y => f x y = Some x) a b → lanes2 f a b = Some a.
Proof.
  intros H. induction H as [|x y a b Hxy _ IH]; [done|]. unfold lanes2 in *. cbn [zip zip_with].
  apply mapM_Some. apply mapM_Some in IH. by constructor.
Qed.

Lemma lanes2_right f a b : Forall2 (fun x y => f x y = Some y) a b → lanes2 f a b = Some b.
Proof.
  intros H. induction H as [|x y a b Hxy _ IH]; [done|]. unfold lanes2 in *. cbn [zip zip_with].
  apply mapM_Some. apply mapM_Some in IH. by constructor.
Qed.

Lemma lanes2_zip_with g a b : lanes2 (fun x y => Some (g x y)) a b = Some (zip_with g a b).
Proof.
  unfold lanes2. revert b. induction a as [|x a IH]; intros [|y b]; try done. cbn [zip zip_with].
  apply mapM_Some. constructor; [done|]. by apply mapM_Some.
Qed.

Lemma lxor_inWidth x y : inWidth w x → inWidth w y → inWidth w (Z.lxor x y).
Proof.
  intros [Hx0 Hx1] [Hy0 Hy1]. split; [apply Z.lxor_nonneg; lia|].
  destruct (Z.eq_dec (Z.lxor x y) 0) as [->|Hne]; [apply Z.pow_pos_nonneg; lia|].
  assert (Hnn : 0 ≤ Z.lxor x y) by (apply Z.lxor_nonneg; lia).
  apply Z.log2_lt_pow2; [lia|]. pose proof (Z.log2_lxor x y ltac:(lia) ltac:(lia)).
  assert (∀ z, 0 ≤ z < 2 ^ w → Z.log2 z < w).
  { intros z Hz. destruct (Z.eq_dec z 0) as [->|]; [simpl; lia|]. apply Z.log2_lt_pow2; lia. }
  pose proof (H0 x ltac:(lia)). pose proof (H0 y ltac:(lia)). lia.
Qed.

Lemma ofWidth_lanes n v : ofWidth n v → length (eval v) = n ∧ Forall (inWidth w) (eval v).
Proof.
  induction v as [l|id|a IHa b IHb]; [done|done|]. intros [Ha Hb]. cbn [eval].
  destruct (IHa Ha) as [Hla Hwa], (IHb Hb) as [Hlb Hwb]. split.
  - rewrite length_zip_with. lia.
  - clear -Hwa Hwb w_pos. revert Hwb. generalize (eval b). induction Hwa as [|x l Hx _ IH]; intros k Hk; [constructor|].
    destruct Hk as [|y k Hy Hk]; [constructor|]. constructor; [by apply lxor_inWidth|by apply IH].
Qed.

Lemma constantOf_eval v l : constantOf v = Some l → eval v = l.
Proof. destruct v; intros [= ->]; done. Qed.

Lemma getIntVal_eval v c : getIntVal v = Some c → eval v = replicate (length (eval v)) c.
Proof.
  unfold getIntVal. destruct (constantOf v) as [[|x l]|] eqn:E; try done.
  destruct (forallb (Z.eqb x) l) eqn:Ef; [|done]. intros [= <-]. rewrite (constantOf_eval _ _ E). clear E.
  cbn [length replicate]. f_equal. induction l as [|y l IH]; [done|]. cbn in Ef. bool_to_prop. subst y.
  cbn [length replicate]. f_equal. by apply IH.
Qed.

(** The constant case of every folder. *)
Lemma attrOr_denotes f lhs rhs otherwise l : lanes2 f (eval lhs) (eval rhs) = Some l →
  denotes otherwise l → denotes (attrOr (foldSIMDOp f (constantOf lhs) (constantOf rhs)) otherwise) l.
Proof.
  intros Hl Ho. destruct (foldSIMDOp f _ _) as [r|] eqn:E; [|exact Ho]. cbn [attrOr denotes].
  destruct (foldSIMDOp_spec _ _ _ _ E) as (a & b & Ha & Hb & Hr).
  apply constantOf_eval in Ha, Hb. rewrite Ha, Hb in Hl. congruence.
Qed.

(** One operand repeats [c], and the operation with [c] gives the other operand
    or [c] again. *)
Lemma repeat_left_other f n c v l : ofWidth n v → lanes2 f (replicate n c) (eval v) = Some l →
  (∀ y, inWidth w y → f c y = Some y) → eval v = l.
Proof.
  intros Hv Hl Hf. destruct (ofWidth_lanes n v Hv) as [Hlen Hw].
  rewrite lanes2_right in Hl; [congruence|]. apply Forall2_replicate_l; [done|].
  eapply Forall_impl; [exact Hw|]. exact Hf.
Qed.

Lemma repeat_left_const f n c v l : ofWidth n v → lanes2 f (replicate n c) (eval v) = Some l →
  (∀ y, inWidth w y → f c y = Some c) → replicate n c = l.
Proof.
  intros Hv Hl Hf. destruct (ofWidth_lanes n v Hv) as [Hlen Hw].
  rewrite lanes2_left in Hl; [congruence|]. apply Forall2_replicate_l; [done|].
  eapply Forall_impl; [exact Hw|]. exact Hf.
Qed.

Lemma repeat_right_other f n c v l : ofWidth n v → lanes2 f (eval v) (replicate n c) = Some l →
  (∀ x, inWidth w x → f x c = Some x) → eval v = l.
Proof.
  intros Hv Hl Hf. destruct (ofWidth_lanes n v Hv) as [Hlen Hw].
  rewrite lanes2_left in Hl; [congruence|]. apply Forall2_replicate_r; [done|].
  eapply Forall_impl; [exact Hw|]. exact Hf.
Qed.

Lemma repeat_right_const f n c v l : ofWidth n v → lanes2 f (eval v) (replicate n c) = Some l →
  (∀ x, inWidth w x → f x c = Some c) → replicate n c = l.
Proof.
  intros Hv Hl Hf. destruct (ofWidth_lanes n v Hv) as [Hlen Hw].
  rewrite lanes2_right in Hl; [congruence|]. apply Forall2_replicate_r; [done|].
  eapply Forall_impl; [exact Hw|]. exact Hf.
Qed.

Lemma getIntVal_replicate n v c : ofWidth n v → getIntVal v = Some c → eval v = replicate n c.
Proof. intros Hv Hc. destruct (ofWidth_lanes n v Hv) as [<- _]. by apply getIntVal_eval. Qed.

Lemma isIntZero_replicate n v : ofWidth n v → isIntZero v = true → eval v = replicate n 0.
Proof.
  unfold isIntZero. intros Hv. destruct (getIntVal v) as [c|] eqn:E; [|done]. intros Hz.
  apply Z.eqb_eq in Hz as ->. by apply getIntVal_replicate.
Qed.

(** ** The folders of two operands *)

Lemma AddOp_sound : soundFold AddOp_fold (apAdd w).
Proof.
  intros n lhs rhs l Hl Hr H. apply attrOr_denotes; [done|]. destruct intLike; [|done].
  destruct (isIntZero lhs) eqn:El; [|destruct (isIntZero rhs) eqn:Er; [|done]]; cbn [denotes].
  - rewrite (isIntZero_replicate n lhs Hl El) in H. eapply repeat_left_other; [done..|].
    intros y Hy. unfold apAdd. by rewrite Z.mod_small.
  - rewrite (isIntZero_replicate n rhs Hr Er) in H. eapply repeat_right_other; [done..|].
    intros x Hx. unfold apAdd. rewrite Z.add_0_r. by rewrite Z.mod_small.
Qed.

Lemma SubOp_sound : soundFold SubOp_fold (apSub w).
Proof.
  intros n lhs rhs l Hl Hr H. apply attrOr_denotes; [done|]. destruct intLike; [|done].
  destruct (isIntZero rhs) eqn:Er; [|done]. cbn [denotes].
  rewrite (isIntZero_replicate n rhs Hr Er) in H. eapply repeat_right_other; [done..|].
  intros x Hx. unfold apSub. rewrite Z.sub_0_r. by rewrite Z.mod_small.
Qed.

Lemma apMul_0 y : apMul w 0 y = Some 0.
Proof. unfold apMul. by rewrite Z.mul_0_l, Zmod_0_l. Qed.
Lemma apMul_1 y : inWidth w y → apMul w 1 y = Some y.
Proof. intros Hy. unfold apMul. rewrite Z.mul_1_l. by rewrite Z.mod_small. Qed.
Lemma apMul_comm x y : apMul w x y = apMul w y x.
Proof. unfold apMul. by rewrite Z.mul_comm. Qed.

Lemma lanes2_comm f a b : (∀ x y, f x y = f y x) → lanes2 f a b = lanes2 f b a.
Proof.
  intros Hc. unfold lanes2. revert b. induction a as [|x a IH]; intros [|y b]; try done. cbn [zip zip_with].
  unfold mapM in *. cbn [fst snd]. rewrite Hc. destruct (f y x); [|done].
  specialize (IH b). cbn in IH |- *. by rewrite IH.
Qed.

Lemma trivialMultiplication_sound n lhs rhs l : ofWidth n lhs → ofWidth n rhs →
  lanes2 (apMul w) (eval lhs) (eval rhs) = Some l → denotes (foldTrivialMultiplication lhs rhs) l.
Proof.
  intros Hl Hr H. unfold foldTrivialMultiplication. destruct (getIntVal lhs) as [c|] eqn:E; [|done].
  pose proof (getIntVal_replicate n lhs c Hl E) as Hlhs. rewrite Hlhs in H.
  destruct (Z.eqb_spec c 0) as [->|]; [|destruct (Z.eqb_spec c 1) as [->|]; [|done]]; cbn [denotes].
  - rewrite Hlhs. eapply repeat_left_const; [exact Hr|done|]. intros y _. apply apMul_0.
  - eapply repeat_left_other; [done..|]. apply apMul_1.
Qed.

Lemma MulOp_sound : soundFold MulOp_fold (apMul w).
Proof.
  intros n lhs rhs l Hl Hr H. apply attrOr_denotes; [done|]. destruct intLike; [|done].
  pose proof (trivialMultiplication_sound n lhs rhs l Hl Hr H) as H1.
  destruct (foldTrivialMultiplication lhs rhs); [done|done|].
  apply (trivialMultiplication_sound n rhs lhs l Hr Hl). by rewrite lanes2_comm by apply apMul_comm.
Qed.

Lemma RemOp_sound : soundFold foldRemOp (apRem signed w).
Proof.
  intros n lhs rhs l Hl Hr H. unfold foldRemOp.
  destruct (constantOf lhs) as [a|] eqn:Ea; [|done]. destruct (constantOf rhs) as [b|] eqn:Eb; [|done].
  rewrite <- Ea, <- Eb. by apply attrOr_denotes.
Qed.

Lemma diag_sound f n lhs rhs l : (∀ x, f x x = Some x) → ofWidth n lhs → sameValue lhs rhs = true →
  lanes2 f (eval lhs) (eval rhs) = Some l → eval lhs = l.
Proof.
  intros Hf Hl Hs H. rewrite <- (sameValue_eval _ _ Hs), lanes2_left in H; [congruence|].
  clear -Hf. induction (eval lhs) as [|x k IH]; constructor; [apply Hf|done].
Qed.

Lemma MaxOp_sound : soundFold MaxOp_fold (apMax signed w).
Proof.
  intros n lhs rhs l Hl Hr H. apply attrOr_denotes; [done|]. destruct (sameValue lhs rhs) eqn:E; [|done].
  eapply diag_sound; [|done..]. intros x. unfold apMax. by destruct (_ >? _).
Qed.

Lemma MinOp_sound : soundFold MinOp_fold (apMin signed w).
Proof.
  intros n lhs rhs l Hl Hr H. apply attrOr_denotes; [done|]. destruct (sameValue lhs rhs) eqn:E; [|done].
  eapply diag_sound; [|done..]. intros x. unfold apMin. by destruct (_ <? _).
Qed.

Lemma SIMDAndOp_sound : soundFold SIMDAndOp_fold apAnd.
Proof. intros n lhs rhs l Hl Hr H. by apply attrOr_denotes. Qed.

Lemma SIMDOrOp_sound : soundFold SIMDOrOp_fold apOr.
Proof. intros n lhs rhs l Hl Hr H. by apply attrOr_denotes. Qed.

Lemma apXor_zip a b l : lanes2 apXor a b = Some l → l = zip_with Z.lxor a b.
Proof. intros H. unfold apXor in H. rewrite lanes2_zip_with in H. congruence. Qed.

Lemma zip_lxor_zeros a b : length a = length b → forallb (Z.eqb 0) b = true → zip_with Z.lxor a b = a.
Proof.
  revert b. induction a as [|x a IH]; intros [|y b]; try done. cbn [length forallb zip_with]. intros [= Hl] Hb.
  bool_to_prop. subst y. by rewrite Z.lxor_0_r, IH.
Qed.

Lemma zip_lxor_twice a b : length a = length b → zip_with Z.lxor (zip_with Z.lxor a b) b = a.
Proof.
  revert b. induction a as [|x a IH]; intros [|y b]; try done. cbn [length zip_with]. intros [= Hl].
  by rewrite Z.lxor_assoc, Z.lxor_nilpotent, Z.lxor_0_r, IH.
Qed.

Lemma SIMDXOrOp_sound : soundFold SIMDXOrOp_fold apXor.
Proof.
  intros n lhs rhs l Hl Hr H. apply attrOr_denotes; [done|]. apply apXor_zip in H as ->.
  destruct (constantOf rhs) as [r|] eqn:Er; [|done]. pose proof (constantOf_eval _ _ Er) as Hre.
  destruct (ofWidth_lanes n lhs Hl) as [Hll _], (ofWidth_lanes n rhs Hr) as [Hrl _].
  destruct (forallb (Z.eqb 0) r) eqn:Ez.
  { rewrite zip_lxor_zeros by (rewrite ?Hre; (done || congruence)).
    destruct (constantOf lhs) as [k|] eqn:Ek; [|done]. by rewrite (constantOf_eval _ _ Ek). }
  destruct (forallb isAllOnes r); [|done]. destruct lhs as [|id|x y]; [done|done|].
  destruct (sameValue y rhs) eqn:Es; [|done]. cbn [denotes eval]. destruct Hl as [Hx Hy].
  destruct (ofWidth_lanes n x Hx) as [Hxl _]. rewrite (sameValue_eval _ _ Es).
  symmetry. apply zip_lxor_twice. congruence.
Qed.

(** ** Selection *)

Lemma selectLanes_true c t f : length c = length t → length t = length f →
  forallb (fun x => negb (x =? 0)) c = true → selectLanes c t f = t.
Proof.
  unfold selectLanes. revert t f. induction c as [|x c IH]; intros [|y t] [|z f]; try done.
  cbn [length forallb zip zip_with]. intros [= H1] [= H2] Hc. bool_to_prop.
  rewrite (proj2 (Z.eqb_neq x 0)) by done. cbn [fst]. by rewrite IH.
Qed.

Lemma selectLanes_false c t f : length c = length t → length t = length f →
  forallb (Z.eqb 0) c = true → selectLanes c t f = f.
Proof.
  unfold selectLanes. revert t f. induction c as [|x c IH]; intros [|y t] [|z f]; try done.
  cbn [length forallb zip zip_with]. intros [= H1] [= H2] Hc. bool_to_prop. subst x.
  cbn [snd]. by rewrite IH.
Qed.

Lemma selectLanes_same c t : length c = length t → selectLanes c t t = t.
Proof.
  unfold selectLanes. revert t. induction c as [|x c IH]; intros [|y t]; try done.
  cbn [length zip zip_with]. intros [= H1]. destruct (x =? 0); cbn [fst snd]; by rewrite IH.
Qed.

(** Bits selected between all-true and all-false are the condition. *)
Lemma selectLanes_bools c t f : length c = length t → length t = length f →
  Forall (inWidth 1) c → Forall (inWidth 1) t →
  forallb (fun x => negb (x =? 0)) t = true → forallb (Z.eqb 0) f = true → selectLanes c t f = c.
Proof.
  unfold selectLanes. revert t f. induction c as [|x c IH]; intros [|y t] [|z f]; try done.
  cbn [length forallb zip zip_with]. intros [= H1] [= H2] Hc Ht Et Ef. bool_to_prop. subst z.
  inversion Hc as [|? ? [Hx0 Hx1] Hc']; inversion Ht as [|? ? [Hy0 Hy1] Ht']; subst.
  cbn [fst snd]. rewrite IH by done. f_equal. change (2 ^ 1) with 2 in *.
  destruct (Z.eqb_spec x 0); lia.
Qed.

(** The select folder: conditions are bools, and so are the values when the
    type says so. *)
Lemma SIMDSelectOp_sound isBoolType n cond t f :
  length (eval cond) = n → Forall (inWidth 1) (eval cond) → ofWidth n t → ofWidth n f →
  (isBoolType = true → w = 1) →
  denotes (SIMDSelectOp_fold isBoolType cond t f) (selectLanes (eval cond) (eval t) (eval f)).
Proof.
  intros Hc Hcb Ht Hf Hw. destruct (ofWidth_lanes n t Ht) as [Htl Htw], (ofWidth_lanes n f Hf) as [Hfl _].
  assert (Hrest : denotes
    (if sameValue t f then FoldValue t
     else if match constantOf cond with Some c => forallb (fun x => negb (x =? 0)) c | None => false end
     then FoldValue t
     else if match constantOf cond with Some c => forallb (Z.eqb 0) c | None => false end
     then FoldValue f
     else match constantOf t, constantOf f with
          | Some t', Some f' =>
              if isBoolType && forallb (fun x => negb (x =? 0)) t' && forallb (Z.eqb 0) f'
              then FoldValue cond else NoFold
          | _, _ => NoFold
          end) (selectLanes (eval cond) (eval t) (eval f))).
  { destruct (sameValue t f) eqn:Es.
    { cbn [denotes]. rewrite <- (sameValue_eval _ _ Es), selectLanes_same; congruence. }
    destruct (constantOf cond) as [c|] eqn:Ec; [pose proof (constantOf_eval _ _ Ec) as Hce|];
      [destruct (forallb (fun x => negb (x =? 0)) c) eqn:E1;
        [cbn [denotes]; rewrite selectLanes_true; congruence|];
       destruct (forallb (Z.eqb 0) c) eqn:E2; [cbn [denotes]; rewrite selectLanes_false; congruence|]|];
      (destruct (constantOf t) as [t'|] eqn:Et; [|done]; destruct (constantOf f) as [f'|] eqn:Ef; [|done];
       destruct (isBoolType && _ && _) eqn:Eb; [|done]; bool_to_prop; cbn [denotes];
       apply constantOf_eval in Et, Ef; rewrite <- Et, <- Ef in *; symmetry;
       apply selectLanes_bools; try congruence; rewrite <- (Hw ltac:(done)); congruence). }
  unfold SIMDSelectOp_fold. destruct (constantOf cond) as [c|] eqn:Ec; [|exact Hrest].
  destruct (constantOf t) as [t'|] eqn:Et; [|exact Hrest].
  destruct (constantOf f) as [f'|] eqn:Ef; [|exact Hrest].
  cbn [denotes]. by rewrite (constantOf_eval _ _ Ec), (constantOf_eval _ _ Et), (constantOf_eval _ _ Ef).
Qed.

End Folds.

(** ** [DivOp::canonicalize]: division by powers of two *)

Section Div.
Context {SF : SIMDFolding} {DT : DTypes}.

(** Constants of index types are held in 64 bits. *)
Definition dataWidth (t : DType) : Z := if isIndex t || isUIndex t then 64 else getWidthInBits t.

Definition isStrictlyPositive (t : DType) (v : Z) : bool := 0 <? toSigned (dataWidth t) v.

(** The width of the shift amounts. *)
Definition divWidth (target : option Z) (t : DType) : option Z :=
  if isIndex t || isUIndex t then target else Some (getWidthInBits t).

(** The right operand of the shift that replaces the division, if any. *)
Definition DivOp_canonicalize (dtype : option DType) (size : option nat) (rhs : Value)
    (target : option Z) : option (list Z) :=
  dtype ← dtype;
  if negb (isIntLike dtype) then None
  else
    size ← size;
    if negb (isUInt dtype) then None
    else
      rhsAttr ← constantOf rhs;
      if negb (forallb (fun v => isStrictlyPositive dtype v && isPowerOf2 v) rhsAttr) then None
      else
        intWidth ← divWidth target dtype;
        if Nat.ltb (length rhsAttr) size then None
        else Some (map (fun v => logBase2 v mod 2 ^ intWidth) (take size rhsAttr)).

Lemma power_shift intWidth v : 0 < intWidth → 0 ≤ v < 2 ^ intWidth → isPowerOf2 v = true →
  let s := logBase2 v mod 2 ^ intWidth in
  0 ≤ s < intWidth ∧ ∀ x, x / v = Z.shiftr x s.
Proof.
  intros Hw Hv Hp. apply isPowerOf2_spec in Hp as (k & Hk & ->). rewrite logBase2_spec by done.
  assert (k < intWidth) by (apply (Z.pow_lt_mono_r_iff 2); lia).
  assert (intWidth < 2 ^ intWidth) by (apply Z.pow_gt_lin_r; lia).
  rewrite Z.mod_small by lia. split; [lia|]. intros x. by rewrite Z.shiftr_div_pow2.
Qed.

(** An unsigned division by constant powers of two is replaced by a right
    shift that gives the same quotients, by amounts below the width of the
    elements, also when that width is the target's index width. *)
Theorem DivOp_canonicalize_sound dtype n rhs target intWidth shifts lhs :
  DivOp_canonicalize (Some dtype) (Some n) rhs target = Some shifts →
  divWidth target dtype = Some intWidth → 0 < intWidth →
  length lhs = n → (∀ l, constantOf rhs = Some l → length l = n ∧ Forall (inWidth intWidth) l) →
  ∃ l, constantOf rhs = Some l ∧ zip_with Z.div lhs l = zip_with Z.shiftr lhs shifts ∧
    Forall (fun s => 0 ≤ s < intWidth) shifts.
Proof.
  unfold DivOp_canonicalize. cbn [mbind option_bind]. intros H Hdw Hw Hl Hr.
  destruct (negb (isIntLike dtype)); [done|]. destruct (negb (isUInt dtype)); [done|].
  destruct (constantOf rhs) as [l|]; [|done]. cbn [mbind option_bind] in H.
  destruct (Hr l eq_refl) as [Hll Hlw]. exists l. split; [done|].
  destruct (forallb _ l) eqn:Ef; [|done]. cbn [negb] in H. rewrite Hdw in H. cbn [mbind option_bind] in H.
  destruct (Nat.ltb _ _); [done|]. injection H as <-. rewrite take_ge by lia. clear Hr Hdw.
  rewrite <- Hll in Hl. clear Hll. revert lhs Hl Ef.
  induction Hlw as [|v l Hv _ IH]; intros [|x lhs] Hl Ef; try done.
  cbn [length forallb map zip_with] in *. bool_to_prop.
  destruct (power_shift intWidth v Hw Hv) as [Hs Hx]; [done|].
  destruct (IH lhs) as [IHz IHf]; [lia|done|]. split; [by rewrite Hx, IHz|by constructor].
Qed.
End Div.

(** ** Boolean operations *)

(** A bool: a constant, the result of an [XOrOp], or anything else. *)
Inductive BoolValue :=
  | BoolConst (b : bool)
  | BoolOther (id : nat)
  | BoolXOr (lhs rhs : BoolValue).

Inductive BoolFold := BoolAttr (b : bool) | BoolResult (v : BoolValue) | BoolNoFold.

Definition boolConstant (v : BoolValue) : option bool :=
  match v with BoolConst b => Some b | _ => None end.

Definition AndOp_fold (lhs rhs : BoolValue) : BoolFold :=
  match boolConstant lhs, boolConstant rhs with
  | Some a, Some b => BoolAttr (a && b)
  | _, Some b => if b then BoolResult lhs else BoolAttr false
  | _, None => BoolNoFold
  end.

Definition OrOp_fold (lhs rhs : BoolValue) : BoolFold :=
  match boolConstant lhs, boolConstant rhs with
  | Some a, Some b => BoolAttr (a || b)
  | _, Some b => if negb b then BoolResult lhs else BoolAttr true
  | _, None => BoolNoFold
  end.

Definition XOrOp_fold (lhs rhs : BoolValue) : BoolFold :=
  match boolConstant lhs, boolConstant rhs with
  | Some a, Some b => BoolAttr (xorb a b)
  | _, Some b =>
      if negb b then BoolResult lhs
      else match lhs with
      | BoolXOr x y => match boolConstant y with
                       | Some true => BoolResult x
                       | _ => BoolNoFold
                       end
      | _ => BoolNoFold
      end
  | _, None => BoolNoFold
  end.

Fixpoint boolEval (env : nat → bool) (v : BoolValue) : bool :=
  match v with
  | BoolConst b => b
  | BoolOther id => env id
  | BoolXOr a b => xorb (boolEval env a) (boolEval env b)
  end.

Definition boolDenotes (env : nat → bool) (r : BoolFold) (b : bool) : Prop :=
  match r with
  | BoolAttr c => c = b
  | BoolResult v => boolEval env v = b
  | BoolNoFold => True
  end.

Lemma boolConstant_eval env v b : boolConstant v = Some b → boolEval env v = b.
Proof. destruct v; intros [= ->]; done. Qed.

Lemma bool_folds_sound env lhs rhs :
  boolDenotes env (AndOp_fold lhs rhs) (boolEval env lhs && boolEval env rhs) ∧
  boolDenotes env (OrOp_fold lhs rhs) (boolEval env lhs || boolEval env rhs) ∧
  boolDenotes env (XOrOp_fold lhs rhs) (xorb (boolEval env lhs) (boolEval env rhs)).
Proof.
  unfold AndOp_fold, OrOp_fold, XOrOp_fold. destruct (boolConstant rhs) as [b|] eqn:Er.
  - pose proof (boolConstant_eval env _ _ Er) as ->.
    destruct (boolConstant lhs) as [a|] eqn:El; [by rewrite (boolConstant_eval env _ _ El)|].
    destruct b; cbn [negb boolDenotes]; rewrite ?andb_true_r, ?andb_false_r, ?orb_true_r, ?orb_false_r, ?xorb_false_r;
      split_and!; try done.
    destruct lhs as [|id|x y]; try done. destruct (boolConstant y) as [[]|] eqn:Ey; try done.
    cbn [boolDenotes boolEval]. rewrite (boolConstant_eval env _ _ Ey).
    by destruct (boolEval env x).
  - destruct (boolConstant lhs); by split_and!.
Qed.

(** ** All the folders *)

(** Every folder of integer operations replaces an operation by a constant
    or a value that means the same, whenever the operation is defined:
    addition, subtraction, multiplication, remainder, minimum, maximum and the
    bitwise operations on every width and sign, and the selection; identities
    such as x + 0, 1 * x, max(x, x) and xor(xor(x, 1), 1) included. *)
Theorem integer_folds_sound {SF : SIMDFolding} w signed intLike sameValue env :
  0 < w → (∀ a b, sameValue a b = true → eval env a = eval env b) →
  soundFold w env (AddOp_fold w intLike) (apAdd w) ∧
  soundFold w env (SubOp_fold w intLike) (apSub w) ∧
  soundFold w env (MulOp_fold w intLike) (apMul w) ∧
  soundFold w env (foldRemOp w signed) (apRem signed w) ∧
  soundFold w env (MaxOp_fold w signed sameValue) (apMax signed w) ∧
  soundFold w env (MinOp_fold w signed sameValue) (apMin signed w) ∧
  soundFold w env SIMDAndOp_fold apAnd ∧
  soundFold w env SIMDOrOp_fold apOr ∧
  soundFold w env (SIMDXOrOp_fold w sameValue) apXor ∧
  ∀ isBoolType n cond t f, length (eval env cond) = n → Forall (inWidth 1) (eval env cond) →
    ofWidth w env n t → ofWidth w env n f → (isBoolType = true → w = 1) →
    denotes env (SIMDSelectOp_fold sameValue isBoolType cond t f)
      (selectLanes (eval env cond) (eval env t) (eval env f)).
Proof.
  intros Hw Hs. split_and!;
    [by apply AddOp_sound|by apply SubOp_sound|by apply MulOp_sound|by apply RemOp_sound
    |by apply MaxOp_sound|by apply MinOp_sound|by apply SIMDAndOp_sound|by apply SIMDOrOp_sound
    |by apply SIMDXOrOp_sound|].
  intros. by eapply SIMDSelectOp_sound.
Qed.

(** ** Elements of vectors *)

(** The vector operand of an insertion may be uninitialized memory. *)
Inductive VectorOperand := VecValue (v : Value) | VecUninit.

Definition vectorConstant (size : nat) (v : VectorOperand) : option (list Z) :=
  match v with VecValue v => constantOf v | VecUninit => Some (replicate size 0) end.

(** [None] in the outer option: the position is outside the vector. *)
Definition elementAt {A} (l : list A) (idx : Z) : option A :=
  if idx <? 0 then None else l !! Z.to_nat idx.

Definition SIMDExtractElementOp_fold (isScalar : bool) (vector : Value) (position : option Z)
    : option OpFoldResult :=
  if isScalar then
    Some (match constantOf vector with Some l => FoldAttr l | None => FoldValue vector end)
  else match constantOf vector, position with
  | Some vec, Some idx => x ← elementAt vec idx; Some (FoldAttr [x])
  | _, _ => Some NoFold
  end.

Definition SIMDInsertElementOp_fold (size : nat) (vector : VectorOperand) (value : Value)
    (position : option Z) : option OpFoldResult :=
  match vectorConstant size vector, constantOf value, position with
  | Some vec, Some val, Some idx =>
      x ← head val; _ ← elementAt vec idx;
      Some (FoldAttr (<[Z.to_nat idx := x]> vec))
  | _, _, _ => Some NoFold
  end.

(** The mask is an array of attributes, [None] for one that is no integer. *)
Definition SIMDShuffleOp_fold (sizeKnown : bool) (lhs rhs : Value) (mask : option (list (option Z)))
    : option OpFoldResult :=
  match constantOf lhs, constantOf rhs, mask with
  | Some l, Some r, Some mask =>
      if negb sizeKnown then Some NoFold
      else match mapM (fun m => m) mask with
      | None => Some NoFold
      | Some idxs => result ← mapM (elementAt (app l r)) idxs; Some (FoldAttr result)
      end
  | _, _, _ => Some NoFold
  end.

Section Splat.
Context {LM : LLVMMath} {DT : DTypes}.

Definition validateSIMDConstruction (size : option Z) (dtype : option DType) : ErrorOr unit :=
  match size, dtype with
  | None, _ => Error "simd size must be known"
  | Some _, None => Error "simd DType must be known"
  | Some size, Some dtype =>
      if isInvalid dtype then Error "simd type cannot be DType.invalid"
      else if negb (isPowerOf2_64 (size mod 2 ^ 64)) then Error "simd width must be a power of 2"
      else if size >? Z.shiftl 1 15 then Error "simd size must be less than 2^15"
      else Success tt
  end.

Definition SIMDSplatOp_parametric_interpret (size : option Z) (dtype : option DType) (operand : Value)
    : ErrorOr Value :=
  if bool_decide (size = Some 1) then Success operand
  else
    _ ← validateSIMDConstruction size dtype;
    match size, constantOf operand with
    | Some size, Some (x :: _) => Success (Const (replicate (Z.to_nat size) x))
    | _, _ => Error "cannot find size or is not a scalar"
    end.

(** The sizes that are accepted: powers of two up to 2^15 itself. *)
Lemma validateSIMDConstruction_spec size dtype : 0 ≤ size < 2 ^ 63 →
  validateSIMDConstruction (Some size) (Some dtype) = Success tt ↔
  isInvalid dtype = false ∧ ∃ k, 0 ≤ k ≤ 15 ∧ size = 2 ^ k.
Proof.
  intros Hs. cbn [validateSIMDConstruction]. rewrite (Z.mod_small size) by lia. destruct (isInvalid dtype); [by split; [|intros [? _]]|].
  pose proof (isPowerOf2_64_spec size ltac:(lia)) as Hp. change (Z.shiftl 1 15) with (2 ^ 15).
  destruct (isPowerOf2_64 size); cbn [negb].
  - destruct (proj1 Hp eq_refl) as (k & Hk & ->). destruct (2 ^ k >? 2 ^ 15) eqn:E; bool_to_prop.
    + split; [done|]. intros (_ & j & Hj & Heq). exfalso.
      assert (2 ^ j ≤ 2 ^ 15) by (apply Z.pow_le_mono_r; lia). lia.
    + split; [|done]. intros _. split; [done|]. exists k. split; [|done]. split; [done|].
      by apply (Z.pow_le_mono_r_iff 2).
  - split; [done|]. intros (_ & j & Hj & ->). destruct Hp as [_ Hp].
    discriminate Hp. exists j. split; [lia|done].
Qed.
End Splat.

(** ** A concrete element-wise folder *)

Definition foldConstants (f : Z → Z → option Z) (a b : option (list Z)) : option (list Z) :=
  match a, b with Some l, Some k => lanes2 f l k | _, _ => None end.
Definition powerOf2 (v : Z) : bool := (0 <? v) && (2 ^ Z.log2 v =? v).

Lemma foldConstants_spec f a b r : foldConstants f a b = Some r →
  ∃ l k, a = Some l ∧ b = Some k ∧ lanes2 f l k = Some r.
Proof. destruct a as [l|], b as [k|]; try done. intros H. by exists l, k. Qed.

Lemma powerOf2_spec v : powerOf2 v = true → ∃ k, 0 ≤ k ∧ v = 2 ^ k.
Proof. unfold powerOf2. intros H. bool_to_prop. exists (Z.log2 v). split; [apply Z.log2_nonneg|done]. Qed.

Definition constant_folding : SIMDFolding := {|
  foldSIMDOp := foldConstants;
  foldSIMDOp_spec := foldConstants_spec;
  isPowerOf2 := powerOf2;
  logBase2 := Z.log2;
  isPowerOf2_spec := powerOf2_spec;
  logBase2_spec := Z.log2_pow2
|}.

#[local] Existing Instance constant_folding.

(** Bytes: [0 * x] for an unknown [x], and [-100 rem 7] folded. *)
Lemma integer_folds_sound_witness :
  let env := fun _ : nat => [17; 200] in
  denotes env (MulOp_fold 8 true (Other 0) (Const [0; 0])) [0; 0] ∧
  denotes env (foldRemOp 8 true (Const [156]) (Const [7])) [254].
Proof.
  intros env.
  destruct (@integer_folds_sound constant_folding 8 true true (fun _ _ => false) env) as (_ & _ & Hmul & Hrem & _);
    [reflexivity|discriminate|]. split.
  - apply (Hmul 2%nat); [split; [reflexivity|repeat constructor; simpl; lia]..|reflexivity].
  - apply (Hrem 1%nat); [split; [reflexivity|repeat constructor; simpl; lia]..|reflexivity].
Defined.

#[local] Existing Instance elem_dtypes.

Lemma DivOp_canonicalize_sound_witness :
  DivOp_canonicalize (Some (EInt false 8)) (Some 2%nat) (Const [4; 64]) None = Some [2; 6] ∧
  zip_with Z.div [200; 130] [4; 64] = [50; 2].
Proof.
  assert (H : DivOp_canonicalize (Some (EInt false 8)) (Some 2%nat) (Const [4; 64]) None = Some [2; 6])
    by reflexivity.
  split; [exact H|].
  destruct (@DivOp_canonicalize_sound constant_folding elem_dtypes (EInt false 8) 2 (Const [4; 64]) None 8 [2; 6]
    [200; 130] H) as (l & Hl & Hz & _); [reflexivity|reflexivity|reflexivity| |].
  - intros l [= <-]. split; [reflexivity|]. repeat constructor; simpl; lia.
  - injection Hl as <-. rewrite Hz. reflexivity.
Defined.

End POPFolds.
