(* ===== verification/POPElementFolds.v ===== *)
(** The folders of Mojo/lib/POPDialect/POPOpsFolders.cpp that only pass
    operations on elements to the generic folder: negation, rounding, the fused
    multiply-add, and the number of a dtype.  The generic folder and
    [llvm::APFloat] are not in the repository: they are classes with their
    documented laws and instances. *)
From Stdlib Require Import QArith Qround.
From S2P Require Import Prelude LLVMTypes POPTypes.

#[local] Open Scope Z_scope.

Module POPElementFolds.
Import POPTypes.

(** [APFloat::roundingMode], the modes the folders name. *)
Inductive RoundingMode := rmNearestTiesToEven | rmTowardPositive | rmTowardNegative | rmTowardZero.

(** The integer that a mode rounds a number to, but for ties. *)
Definition truncQ (q : Q) : Z := if Qle_bool 0 q then Qfloor q else Qceiling q.
Definition directed (rm : RoundingMode) (q : Q) : option Z :=
  match rm with
  | rmTowardPositive => Some (Qceiling q)
  | rmTowardNegative => Some (Qfloor q)
  | rmTowardZero => Some (truncQ q)
  | rmNearestTiesToEven => None
  end.

(** [llvm::APFloat]: the value of a finite float, and the operations with what
    IEEE 754 says of them: rounding to an integer is exact, negation too. *)
Class APFloatOps := {
  APFloat : Type;
  finiteValue : APFloat → option Q;
  neg : APFloat → APFloat;
  roundToIntegral : RoundingMode → APFloat → APFloat;
  fusedMultiplyAdd : RoundingMode → APFloat → APFloat → APFloat → APFloat;
  neg_value : ∀ a q, finiteValue a = Some q → ∃ r, finiteValue (neg a) = Some r ∧ (r == - q)%Q;
  roundToIntegral_value : ∀ rm a q n, finiteValue a = Some q → directed rm q = Some n →
    ∃ r, finiteValue (roundToIntegral rm a) = Some r ∧ (r == inject_Z n)%Q
}.

(** An element of a constant: an integer as a residue of its width. *)
Inductive Lane `{APFloatOps} :=
  | IntLane (v : Z) | FloatLane (v : APFloat) | BoolLane (v : bool).

(** [foldSIMDOp] with a function of the elements of its operands: it folds
    constants only, and element by element. *)
Class ElementFolding `{APFloatOps} := {
  foldSIMDOp : (list Lane → option Lane) → list (option (list Lane)) → option (list Lane);
  foldSIMDOp_spec : ∀ f operands r, foldSIMDOp f operands = Some r →
    ∃ constants, operands = map Some constants ∧
      (∀ c, In c constants → length c = length r) ∧
      ∀ i, (i < length r)%nat → ∃ lanes, mapM (fun c => c !! i) constants = Some lanes ∧ f lanes = r !! i
}.

Section Folds.
Context `{EF : ElementFolding}.
(** The width of integer elements. *)
Variable w : Z.

(** The lambdas of a folder of one operand, the last for bools where it has
    one; [None] where the folder has none for the element. *)
Definition lambdas1 (onInt : Z → Z) (onFloat : APFloat → APFloat) (onBool : option (bool → bool)) (lanes : list Lane) : option Lane :=
  match lanes with
  | [IntLane v] => Some (IntLane (onInt v mod 2 ^ w))
  | [FloatLane v] => Some (FloatLane (onFloat v))
  | [BoolLane v] => (fun f => BoolLane (f v)) <$> onBool
  | _ => None
  end.
Definition lambdas3 (onInt : Z → Z → Z → Z) (onFloat : APFloat → APFloat → APFloat → APFloat) (lanes : list Lane) : option Lane :=
  match lanes with
  | [IntLane a; IntLane b; IntLane c] => Some (IntLane (onInt a b c mod 2 ^ w))
  | [FloatLane a; FloatLane b; FloatLane c] => Some (FloatLane (onFloat a b c))
  | _ => None
  end.

Definition NegOp_fold (operand : option (list Lane)) : option (list Lane) :=
  foldSIMDOp (lambdas1 Z.opp neg None) [operand].
Definition FloorOp_fold (operand : option (list Lane)) : option (list Lane) :=
  foldSIMDOp (lambdas1 (fun val => val) (roundToIntegral rmTowardNegative) (Some (fun val => val))) [operand].
Definition CeilOp_fold (operand : option (list Lane)) : option (list Lane) :=
  foldSIMDOp (lambdas1 (fun val => val) (roundToIntegral rmTowardPositive) (Some (fun val => val))) [operand].
Definition TruncOp_fold (operand : option (list Lane)) : option (list Lane) :=
  foldSIMDOp (lambdas1 (fun val => val) (roundToIntegral rmTowardZero) (Some (fun val => val))) [operand].
Definition FMAOp_fold (a b c : option (list Lane)) : option (list Lane) :=
  foldSIMDOp (lambdas3 (fun a b c => a * b + c) (fusedMultiplyAdd rmNearestTiesToEven)) [a; b; c].

(** ** What the folds of one operand are on each element *)

Lemma fold1_lanes f operand r : foldSIMDOp f [operand] = Some r →
  ∃ c, operand = Some c ∧ length c = length r ∧ ∀ i x, c !! i = Some x → f [x] = r !! i.
Proof.
  intros E. destruct (foldSIMDOp_spec _ _ _ E) as (cs & Hcs & Hlen & Hf).
  destruct cs as [|c [|]]; try done. injection Hcs as ->. exists c. split; [done|]. split; [by apply Hlen; left|].
  intros i x Hx. destruct (Hf i) as (lanes & Hl & <-).
  { rewrite <- (Hlen c) by (by left). by apply lookup_lt_Some in Hx. }
  simpl in Hl. rewrite Hx in Hl. simpl in Hl. by injection Hl as <-.
Qed.

(** What rounding one element gives: integers and bools stay, a finite float
    becomes the integer. *)
Definition rounds (round : Q → Z) (x y : Lane) : Prop :=
  match x, y with
  | IntLane v, IntLane v' => v' = v
  | BoolLane b, BoolLane b' => b' = b
  | FloatLane a, FloatLane a' => ∀ q, finiteValue a = Some q → ∃ r, finiteValue a' = Some r ∧ (r == inject_Z (round q))%Q
  | _, _ => False
  end.
Definition inWidthLane (x : Lane) : Prop := match x with IntLane v => inWidth w v | _ => True end.

Lemma round_lane rm round x y : inWidthLane x → (∀ q, directed rm q = Some (round q)) →
  lambdas1 (fun val => val) (roundToIntegral rm) (Some (fun val => val)) [x] = Some y → rounds round x y.
Proof.
  intros Hw Hd. destruct x as [v|a|b]; simpl; intros [= <-]; [by apply Z.mod_small| |done].
  intros q Hq. by apply (roundToIntegral_value rm a q).
Qed.

Lemma round_fold rm round c r : Forall inWidthLane c → (∀ q, directed rm q = Some (round q)) →
  foldSIMDOp (lambdas1 (fun val => val) (roundToIntegral rm) (Some (fun val => val))) [Some c] = Some r →
  Forall2 (rounds round) c r.
Proof.
  intros Hw Hd E. destruct (fold1_lanes _ _ _ E) as (c' & [= <-] & Hlen & Hf). apply Forall2_same_length_lookup_2; [done|].
  intros i x y Hx Hy. apply (round_lane rm); [|done|by rewrite (Hf i x Hx)].
  by eapply Forall_lookup_1.
Qed.

(** Folding a rounding operation on a constant keeps integers and bools, and
    gives for every finite float the integer of its direction. *)
Theorem rounding_folds_sound c : Forall inWidthLane c →
  (∀ r, FloorOp_fold (Some c) = Some r → Forall2 (rounds Qfloor) c r)
  ∧ (∀ r, CeilOp_fold (Some c) = Some r → Forall2 (rounds Qceiling) c r)
  ∧ (∀ r, TruncOp_fold (Some c) = Some r → Forall2 (rounds truncQ) c r).
Proof. intros Hw. split_and!; intros r; by apply round_fold. Qed.

(** Negation wraps: the least integer of a width is its own negation. *)
Theorem NegOp_fold_wraps c r : NegOp_fold (Some c) = Some r →
  ∀ i v, c !! i = Some (IntLane v) →
    r !! i = Some (IntLane ((- v) mod 2 ^ w)) ∧ (0 < w → v = 2 ^ (w - 1) → r !! i = c !! i).
Proof.
  intros E i v Hv. destruct (fold1_lanes _ _ _ E) as (c' & [= <-] & _ & Hf). pose proof (Hf i _ Hv) as Hi. simpl in Hi.
  split; [done|]. intros Hw ->. rewrite Hv, <- Hi. do 2 f_equal. pose proof (Z.pow_pos_nonneg 2 (w - 1)).
  replace (2 ^ w) with (2 * 2 ^ (w - 1)) by (rewrite <- Z.pow_succ_r by lia; f_equal; lia).
  rewrite <- (Z_mod_plus_full _ 1), Z.mod_small; lia.
Qed.
End Folds.

(** ** The number of a dtype *)

(** [KGENDType]: a byte, and the dtype of a byte. *)
Class DTypeNumbers := {
  KGENDType : Type;
  getValue : KGENDType → Z;
  ofValue : Z → KGENDType;
  getValue_byte : ∀ d, 0 ≤ getValue d < 2 ^ 8;
  ofValue_getValue : ∀ d, ofValue (getValue d) = d
}.

Section Numbers.
Context {DN : DTypeNumbers}.
(** The operand where it is a constant; the result of [DTypeToUI8] is an
    unsigned integer of 8 bits. *)
Definition DTypeToUI8_fold (dtype : option KGENDType) : option Z := (fun d => getValue d mod 2 ^ 8) <$> dtype.
Definition DTypeFromUI8_fold (value : option Z) : option KGENDType := ofValue <$> value.

(** Folding a dtype to its number and back gives the dtype. *)
Theorem dtype_number_roundtrip d : DTypeFromUI8_fold (DTypeToUI8_fold (Some d)) = Some d.
Proof. unfold DTypeFromUI8_fold, DTypeToUI8_fold. simpl. by rewrite Z.mod_small, ofValue_getValue by apply getValue_byte. Qed.
End Numbers.

(** ** Witnesses *)

(** Floats that are rational numbers, with one that is not finite. *)
Definition roundQ (rm : RoundingMode) (q : Q) : Q :=
  match directed rm q with Some n => inject_Z n | None => inject_Z (Qfloor (q + (1 # 2))%Q) end.
Definition rational_floats : APFloatOps.
Proof.
  refine {| APFloat := option Q; finiteValue := fun a => a; neg := fmap Qopp;
    roundToIntegral := fun rm => fmap (roundQ rm);
    fusedMultiplyAdd := fun _ a b c => a ← a; b ← b; c ← c; Some (a * b + c)%Q |}.
  - intros a q ->. by eexists.
  - intros rm a q n -> Hd. eexists. split; [reflexivity|]. unfold roundQ. by rewrite Hd.
Defined.

(** The folder of one operand, on constants. *)
Definition foldOne `{APFloatOps} (f : list Lane → option Lane) (operands : list (option (list Lane))) : option (list Lane) :=
  match operands with [Some c] => mapM (fun x => f [x]) c | _ => None end.
Definition element_folding `{FO : APFloatOps} : ElementFolding (H := FO).
Proof.
  refine {| foldSIMDOp := foldOne |}. intros f operands r. destruct operands as [|[c|] [|]]; try done. simpl. intros E.
  apply mapM_Some in E. exists [c]. split; [done|]. pose proof (Forall2_length _ _ _ E) as Hlen. split; [by intros c' [<-|[]]|].
  intros i Hi. destruct (lookup_lt_is_Some_2 c i ltac:(lia)) as [x Hx]. exists [x]. simpl. rewrite Hx. split; [done|].
  destruct (Forall2_lookup_l _ _ _ _ _ E Hx) as (y & -> & Hy). done.
Defined.

(** -3/2, 3/2, the integer 200 of 8 bits, and an infinity. *)
Lemma rounding_folds_sound_witness :
  Forall2 (rounds (H := rational_floats) truncQ)
    [FloatLane (H := rational_floats) (Some (-3 # 2)); FloatLane (H := rational_floats) (Some (3 # 2)); IntLane 200; FloatLane (H := rational_floats) None]
    [FloatLane (H := rational_floats) (Some (-1 # 1)); FloatLane (H := rational_floats) (Some (1 # 1)); IntLane 200; FloatLane (H := rational_floats) None].
Proof.
  refine (proj2 (proj2 (rounding_folds_sound (EF := element_folding (FO := rational_floats)) 8 _ _)) _ _).
  - repeat constructor; vm_compute; congruence.
  - vm_compute. reflexivity.
Defined.

Lemma NegOp_fold_wraps_witness :
  [IntLane (H := rational_floats) 3; IntLane 128] !! 1%nat = [IntLane (H := rational_floats) 253; IntLane 128] !! 1%nat.
Proof.
  symmetry.
  refine (proj2 (NegOp_fold_wraps (EF := element_folding (FO := rational_floats)) 8 [IntLane 3; IntLane 128] _ _ 1%nat 128 _) _ _); reflexivity.
Defined.

End POPElementFolds.
