(* ===== verification/POPAttrs.v ===== *)
(** Types and constant attributes of the POP and KGEN dialects, as far as the
    memory, array, union and call operations of
    Mojo/lib/POPDialect/POPOpsFolders.cpp inspect them, and the data layout
    they query.  The dialects' definitions are not in the repository. *)
From S2P Require Import Prelude.

#[global] Open Scope string_scope.
#[global] Open Scope Z_scope.

Module POPAttrs.

(** A size, an element type or a list of elements that still depends on a
    parameter is [None]; [DTypeCode] is the one-byte code of a KGENDType. *)
Definition DTypeCode := Z.

Inductive Ty :=
  | PointerType (elem : Ty) (addressSpace : Z)
  | ArrayType (elem : Ty) (size : option Z)
  | StructType (elements : option (list Ty)) (isParamPack : bool)
  | UnionType (elements : list Ty)
  | VariantType (elements : list Ty)
  | SIMDType (size : option Z) (dtype : option DTypeCode)
  | IntegerType (width : Z)
  | IndexType
  | StringType
  | OtherType (n : nat).

Inductive Attr :=
  | PointerAttr (addr : Z) (type : Ty)
  | IntegerAttr (value : Z) (type : Ty)
  | SIMDAttr (values : list Z) (type : Ty)
  | ArrayAttr (values : list Attr) (type : Ty)
  | StructAttr (values : list Attr) (type : Ty)
  | UnionAttr (value : Attr) (type : Ty)
  | StringAttr (value : string)
  | UninitMemAttr (type : Ty)
  | UnknownAttr (type : Ty)
  | OtherAttr (n : nat) (type : Ty).

Definition typeOf (a : Attr) : Ty :=
  match a with
  | PointerAttr _ t | IntegerAttr _ t | SIMDAttr _ t | ArrayAttr _ t | StructAttr _ t
  | UnionAttr _ t | UninitMemAttr t | UnknownAttr t | OtherAttr _ t => t
  | StringAttr _ => StringType
  end.

(** Equality of types and attributes is decidable: MLIR uniques them. *)
Lemma eq_Ty (x y : Ty) : {x = y} + {x ≠ y}.
Proof.
  revert x y. fix go 1. intros x y.
  pose proof (List.list_eq_dec go) as Hl. pose proof (fun l k : option Z => decide (l = k)) as Hz.
  decide equality; try apply Hl; try apply Hz; try apply Z.eq_dec; try apply Nat.eq_dec;
    try apply bool_dec.
  decide equality.
Defined.
#[export] Instance Ty_eq_dec : EqDecision Ty := eq_Ty.

Lemma eq_Attr (x y : Attr) : {x = y} + {x ≠ y}.
Proof.
  revert x y. fix go 1. intros x y.
  pose proof (List.list_eq_dec go) as Hl. pose proof (fun l k : list Z => decide (l = k)) as Hz.
  decide equality; try apply Hl; try apply Hz; try apply Z.eq_dec; try apply Nat.eq_dec;
    try apply eq_Ty; apply String.string_dec.
Defined.
#[export] Instance Attr_eq_dec : EqDecision Attr := eq_Attr.

(** [isa<>] and [dyn_cast_or_null<>] on an operand; no operand is a null
    attribute. *)
Definition asPointer (a : option Attr) : option (Z * Ty) :=
  match a with Some (PointerAttr addr t) => Some (addr, t) | _ => None end.
Definition asInteger (a : option Attr) : option Z :=
  match a with Some (IntegerAttr v _) => Some v | _ => None end.
Definition asSIMD (a : option Attr) : option (list Z * Ty) :=
  match a with Some (SIMDAttr vs t) => Some (vs, t) | _ => None end.
Definition asArray (a : option Attr) : option (list Attr) :=
  match a with Some (ArrayAttr vs _) => Some vs | _ => None end.
Definition asString (a : option Attr) : option string :=
  match a with Some (StringAttr s) => Some s | _ => None end.
Definition isUninit (a : option Attr) : bool :=
  match a with Some (UninitMemAttr _) => true | _ => false end.

(** [cast<PointerType>(t).getElementType()] and the like: [None] is a failed
    [cast]. *)
Definition pointerElement (t : Ty) : option Ty :=
  match t with PointerType e _ => Some e | _ => None end.
Definition addressSpaceOf (t : Ty) : option Z :=
  match t with PointerType _ a => Some a | _ => None end.
Definition arrayElement (t : Ty) : option Ty :=
  match t with ArrayType e _ => Some e | _ => None end.
Definition arraySize (t : Ty) : option (option Z) :=
  match t with ArrayType _ n => Some n | _ => None end.
Definition isPointerType (t : Ty) : bool := match t with PointerType _ _ => true | _ => false end.
Definition isArrayType (t : Ty) : bool := match t with ArrayType _ _ => true | _ => false end.
Definition isSIMDType (t : Ty) : bool := match t with SIMDType _ _ => true | _ => false end.
Definition isIntOrIndex (t : Ty) : bool :=
  match t with IntegerType _ | IndexType => true | _ => false end.

(** [getTypeAllocSize] and its sisters: the layout a target gives to types;
    nothing when the type is not resolved. *)
Class DataLayoutInterface := {
  TargetInfo : Type;
  getTypeAllocSize : TargetInfo → Ty → option Z;
  getTypeABIAlign : TargetInfo → Ty → option Z;
  getContentSize : TargetInfo → Ty → option Z;
  getPointerSize : TargetInfo → Z;
}.

(** Signed 64-bit arithmetic: overflow is undefined, [None]. *)
Definition int64 (z : Z) : option Z :=
  if (- 2 ^ 63 <=? z) && (z <? 2 ^ 63) then Some z else None.

Lemma int64_Some z r : int64 z = Some r → r = z ∧ - 2 ^ 63 ≤ z < 2 ^ 63.
Proof.
  unfold int64. destruct (_ && _) eqn:E; [|done]. bool_to_prop. intros [= <-]. lia.
Qed.

Lemma int64_in z : - 2 ^ 63 ≤ z < 2 ^ 63 → int64 z = Some z.
Proof.
  intros H. unfold int64. by rewrite (proj2 (Z.leb_le _ _)), (proj2 (Z.ltb_lt _ _)) by lia.
Qed.

End POPAttrs.
