(* ===== verification/POPInterp.v ===== *)
(** How the compile-time interpreter runs the memory, array, union and call
    operations of the POP dialect: the [interpret] and [parametric_interpret]
    methods of Mojo/lib/POPDialect/POPOpsFolders.cpp. *)
From S2P Require Import Prelude StringRef POPAttrs.

Module POPInterp.
Import POPAttrs.

(** The interpreter's memory and globals, which are not in the repository. *)
Class InterpreterState := {
  St : Type;
  allocateStackMemory : Z → Z → St → ErrorOr Z * St;
  allocateHeapMemory : Z → Z → St → ErrorOr Z * St;
  allocatePersistentMemory : Z → Z → Z → St → ErrorOr Z * St;
  freeHeapMemory : Z → St → ErrorOr unit * St;
  readAttributeFromPointer : option Attr → Ty → St → ErrorOr Attr;
  writeAttributeToMemory : Z → Attr → St → ErrorOr unit * St;
  writeAttributeToConstantGlobalMemory : Attr → Z → Z → St → ErrorOr Z * St;
  mapConstGlobalMemory : string → St → ErrorOr Z * St;
  getNamedGlobal : string → St → option Attr;
  setNamedGlobal : string → option Attr → St → St;
  (** [getReadableMemory(addr, size)]: a host pointer to [size] bytes. *)
  getReadableMemory : Z → Z → St → ErrorOr Z;
  (** The operating system's [write(fd, pointer, size)]. *)
  hostWrite : Z → Z → Z → St → Z * St;
}.

(** A run of an operation: [None] where the C++ fails an assertion, indexes out
    of range or overflows; otherwise an error or the attributes given to
    [mapResults], and the state. *)
Section Interp.
Context {DL : DataLayoutInterface} {IS : InterpreterState}.

Definition Interp (A : Type) : Type := St → option (ErrorOr A * St).
Definition ret {A} (a : A) : Interp A := fun s => Some (Success a, s).
Definition fail {A} (msg : string) : Interp A := fun s => Some (Error msg, s).
Definition crash {A} : Interp A := fun _ => None.
#[export] Instance Interp_bind : MBind Interp := fun A B f m s =>
  match m s with
  | Some (Success a, s) => f a s
  | Some (Error msg, s) => Some (Error msg, s)
  | None => None
  end.
Definition call {A} (f : St → ErrorOr A * St) : Interp A := fun s => Some (f s).
Definition query {A} (f : St → ErrorOr A) : Interp A := fun s => Some (f s, s).
(** A value that the code takes to be there. *)
Definition must {A} (a : option A) : Interp A := match a with Some a => ret a | None => crash end.
Definition need {A} (msg : string) (a : option A) : Interp A :=
  match a with Some a => ret a | None => fail msg end.
Definition mapResults (a : Attr) : Interp (list Attr) := ret [a].
Definition done_ : Interp (list Attr) := ret [].

(** The target the state has, what a parametric state substitutes for the
    parameters, and the functions the operations call in other files. *)
Variable target : option TargetInfo.
Variable getReboundType : Ty → Ty.
Variable getReboundAttribute : Attr → Attr.
Variable getScalarIndexValue : option Attr → ErrorOr Z.
Variable isAttributeTypeCompatible : Attr → Ty → bool.
(** [interpretOpWithFolder]: runs the folder on the operands. *)
Variable interpretOpWithFolder : option Attr → Interp (list Attr).

Definition nonConstant {A} : Interp A := fail "non-constant inputs".
Definition pair {A B} (a : option A) (b : option B) : option (A * B) :=
  match a, b with Some a, Some b => Some (a, b) | _, _ => None end.

(** ** LoadOp, StoreOp *)

Definition LoadOp_interpret (type : Ty) (ptr : option Attr) : Interp (list Attr) :=
  result ← query (readAttributeFromPointer ptr type); mapResults result.
Definition LoadOp_parametric_interpret (type : Ty) (ptr : option Attr) : Interp (list Attr) :=
  result ← query (readAttributeFromPointer ptr (getReboundType type)); mapResults result.

Definition StoreOp_interpret (value ptr : option Attr) : Interp (list Attr) :=
  match value, asPointer ptr with
  | Some value, Some (addr, _) => _ ← call (writeAttributeToMemory addr value); done_
  | _, _ => nonConstant
  end.
Definition StoreOp_parametric_interpret (value ptr : option Attr) : Interp (list Attr) :=
  match value, asPointer ptr with
  | Some value, Some (addr, _) => _ ← call (writeAttributeToMemory addr value); done_
  | _, _ => nonConstant
  end.

(** ** OffsetOp *)

(** [ptr.getAddr() + *elSize * offset.getInt()]. *)
Definition strided (addr stride index : Z) : option Z :=
  p ← int64 (stride * index); int64 (addr + p).

Definition OffsetOp_interpret (ptr offset : option Attr) : Interp (list Attr) :=
  target ← need "operation requires a target model" target;
  '(addr, type, offset) ← need "non-constant inputs" (pair (asPointer ptr) (asInteger offset));
  elem ← must (pointerElement type);
  elSize ← need "could not query pointer element size" (getTypeAllocSize target elem);
  addr ← must (strided addr elSize offset);
  mapResults (PointerAttr addr type).

Definition OffsetOp_parametric_interpret (ptr offset : option Attr) : Interp (list Attr) :=
  target ← need "operation requires a target model" target;
  '(addr, type, offset) ← need "non-constant inputs" (pair (asPointer ptr) (asInteger offset));
  let ptrType := getReboundType type in
  elemType ← must (pointerElement ptrType);
  elSize ← need "could not query pointer element size" (getTypeAllocSize target elemType);
  addr ← must (strided addr elSize offset);
  mapResults (PointerAttr addr ptrType).

(** ** StackAllocationOp, and the lifetime markers *)

Record Payload := { size : Z; align : Z }.

(** [Payload] is written only with a target; [None] is the unwritten one. The
    types are what [getType()] gives, rebound or not. *)
Definition stackPayload (type : Ty) (count alignment : option Attr) : option (ErrorOr (option Payload)) :=
  match asInteger count with
  | None => Some (Error "array size is not a constant")
  | Some count =>
      match target with
      | None => Some (if negb (count =? 1) then Error "array allocation requires a target model"
                      else Success None)
      | Some target =>
          match pointerElement type with
          | None => None
          | Some elem =>
              match getTypeAllocSize target elem with
              | None => Some (Error "could not query type size")
              | Some size =>
                  match (match alignment with
                         | None => Some 0 | Some (IntegerAttr a _) => Some a | Some _ => None
                         end) with
                  | None => None
                  | Some align =>
                      if align <? 0 then Some (Error "invalid alignment value: ")
                      else
                        match (if align =? 0 then getTypeABIAlign target elem else Some align) with
                        | None => Some (Error "could not query type alignment")
                        | Some align =>
                            match int64 (count * size) with
                            | None => None
                            | Some size => Some (Success (Some {| size := size; align := align |}))
                            end
                        end
                  end
              end
          end
      end
  end.

Definition StackAllocationOp_compile (type : Ty) (count : Attr) (alignment : option Attr) :=
  stackPayload type (Some count) alignment.
Definition StackAllocationOp_parametric_compile (type : Ty) (count : Attr) (alignment : option Attr) :=
  stackPayload (getReboundType type) (Some (getReboundAttribute count)) (getReboundAttribute <$> alignment).

Definition StackAllocationOp_interpret (type : Ty) (payload : option Payload) : Interp (list Attr) :=
  _ ← need "stack allocation requires a target model" target;
  payload ← must payload;
  addr ← call (allocateStackMemory (size payload) (align payload));
  mapResults (PointerAttr addr type).
Definition StackAllocationOp_parametric_interpret (type : Ty) (payload : option Payload)
    : Interp (list Attr) :=
  _ ← need "stack allocation requires a target model" target;
  payload ← must payload;
  addr ← call (allocateStackMemory (size payload) (align payload));
  mapResults (PointerAttr addr (getReboundType type)).

Definition StackAllocLifetimeStartOp_interpret : Interp (list Attr) := done_.
Definition StackAllocLifetimeEndOp_interpret : Interp (list Attr) := done_.

(** ** AlignedAllocOp, AlignedFreeOp *)

Definition interpretAllocation (size align : Z) (type : Ty) : Interp (list Attr) :=
  let align := if align <=? 0 then 64 else align in
  addr ← call (allocateHeapMemory size align);
  mapResults (PointerAttr addr type).

Definition concreteInputs (alignOr sizeOr : ErrorOr Z) : Interp (Z * Z) :=
  match alignOr, sizeOr with
  | Success align, Success size => ret (align, size)
  | _, _ => fail "non-concrete inputs"
  end.

Definition AlignedAllocOp_interpret (type : Ty) (align size : option Attr) : Interp (list Attr) :=
  '(align, size) ← concreteInputs (getScalarIndexValue align) (getScalarIndexValue size);
  if size <? 0 then fail "alloc has negative size" else interpretAllocation size align type.
Definition AlignedAllocOp_parametric_interpret (type : Ty) (align size : option Attr)
    : Interp (list Attr) :=
  '(align, size) ← concreteInputs (getScalarIndexValue align) (getScalarIndexValue size);
  interpretAllocation size align (getReboundType type).

Definition AlignedFreeOp_interpret (ptr : option Attr) : Interp (list Attr) :=
  '(addr, _) ← must (asPointer ptr); _ ← call (freeHeapMemory addr); done_.
Definition AlignedFreeOp_parametric_interpret (ptr : option Attr) : Interp (list Attr) :=
  '(addr, _) ← must (asPointer ptr); _ ← call (freeHeapMemory addr); done_.

(** ** ArrayGEPOp, PointerToIndexOp, PointerBitcastOp *)

(** The type of the array is the operand's, [arrayPtrType]; for the parametric
    run it is taken from the attribute. *)
Definition gep (elem : Ty) (addr index : Z) : Interp (list Attr) :=
  target ← must target;
  stride ← need "failed to get array element stride" (getTypeAllocSize target elem);
  addr ← must (strided addr stride index);
  mapResults (PointerAttr addr (PointerType elem 0)).

Definition ArrayGEPOp_interpret (arrayPtrType : Ty) (ptr index : option Attr) : Interp (list Attr) :=
  _ ← need "operation requires a target model" target;
  '(addr, _, index) ← need "non-constant inputs" (pair (asPointer ptr) (asInteger index));
  arrayType ← must (pointerElement arrayPtrType);
  elem ← must (arrayElement arrayType);
  gep elem addr index.
Definition ArrayGEPOp_parametric_interpret (ptr index : option Attr) : Interp (list Attr) :=
  _ ← need "operation requires a target model" target;
  '(addr, type, index) ← need "non-constant inputs" (pair (asPointer ptr) (asInteger index));
  arrayType ← must (pointerElement type);
  elem ← must (arrayElement arrayType);
  gep elem addr index.

Definition PointerToIndexOp_fold (value : option Attr) : option Attr :=
  '(addr, _) ← asPointer value; Some (IntegerAttr addr IndexType).
Definition PointerToIndexOp_interpret (value : option Attr) : Interp (list Attr) :=
  interpretOpWithFolder (PointerToIndexOp_fold value).
Definition PointerToIndexOp_parametric_interpret (value : option Attr) : Interp (list Attr) :=
  match asPointer value with
  | Some (addr, _) => mapResults (IntegerAttr addr IndexType)
  | None => fail "input pointer is not an index"
  end.

(** The constant case of the folders of the three pointer casts:
    [PointerBitcastOp], [VariantBitcastOp], [UnionBitcastOp]. *)
Definition foldPointerCast (type : Ty) (input : option Attr) : option Attr :=
  '(addr, _) ← asPointer input; Some (PointerAttr addr type).

Definition PointerBitcastOp_interpret (type : Ty) (input : option Attr) : Interp (list Attr) :=
  interpretOpWithFolder (foldPointerCast type input).
(** [mapResults(operands)] hands the operand on. *)
Definition PointerBitcastOp_parametric_interpret (type : Ty) (input : option Attr)
    : Interp (list (option Attr)) :=
  let type := getReboundType type in
  match asPointer input with
  | Some (addr, _) => ret [Some (PointerAttr addr type)]
  | None => ret [input]
  end.

Definition VariantBitcastOp_interpret (type : Ty) (variant : option Attr) : Interp (list Attr) :=
  interpretOpWithFolder (foldPointerCast type variant).
Definition VariantBitcastOp_parametric_interpret (type : Ty) (variant : option Attr)
    : Interp (list Attr) :=
  match asPointer variant with
  | Some (addr, _) =>
      if isPointerType (getReboundType type) then mapResults (PointerAttr addr (getReboundType type))
      else crash
  | None => fail "non-const input"
  end.

Definition UnionBitcastOp_interpret (type : Ty) (value : option Attr) : Interp (list Attr) :=
  interpretOpWithFolder (foldPointerCast type value).
Definition UnionBitcastOp_parametric_interpret (type : Ty) (value : option Attr) : Interp (list Attr) :=
  match asPointer value with
  | Some (addr, _) => mapResults (PointerAttr addr (getReboundType type))
  | None => fail "non-const input"
  end.

(** ** VariantDiscrGEPOp *)

Definition discrOffset (variantPtrType : Ty) : option (ErrorOr Z) :=
  match target with
  | None => Some (Error "requires a target model")
  | Some target =>
      match pointerElement variantPtrType with
      | Some (VariantType es) =>
          Some match getContentSize target (VariantType es) with
               | Some size => Success size
               | None => Error "failed to compute size"
               end
      | _ => None
      end
  end.
Definition VariantDiscrGEPOp_compile (variantPtrType : Ty) := discrOffset variantPtrType.
Definition VariantDiscrGEPOp_parametric_compile (variantPtrType : Ty) :=
  discrOffset (getReboundType variantPtrType).

Definition VariantDiscrGEPOp_interpret (type : Ty) (offset : Z) (variant : option Attr)
    : Interp (list Attr) :=
  '(addr, _) ← need "non-constant inputs" (asPointer variant);
  addr ← must (int64 (addr + offset));
  mapResults (PointerAttr addr type).
Definition VariantDiscrGEPOp_parametric_interpret (type : Ty) (offset : Z) (variant : option Attr)
    : Interp (list Attr) :=
  '(addr, _) ← need "non-constant inputs" (asPointer variant);
  addr ← must (int64 (addr + offset));
  mapResults (PointerAttr addr (getReboundType type)).

(** ** Arrays *)

(** All operands, as attributes that are there. *)
Definition allPresent (operands : list (option Attr)) : option (list Attr) := mapM id operands.

Definition ArrayCreateOp_fold (type : Ty) (operands : list (option Attr)) : option Attr :=
  values ← allPresent operands; Some (ArrayAttr values type).
Definition ArrayCreateOp_interpret (type : Ty) (operands : list (option Attr)) : Interp (list Attr) :=
  interpretOpWithFolder (ArrayCreateOp_fold type operands).
(** Without all operands the result is [{}], a success that maps nothing. *)
Definition ArrayCreateOp_parametric_interpret (type : Ty) (operands : list (option Attr))
    : Interp (list Attr) :=
  match allPresent operands with
  | None => done_
  | Some values =>
      if isArrayType (getReboundType type)
      then mapResults (ArrayAttr values (getReboundType type)) else crash
  end.

(** [while (values.size() < *size) values.append(args)]: without operands the
    loop does not end ([None]). *)
Fixpoint appendUntil (fuel : nat) (size : Z) (args values : list Attr) : option (list Attr) :=
  if Z.of_nat (List.length values) <? size then
    match fuel with O => None | S fuel => appendUntil fuel size args (app values args) end
  else Some values.

(** The outer [None] is the loop without end or the failed assertion. *)
Definition foldInterpretArrayRepeatOp (operands : list (option Attr)) (type : Ty)
    : option (option Attr) :=
  match type with
  | ArrayType _ None => Some None
  | ArrayType _ (Some size) =>
      if size <? 0 then None else
      match allPresent operands with
      | None => Some None
      | Some args =>
          values ← appendUntil (Z.to_nat size) size args [];
          Some (Some (ArrayAttr (take (Z.to_nat size) values) type))
      end
  | _ => None
  end.
Definition ArrayRepeatOp_interpret (type : Ty) (operands : list (option Attr)) : Interp (list Attr) :=
  r ← must (foldInterpretArrayRepeatOp operands type); interpretOpWithFolder r.
Definition ArrayRepeatOp_parametric_interpret (type : Ty) (operands : list (option Attr))
    : Interp (list Attr) :=
  r ← must (foldInterpretArrayRepeatOp operands (getReboundType type));
  match r with Some attr => mapResults attr | None => fail "cannot interpret pop.array.repeat" end.

(** [values[i]]: out of range is undefined. *)
Definition elementAt {A} (l : list A) (i : Z) : option A :=
  if i <? 0 then None else l !! Z.to_nat i.

(** The part of the folder of [ArrayGetOp] that constants decide: the value of
    the constant operation that defines the array, if one does, and the array
    as an attribute. *)
Definition ArrayGetOp_foldConstant (arrayType type : Ty) (definingConstant : option Attr) (index : Attr)
    (array : option Attr) : option (option Attr) :=
  match definingConstant with
  | Some (UninitMemAttr _) => Some (Some (UninitMemAttr type))
  | Some (UnknownAttr _) => Some (Some (UnknownAttr type))
  | _ =>
      match pair (asInteger (Some index)) (mjoin (arraySize arrayType)) with
      | None => Some None
      | Some (idx, size) =>
          if (idx <? 0) || (size <=? idx) then Some None else
          match asArray array with
          | None => Some None
          | Some values => v ← elementAt values idx; Some (Some v)
          end
      end
  end.
Definition ArrayGetOp_interpret (arrayType type : Ty) (definingConstant : option Attr) (index : Attr)
    (array : option Attr) : Interp (list Attr) :=
  r ← must (ArrayGetOp_foldConstant arrayType type definingConstant index array);
  interpretOpWithFolder r.
Definition ArrayGetOp_parametric_interpret (index : Attr) (array : option Attr) : Interp (list Attr) :=
  arr ← must array;
  size ← must (arraySize (typeOf arr));
  '(idx, size) ← need "non-constant inputs" (pair (asInteger (Some (getReboundAttribute index))) size);
  if (idx <? 0) || (size <=? idx) then fail "out-of-bound array get" else
  values ← need "non-constant inputs" (asArray (Some arr));
  v ← must (elementAt values idx);
  mapResults v.

(** [values[index] = value]. *)
Definition replaceAt {A} (l : list A) (i : Z) (v : A) : option (list A) :=
  _ ← elementAt l i; Some (<[Z.to_nat i := v]> l).

(** The folder: [Some None] does not fold. *)
Definition ArrayReplaceOp_fold (type : Ty) (index : Attr) (value array : option Attr)
    : option (option Attr) :=
  match pair value (pair (asArray array) (asInteger (Some index))) with
  | None => Some None
  | Some (value, (values, index)) =>
      values ← replaceAt values index value; Some (Some (ArrayAttr values type))
  end.
Definition ArrayReplaceOp_interpret (type : Ty) (index : Attr) (value array : option Attr)
    : Interp (list Attr) :=
  r ← must (ArrayReplaceOp_fold type index value array); interpretOpWithFolder r.
Definition ArrayReplaceOp_parametric_interpret (type : Ty) (index : Attr) (value array : option Attr)
    : Interp (list Attr) :=
  '(value, (values, index)) ← need "non-constant inputs"
     (pair value (pair (asArray array) (asInteger (Some (getReboundAttribute index)))));
  values ← must (replaceAt values index value);
  if isArrayType (getReboundType type)
  then mapResults (ArrayAttr values (getReboundType type)) else crash.

(** ** Compiler globals *)

Definition CompilerGlobalLoadOp_interpret (name : string) (type : Ty) : Interp (list Attr) := fun s =>
  match getNamedGlobal name s with
  | None => fail "cannot evaluate standalone capturing closure at compile time" s
  | Some value =>
      if isAttributeTypeCompatible value type then mapResults value s
      else fail ("internal error: compiler global '" ++ name ++ "' holds a value whose type does "
                 ++ "not match the type it is loaded as") s
  end.
(** The parametric run compares with the same type, not rebound. *)
Definition CompilerGlobalLoadOp_parametric_interpret (name : string) (type : Ty)
    : Interp (list Attr) := fun s =>
  match getNamedGlobal name s with
  | None => fail "cannot evaluate standalone capturing closure at compile time" s
  | Some value =>
      if isAttributeTypeCompatible value type then mapResults value s
      else fail ("internal error: compiler global '" ++ name ++ "' holds a value whose type does "
                 ++ "not match the type it is loaded as") s
  end.
Definition CompilerGlobalStoreOp_interpret (name : string) (value : option Attr) : Interp (list Attr) :=
  fun s => done_ (setNamedGlobal name value s).
Definition CompilerGlobalStoreOp_parametric_interpret (name : string) (value : option Attr)
    : Interp (list Attr) := fun s => done_ (setNamedGlobal name value s).

(** ** Constants in memory *)

(** The target is dereferenced without a test. *)
Definition interpretGlobalConstantOpHelper (input : Attr) (resultType : Ty) : Interp (list Attr) :=
  target ← must target;
  size ← need "cannot get pop.global_constant value size" (getTypeAllocSize target (typeOf input));
  align ← need "cannot get pop.global_constant value alignment" (getTypeABIAlign target (typeOf input));
  addr ← call (writeAttributeToConstantGlobalMemory input size align);
  mapResults (PointerAttr addr resultType).
Definition GlobalConstantOp_interpret (value : Attr) (type : Ty) : Interp (list Attr) :=
  interpretGlobalConstantOpHelper value type.
Definition GlobalConstantOp_parametric_interpret (value : Attr) (type : Ty) : Interp (list Attr) :=
  interpretGlobalConstantOpHelper (getReboundAttribute value) (getReboundType type).

(** The string with its terminator; the literal ["\0"] that replaces an empty
    string becomes a StringRef by its length, which is zero. *)
Definition nul : ascii := ascii_of_nat 0.
Definition cStringRef (literal : string) : string := before (Ascii.eqb nul) literal.
Definition mappedString (value : string) : string :=
  if String.eqb value "" then cStringRef (String nul "") else value ++ String nul "".

Definition StringAddressOp_interpret (type : Ty) (value : option Attr) : Interp (list Attr) :=
  value ← need "argument is not a concrete string" (asString value);
  addr ← call (mapConstGlobalMemory (mappedString value));
  mapResults (PointerAttr addr type).
Definition StringAddressOp_parametric_interpret (type : Ty) (value : option Attr) : Interp (list Attr) :=
  value ← need "argument is not a concrete string" (asString value);
  addr ← call (mapConstGlobalMemory (mappedString value));
  mapResults (PointerAttr addr (getReboundType type)).

(** ** GlobalAllocOp *)

Record GlobalPayload := { globalSize : Z; globalAlign : Z; globalSpace : Z }.

(** The layout queries are dereferenced without a test; the types are rebound
    or not. [getAddrSpaceOrZero]. *)
Definition globalPayload (type : Ty) (count alignment : option Attr) : option (ErrorOr GlobalPayload) :=
  match target with
  | None => Some (Error "global alloc requires a target")
  | Some target =>
      match asInteger count with
      | None => Some (Error "count is not concrete")
      | Some count =>
          elem ← pointerElement type;
          space ← addressSpaceOf type;
          elSize ← getTypeAllocSize target elem;
          size ← int64 (count * elSize);
          align ← match asInteger alignment with Some a => Some a | None => getTypeABIAlign target elem end;
          Some (Success {| globalSize := size; globalAlign := align; globalSpace := space |})
      end
  end.
Definition GlobalAllocOp_compile (type : Ty) (count : Attr) (alignment : option Attr) :=
  globalPayload type (Some count) alignment.
Definition GlobalAllocOp_parametric_compile (type : Ty) (count : Attr) (alignment : option Attr) :=
  globalPayload (getReboundType type) (Some (getReboundAttribute count)) (getReboundAttribute <$> alignment).

Definition initialize (addr : Z) (initializer : option Attr) : Interp unit :=
  match initializer with
  | Some init => call (writeAttributeToMemory addr init)
  | None => ret tt
  end.
Definition GlobalAllocOp_interpret (type : Ty) (initializer : option Attr) (payload : GlobalPayload)
    : Interp (list Attr) :=
  addr ← call (allocatePersistentMemory (globalSize payload) (globalAlign payload) (globalSpace payload));
  _ ← initialize addr initializer;
  mapResults (PointerAttr addr type).
Definition GlobalAllocOp_parametric_interpret (type : Ty) (initializer : option Attr)
    (payload : GlobalPayload) : Interp (list Attr) :=
  addr ← call (allocatePersistentMemory (globalSize payload) (globalAlign payload) (globalSpace payload));
  _ ← initialize addr (getReboundAttribute <$> initializer);
  mapResults (PointerAttr addr (getReboundType type)).

(** ** Unions *)

Definition UnionWrapOp_foldConstant (type : Ty) (value : option Attr) : option Attr :=
  attr ← value; Some (UnionAttr attr type).
Definition UnionWrapOp_interpret (type : Ty) (value : option Attr) : Interp (list Attr) :=
  interpretOpWithFolder (UnionWrapOp_foldConstant type value).
Definition UnionUnwrapOp_foldConstant (type : Ty) (value : option Attr) : option Attr :=
  match value with
  | Some (UnionAttr v _) => if bool_decide (typeOf v = type) then Some v else None
  | _ => None
  end.
Definition UnionUnwrapOp_interpret (type : Ty) (value : option Attr) : Interp (list Attr) :=
  interpretOpWithFolder (UnionUnwrapOp_foldConstant type value).
Definition UnionWrapOp_parametric_interpret (type : Ty) (value : option Attr) : Interp (list Attr) :=
  match value with
  | Some attr => mapResults (UnionAttr attr type)
  | None => fail "non-const input"
  end.
Definition UnionUnwrapOp_parametric_interpret (type : Ty) (value : option Attr) : Interp (list Attr) :=
  match value with
  | Some (UnionAttr v _) =>
      if bool_decide (typeOf v = getReboundType type) then mapResults v else fail "non-const input"
  | _ => fail "non-const input"
  end.

(** ** ExternalCallOp *)

(** [platform]: is this the Windows build of the compiler? *)
Variable isWin32 : bool.

Definition interpretMalloc (operands : list (option Attr)) (resultTypes : list Ty) : Interp (list Attr) :=
  match operands, resultTypes with
  | [operand], [type] =>
      match getScalarIndexValue operand with
      | Error _ => fail "Unable to interpret call to 'malloc', could not interpret size."
      | Success size => interpretAllocation size 0 type
      end
  | _, _ => fail "unable to interpret call to 'malloc', expected 1 operand and 1 result"
  end.

Definition interpretFree (operands : list (option Attr)) (resultTypes : list Ty) : Interp (list Attr) :=
  match operands, resultTypes with
  | [operand], [] => '(addr, _) ← must (asPointer operand); _ ← call (freeHeapMemory addr); done_
  | _, _ => fail "unable to interpret call to 'free', expected 1 operand and 0 results"
  end.

(** [static_cast<int>] and the conversions to [unsigned] and [size_t]. *)
Definition toInt (x : Z) : Z := (x + 2 ^ 31) mod 2 ^ 32 - 2 ^ 31.
Definition writeSize (nbytes : Z) : Z :=
  let size := toInt nbytes in if isWin32 then size mod 2 ^ 32 else size mod 2 ^ 64.

Definition writeResult (type : Ty) (numWritten : Z) : Attr :=
  if isSIMDType type then SIMDAttr [numWritten] type else IntegerAttr numWritten type.

(** The test of the memory is for the size of a pointer. *)
Definition interpreterWrite (operands : list (option Attr)) (resultTypes : list Ty) : Interp (list Attr) :=
  match operands, resultTypes with
  | [fd; buffer; nbytes], [resultType] =>
      if negb (isIntOrIndex resultType) && negb (isSIMDType resultType)
      then fail "unable to interpret call to 'write', expected integer result type" else
      match getScalarIndexValue fd with
      | Error _ => fail "unable to interpret call to 'write', expected integer typed first operand"
      | Success fd =>
          '(addr, _) ← must (asPointer buffer);
          match getScalarIndexValue nbytes with
          | Error _ => fail "unable to interpret call to 'write', expected integer typed third operand"
          | Success nbytes =>
              target ← must target;
              mem ← query (getReadableMemory addr (getPointerSize target));
              numWritten ← (fun s => let '(n, s) := hostWrite (toInt fd) mem (writeSize nbytes) s in
                                     Some (Success (toInt n), s));
              mapResults (writeResult resultType numWritten)
          end
      end
  | _, _ => fail "unable to interpret call to 'write', expected 3 operands and 1 results"
  end.

(** [op.getResultTypes().front()]. *)
Definition interpretGetStackTrace (resultTypes : list Ty) : Interp (list Attr) :=
  type ← must (head resultTypes); mapResults (IntegerAttr 0 type).

(** A parameter pack is expanded; [dyn_cast] of a null operand fails. *)
Fixpoint expandOperands (operands : list (option Attr)) : option (list (option Attr)) :=
  match operands with
  | [] => Some []
  | None :: _ => None
  | Some a :: operands =>
      rest ← expandOperands operands;
      Some match a with
           | StructAttr values (StructType _ true) => app (map Some values) rest
           | _ => Some a :: rest
           end
  end.

Definition dispatchCall (callee : string) (operands : list (option Attr)) (resultTypes : list Ty)
    : Interp (list Attr) :=
  if String.eqb callee "malloc" then interpretMalloc operands resultTypes
  else if String.eqb callee "free" then interpretFree operands resultTypes
  else if String.eqb callee "write" then interpreterWrite operands resultTypes
  else if String.eqb callee "KGEN_CompilerRT_GetStackTrace" then interpretGetStackTrace resultTypes
  else fail ("unable to interpret call to unknown external function: " ++ callee).

Definition ExternalCallOp_interpret (callee : string) (resultTypes : list Ty)
    (operands : list (option Attr)) : Interp (list Attr) :=
  expanded ← must (expandOperands operands); dispatchCall callee expanded resultTypes.
(** The callee is an attribute, to be rebound; the result types are not. *)
Definition ExternalCallOp_parametric_interpret (func : Attr) (resultTypes : list Ty)
    (operands : list (option Attr)) : Interp (list Attr) :=
  expanded ← must (expandOperands operands);
  callee ← must (asString (Some (getReboundAttribute func)));
  dispatchCall callee expanded resultTypes.

End Interp.
End POPInterp.
