(* ===== verification/POPRun.v ===== *)
(** The two ways the interpreter runs the operations of POPInterp.v, as
    interpreters of blocks: on elaborated code, and on generic code under
    bindings of its parameters; and where they agree. *)
From S2P Require Import Prelude StringRef POPAttrs POPInterp.

Module POPRun.
Import POPAttrs POPInterp.

(** An operation with what it carries beside its operands: types, counts,
    alignments, names. *)
Inductive Operation :=
  | LoadOp (type : Ty)
  | StoreOp
  | OffsetOp
  | StackAllocationOp (type : Ty) (count : Attr) (alignment : option Attr)
  | StackAllocLifetimeStartOp
  | StackAllocLifetimeEndOp
  | AlignedAllocOp (type : Ty)
  | AlignedFreeOp
  | ArrayGEPOp (arrayPtrType : Ty)
  | PointerToIndexOp
  | PointerBitcastOp (type : Ty)
  | VariantBitcastOp (type : Ty)
  | UnionBitcastOp (type : Ty)
  | VariantDiscrGEPOp (type variantPtrType : Ty)
  | ArrayCreateOp (type : Ty)
  | ArrayRepeatOp (type : Ty)
  | ArrayGetOp (arrayType type : Ty) (definingConstant : option Attr) (index : Attr)
  | ArrayReplaceOp (type : Ty) (index : Attr)
  | CompilerGlobalLoadOp (name : string) (type : Ty)
  | CompilerGlobalStoreOp (name : string)
  | GlobalConstantOp (value : Attr) (type : Ty)
  | StringAddressOp (type : Ty)
  | GlobalAllocOp (type : Ty) (count : Attr) (alignment initializer : option Attr)
  | UnionWrapOp (type : Ty)
  | UnionUnwrapOp (type : Ty)
  | ExternalCallOp (func : Attr) (resultTypes : list Ty).

Section Run.
Context {DL : DataLayoutInterface} {IS : InterpreterState}.
Variable target : option TargetInfo.
Variable getScalarIndexValue : option Attr → ErrorOr Z.
Variable isAttributeTypeCompatible : Attr → Ty → bool.
Variable interpretOpWithFolder : option Attr → Interp (list Attr).
Variable isWin32 : bool.

(** An operation's values, those handed on included. *)
Definition results (m : Interp (list Attr)) : Interp (list (option Attr)) := l ← m; ret (map Some l).

(** [compile] runs first and its payload goes to [interpret]. *)
Definition withPayload {P} (compiled : option (ErrorOr P)) (run : P → Interp (list Attr))
    : Interp (list Attr) :=
  p ← must compiled;
  match p with Success p => run p | Error msg => fail msg end.

(** Operands by position; an operation is verified to have them. *)
Definition one {A} (ops : list (option Attr)) (f : option Attr → Interp A) : Interp A :=
  match ops with [a] => f a | _ => crash end.
Definition two {A} (ops : list (option Attr)) (f : option Attr → option Attr → Interp A) : Interp A :=
  match ops with [a; b] => f a b | _ => crash end.

Definition interpret (op : Operation) (ops : list (option Attr)) : Interp (list (option Attr)) :=
  let folder := interpretOpWithFolder in
  match op with
  | LoadOp t => results (one ops (LoadOp_interpret t))
  | StoreOp => results (two ops StoreOp_interpret)
  | OffsetOp => results (two ops (OffsetOp_interpret target))
  | StackAllocationOp t count al => results
      (withPayload (StackAllocationOp_compile target t count al) (StackAllocationOp_interpret target t))
  | StackAllocLifetimeStartOp => results StackAllocLifetimeStartOp_interpret
  | StackAllocLifetimeEndOp => results StackAllocLifetimeEndOp_interpret
  | AlignedAllocOp t => results (two ops (AlignedAllocOp_interpret getScalarIndexValue t))
  | AlignedFreeOp => results (one ops AlignedFreeOp_interpret)
  | ArrayGEPOp t => results (two ops (ArrayGEPOp_interpret target t))
  | PointerToIndexOp => results (one ops (PointerToIndexOp_interpret folder))
  | PointerBitcastOp t => results (one ops (PointerBitcastOp_interpret folder t))
  | VariantBitcastOp t => results (one ops (VariantBitcastOp_interpret folder t))
  | UnionBitcastOp t => results (one ops (UnionBitcastOp_interpret folder t))
  | VariantDiscrGEPOp t v => results
      (withPayload (VariantDiscrGEPOp_compile target v)
         (fun off => one ops (VariantDiscrGEPOp_interpret t off)))
  | ArrayCreateOp t => results (ArrayCreateOp_interpret folder t ops)
  | ArrayRepeatOp t => results (ArrayRepeatOp_interpret folder t ops)
  | ArrayGetOp at_ t c i => results (one ops (ArrayGetOp_interpret folder at_ t c i))
  | ArrayReplaceOp t i => results (two ops (ArrayReplaceOp_interpret folder t i))
  | CompilerGlobalLoadOp n t => results (CompilerGlobalLoadOp_interpret isAttributeTypeCompatible n t)
  | CompilerGlobalStoreOp n => results (one ops (CompilerGlobalStoreOp_interpret n))
  | GlobalConstantOp v t => results (GlobalConstantOp_interpret target v t)
  | StringAddressOp t => results (one ops (StringAddressOp_interpret t))
  | GlobalAllocOp t count al init => results
      (withPayload (GlobalAllocOp_compile target t count al) (GlobalAllocOp_interpret t init))
  | UnionWrapOp t => results (one ops (UnionWrapOp_interpret folder t))
  | UnionUnwrapOp t => results (one ops (UnionUnwrapOp_interpret folder t))
  | ExternalCallOp f ts => results
      (callee ← must (asString (Some f));
       ExternalCallOp_interpret target getScalarIndexValue isWin32 callee ts ops)
  end.

(** The bindings of a parametric state. *)
Variable getReboundType : Ty → Ty.
Variable getReboundAttribute : Attr → Attr.

Definition parametric_interpret (op : Operation) (ops : list (option Attr))
    : Interp (list (option Attr)) :=
  let rt := getReboundType in
  let ra := getReboundAttribute in
  match op with
  | LoadOp t => results (one ops (LoadOp_parametric_interpret rt t))
  | StoreOp => results (two ops StoreOp_parametric_interpret)
  | OffsetOp => results (two ops (OffsetOp_parametric_interpret target rt))
  | StackAllocationOp t count al => results
      (withPayload (StackAllocationOp_parametric_compile target rt ra t count al)
         (StackAllocationOp_parametric_interpret target rt t))
  | StackAllocLifetimeStartOp => results StackAllocLifetimeStartOp_interpret
  | StackAllocLifetimeEndOp => results StackAllocLifetimeEndOp_interpret
  | AlignedAllocOp t => results (two ops (AlignedAllocOp_parametric_interpret rt getScalarIndexValue t))
  | AlignedFreeOp => results (one ops AlignedFreeOp_parametric_interpret)
  | ArrayGEPOp t => results (two ops (ArrayGEPOp_parametric_interpret target))
  | PointerToIndexOp => results (one ops PointerToIndexOp_parametric_interpret)
  | PointerBitcastOp t => one ops (PointerBitcastOp_parametric_interpret rt t)
  | VariantBitcastOp t => results (one ops (VariantBitcastOp_parametric_interpret rt t))
  | UnionBitcastOp t => results (one ops (UnionBitcastOp_parametric_interpret rt t))
  | VariantDiscrGEPOp t v => results
      (withPayload (VariantDiscrGEPOp_parametric_compile target rt v)
         (fun off => one ops (VariantDiscrGEPOp_parametric_interpret rt t off)))
  | ArrayCreateOp t => results (ArrayCreateOp_parametric_interpret rt t ops)
  | ArrayRepeatOp t => results (ArrayRepeatOp_parametric_interpret rt t ops)
  | ArrayGetOp _ _ _ i => results (one ops (ArrayGetOp_parametric_interpret ra i))
  | ArrayReplaceOp t i => results (two ops (ArrayReplaceOp_parametric_interpret rt ra t i))
  | CompilerGlobalLoadOp n t => results
      (CompilerGlobalLoadOp_parametric_interpret isAttributeTypeCompatible n t)
  | CompilerGlobalStoreOp n => results (one ops (CompilerGlobalStoreOp_parametric_interpret n))
  | GlobalConstantOp v t => results (GlobalConstantOp_parametric_interpret target rt ra v t)
  | StringAddressOp t => results (one ops (StringAddressOp_parametric_interpret rt t))
  | GlobalAllocOp t count al init => results
      (withPayload (GlobalAllocOp_parametric_compile target rt ra t count al)
         (GlobalAllocOp_parametric_interpret rt ra t init))
  | UnionWrapOp t => results (one ops (UnionWrapOp_parametric_interpret t))
  | UnionUnwrapOp t => results (one ops (UnionUnwrapOp_parametric_interpret rt t))
  | ExternalCallOp f ts => results
      (ExternalCallOp_parametric_interpret target ra getScalarIndexValue isWin32 f ts ops)
  end.

(** ** Blocks *)

(** An operation in a block: the values it defines and uses. *)
Record Instruction := { defines : list nat; op : Operation; uses : list nat }.

(** The values known so far; a value without an attribute is not constant. *)
Definition Values := gmap nat Attr.

Definition define (ids : list nat) (rs : list (option Attr)) (vs : Values) : Values :=
  foldl (fun vs '(i, r) => match r with Some a => <[i := a]> vs | None => delete i vs end) vs
    (zip ids rs).

Fixpoint runBlock (run : Operation → list (option Attr) → Interp (list (option Attr)))
    (block : list Instruction) (vs : Values) : Interp Values :=
  match block with
  | [] => ret vs
  | i :: block =>
      rs ← run (op i) (map (fun v => vs !! v) (uses i));
      runBlock run block (define (defines i) rs vs)
  end.

(** ** Generic code and its elaboration *)

(** The operation with the parameters substituted: what [interpret] is given
    after elaboration. *)
Definition elaborate (op : Operation) : Operation :=
  let rt := getReboundType in
  let ra := getReboundAttribute in
  match op with
  | LoadOp t => LoadOp (rt t)
  | StackAllocationOp t count al => StackAllocationOp (rt t) (ra count) (ra <$> al)
  | AlignedAllocOp t => AlignedAllocOp (rt t)
  | ArrayGEPOp t => ArrayGEPOp (rt t)
  | PointerBitcastOp t => PointerBitcastOp (rt t)
  | VariantBitcastOp t => VariantBitcastOp (rt t)
  | UnionBitcastOp t => UnionBitcastOp (rt t)
  | VariantDiscrGEPOp t v => VariantDiscrGEPOp (rt t) (rt v)
  | ArrayCreateOp t => ArrayCreateOp (rt t)
  | ArrayRepeatOp t => ArrayRepeatOp (rt t)
  | ArrayGetOp at_ t c i => ArrayGetOp (rt at_) (rt t) (ra <$> c) (ra i)
  | ArrayReplaceOp t i => ArrayReplaceOp (rt t) (ra i)
  | CompilerGlobalLoadOp n t => CompilerGlobalLoadOp n (rt t)
  | GlobalConstantOp v t => GlobalConstantOp (ra v) (rt t)
  | StringAddressOp t => StringAddressOp (rt t)
  | GlobalAllocOp t count al init => GlobalAllocOp (rt t) (ra count) (ra <$> al) (ra <$> init)
  | UnionWrapOp t => UnionWrapOp (rt t)
  | UnionUnwrapOp t => UnionUnwrapOp (rt t)
  | ExternalCallOp f ts => ExternalCallOp (ra f) (map rt ts)
  | op => op
  end.

(** What the agreement needs of an operation and its operands: attributes have
    the types of the values they are for, without parameters; the result of a
    cast or an array operation has its kind of type; and the types that
    [parametric_interpret] does not rebind have no parameters. *)
Definition agreeable (op : Operation) (ops : list (option Attr)) : Prop :=
  let rt := getReboundType in
  match op, ops with
  | OffsetOp, [Some p; _] => rt (typeOf p) = typeOf p
  | ArrayGEPOp t, [Some p; _] => typeOf p = rt t
  | ArrayGetOp at_ _ c i, [Some a] =>
      typeOf a = rt at_ ∧ isArrayType (rt at_) = true ∧
      isUninit (getReboundAttribute <$> c) = false ∧
      (∀ t, getReboundAttribute <$> c ≠ Some (UnknownAttr t))
  | ArrayGetOp _ _ _ _, _ => False
  | (ArrayCreateOp t | ArrayReplaceOp t _), _ => isArrayType (rt t) = true
  | VariantBitcastOp t, _ => isPointerType (rt t) = true
  | (CompilerGlobalLoadOp _ t | UnionWrapOp t), _ => rt t = t
  | ExternalCallOp _ ts, _ => map rt ts = ts
  | _, _ => True
  end.

(** The conditions along the run of the elaborated block. *)
Fixpoint agreeableRun (block : list Instruction) (vs : Values) (s : St) : Prop :=
  match block with
  | [] => True
  | i :: block =>
      let ops := map (fun v => vs !! v) (uses i) in
      agreeable (op i) ops ∧
      ∀ rs s', interpret (elaborate (op i)) ops s = Some (Success rs, s') →
        agreeableRun block (define (defines i) rs vs) s'
  end.

Definition elaborateBlock (block : list Instruction) : list Instruction :=
  map (fun i => {| defines := defines i; op := elaborate (op i); uses := uses i |}) block.

(** [interpretOpWithFolder] hands on what the folder returns. *)
Hypothesis folder_folds : ∀ a s, interpretOpWithFolder (Some a) s = Some (Success [a], s).
Hypothesis folder_fails : ∀ s r s', interpretOpWithFolder None s ≠ Some (Success r, s').

Lemma bind_success {A B} (m : Interp A) (f : A → Interp B) s r s' :
  mbind f m s = Some (Success r, s') ↔
  ∃ a s1, m s = Some (Success a, s1) ∧ f a s1 = Some (Success r, s').
Proof.
  unfold mbind, Interp_bind. destruct (m s) as [[[a|msg] s1]|]; split; try done.
  - eauto.
  - intros (? & ? & [= -> ->] & ?). done.
  - intros (? & ? & [=] & _).
  - intros (? & ? & [=] & _).
Qed.

Lemma results_success m s r s' : results m s = Some (Success r, s') ↔
  ∃ l, m s = Some (Success l, s') ∧ r = map Some l.
Proof.
  unfold results. rewrite bind_success. split.
  - intros (l & s1 & Hm & [= <- <-]). eauto.
  - intros (l & Hm & ->). exists l, s'. done.
Qed.

Lemma folded r s l s' : interpretOpWithFolder r s = Some (Success l, s') →
  ∃ a, r = Some a ∧ l = [a] ∧ s' = s.
Proof.
  destruct r as [a|]; [rewrite folder_folds; intros [= <- <-]; eauto|].
  intros H. by apply folder_fails in H.
Qed.

(** The operations whose two runs differ in more than the types. *)
Lemma OffsetOp_agrees ptr offset s :
  (∀ p, ptr = Some p → getReboundType (typeOf p) = typeOf p) →
  OffsetOp_parametric_interpret target getReboundType ptr offset s
  = OffsetOp_interpret target ptr offset s.
Proof.
  intros Hp. unfold OffsetOp_parametric_interpret, OffsetOp_interpret. cbv [mbind Interp_bind need ret].
  destruct target as [tg|]; [|done]. destruct ptr as [[]|]; simpl; try done.
  specialize (Hp _ eq_refl). simpl in Hp. destruct (asInteger offset); simpl; [|done]. by rewrite Hp.
Qed.

Lemma ArrayGEPOp_agrees t ptr index s :
  (∀ p, ptr = Some p → typeOf p = t) →
  ArrayGEPOp_parametric_interpret target ptr index s = ArrayGEPOp_interpret target t ptr index s.
Proof.
  intros Hp. unfold ArrayGEPOp_parametric_interpret, ArrayGEPOp_interpret.
  cbv [mbind Interp_bind need ret]. destruct target as [tg|]; [|done].
  destruct ptr as [[]|]; simpl; try done. specialize (Hp _ eq_refl). simpl in Hp.
  destruct (asInteger index); simpl; [|done]. by rewrite Hp.
Qed.

Lemma ArrayGetOp_agrees at_ t c i a s l s' :
  typeOf a = at_ → isArrayType at_ = true → isUninit c = false → (∀ t, c ≠ Some (UnknownAttr t)) →
  ArrayGetOp_interpret interpretOpWithFolder at_ t c (getReboundAttribute i) (Some a) s
    = Some (Success l, s') →
  ArrayGetOp_parametric_interpret getReboundAttribute i (Some a) s = Some (Success l, s').
Proof.
  intros Ha Hat Hu Hk. unfold ArrayGetOp_interpret, ArrayGetOp_parametric_interpret.
  intros (r & s1 & Hr & Hf)%bind_success. cbv [must] in Hr.
  destruct (ArrayGetOp_foldConstant _ _ _ _ _) as [r0|] eqn:E; [|done]. injection Hr as -> ->.
  apply folded in Hf as (v & -> & -> & ->). cbv [mbind Interp_bind must need ret]. rewrite Ha.
  unfold ArrayGetOp_foldConstant in E. destruct at_ as [|e n| | | | | | | |]; try done.
  assert (match pair (asInteger (Some (getReboundAttribute i))) n with
          | None => Some None
          | Some (idx, n) =>
              if (idx <? 0) || (n <=? idx) then Some None else
              match asArray (Some a) with
              | None => Some None
              | Some values => v ← elementAt values idx; Some (Some v)
              end
          end = Some (Some v)) as E'.
  { destruct c as [c|]; [|done]. destruct c; try done. by destruct (Hk type). }
  clear E. simpl. destruct (pair _ _) as [[idx m]|]; [|done].
  destruct (_ || _); [done|]. destruct a; simpl in *; try done.
  destruct (elementAt values idx) as [v'|] eqn:Ev; simpl in *; [|done].
  by injection E' as ->.
Qed.

Lemma ArrayCreateOp_agrees t ops s l s' : isArrayType (getReboundType t) = true →
  ArrayCreateOp_interpret interpretOpWithFolder (getReboundType t) ops s = Some (Success l, s') →
  ArrayCreateOp_parametric_interpret getReboundType t ops s = Some (Success l, s').
Proof.
  intros Ht (v & Hf & -> & ->)%folded. unfold ArrayCreateOp_fold in Hf.
  unfold ArrayCreateOp_parametric_interpret. rewrite Ht.
  destruct (allPresent ops); simpl in Hf; by simplify_eq.
Qed.

Lemma ArrayRepeatOp_agrees t ops s l s' :
  ArrayRepeatOp_interpret interpretOpWithFolder (getReboundType t) ops s = Some (Success l, s') →
  ArrayRepeatOp_parametric_interpret getReboundType t ops s = Some (Success l, s').
Proof.
  unfold ArrayRepeatOp_interpret, ArrayRepeatOp_parametric_interpret.
  intros (r & s1 & Hr & (v & -> & -> & ->)%folded)%bind_success.
  apply bind_success. by exists (Some v), s1.
Qed.

Lemma ArrayReplaceOp_agrees t i value array s l s' : isArrayType (getReboundType t) = true →
  ArrayReplaceOp_interpret interpretOpWithFolder (getReboundType t) (getReboundAttribute i) value array s
    = Some (Success l, s') →
  ArrayReplaceOp_parametric_interpret getReboundType getReboundAttribute t i value array s
    = Some (Success l, s').
Proof.
  intros Ht (r & s1 & Hr & (v & -> & -> & ->)%folded)%bind_success.
  unfold ArrayReplaceOp_fold in Hr. unfold ArrayReplaceOp_parametric_interpret. rewrite Ht.
  cbv [mbind Interp_bind must need ret] in *.
  destruct (pair _ _) as [[w [vs j]]|]; simpl in *; [|by simplify_eq].
  destruct (replaceAt vs j w); simpl in *; by simplify_eq.
Qed.

Lemma AlignedAllocOp_agrees t al sz s l s' :
  AlignedAllocOp_interpret getScalarIndexValue (getReboundType t) al sz s = Some (Success l, s') →
  AlignedAllocOp_parametric_interpret getReboundType getScalarIndexValue t al sz s = Some (Success l, s').
Proof.
  unfold AlignedAllocOp_interpret, AlignedAllocOp_parametric_interpret.
  intros ([a n] & s1 & H & Hr)%bind_success. apply bind_success. exists (a, n), s1.
  split; [done|]. destruct (n <? 0); [done|exact Hr].
Qed.

(** The casts of pointers, by the folder and directly. *)
Lemma pointerCast_agrees t v s l s' : interpretOpWithFolder (foldPointerCast t v) s = Some (Success l, s') →
  ∃ addr ty, asPointer v = Some (addr, ty) ∧ l = [PointerAttr addr t] ∧ s' = s.
Proof.
  intros (a & Hf & -> & ->)%folded. unfold foldPointerCast in Hf.
  destruct (asPointer v) as [[addr ty]|]; simpl in Hf; simplify_eq. eauto.
Qed.

Lemma step_agrees o ops s rs s' : agreeable o ops →
  interpret (elaborate o) ops s = Some (Success rs, s') →
  parametric_interpret o ops s = Some (Success rs, s').
Proof.
  intros Hpre H.
  assert (∀ m m' : Interp (list Attr), results m s = Some (Success rs, s') →
    (∀ l, m s = Some (Success l, s') → m' s = Some (Success l, s')) →
    results m' s = Some (Success rs, s')) as Hmono.
  { intros m m' (l & Hm & ->)%results_success Himp. apply results_success. eauto. }
  assert (∀ A (f : option Attr → Interp A) a l, one ops f s = Some (Success a, l) →
    ∃ x, ops = [x] ∧ f x s = Some (Success a, l)) as Hone.
  { intros A f a l. unfold one. destruct ops as [|x [|]]; try done. eauto. }
  assert (∀ A (f : option Attr → option Attr → Interp A) a l, two ops f s = Some (Success a, l) →
    ∃ x y, ops = [x; y] ∧ f x y s = Some (Success a, l)) as Htwo.
  { intros A f a l. unfold two. destruct ops as [|x [|y [|]]]; try done. eauto. }
  destruct o; simpl in *; try exact H; try (eapply Hmono; [exact H|]; intros l Hl; clear H).
  - apply Htwo in Hl as (x & y & -> & Hl). simpl. rewrite OffsetOp_agrees; [done|].
    by intros p ->.
  - apply Htwo in Hl as (x & y & -> & Hl). simpl. eapply AlignedAllocOp_agrees, Hl.
  - apply Htwo in Hl as (x & y & -> & Hl). simpl.
    rewrite (ArrayGEPOp_agrees (getReboundType arrayPtrType)); [done|]. by intros p ->.
  - apply Hone in Hl as (x & -> & (a & Hf & -> & ->)%folded). simpl.
    unfold PointerToIndexOp_fold in Hf. unfold PointerToIndexOp_parametric_interpret.
    destruct (asPointer x) as [[addr ty]|]; simpl in Hf; by simplify_eq.
  - apply results_success in H as (l & Hl & ->). apply Hone in Hl as (x & -> & Hl).
    apply pointerCast_agrees in Hl as (addr & ty & Hx & -> & ->). simpl.
    unfold PointerBitcastOp_parametric_interpret. by rewrite Hx.
  - apply Hone in Hl as (x & -> & (addr & ty & Hx & -> & ->)%pointerCast_agrees). simpl.
    unfold VariantBitcastOp_parametric_interpret. by rewrite Hx, Hpre.
  - apply Hone in Hl as (x & -> & (addr & ty & Hx & -> & ->)%pointerCast_agrees). simpl.
    unfold UnionBitcastOp_parametric_interpret. by rewrite Hx.
  - by apply ArrayCreateOp_agrees.
  - by apply ArrayRepeatOp_agrees.
  - apply Hone in Hl as (x & -> & Hl). destruct x as [a|]; [|done]. simpl.
    destruct Hpre as (? & ? & ? & ?). by eapply ArrayGetOp_agrees.
  - apply Htwo in Hl as (x & y & -> & Hl). simpl. by apply ArrayReplaceOp_agrees.
  - by rewrite Hpre in Hl.
  - apply Hone in Hl as (x & -> & (a & Hf & -> & ->)%folded). simpl. rewrite Hpre in Hf.
    by destruct x; simplify_eq/=.
  - apply Hone in Hl as (x & -> & (a & Hf & -> & ->)%folded). simpl. unfold UnionUnwrapOp_foldConstant in Hf.
    destruct x as [[]|]; try done. simpl. case_bool_decide; by simplify_eq/=.
  - rewrite Hpre in Hl. unfold ExternalCallOp_interpret in Hl. unfold ExternalCallOp_parametric_interpret.
    apply bind_success in Hl as (c & s1 & Hc & (e & s2 & He & Hd)%bind_success).
    cbv [must ret crash] in Hc, He. destruct (getReboundAttribute func) eqn:Ef; try done.
    destruct (expandOperands ops) as [e'|] eqn:Ee; [|done]. simplify_eq.
    apply bind_success. exists e, s2. split; [done|]. apply bind_success. by exists c, s2.
Qed.

Lemma block_agrees block vs s r s' : agreeableRun block vs s →
  runBlock interpret (elaborateBlock block) vs s = Some (Success r, s') →
  runBlock parametric_interpret block vs s = Some (Success r, s').
Proof.
  revert vs s. induction block as [|i block IH]; intros vs s; [done|].
  cbn [runBlock elaborateBlock map agreeableRun defines op uses]. intros [Hpre Hrest].
  intros (rs & s1 & Hi & Hb)%bind_success. apply bind_success. exists rs, s1.
  split; [by apply step_agrees|]. apply IH; [by apply Hrest|exact Hb].
Qed.

End Run.
End POPRun.
