(* ===== verification/POPRunFacts.v ===== *)
(** Properties of the interpreter's operations (POPInterp.v, POPRun.v), with a
    concrete memory on which their witnesses compute. *)
From S2P Require Import Prelude StringRef POPAttrs POPInterp POPRun.

Module POPRunFacts.
Import POPAttrs POPInterp POPRun.

#[local] Notation length := List.length.
#[local] Notation concat := List.concat.

Section Facts.
Context {DL : DataLayoutInterface} {IS : InterpreterState}.


(** ** Arrays *)

Definition copies (k : nat) (args : list Attr) : list Attr := concat (replicate k args).

Lemma copies_length k args : length (copies k args) = (k * length args)%nat.
Proof. induction k as [|k IH]; simpl; [done|]. unfold copies in *. simpl. rewrite length_app. lia. Qed.

Lemma copies_snoc k args : app (copies k args) args = copies (S k) args.
Proof.
  unfold copies. induction k as [|k IH]; simpl; [by rewrite app_nil_r|]. rewrite <- app_assoc, IH. done.
Qed.

Lemma copies_lookup k args i : (0 < length args)%nat → (i < k * length args)%nat →
  copies k args !! i = args !! (i mod length args)%nat.
Proof.
  intros Hn. revert i. induction k as [|k IH]; intros i Hi; [lia|].
  unfold copies. simpl. destruct (decide (i < length args)%nat) as [Hl|Hl].
  - rewrite lookup_app_l by done. by rewrite Nat.mod_small.
  - rewrite lookup_app_r by lia. fold (copies k args). rewrite IH by lia.
    f_equal. replace i with (i - length args + 1 * length args)%nat at 2 by lia.
    rewrite Nat.Div0.mod_add. done.
Qed.

Lemma appendUntil_copies fuel size args k : (0 < length args)%nat →
  size ≤ Z.of_nat (fuel + k) →
  ∃ k', appendUntil fuel size args (copies k args) = Some (copies k' args) ∧
    size ≤ Z.of_nat (k' * length args).
Proof.
  intros Hn. revert k. induction fuel as [|fuel IH]; intros k Hf; simpl.
  - rewrite (proj2 (Z.ltb_ge _ _)) by (rewrite copies_length; nia).
    exists k. split; [done|]. nia.
  - rewrite copies_length. destruct (Z.ltb_spec (Z.of_nat (k * length args)) size) as [Hlt|Hge].
    + rewrite copies_snoc. apply IH. lia.
    + by exists k.
Qed.

Lemma appendUntil_empty fuel size : 0 < size → appendUntil fuel size [] [] = None.
Proof.
  intros H. induction fuel as [|fuel IH]; simpl; (rewrite (proj2 (Z.ltb_lt _ _)) by lia); done.
Qed.

Lemma allPresent_map (args : list Attr) : allPresent (map Some args) = Some args.
Proof.
  unfold allPresent. induction args as [|a args IH]; simpl; [done|]. by rewrite IH.
Qed.

(** What the array of a repeat holds. *)
Lemma repeat_values args elem size : 0 ≤ size → args ≠ [] → ∃ values,
  foldInterpretArrayRepeatOp (map Some args) (ArrayType elem (Some size))
    = Some (Some (ArrayAttr values (ArrayType elem (Some size)))) ∧
  Z.of_nat (length values) = size ∧
  ∀ i, 0 ≤ i < size → elementAt values i = elementAt args (i mod Z.of_nat (length args)).
Proof.
  intros Hs Hne. assert (0 < length args)%nat as Hn by (destruct args; [done|simpl; lia]).
  unfold foldInterpretArrayRepeatOp. rewrite (proj2 (Z.ltb_ge _ _)), allPresent_map by lia.
  destruct (appendUntil_copies (Z.to_nat size) size args 0 Hn ltac:(lia)) as (k & Hk & Hlen).
  change (copies 0 args) with ([] : list Attr) in Hk. rewrite Hk. simpl.
  exists (take (Z.to_nat size) (copies k args)). split; [done|].
  assert (Z.to_nat size ≤ k * length args)%nat by lia. split.
  - rewrite length_take, copies_length. lia.
  - intros i Hi. unfold elementAt.
    pose proof (Z.mod_pos_bound i (Z.of_nat (length args)) ltac:(lia)).
    rewrite !(proj2 (Z.ltb_ge _ _)) by lia.
    rewrite lookup_take_lt by lia. rewrite copies_lookup by lia. f_equal.
    rewrite Z2Nat.inj_mod, Nat2Z.id by lia. done.
Qed.

(** [pop.array.repeat] of n > 0 constants ends, fills an array of any size
    with exactly that many elements, and its element i is constant i mod n, the
    operand [pop.array.get] folds such an access to; of no constants it loops
    for ever unless the array is empty. *)
Theorem foldInterpretArrayRepeatOp_spec args elem size : 0 ≤ size →
  (args ≠ [] → ∃ values,
     foldInterpretArrayRepeatOp (map Some args) (ArrayType elem (Some size))
       = Some (Some (ArrayAttr values (ArrayType elem (Some size)))) ∧
     Z.of_nat (length values) = size ∧
     ∀ i, 0 ≤ i < size → elementAt values i = elementAt args (i mod Z.of_nat (length args))) ∧
  (0 < size → ∀ fuel, appendUntil fuel size [] [] = None).
Proof.
  intros Hs. split; [by apply repeat_values|]. intros Hp fuel. by apply appendUntil_empty.
Qed.

(** ** Stack allocations *)

Lemma stackPayload_target target type count alignment r :
  stackPayload target type count alignment = Some (Success r) → (r = None ↔ target = None).
Proof.
  unfold stackPayload. destruct (asInteger count) as [n|]; [|done].
  destruct target as [tg|]; [|destruct (negb _); [done|]; by intros [= <-]].
  split; [|done]. intros ->. revert H. repeat case_match; intros; simplify_eq.
Qed.

Lemma stackPayload_values tg type count alignment p :
  stackPayload (Some tg) type count alignment = Some (Success (Some p)) →
  ∃ n elem sz, asInteger count = Some n ∧ pointerElement type = Some elem ∧
    getTypeAllocSize tg elem = Some sz ∧ size p = n * sz ∧
    (∀ a t, alignment = Some (IntegerAttr a t) → 0 < a → align p = a) ∧
    ((alignment = None ∨ ∃ t, alignment = Some (IntegerAttr 0 t)) →
     getTypeABIAlign tg elem = Some (align p)).
Proof.
  unfold stackPayload. destruct (asInteger count) as [n|] eqn:Hc; [|done].
  destruct (pointerElement type) as [elem|]; [|done].
  destruct (getTypeAllocSize tg elem) as [sz|] eqn:Hsz; [|done].
  intros H. exists n, elem, sz. split_and!; try done.
  - repeat case_match; simplify_eq; simpl; by apply int64_Some.
  - intros a t -> Ha. rewrite (proj2 (Z.ltb_ge _ _)), (proj2 (Z.eqb_neq _ _)) in H by lia.
    case_match; simplify_eq. done.
  - intros Hal. assert (alignment = None ∨ ∃ t, alignment = Some (IntegerAttr 0 t)) as Hal' by done.
    destruct Hal' as [->|[t ->]]; simpl in H; repeat case_match; by simplify_eq.
Qed.

Lemma stackPayload_stuck target type count alignment :
  stackPayload target type (Some count) alignment = None →
  pointerElement type = None ∨
  (∃ a, alignment = Some a ∧ asInteger (Some a) = None) ∨
  ∃ tg n elem sz, target = Some tg ∧ asInteger (Some count) = Some n ∧
    pointerElement type = Some elem ∧ getTypeAllocSize tg elem = Some sz ∧
    ¬ - 2 ^ 63 ≤ n * sz < 2 ^ 63.
Proof.
  intros E. unfold stackPayload in E. destruct (asInteger (Some count)) as [n|] eqn:Hc; [|done].
  destruct target as [tg|]; [|by destruct (negb _)].
  destruct (pointerElement type) as [elem|] eqn:He; [|by left]. right.
  destruct (getTypeAllocSize tg elem) as [sz|] eqn:Hsz; [|done].
  destruct (match alignment with None => Some 0 | Some (IntegerAttr a _) => Some a | Some _ => None end)
    as [a|] eqn:Ha.
  2:{ left. destruct alignment as [x|]; [|done]. exists x. split; [done|]. by destruct x. }
  right. exists tg, n, elem, sz. split_and!; try done. destruct (a <? 0); [done|].
  destruct (if a =? 0 then _ else _); [|done]. destruct (int64 (n * sz)) eqn:Ei; [done|].
  intros Hin. by rewrite int64_in in Ei.
Qed.

(** a stack allocation that compiles and runs without error has a target
    and asks the memory for exactly the count times the allocation size of its
    type, at the alignment given or, when that is absent or zero, at the type's
    own; its result is a pointer to the address obtained. It gets stuck only on
    a malformed operation or when the size overflows 64 bits; in particular the
    payload that compilation leaves unset without a target is never read. *)
Theorem StackAllocationOp_run target type count alignment s :
  let run := withPayload (StackAllocationOp_compile target type count alignment)
               (StackAllocationOp_interpret target type) in
  (∀ l s', run s = Some (Success l, s') → ∃ tg n elem sz al addr,
     target = Some tg ∧ asInteger (Some count) = Some n ∧ pointerElement type = Some elem ∧
     getTypeAllocSize tg elem = Some sz ∧
     (∀ a t, alignment = Some (IntegerAttr a t) → 0 < a → al = a) ∧
     ((alignment = None ∨ ∃ t, alignment = Some (IntegerAttr 0 t)) → getTypeABIAlign tg elem = Some al) ∧
     allocateStackMemory (n * sz) al s = (Success addr, s') ∧ l = [PointerAttr addr type]) ∧
  (run s = None →
     pointerElement type = None ∨
     (∃ a, alignment = Some a ∧ asInteger (Some a) = None) ∨
     ∃ tg n elem sz, target = Some tg ∧ asInteger (Some count) = Some n ∧
       pointerElement type = Some elem ∧ getTypeAllocSize tg elem = Some sz ∧
       ¬ - 2 ^ 63 ≤ n * sz < 2 ^ 63).
Proof.
  cbv zeta. unfold withPayload, StackAllocationOp_compile, StackAllocationOp_interpret.
  destruct (stackPayload target type (Some count) alignment) as [[p|msg]|] eqn:E.
  - cbv [mbind Interp_bind must need ret fail call mapResults].
    pose proof (stackPayload_target _ _ _ _ _ E) as Hp. destruct target as [tg|]; [|done].
    destruct p as [p|]; [|by destruct Hp as [Hp _]; specialize (Hp eq_refl)].
    destruct (stackPayload_values _ _ _ _ _ E) as (n & elem & sz & ? & ? & ? & Hsz & ? & ?).
    rewrite Hsz. split; [|by destruct (allocateStackMemory (n * sz) (align p) s) as [[]]].
    intros l s' Hrun. exists tg, n, elem, sz, (align p).
    destruct (allocateStackMemory (n * sz) (align p) s) as [[addr|] s1]; [|done].
    injection Hrun as <- <-. by exists addr.
  - by split.
  - split; [done|]. intros _. by apply stackPayload_stuck.
Qed.

(** ** Where the runs differ *)

(** the interpreter refuses an aligned allocation of a negative size; the
    same operation in generic code, and a call of malloc, pass the negative
    size on to the memory. *)
Theorem negative_allocation getReboundType getScalarIndexValue type align sz a n s :
  getScalarIndexValue align = Success a → getScalarIndexValue sz = Success n → n < 0 →
  AlignedAllocOp_interpret getScalarIndexValue type align sz s
    = Some (Error "alloc has negative size", s) ∧
  AlignedAllocOp_parametric_interpret getReboundType getScalarIndexValue type align sz s
    = interpretAllocation n a (getReboundType type) s ∧
  interpretMalloc getScalarIndexValue [sz] [type] s = interpretAllocation n 0 type s.
Proof.
  intros Ha Hn Hneg. unfold AlignedAllocOp_interpret, AlignedAllocOp_parametric_interpret, interpretMalloc.
  rewrite Ha, Hn. cbv [mbind Interp_bind concreteInputs ret]. by rewrite (proj2 (Z.ltb_lt _ _)).
Qed.

(** the string of a literal is mapped with its terminator, except the empty
    one, which is mapped as no bytes at all. *)
Theorem mappedString_terminated v :
  (v ≠ "" → mappedString v = v ++ String nul "") ∧ mappedString "" = "".
Proof.
  split; [|done]. intros Hv. unfold mappedString. by destruct (String.eqb_spec v "").
Qed.

(** An operand of an array that is not constant: the generic run reports
    success and maps no result. *)
Lemma ArrayCreateOp_parametric_none getReboundType type ops s : None ∈ ops →
  ArrayCreateOp_parametric_interpret getReboundType type ops s = Some (Success [], s).
Proof.
  intros Hin. unfold ArrayCreateOp_parametric_interpret.
  assert (allPresent ops = None) as ->; [|done]. unfold allPresent.
  induction ops as [|[y|] l IH]; [by apply not_elem_of_nil in Hin| |done].
  apply elem_of_cons in Hin as [?|Hin]; [done|]. simpl. by rewrite IH.
Qed.

(** The generic union is wrapped in the type that still has parameters. *)
Lemma UnionWrapOp_unbound type v s :
  UnionWrapOp_parametric_interpret type (Some v) s = Some (Success [UnionAttr v type], s).
Proof. done. Qed.

End Facts.

(** ** A concrete memory *)

Record Mem := {
  blocks : list (Z * Z);         (* address and size *)
  nextAddr : Z;
  cells : gmap Z Attr;
  globals : gmap string Attr;
  written : list (Z * Z)         (* host pointer and size *)
}.

Definition allocate (sz al : Z) (m : Mem) : ErrorOr Z * Mem :=
  let addr := (nextAddr m + al - 1) / al * al in
  (Success addr, {| blocks := (addr, sz) :: blocks m; nextAddr := addr + Z.max sz 1;
                    cells := cells m; globals := globals m; written := written m |}).
Definition release (addr : Z) (m : Mem) : ErrorOr unit * Mem :=
  if existsb (fun b => b.1 =? addr) (blocks m) then
    (Success tt, {| blocks := List.filter (fun b => negb (b.1 =? addr)) (blocks m);
                    nextAddr := nextAddr m; cells := cells m; globals := globals m;
                    written := written m |})
  else (Error "not allocated", m).
(** A pointer in memory has no element type. *)
Definition untyped (a : Attr) : Attr :=
  match a with PointerAttr x (PointerType _ s) => PointerAttr x (PointerType (OtherType 0) s) | a => a end.
Definition retyped (a : Attr) (t : Ty) : option Attr :=
  match a, t with
  | PointerAttr x (PointerType _ s), PointerType e s' =>
      if s =? s' then Some (PointerAttr x (PointerType e s')) else None
  | ArrayAttr (v :: _) (ArrayType e _), t =>
      if bool_decide (typeOf a = t) then Some a else if bool_decide (e = t) then Some v else None
  | a, t => if bool_decide (typeOf a = t) then Some a else None
  end.
Definition setCell (addr : Z) (a : Attr) (m : Mem) : Mem :=
  {| blocks := blocks m; nextAddr := nextAddr m; cells := <[addr := untyped a]> (cells m);
     globals := globals m; written := written m |}.
Definition readCell (ptr : option Attr) (t : Ty) (m : Mem) : ErrorOr Attr :=
  match asPointer ptr with
  | Some (addr, _) =>
      match cells m !! addr with
      | Some a => match retyped a t with Some a => Success a | None => Error "wrong type" end
      | None => Error "nothing there"
      end
  | None => Error "not a pointer"
  end.
Definition constantGlobal (a : Attr) (sz al : Z) (m : Mem) : ErrorOr Z * Mem :=
  match allocate sz al m with
  | (Success addr, m) => (Success addr, setCell addr a m)
  | r => r
  end.
Definition setGlobal (n : string) (a : option Attr) (m : Mem) : Mem :=
  {| blocks := blocks m; nextAddr := nextAddr m; cells := cells m;
     globals := match a with Some a => <[n := a]> (globals m) | None => delete n (globals m) end;
     written := written m |}.
Definition readable (addr n : Z) (m : Mem) : ErrorOr Z :=
  if existsb (fun b => (b.1 <=? addr) && (addr + n <=? b.1 + b.2)) (blocks m)
  then Success (addr + 2 ^ 32) else Error "out of bounds".
Definition writeHost (fd p n : Z) (m : Mem) : Z * Mem :=
  (n, {| blocks := blocks m; nextAddr := nextAddr m; cells := cells m; globals := globals m;
         written := (p, n) :: written m |}).

#[local] Instance mem_state : InterpreterState := {|
  St := Mem;
  allocateStackMemory := allocate;
  allocateHeapMemory := allocate;
  allocatePersistentMemory sz al _ := allocate sz al;
  freeHeapMemory := release;
  readAttributeFromPointer := readCell;
  writeAttributeToMemory addr a m := (Success tt, setCell addr a m);
  writeAttributeToConstantGlobalMemory := constantGlobal;
  mapConstGlobalMemory s m := constantGlobal (StringAttr s) (Z.of_nat (String.length s)) 1 m;
  getNamedGlobal n m := globals m !! n;
  setNamedGlobal := setGlobal;
  getReadableMemory := readable;
  hostWrite := writeHost
|}.

(** A 64-bit target where integers take their bytes and pointers eight. *)
Definition sizeOf (t : Ty) : option Z :=
  match t with
  | PointerType _ _ | IndexType => Some 8
  | IntegerType w => Some (w / 8)
  | ArrayType (IntegerType w) (Some n) => Some (n * (w / 8))
  | _ => None
  end.
#[local] Instance mem_layout : DataLayoutInterface := {|
  TargetInfo := unit;
  getTypeAllocSize _ := sizeOf;
  getTypeABIAlign _ := sizeOf;
  getContentSize _ _ := Some 8;
  getPointerSize _ := 8
|}.

Definition scalarIndex (a : option Attr) : ErrorOr Z :=
  match a with Some (IntegerAttr v _) => Success v | _ => Error "not a constant index" end.
Definition folderRun (a : option Attr) : Interp (list Attr) :=
  match a with Some a => ret [a] | None => fail "failed to fold" end.
Definition emptyMem : Mem :=
  {| blocks := []; nextAddr := 64; cells := ∅; globals := ∅; written := [] |}.

(** Type 0 is a parameter, bound to a 32-bit integer. *)
Definition bindParameter (t : Ty) : Ty :=
  match t with
  | PointerType (OtherType 0) a => PointerType (IntegerType 32) a
  | OtherType 0 => IntegerType 32
  | t => t
  end.

(** Allocate two elements of the parameter's type, store to the second, load. *)
Definition demoBlock : list Instruction :=
  let t := OtherType 0 in
  [ {| defines := [2%nat]; op := StackAllocationOp (PointerType t 0) (IntegerAttr 2 IndexType) None;
       uses := [] |};
    {| defines := [3%nat]; op := OffsetOp; uses := [2; 1]%nat |};
    {| defines := []; op := StoreOp; uses := [0; 3]%nat |};
    {| defines := [4%nat]; op := LoadOp t; uses := [3%nat] |} ].
Definition demoValues : Values :=
  {[ 0%nat := IntegerAttr 7 (IntegerType 32); 1%nat := IntegerAttr 1 IndexType ]}.

Definition runs_to (r : option (ErrorOr Values * St)) (v : nat) (a : Attr) : Prop :=
  match r with Some (Success vs, _) => vs !! v = Some a | _ => False end.

Definition demoResult : option (ErrorOr Values * St) :=
  runBlock (interpret (Some tt) scalarIndex (fun _ _ => true) folderRun false)
    (elaborateBlock bindParameter id demoBlock) demoValues emptyMem.

Lemma demo_agreeable : agreeableRun (Some tt) scalarIndex (fun _ _ => true) folderRun false
  bindParameter id demoBlock demoValues emptyMem.
Proof.
  simpl. split; [done|]. intros rs s' H. vm_compute in H. injection H as <- <-.
  split; [by vm_compute|]. intros rs s' H. vm_compute in H. injection H as <- <-.
  split; [done|]. intros rs s' H. vm_compute in H. injection H as <- <-.
  split; [done|]. done.
Qed.


Lemma foldInterpretArrayRepeatOp_spec_witness : ∃ values,
  foldInterpretArrayRepeatOp (map Some [IntegerAttr 5 IndexType; IntegerAttr 6 IndexType])
    (ArrayType IndexType (Some 3)) = Some (Some (ArrayAttr values (ArrayType IndexType (Some 3)))) ∧
  Z.of_nat (length values) = 3 ∧
  elementAt values 2 = Some (IntegerAttr 5 IndexType).
Proof.
  destruct (proj1 (foldInterpretArrayRepeatOp_spec [IntegerAttr 5 IndexType; IntegerAttr 6 IndexType]
    IndexType 3 ltac:(done)) ltac:(done)) as (values & H1 & H2 & H3).
  exists values. split; [exact H1|]. split; [exact H2|]. by rewrite H3.
Defined.

Lemma negative_allocation_witness :
  AlignedAllocOp_interpret scalarIndex (PointerType IndexType 0) (Some (IntegerAttr 8 IndexType))
    (Some (IntegerAttr (-16) IndexType)) emptyMem = Some (Error "alloc has negative size", emptyMem).
Proof.
  apply (@negative_allocation mem_state id scalarIndex (PointerType IndexType 0)
    (Some (IntegerAttr 8 IndexType)) (Some (IntegerAttr (-16) IndexType)) 8 (-16) emptyMem); done.
Defined.

(** an interpreted call of write tests the memory for the size of a
    pointer, whatever the count: from a buffer of 8 bytes it hands the
    operating system any larger count, beyond the block; and it refuses to
    write the one byte of a one-byte buffer. *)
Theorem interpreterWrite_unchecked isWin32 n : 8 < n < 2 ^ 31 →
  let write sz n := ExternalCallOp_interpret (Some tt) scalarIndex isWin32 "write" [IntegerType 32]
    [Some (IntegerAttr 1 (IntegerType 32)); Some (PointerAttr 64 (PointerType (IntegerType 8) 0));
     Some (IntegerAttr n IndexType)]
    {| blocks := [(64, sz)]; nextAddr := 128; cells := ∅; globals := ∅; written := [] |} in
  (∃ r s, write 8 n = Some (r, s) ∧ written s = [(64 + 2 ^ 32, n)]) ∧
  (∃ s, write 1 1 = Some (Error "out of bounds", s) ∧ written s = []).
Proof.
  intros Hn. cbv zeta. split; [|eexists; split; [vm_compute; reflexivity|done]].
  assert (writeSize isWin32 n = n) as Hw.
  { unfold writeSize, toInt. rewrite (Z.mod_small (n + 2 ^ 31)) by lia.
    destruct isWin32; rewrite Z.mod_small by lia; lia. }
  unfold ExternalCallOp_interpret, expandOperands, dispatchCall, interpreterWrite.
  cbv [mbind option_bind Interp_bind must ret query]. simpl. rewrite Hw. eexists _, _. by split.
Qed.

Lemma interpreterWrite_unchecked_witness : ∃ s,
  ExternalCallOp_interpret (Some tt) scalarIndex true "write" [IntegerType 32]
    [Some (IntegerAttr 1 (IntegerType 32)); Some (PointerAttr 64 (PointerType (IntegerType 8) 0));
     Some (IntegerAttr 1 IndexType)]
    {| blocks := [(64, 1)]; nextAddr := 128; cells := ∅; globals := ∅; written := [] |}
  = Some (Error "out of bounds", s) ∧ written s = [].
Proof. apply (interpreterWrite_unchecked true 100). lia. Defined.

End POPRunFacts.
