(* ===== verification/POPMemFold.v ===== *)
(** The folders and canonicalizations of the memory, pointer, array, select and
    union operations of Mojo/lib/POPDialect/POPOpsFolders.cpp, on SSA values,
    and the meaning of the operations in the interpreter of POPInterp.v. *)
From S2P Require Import Prelude StringRef POPAttrs POPInterp.

Module POPMemFold.
Import POPAttrs POPInterp.

(** ** Operations on values *)

(** The operations the patterns look for, over operands in [V]. A select's
    condition and a constant index are values too; the index of [ArrayGetOp]
    and [ArrayReplaceOp] is an attribute. *)
Inductive Def (V : Type) :=
  | ParamConstantOp (value : Attr)
  | GlobalConstantOp (value : Attr)
  | ArrayGEPOp (array index : V)
  | StructGEPOp (ptr : V) (index : nat)
  | OffsetOp (ptr index : V)
  | PointerBitcastOp (input : V)
  | PointerToIndexOp (value : V)
  | ArrayCreateOp (operands : list V)
  | ArrayRepeatOp (operands : list V)
  | ArrayGetOp (array : V) (index : Attr)
  | ArrayReplaceOp (value array : V) (index : Attr)
  | SelectOp (cond trueValue falseValue : V)
  | CastToBuiltinOp (input : V)
  | CastFromBuiltinOp (input : V)
  | UnionWrapOp (value : V)
  | UnionUnwrapOp (value : V)
  | OpaqueOp (n : nat).
Arguments ParamConstantOp {V}. Arguments GlobalConstantOp {V}. Arguments ArrayGEPOp {V}.
Arguments StructGEPOp {V}. Arguments OffsetOp {V}. Arguments PointerBitcastOp {V}.
Arguments PointerToIndexOp {V}. Arguments ArrayCreateOp {V}. Arguments ArrayRepeatOp {V}.
Arguments ArrayGetOp {V}. Arguments ArrayReplaceOp {V}. Arguments SelectOp {V}.
Arguments CastToBuiltinOp {V}. Arguments CastFromBuiltinOp {V}. Arguments UnionWrapOp {V}.
Arguments UnionUnwrapOp {V}. Arguments OpaqueOp {V}.

Inductive OpFoldResult := FoldAttr (a : Attr) | FoldValue (v : nat) | NoFold.

Section Folders.
(** The function's values: the operation that defines one, its type, and
    whether it has one use. *)
Variable defs : nat → option (Def nat).
Variable ty : nat → Ty.
Variable hasOneUse : nat → bool.

(** The adaptor's attribute of an operand, and [m_Constant]. *)
Definition constantOf (v : nat) : option Attr :=
  match defs v with Some (ParamConstantOp a) => Some a | _ => None end.
(** [m_ConstantInt], [m_Zero]. *)
Definition constantInt (v : nat) : option Z := asInteger (constantOf v).
Definition isZeroConstant (v : nat) : bool :=
  match constantInt v with Some z => z =? 0 | None => false end.

Definition attrOr (a : option Attr) (otherwise : OpFoldResult) : OpFoldResult :=
  match a with Some a => FoldAttr a | None => otherwise end.

(** ** LoadOp *)

(** The lambdas [findValueAt] and [findOffsetValueAt]. *)
Definition findValueAt (cst : Attr) (type : Ty) (idx : Z) : OpFoldResult :=
  match cst with
  | ArrayAttr values t =>
      if (Z.of_nat (List.length values) <=? idx) || negb (bool_decide (arrayElement t = Some type))
      then NoFold else attrOr (elementAt values idx) NoFold
  | _ => NoFold
  end.
Definition findOffsetValueAt (cst : Attr) (type : Ty) (offset : nat) : OpFoldResult :=
  match constantInt offset with
  | Some idx => if idx <? 0 then NoFold else findValueAt cst type (Z.min idx (2 ^ 64 - 1))
  | None => NoFold
  end.

Definition globalConstant (v : nat) : option Attr :=
  match defs v with Some (GlobalConstantOp a) => Some a | _ => None end.

Definition LoadOp_fold (isAtomic mightBeVolatile : bool) (type : Ty) (ptr : nat) : OpFoldResult :=
  if isAtomic || mightBeVolatile then NoFold else
  match defs ptr with
  | Some (GlobalConstantOp cst) => FoldAttr cst
  | Some (ArrayGEPOp array index) =>
      match globalConstant array with
      | Some cst => findOffsetValueAt cst type index
      | None => NoFold
      end
  | Some (OffsetOp p index) =>
      match defs p with
      | Some (PointerBitcastOp input) =>
          match globalConstant input with
          | Some cst => findOffsetValueAt cst type index
          | None => NoFold
          end
      | _ => NoFold
      end
  | Some (PointerBitcastOp input) =>
      match globalConstant input with
      | Some cst => findValueAt cst type 0
      | None => NoFold
      end
  | _ => NoFold
  end.

(** The loop that descends the first elements of structs, to a type equal to
    the target: the number of steps. It ends, as types are finite. *)
Fixpoint leadingDepth (cur targetElt : Ty) : option nat :=
  if bool_decide (cur = targetElt) then Some O else
  match cur with
  | StructType (Some (first :: _)) _ => S <$> leadingDepth first targetElt
  | _ => None
  end.

Inductive LoadRewrite :=
  | ReplaceLoad (v : nat)                 (* by a value *)
  | LoadThroughGEPs (base : nat) (depth : nat)   (* load (gep 0 (.. (gep 0 base))) *)
  | LoadThenBitcast (ptr : nat) (type : Ty).     (* bitcast (load ptr), the load of that type *)

Definition isStructType (t : Ty) : bool := match t with StructType _ _ => true | _ => false end.

(** The rewrite of a load of the leading element of a struct. *)
Definition leadingElement (ptr : nat) : option LoadRewrite :=
  match defs ptr with
  | Some (PointerBitcastOp input) =>
      match ty input, ty ptr with
      | PointerType src a, PointerType targetElt b =>
          if isStructType src && (a =? b) then
            match leadingDepth src targetElt with
            | Some (S n) => Some (LoadThroughGEPs input (S n))
            | _ => None
            end
          else None
      | _, _ => None
      end
  | _ => None
  end.

(** [prevStore]: the operation before, if it is a store: its argument, its
    pointer, and whether it is atomic. *)
Definition LoadOp_canonicalize (isAtomic mightBeVolatile : bool) (prevStore : option (nat * nat * bool))
    (type : Ty) (ptr : nat) : option LoadRewrite :=
  if isAtomic || mightBeVolatile then None else
  match (match prevStore with
         | Some (arg, sptr, satomic) =>
             if (sptr =? ptr)%nat && negb satomic then Some (ReplaceLoad arg) else None
         | None => None
         end) with
  | Some r => Some r
  | None =>
  match leadingElement ptr with
  | Some r => Some r
  | None =>
      if negb (isPointerType type) then None else
      match defs ptr with
      | Some (PointerBitcastOp input) =>
          if negb (hasOneUse ptr) then None else
          match ty input with
          | PointerType elem _ => if isPointerType elem then Some (LoadThenBitcast input elem) else None
          | _ => None
          end
      | _ => None
      end
  end end.

(** ** StoreOp *)

Inductive StoreRewrite := EraseStore | StoreBitcast (ptr : nat) (type : Ty) (arg : nat).

Definition StoreOp_canonicalize (isAtomic mightBeVolatile : bool) (arg ptr : nat) : option StoreRewrite :=
  if isAtomic || mightBeVolatile then None else
  if isUninit (constantOf arg) then Some EraseStore else
  if negb (isPointerType (ty arg)) then None else
  match defs ptr with
  | Some (PointerBitcastOp input) =>
      match ty input with
      | PointerType elem _ => if isPointerType elem then Some (StoreBitcast input elem arg) else None
      | _ => None
      end
  | _ => None
  end.

(** ** OffsetOp *)

(** A rewritten operation's operands: values, or new constants. *)
Definition Operand : Type := nat + Attr.

Definition OffsetOp_fold (ptr index : nat) : OpFoldResult :=
  match constantInt index with
  | Some i => if negb (i =? 0) then NoFold else FoldValue ptr
  | None => NoFold
  end.

Definition OffsetOp_canonicalize (ptr index : nat) : option (Def Operand) :=
  match defs ptr with
  | Some (ArrayGEPOp array gepIndex) =>
      if isZeroConstant gepIndex then Some (ArrayGEPOp (inl array) (inl index)) else None
  | d =>
      c1 ← constantInt index;
      match d with
      | Some (OffsetOp base parentIndex) =>
          c0 ← constantInt parentIndex;
          newOffset ← int64 (c0 + c1);
          Some (OffsetOp (inl base) (inr (IntegerAttr newOffset IndexType)))
      | _ => None
      end
  end.

(** ** SelectOp *)

(** [getAsBool] of a one-element attribute. *)
Definition asBool (a : option Attr) : option bool :=
  match a with Some (SIMDAttr [b] _) => Some (negb (b =? 0)) | _ => None end.

Definition SelectOp_fold (type : Ty) (cond trueValue falseValue : nat) : OpFoldResult :=
  match asBool (constantOf cond) with
  | Some true => attrOr (constantOf trueValue) (FoldValue trueValue)
  | Some false => attrOr (constantOf falseValue) (FoldValue falseValue)
  | None =>
      if bool_decide (ty cond = type) &&
         bool_decide (asBool (constantOf trueValue) = Some true) &&
         bool_decide (asBool (constantOf falseValue) = Some false) then FoldValue cond
      else if isUninit (constantOf trueValue) then FoldValue falseValue
      else if isUninit (constantOf falseValue) then FoldValue trueValue
      else if (trueValue =? falseValue)%nat then FoldValue trueValue
      else NoFold
  end.

Definition SelectOfSelect (cond trueValue falseValue : nat) : option (Def nat) :=
  match defs trueValue with
  | Some (SelectOp c a _) =>
      if (c =? cond)%nat then Some (SelectOp cond a falseValue) else None
  | _ =>
      match defs falseValue with
      | Some (SelectOp c _ b) =>
          if (c =? cond)%nat then Some (SelectOp cond trueValue b) else None
      | _ => None
      end
  end.

(** ** Pointers *)

Definition PointerBitcastOp_fold (type : Ty) (input : nat) : OpFoldResult :=
  attrOr (foldPointerCast type (constantOf input))
    match defs input with
    | Some (PointerBitcastOp inner) => if bool_decide (ty inner = type) then FoldValue inner else NoFold
    | _ => NoFold
    end.

Definition PointerBitcastOp_canonicalize (type : Ty) (input : nat) : option (Def Operand) :=
  match (match defs input with
         | Some (PointerBitcastOp inner) =>
             if hasOneUse input then Some (PointerBitcastOp (inl inner)) else None
         | _ => None
         end) with
  | Some d => Some d
  | None =>
      match ty input with
      | PointerType (ArrayType elem _) _ =>
          if bool_decide (type = PointerType elem 0)
          then Some (ArrayGEPOp (inl input) (inr (IntegerAttr 0 IndexType))) else None
      | _ => None
      end
  end.

Definition PointerToIndexOp_canonicalize (value : nat) : option (Def Operand) :=
  match defs value with
  | Some (PointerBitcastOp inner) =>
      if isPointerType (ty inner) then Some (PointerToIndexOp (inl inner)) else None
  | _ => None
  end.

(** The pointer that is freed instead. *)
Definition AlignedFreeOp_canonicalize (ptr : nat) : option nat :=
  match defs ptr with Some (PointerBitcastOp inner) => Some inner | _ => None end.

Definition ArrayGEPOp_canonicalize (array index : nat) : option (Def Operand) :=
  match ty array with
  | PointerType (ArrayType _ (Some size)) _ =>
      if negb (size =? 1) then None
      else match constantOf index with
           | Some _ => None
           | None => Some (ArrayGEPOp (inl array) (inr (IntegerAttr 0 IndexType)))
           end
  | _ => None
  end.

(** ** Arrays *)

(** The outer [None]: the operand or element accessed does not exist. *)
Definition ArrayGetOp_fold (type : Ty) (array : nat) (index : Attr) : option OpFoldResult :=
  match constantOf array with
  | Some (UninitMemAttr _) => Some (FoldAttr (UninitMemAttr type))
  | Some (UnknownAttr _) => Some (FoldAttr (UnknownAttr type))
  | c =>
      match pair (asInteger (Some index)) (mjoin (arraySize (ty array))) with
      | None => Some NoFold
      | Some (idx, size) =>
          if (idx <? 0) || (size <=? idx) then Some NoFold else
          match asArray c with
          | Some values => FoldAttr <$> elementAt values idx
          | None =>
              match defs array with
              | Some (ArrayCreateOp operands) => FoldValue <$> elementAt operands idx
              | Some (ArrayRepeatOp operands) =>
                  FoldValue <$> elementAt operands (idx mod Z.of_nat (List.length operands))
              | _ => Some NoFold
              end
          end
      end
  end.

(** [unsigned index = indexAttr.getInt()]; a constant array is cast to
    [ArrayAttr] without a test. *)
Definition ArrayReplaceOp_canonicalize (value array : nat) (index : Attr)
    : option (option (Def Operand)) :=
  match asInteger (Some index) with
  | None => Some None
  | Some i =>
      let index := i mod 2 ^ 32 in
      match defs array with
      | Some (ArrayCreateOp operands) =>
          newOperands ← replaceAt operands index value;
          Some (Some (ArrayCreateOp (map inl newOperands)))
      | Some (ParamConstantOp c) =>
          values ← asArray (Some c);
          Some (Some (ArrayCreateOp (imap (fun k v => if Z.of_nat k =? index then inl value else inr v) values)))
      | _ => Some None
      end
  end.

(** ** Unions and builtin casts *)

Definition UnionWrapOp_fold (type : Ty) (value : nat) : OpFoldResult :=
  attrOr (UnionWrapOp_foldConstant type (constantOf value))
    match defs value with
    | Some (UnionUnwrapOp inner) => if bool_decide (ty inner = type) then FoldValue inner else NoFold
    | _ => NoFold
    end.
Definition UnionUnwrapOp_fold (type : Ty) (value : nat) : OpFoldResult :=
  attrOr (UnionUnwrapOp_foldConstant type (constantOf value))
    match defs value with
    | Some (UnionWrapOp inner) => if bool_decide (ty inner = type) then FoldValue inner else NoFold
    | _ => NoFold
    end.

(** [KGEN::foldCastToBuiltin] and [foldCastFromBuiltin] are in another file. *)
Variable foldCastToBuiltin foldCastFromBuiltin : Attr → Ty → option Attr.
Definition CastToBuiltinOp_fold (type : Ty) (input : nat) : OpFoldResult :=
  match constantOf input with
  | Some (SIMDAttr vs t) => attrOr (foldCastToBuiltin (SIMDAttr vs t) type) NoFold
  | _ =>
      match defs input with
      | Some (CastFromBuiltinOp inner) => if bool_decide (ty inner = type) then FoldValue inner else NoFold
      | _ => NoFold
      end
  end.
Definition CastFromBuiltinOp_fold (type : Ty) (input : nat) : OpFoldResult :=
  match constantOf input with
  | Some val => attrOr (foldCastFromBuiltin val type) NoFold
  | None =>
      match defs input with
      | Some (CastToBuiltinOp inner) => if bool_decide (ty inner = type) then FoldValue inner else NoFold
      | _ => NoFold
      end
  end.

End Folders.
End POPMemFold.
