(* ===== verification/POPMemSound.v ===== *)
(** The folders and canonicalizations of POPMemFold.v keep the meaning that the
    interpreter of POPInterp.v gives to the operations. *)
From S2P Require Import Prelude StringRef POPAttrs POPInterp POPRun POPRunFacts POPMemFold.

Module POPMemSound.
Import POPAttrs POPInterp POPMemFold.

#[local] Notation length := List.length.

Section Meaning.
Context {DL : DataLayoutInterface} {IS : InterpreterState}.
Variables (target : option TargetInfo) (st : St).
(** The type of conditions, [scalar<bool>]. *)
Variable boolType : Ty.
(** The meaning of the casts from and to builtin types. *)
Variables toBuiltin fromBuiltin : Attr → Ty → Attr → Prop.

(** The memory at [addr] holds the constant [a]: read whole, and, for an array,
    read element by element at the stride of the element type; its elements can be
    counted in 64 bits. *)
Definition elementOffset (e : Ty) (i : nat) (off : Z) : Prop :=
  (i = O ∧ off = 0) ∨
  ∃ tg sz, target = Some tg ∧ getTypeAllocSize tg e = Some sz ∧ off = sz * Z.of_nat i.
Definition holds (addr : Z) (a : Attr) : Prop :=
  (∀ t, readAttributeFromPointer (Some (PointerAttr addr t)) (typeOf a) st = Success a) ∧
  ∀ vs e n, a = ArrayAttr vs (ArrayType e n) → ∀ i v off, vs !! i = Some v → elementOffset e i off →
    Z.of_nat (length vs) < 2 ^ 64 ∧
    ∀ t, readAttributeFromPointer (Some (PointerAttr (addr + off) t)) e st = Success v.

Definition yields (m : Interp (list Attr)) (r : Attr) : Prop := m st = Some (Success [r], st).

(** The value [r], of type [t], that an operation computes from its operands. *)
Definition denotes {V} (val : V → Attr) (vty : V → Ty) (d : Def V) (t : Ty) (r : Attr) : Prop :=
  match d with
  | ParamConstantOp a => r = a
  | GlobalConstantOp a =>
      ∃ addr, r = PointerAttr addr t ∧ pointerElement t = Some (typeOf a) ∧ holds addr a
  | ArrayGEPOp p i => yields (ArrayGEPOp_interpret target (vty p) (Some (val p)) (Some (val i))) r
  | StructGEPOp p i => i = O → ∃ addr t1, val p = PointerAttr addr t1 ∧ r = PointerAttr addr t
  | OffsetOp p i => yields (OffsetOp_interpret target (Some (val p)) (Some (val i))) r
  | PointerBitcastOp p => foldPointerCast t (Some (val p)) = Some r
  | PointerToIndexOp p => PointerToIndexOp_fold (Some (val p)) = Some r
  | ArrayCreateOp ops => ArrayCreateOp_fold t (map (fun v => Some (val v)) ops) = Some r
  | ArrayRepeatOp ops => foldInterpretArrayRepeatOp (map Some (map val ops)) t = Some (Some r)
  | ArrayGetOp a i =>
      match val a with
      | ArrayAttr vs _ => ∃ idx, asInteger (Some i) = Some idx ∧ elementAt vs idx = Some r
      | UninitMemAttr _ => r = UninitMemAttr t
      | UnknownAttr _ => r = UnknownAttr t
      | _ => False
      end
  | ArrayReplaceOp v a i => ArrayReplaceOp_fold t i (Some (val v)) (Some (val a)) = Some (Some r)
  | SelectOp c x y =>
      vty c = boolType ∧ vty x = t ∧ vty y = t ∧
      ∃ b, asBool (Some (val c)) = Some b ∧ r = if b then val x else val y
  | CastToBuiltinOp x => toBuiltin (val x) t r
  | CastFromBuiltinOp x => fromBuiltin (val x) t r
  | UnionWrapOp x => UnionWrapOp_foldConstant t (Some (val x)) = Some r
  | UnionUnwrapOp x => UnionUnwrapOp_foldConstant t (Some (val x)) = Some r
  | OpaqueOp _ => True
  end.

Variable defs : nat → option (Def nat).
Variable ty : nat → Ty.
Variable env : nat → Attr.

(** The values are those that the operations which define them compute, and
    have their types; a [scalar<bool>] is 0 or 1, if it is initialized. *)
Record Consistent : Prop := {
  consistent_def : ∀ v d, defs v = Some d → denotes env ty d (ty v) (env v);
  consistent_type : ∀ v, typeOf (env v) = ty v;
  consistent_bool : ∀ v b t, ty v = boolType → env v = SIMDAttr [b] t → b = 0 ∨ b = 1
}.

(** An uninitialized value may be replaced by any. *)
Definition refines (old new : Attr) : Prop := isUninit (Some old) = true ∨ new = old.
Definition foldSound (r : Attr) (f : OpFoldResult) : Prop :=
  match f with FoldAttr a => refines r a | FoldValue v => refines r (env v) | NoFold => True end.

Hypothesis C : Consistent.

Lemma constantOf_env v a : constantOf defs v = Some a → env v = a.
Proof using C.
  unfold constantOf. destruct (defs v) as [[]|] eqn:E; try done. intros [= ->].
  exact (consistent_def C _ _ E).
Qed.

Lemma constantInt_env v z : constantInt defs v = Some z → asInteger (Some (env v)) = Some z.
Proof using C.
  unfold constantInt. destruct (constantOf defs v) as [a|] eqn:E; [|done].
  by rewrite (constantOf_env _ _ E).
Qed.

Lemma globalConstant_env v a : globalConstant defs v = Some a →
  ∃ addr, env v = PointerAttr addr (ty v) ∧ pointerElement (ty v) = Some (typeOf a) ∧ holds addr a.
Proof using C.
  unfold globalConstant. destruct (defs v) as [[]|] eqn:E; try done. intros [= ->].
  exact (consistent_def C _ _ E).
Qed.

Lemma refines_refl a : refines a a.
Proof. by right. Qed.

(** The pointer that an offset, a gep and a cast compute. *)
Lemma yields_Offset p i r : yields (OffsetOp_interpret target p i) r →
  ∃ tg a t idx e sz a', target = Some tg ∧ p = Some (PointerAttr a t) ∧ asInteger i = Some idx ∧
    pointerElement t = Some e ∧ getTypeAllocSize tg e = Some sz ∧ strided a sz idx = Some a' ∧
    r = PointerAttr a' t.
Proof.
  unfold yields, OffsetOp_interpret. cbv [mbind Interp_bind need must ret fail crash mapResults].
  destruct target as [tg|]; [|done]. destruct p as [[]|]; try done. simpl.
  destruct (asInteger i) as [idx|]; [|done]. simpl. destruct (pointerElement type) as [e|] eqn:He; [|done].
  destruct (getTypeAllocSize tg e) as [sz|] eqn:Hsz; [|done].
  destruct (strided addr sz idx) as [a'|] eqn:Ha; [|done]. intros [= <-]. eauto 15.
Qed.

Lemma Offset_yields tg a t i idx e sz a' : target = Some tg → asInteger i = Some idx →
  pointerElement t = Some e → getTypeAllocSize tg e = Some sz → strided a sz idx = Some a' →
  yields (OffsetOp_interpret target (Some (PointerAttr a t)) i) (PointerAttr a' t).
Proof.
  intros -> Hi He Hsz Ha. unfold yields, OffsetOp_interpret.
  cbv [mbind Interp_bind need must ret fail crash mapResults asPointer pair].
  by rewrite Hi, He, Hsz, Ha.
Qed.

Lemma yields_gep apt p i r : yields (ArrayGEPOp_interpret target apt p i) r →
  ∃ tg a t idx n e sz a' s, target = Some tg ∧ p = Some (PointerAttr a t) ∧ asInteger i = Some idx ∧
    apt = PointerType (ArrayType e n) s ∧ getTypeAllocSize tg e = Some sz ∧ strided a sz idx = Some a' ∧
    r = PointerAttr a' (PointerType e 0).
Proof.
  unfold yields, ArrayGEPOp_interpret, gep. cbv [mbind Interp_bind need must ret fail crash mapResults].
  destruct target as [tg|]; [|done]. destruct p as [[]|]; try done. simpl.
  destruct (asInteger i) as [idx|]; [|done]. simpl. destruct apt as [apt s| | | | | | | | |]; try done. simpl.
  destruct apt as [|e n| | | | | | | |]; try done. simpl.
  destruct (getTypeAllocSize tg e) as [sz|] eqn:Hsz; [|done].
  destruct (strided addr sz idx) as [a'|] eqn:Ha; [|done]. intros [= <-]. eauto 20.
Qed.

Lemma gep_yields tg a t i idx n e sz a' s : target = Some tg → asInteger i = Some idx →
  getTypeAllocSize tg e = Some sz → strided a sz idx = Some a' →
  yields (ArrayGEPOp_interpret target (PointerType (ArrayType e n) s) (Some (PointerAttr a t)) i)
    (PointerAttr a' (PointerType e 0)).
Proof.
  intros -> Hi Hsz Ha. unfold yields, ArrayGEPOp_interpret, gep.
  cbv [mbind Interp_bind need must ret fail crash mapResults asPointer pair pointerElement arrayElement].
  by rewrite Hi, Hsz, Ha.
Qed.

Lemma strided_exact a sz i a' : strided a sz i = Some a' → a' = a + sz * i.
Proof.
  unfold strided. destruct (int64 (sz * i)) as [p|] eqn:Hp; [|done]. simpl.
  intros Ha%int64_Some. apply int64_Some in Hp. lia.
Qed.

Lemma foldPointerCast_inv t v r : foldPointerCast t (Some v) = Some r →
  ∃ a t', v = PointerAttr a t' ∧ r = PointerAttr a t.
Proof. unfold foldPointerCast. destruct v; simpl; try done. intros [= <-]. eauto. Qed.

(** ** Folds *)

Lemma elementAt_lookup {A} (l : list A) i v : elementAt l i = Some v → 0 ≤ i ∧ l !! Z.to_nat i = Some v.
Proof. unfold elementAt. destruct (Z.ltb_spec i 0); [done|]. auto. Qed.

Lemma findValueAt_sound cst T idx addr off x p t :
  holds addr cst → findValueAt cst T idx ≠ NoFold → p = PointerAttr (addr + off) t →
  (∀ e n vs, cst = ArrayAttr vs (ArrayType e n) → elementOffset e (Z.to_nat idx) off) →
  readAttributeFromPointer (Some p) T st = Success x → foldSound x (findValueAt cst T idx).
Proof using Type.
  intros [_ Hh] _ -> Hoff Hread. unfold findValueAt. destruct cst; try done.
  destruct (_ || _) eqn:E; [done|]. bool_to_prop.
  destruct (elementAt values idx) as [v|] eqn:Ev; [|done]. simpl. right.
  apply elementAt_lookup in Ev as [_ Ev].
  destruct type as [|e n| | | | | | | |]; simpl in H0; try done. simplify_eq.
  destruct (Hh _ _ _ eq_refl _ _ _ Ev (Hoff _ _ _ eq_refl)) as [_ Hv].
  rewrite Hv in Hread. by simplify_eq.
Qed.

Lemma foldSound_NoFold x f : (f ≠ NoFold → foldSound x f) → foldSound x f.
Proof using Type. intros H. destruct f; [by apply H..|done]. Qed.

(** A constant offset from the start of a constant. *)
Lemma findOffsetValueAt_sound cst T i idx addr sz x p tg t :
  holds addr cst → target = Some tg → asInteger (Some (env i)) = Some idx →
  (∀ e n vs, cst = ArrayAttr vs (ArrayType e n) → e = T → getTypeAllocSize tg e = Some sz) →
  p = PointerAttr (addr + sz * idx) t →
  readAttributeFromPointer (Some p) T st = Success x → foldSound x (findOffsetValueAt defs cst T i).
Proof using C.
  intros Hh Htg Hi Hsz Hp Hread. unfold findOffsetValueAt.
  destruct (constantInt defs i) as [z|] eqn:Ez; [|done].
  apply constantInt_env in Ez. simplify_eq. destruct (Z.ltb_spec idx 0); [done|].
  unfold findValueAt at 1. destruct cst as [| | |vs ta| | | | | |] eqn:Ec; try done.
  destruct (_ || _) eqn:E; [done|]. bool_to_prop.
  destruct ta as [|e n| | | | | | | |]; simpl in *; try done. simplify_eq.
  destruct (elementAt vs _) as [v|] eqn:Ev; [|done]. simpl. right.
  apply elementAt_lookup in Ev as [_ Ev]. pose proof (lookup_lt_Some _ _ _ Ev).
  destruct Hh as [_ Hh]. assert (getTypeAllocSize tg T = Some sz) as Hsz' by by eapply Hsz.
  assert (elementOffset T (Z.to_nat (Z.min idx (2 ^ 64 - 1))) (sz * Z.min idx (2 ^ 64 - 1))) as Hoff.
  { right. exists tg, sz. by rewrite Z2Nat.id by lia. }
  destruct (Hh _ _ _ eq_refl _ _ _ Ev Hoff) as [Hlen Hv].
  assert (Z.min idx (2 ^ 64 - 1) = idx) as Hmin by lia. rewrite Hmin in *.
  rewrite Hv in Hread. by simplify_eq.
Qed.

Lemma LoadOp_fold_sound isAtomic vol T ptr x :
  pointerElement (ty ptr) = Some T → readAttributeFromPointer (Some (env ptr)) T st = Success x →
  foldSound x (LoadOp_fold defs isAtomic vol T ptr).
Proof using C.
  intros HT Hread. unfold LoadOp_fold. destruct (_ || _); [done|].
  destruct (defs ptr) as [d|] eqn:Ed; [|done]. pose proof (consistent_def C _ _ Ed) as Hd.
  destruct d as [|cst|array index| |p index|input| | | | | | | | | | |]; try done; simpl in Hd.
  - destruct Hd as (addr & Hr & Ht & Hh & _). simplify_eq. rewrite Hr, Hh in Hread. simplify_eq.
    apply refines_refl.
  - destruct (globalConstant defs array) as [cst|] eqn:Ec; [|done].
    apply globalConstant_env in Ec as (addr & Ea & Ht & Hh).
    apply yields_gep in Hd as (tg & a & t & idx & n & e & sz & a' & s & Htg & Hp & Hi & Hty & Hsz & Hs & Hr).
    simplify_eq. rewrite Ea in Hp. simplify_eq. apply strided_exact in Hs as ->.
    apply (findOffsetValueAt_sound _ _ _ idx a sz x (env ptr) tg (PointerType e 0)); try done.
    intros e' n' vs -> _. rewrite Hty in Ht. simpl in Ht. by simplify_eq.
  - destruct (defs p) as [dp|] eqn:Edp; [|done]. destruct dp as [| | | | |input| | | | | | | | | | |]; try done.
    pose proof (consistent_def C _ _ Edp) as Hdp. simpl in Hdp.
    destruct (globalConstant defs input) as [cst|] eqn:Ec; [|done].
    apply globalConstant_env in Ec as (addr & Ea & Ht & Hh).
    apply foldPointerCast_inv in Hdp as (a1 & t1 & E1 & E2). rewrite Ea in E1. injection E1 as <- <-.
    apply yields_Offset in Hd as (tg & a & t & idx & e & sz & a' & Htg & Hp & Hi & He & Hsz & Hs & Hr).
    rewrite E2 in Hp. simplify_eq. apply strided_exact in Hs as ->.
    pose proof (consistent_type C ptr) as Htp. rewrite Hr in Htp. simpl in Htp. simplify_eq.
    apply (findOffsetValueAt_sound _ _ _ idx a sz x (env ptr) tg (ty p)); try done.
    intros e' n' vs _ ->. rewrite Htp, HT in He. by simplify_eq.
  - destruct (globalConstant defs input) as [cst|] eqn:Ec; [|done].
    apply globalConstant_env in Ec as (addr & Ea & Ht & Hh).
    apply foldPointerCast_inv in Hd as (a1 & t1 & E1 & E2). rewrite Ea in E1. injection E1 as <- <-.
    apply foldSound_NoFold. intros Hf.
    apply (findValueAt_sound _ _ _ addr 0 x (env ptr) (ty ptr)); try done.
    + by rewrite Z.add_0_r.
    + intros. by left.
Qed.

Lemma OffsetOp_fold_sound ptr index r : yields (OffsetOp_interpret target (Some (env ptr)) (Some (env index))) r →
  foldSound r (OffsetOp_fold defs ptr index).
Proof using C.
  intros H. unfold OffsetOp_fold. destruct (constantInt defs index) as [z|] eqn:Ez; [|done].
  destruct (Z.eqb_spec z 0) as [->|]; [|done]. simpl. right. apply constantInt_env in Ez.
  apply yields_Offset in H as (tg & a & t & idx & e & sz & a' & _ & Hp & Hi & _ & _ & Hs & ->).
  injection Hp as Hp. rewrite Ez in Hi. injection Hi as <-. apply strided_exact in Hs as ->.
  by rewrite Hp, Z.mul_0_r, Z.add_0_r.
Qed.

Lemma refines_trans a b c : refines a b → refines b c → refines a c.
Proof using Type. intros [Ha|<-]; [by left|]. done. Qed.

Lemma attrOr_env v r : r = env v → foldSound r (attrOr (constantOf defs v) (FoldValue v)).
Proof using C.
  intros ->. destruct (constantOf defs v) as [a|] eqn:E; simpl; [|apply refines_refl].
  rewrite <- (constantOf_env _ _ E). apply refines_refl.
Qed.

Lemma uninit_env v a : isUninit (constantOf defs v) = true → refines (env v) a.
Proof using C.
  destruct (constantOf defs v) as [c|] eqn:E; [|done]. intros H. left. by rewrite (constantOf_env _ _ E).
Qed.

Lemma canonicalBool v b : ty v = boolType → asBool (Some (env v)) = Some b →
  env v = SIMDAttr [if b then 1 else 0] boolType.
Proof using C.
  intros Ht Hb. pose proof (consistent_type C v) as T. pose proof (consistent_bool C v) as B.
  destruct (env v) as [| |[|z []] t| | | | | | |]; try done. simpl in *. simplify_eq.
  destruct (B z _ Ht eq_refl) as [-> | ->]; by rewrite Ht.
Qed.

Lemma SelectOp_fold_sound t c x y r : denotes env ty (SelectOp c x y) t r →
  foldSound r (SelectOp_fold defs ty t c x y).
Proof using C.
  intros (Htc & Htx & Hty & b & Hb & Hr). unfold SelectOp_fold.
  destruct (asBool (constantOf defs c)) as [bc|] eqn:Ec.
  { destruct (constantOf defs c) as [a|] eqn:Ea; [|done]. rewrite (constantOf_env _ _ Ea) in Hb.
    simplify_eq. destruct b; by apply attrOr_env. }
  destruct (_ && _ && _) eqn:Ebool; bool_to_prop.
  { destruct (constantOf defs x) as [ax|] eqn:Ex; [|done].
    destruct (constantOf defs y) as [ay|] eqn:Ey; [|done]. apply constantOf_env in Ex, Ey.
    rewrite <- Ex in *. rewrite <- Ey in *. simpl. right.
    rewrite (canonicalBool c b), Hr by done. destruct b; symmetry;
      [apply (canonicalBool x true)|apply (canonicalBool y false)]; congruence. }
  destruct (isUninit (constantOf defs x)) eqn:Eux.
  { simpl. destruct b; subst r; [by apply uninit_env|apply refines_refl]. }
  destruct (isUninit (constantOf defs y)) eqn:Euy.
  { simpl. destruct b; subst r; [apply refines_refl|by apply uninit_env]. }
  destruct (Nat.eqb_spec x y) as [->|]; [|done]. simpl. right. by destruct b.
Qed.

Lemma PointerBitcastOp_fold_sound t x r : typeOf r = t → denotes env ty (PointerBitcastOp x) t r →
  foldSound r (PointerBitcastOp_fold defs ty t x).
Proof using C.
  intros Hr Hd. unfold PointerBitcastOp_fold. simpl in Hd.
  destruct (constantOf defs x) as [a|] eqn:Ea.
  { rewrite <- (constantOf_env _ _ Ea), Hd. simpl. apply refines_refl. }
  simpl. destruct (defs x) as [[]|] eqn:Ex; try done. case_bool_decide as Ht; [|done]. simpl. right.
  pose proof (consistent_def C _ _ Ex) as Hx. simpl in Hx.
  apply foldPointerCast_inv in Hx as (a & t1 & E1 & E2). rewrite E2 in Hd.
  apply foldPointerCast_inv in Hd as (a2 & t2 & [= <- <-] & ->).
  pose proof (consistent_type C input) as Hti. rewrite E1 in *. simpl in *. congruence.
Qed.

Lemma ArrayRepeat_elements ops t vs ta i r : foldInterpretArrayRepeatOp (map Some ops) t = Some (Some (ArrayAttr vs ta)) →
  (∃ e n, t = ArrayType e (Some n) ∧ 0 ≤ i < n) → elementAt vs i = Some r →
  elementAt ops (i mod Z.of_nat (length ops)) = Some r.
Proof using Type.
  intros Hf (e & n & -> & Hi) Hr. destruct (decide (ops = [])) as [->|Hne].
  { unfold foldInterpretArrayRepeatOp in Hf. rewrite (proj2 (Z.ltb_ge _ _)) in Hf by lia. simpl in Hf.
    by rewrite POPRunFacts.appendUntil_empty in Hf by lia. }
  destruct (POPRunFacts.repeat_values ops e n ltac:(lia) Hne) as (vs' & Hf' & _ & Hel).
  rewrite Hf in Hf'. injection Hf' as -> ->. by rewrite <- Hel.
Qed.

Lemma elementAt_map {A B} (f : A → B) l i r : elementAt (map f l) i = Some r →
  ∃ x, elementAt l i = Some x ∧ r = f x.
Proof.
  unfold elementAt. destruct (i <? 0); [done|]. rewrite lookup_map. intros (x & ? & ->)%fmap_Some. eauto.
Qed.

Lemma allPresent_env ops : allPresent (map (fun v => Some (env v)) ops) = Some (map env ops).
Proof using Type. rewrite <- (map_map env Some). apply POPRunFacts.allPresent_map. Qed.

Lemma ArrayGetOp_fold_sound t array index r : denotes env ty (ArrayGetOp array index) t r →
  ∃ f, ArrayGetOp_fold defs ty t array index = Some f ∧ foldSound r f.
Proof using C.
  intros Hd. cbn [denotes] in Hd. unfold ArrayGetOp_fold.
  assert (∀ c, constantOf defs array = Some c → env array = c) as Hc by (intros; by apply constantOf_env).
  destruct (constantOf defs array) as [c|] eqn:Ec; [rewrite (Hc c eq_refl) in Hd|clear Hc];
    [destruct c; try done|].
  - destruct Hd as (idx & -> & Hr). cbn [pair asArray]. destruct (mjoin _); [|by exists NoFold].
    destruct (_ || _); [by exists NoFold|]. rewrite Hr. simpl. eexists. split; [done|apply refines_refl].
  - eexists. split; [done|]. simpl. by right.
  - eexists. split; [done|]. simpl. by right.
  - destruct (env array) as [| | |vs ta| | | | | |] eqn:Ea; try done.
    + destruct Hd as (idx & -> & Hr). destruct (mjoin (arraySize (ty array))) as [n|] eqn:En; [|by exists NoFold].
      cbn [pair asArray]. destruct (_ || _) eqn:Eb; [by exists NoFold|]. bool_to_prop.
      destruct (defs array) as [d|] eqn:Edef; [|by exists NoFold].
      pose proof (consistent_def C _ _ Edef) as Hdef. destruct d; try by exists NoFold.
      * simpl in Hdef. unfold ArrayCreateOp_fold in Hdef. rewrite allPresent_env, Ea in Hdef. simpl in Hdef.
        simplify_eq. apply elementAt_map in Hr as (x & -> & ->). simpl. eexists. split; [done|by right].
      * simpl in Hdef. rewrite Ea in Hdef.
        apply (ArrayRepeat_elements _ _ _ _ idx r) in Hdef; [|destruct (ty array) as [|e [m|]| | | | | | | |]; simpl in En; simplify_eq; eauto|done].
        rewrite length_map in Hdef. apply elementAt_map in Hdef as (x & -> & ->). simpl.
        eexists. split; [done|by right].
    + destruct (asInteger (Some index)), (mjoin (arraySize (ty array))); simpl; try by exists NoFold.
      destruct (_ || _); [by exists NoFold|]. destruct (defs array) as [d|] eqn:Edef; [|by exists NoFold].
      pose proof (consistent_def C _ _ Edef) as Hdef. rewrite Ea in Hdef. destruct d; try by exists NoFold.
      * simpl in Hdef. unfold ArrayCreateOp_fold in Hdef. by rewrite allPresent_env in Hdef.
      * simpl in Hdef. unfold foldInterpretArrayRepeatOp in Hdef. repeat case_match; try done.
        destruct (appendUntil _ _ _ _); simpl in Hdef; by simplify_eq.
    + destruct (asInteger (Some index)), (mjoin (arraySize (ty array))); simpl; try by exists NoFold.
      destruct (_ || _); [by exists NoFold|]. destruct (defs array) as [d|] eqn:Edef; [|by exists NoFold].
      pose proof (consistent_def C _ _ Edef) as Hdef. rewrite Ea in Hdef. destruct d; try by exists NoFold.
      * simpl in Hdef. unfold ArrayCreateOp_fold in Hdef. by rewrite allPresent_env in Hdef.
      * simpl in Hdef. unfold foldInterpretArrayRepeatOp in Hdef. repeat case_match; try done.
        destruct (appendUntil _ _ _ _); simpl in Hdef; by simplify_eq.
Qed.

Lemma UnionOps_fold_sound t x r : typeOf r = t →
  (denotes env ty (UnionWrapOp x) t r → foldSound r (UnionWrapOp_fold defs ty t x)) ∧
  (denotes env ty (UnionUnwrapOp x) t r → foldSound r (UnionUnwrapOp_fold defs ty t x)).
Proof using C.
  intros Hr. split; intros Hd; cbn [denotes] in Hd; unfold UnionWrapOp_fold, UnionUnwrapOp_fold;
    (destruct (constantOf defs x) as [a|] eqn:Ea;
     [rewrite <- (constantOf_env _ _ Ea), Hd; simpl; apply refines_refl|]); simpl;
    destruct (defs x) as [d|] eqn:Ex; try done; pose proof (consistent_def C _ _ Ex) as Hx;
    destruct d as [| | | | | | | | | | | | | |y|y|]; try done; case_bool_decide as Ht; try done; simpl in *; right.
  - unfold UnionUnwrapOp_foldConstant in Hx.
    destruct (env y) as [| | | | |v tu| | | |] eqn:Ey; try done.
    destruct (bool_decide _); [|done]. injection Hx as ->. injection Hd as <-.
    pose proof (consistent_type C y) as Hy. rewrite Ey in Hy. simpl in Hy. congruence.
  - injection Hx as Hx. unfold UnionUnwrapOp_foldConstant in Hd. rewrite <- Hx in Hd.
    destruct (bool_decide _); [|done]. by injection Hd.
Qed.

(** ** Canonicalizations *)

Definition oval (o : Operand) : Attr := match o with inl v => env v | inr a => a end.
Definition oty (o : Operand) : Ty := match o with inl v => ty v | inr a => typeOf a end.

Definition addressFits (a : Attr) : Prop := ∀ p t, a = PointerAttr p t → 0 ≤ p < 2 ^ 63.

Lemma strided_intro a sz i : - 2 ^ 63 ≤ sz * i < 2 ^ 63 → - 2 ^ 63 ≤ a + sz * i < 2 ^ 63 →
  strided a sz i = Some (a + sz * i).
Proof. intros H1 H2. unfold strided. rewrite (int64_in _ H1). simpl. by apply int64_in. Qed.

Lemma OffsetOp_canonicalize_sound ptr index t r d :
  (∀ v, addressFits (env v)) → addressFits r →
  OffsetOp_canonicalize defs ptr index = Some d → denotes env ty (OffsetOp ptr index) t r →
  denotes oval oty d t r.
Proof using C.
  intros Hfit Hr Hd Hden. cbn [denotes] in Hden. unfold OffsetOp_canonicalize in Hd.
  apply yields_Offset in Hden as (tg & a & tp & j & e & sz & a' & Htg & Hp & Hj & He & Hsz & Hs & ->).
  injection Hp as Hp. destruct (defs ptr) as [dp|] eqn:Edp.
  2:{ by destruct (constantInt defs index). }
  pose proof (consistent_def C _ _ Edp) as Hdp.
  destruct dp as [| |array gi| |base pi| | | | | | | | | | | |];
    try (by destruct (constantInt defs index)).
  - destruct (isZeroConstant defs gi) eqn:Ez; [|done]. injection Hd as <-.
    unfold isZeroConstant in Ez. destruct (constantInt defs gi) as [z|] eqn:Ezc; [|done]. bool_to_prop. subst z.
    apply constantInt_env in Ezc. cbn [denotes] in Hdp.
    apply yields_gep in Hdp as (tg' & a0 & t0 & k & n & e' & sz' & a1 & s & Htg' & Hp0 & Hk & Hty & Hsz' & Hs0 & Hr0).
    rewrite Ezc in Hk. injection Hk as <-. injection Hp0 as Hp0. apply strided_exact in Hs0.
    rewrite Hr0 in Hp. injection Hp as -> <-. simpl in He. injection He as <-. simplify_eq.
    rewrite Z.mul_0_r, Z.add_0_r in Hs. cbn [denotes oval oty]. rewrite Hty, Hp0.
    by eapply gep_yields.
  - destruct (constantInt defs index) as [c1|] eqn:E1; [|done]. simpl in Hd.
    destruct (constantInt defs pi) as [c0|] eqn:E0; [|done]. simpl in Hd.
    destruct (int64 (c0 + c1)) as [c|] eqn:Ec; [|done]. injection Hd as <-.
    apply int64_Some in Ec as [-> _]. apply constantInt_env in E0, E1. cbn [denotes] in Hdp.
    apply yields_Offset in Hdp as (tg' & a0 & t0 & k & e' & sz' & a1 & Htg' & Hp0 & Hk & He' & Hsz' & Hs0 & Hr0).
    rewrite E0 in Hk. injection Hk as <-. rewrite E1 in Hj. injection Hj as <-. injection Hp0 as Hp0.
    rewrite Hr0 in Hp. injection Hp as -> <-. simplify_eq.
    apply strided_exact in Hs, Hs0. subst a a'.
    pose proof (Hfit base _ _ Hp0). pose proof (Hr _ _ eq_refl).
    cbn [denotes oval]. rewrite Hp0.
    replace (a0 + sz * c0 + sz * c1) with (a0 + sz * (c0 + c1)) in * by lia.
    eapply Offset_yields; [done|done|done|done|]. apply strided_intro; lia.
Qed.

Lemma SelectOfSelect_sound c x y t r d : SelectOfSelect defs c x y = Some d →
  denotes env ty (SelectOp c x y) t r → denotes env ty d t r.
Proof using C.
  intros Hd (Hc & Hx & Hy & b & Hb & Hr).
  assert (∀ v c' u w, defs v = Some (SelectOp c' u w) → ty v = t → c' = c →
    ty u = t ∧ ty w = t ∧ env v = if b then env u else env w) as Hinner.
  { intros v c' u w Hv Hvt ->. pose proof (consistent_def C _ _ Hv) as (_ & Hu & Hw & b' & Hb' & He).
    rewrite Hb in Hb'. injection Hb' as <-. by rewrite <- Hvt. }
  assert (∀ v u w, defs v = Some (SelectOp c u w) → v = x ∨ v = y → ty u = t ∧ ty w = t ∧
    env v = if b then env u else env w) as Hin.
  { intros v u w Hv [->| ->]; by eapply Hinner. }
  unfold SelectOfSelect in Hd.
  assert ((∃ a w, defs x = Some (SelectOp c a w) ∧ d = SelectOp c a y) ∨
          (∃ u w, defs y = Some (SelectOp c u w) ∧ d = SelectOp c x w)) as [(a & w & Hd1 & ->)|(u & w & Hd1 & ->)].
  { destruct (defs x) as [[]|] eqn:Ex, (defs y) as [[]|] eqn:Ey; simpl in Hd; try done;
      repeat case_match; try done; simplify_eq;
      repeat match goal with H : (_ =? _)%nat = true |- _ => apply Nat.eqb_eq in H; subst end; eauto 10. }
  - destruct (Hin _ _ _ Hd1 (or_introl eq_refl)) as (Ha & _ & E). split_and!; try done. exists b. split; [done|].
    destruct b; [by rewrite Hr, E|done].
  - destruct (Hin _ _ _ Hd1 (or_intror eq_refl)) as (_ & Hw & E). split_and!; try done. exists b. split; [done|].
    destruct b; [done|by rewrite Hr, E].
Qed.

Lemma foldPointerCast_pointer t a t' : foldPointerCast t (Some (PointerAttr a t')) = Some (PointerAttr a t).
Proof. done. Qed.

Lemma PointerBitcastOp_canonicalize_sound hasOneUse x t r d :
  (∀ v, addressFits (env v)) →
  (∀ v e n s, ty v = PointerType (ArrayType e n) s → ∃ tg sz, target = Some tg ∧ getTypeAllocSize tg e = Some sz) →
  PointerBitcastOp_canonicalize defs ty hasOneUse t x = Some d → denotes env ty (PointerBitcastOp x) t r →
  denotes oval oty d t r.
Proof using C.
  intros Hfit Hsized Hd Hden. cbn [denotes] in Hden. apply foldPointerCast_inv in Hden as (a & t1 & E & ->).
  unfold PointerBitcastOp_canonicalize in Hd.
  assert ((∃ inner, defs x = Some (PointerBitcastOp inner) ∧ d = PointerBitcastOp (inl inner)) ∨
    (∃ e n s, ty x = PointerType (ArrayType e n) s ∧ t = PointerType e 0 ∧
       d = ArrayGEPOp (inl x) (inr (IntegerAttr 0 IndexType)))) as [(inner & Hx & ->)|(e & n & s & Hx & -> & ->)].
  { destruct (match defs x with Some (PointerBitcastOp inner) => _ | _ => _ end) as [d'|] eqn:E1.
    - injection Hd as <-. destruct (defs x) as [[]|]; try done. destruct (hasOneUse x); [|done].
      injection E1 as <-. left. eauto.
    - destruct (ty x) as [[]| | | | | | | | |]; try done. case_bool_decide as Ht; [|done]. injection Hd as <-.
      right. subst t. eauto 10. }
  - pose proof (consistent_def C _ _ Hx) as Hdef. cbn [denotes oval] in *.
    apply foldPointerCast_inv in Hdef as (a0 & t0 & E0 & E2). rewrite E in E2. injection E2 as <- _.
    by rewrite E0.
  - destruct (Hsized _ _ _ _ Hx) as (tg & sz & Htg & Hsz). cbn [denotes oval oty]. rewrite Hx, E.
    eapply gep_yields; [done|done|done|]. pose proof (Hfit _ _ _ E).
    rewrite strided_intro; rewrite ?Z.mul_0_r; [f_equal|..]; lia.
Qed.

Lemma PointerToIndexOp_canonicalize_sound x t r d :
  PointerToIndexOp_canonicalize defs ty x = Some d → denotes env ty (PointerToIndexOp x) t r →
  denotes oval oty d t r.
Proof using C.
  unfold PointerToIndexOp_canonicalize. destruct (defs x) as [[]|] eqn:Ex; try done.
  destruct (isPointerType _); [|done]. intros [= <-] Hden.
  pose proof (consistent_def C _ _ Ex) as Hx. cbn [denotes oval] in *.
  apply foldPointerCast_inv in Hx as (a & t0 & -> & E). by rewrite E in Hden.
Qed.

Lemma AlignedFreeOp_canonicalize_sound p q :
  AlignedFreeOp_canonicalize defs p = Some q →
  AlignedFreeOp_interpret (Some (env q)) st = AlignedFreeOp_interpret (Some (env p)) st.
Proof using C.
  unfold AlignedFreeOp_canonicalize. destruct (defs p) as [[]|] eqn:Ep; try done. intros [= ->].
  pose proof (consistent_def C _ _ Ep) as Hx. cbn [denotes] in Hx.
  by apply foldPointerCast_inv in Hx as (a & t0 & -> & ->).
Qed.

(** An access to an array stays inside it. *)
Definition inBounds (array index : nat) : Prop :=
  ∀ e n s i, ty array = PointerType (ArrayType e (Some n)) s → asInteger (Some (env index)) = Some i → 0 ≤ i < n.

Lemma ArrayGEPOp_canonicalize_sound array index t r d : inBounds array index →
  ArrayGEPOp_canonicalize defs ty array index = Some d → denotes env ty (ArrayGEPOp array index) t r →
  denotes oval oty d t r.
Proof using C.
  intros Hin Hd Hden. cbn [denotes] in Hden.
  apply yields_gep in Hden as (tg & a & t0 & idx & n & e & sz & a' & s & Htg & Hp & Hi & Hty & Hsz & Hs & ->).
  unfold ArrayGEPOp_canonicalize in Hd. rewrite Hty in Hd. destruct n as [n|]; [|done].
  destruct (n =? 1) eqn:E1; [|done]. apply Z.eqb_eq in E1. destruct (constantOf defs index); [done|].
  injection Hd as <-. specialize (Hin _ _ _ _ Hty Hi). assert (idx = 0) as -> by lia.
  cbn [denotes oval oty]. rewrite Hty. injection Hp as ->. by eapply gep_yields.
Qed.

Lemma replaceAt_inv {A} (l : list A) i v l' : replaceAt l i v = Some l' →
  0 ≤ i < Z.of_nat (length l) ∧ l' = <[Z.to_nat i := v]> l.
Proof.
  unfold replaceAt. destruct (elementAt l i) as [x|] eqn:E; [|done]. intros [= <-].
  apply elementAt_lookup in E as [? E]. apply lookup_lt_Some in E. split; [lia|done].
Qed.

Lemma imap_insert (vs : list Attr) i v : 0 ≤ i < Z.of_nat (length vs) →
  map oval (imap (fun k a => if Z.of_nat k =? i then inl v else inr a) vs) = <[Z.to_nat i := env v]> vs.
Proof using Type.
  intros Hi. apply list_eq. intros k. rewrite lookup_map, list_lookup_imap.
  destruct (decide (k = Z.to_nat i)) as [->|Hne].
  - rewrite list_lookup_insert_eq by lia. destruct (lookup_lt_is_Some_2 vs (Z.to_nat i) ltac:(lia)) as [a ->].
    simpl. by rewrite (proj2 (Z.eqb_eq _ _)) by lia.
  - rewrite list_lookup_insert_ne by done. destruct (vs !! k); simpl; [|done].
    by rewrite (proj2 (Z.eqb_neq _ _)) by lia.
Qed.

Lemma denotes_create t (ops : list Operand) r : r = ArrayAttr (map oval ops) t →
  denotes oval oty (ArrayCreateOp ops) t r.
Proof using Type.
  intros ->. cbn [denotes]. unfold ArrayCreateOp_fold.
  by rewrite <- (map_map oval Some), POPRunFacts.allPresent_map.
Qed.

Lemma ArrayReplaceOp_canonicalize_sound value array i it t r :
  i < 2 ^ 32 → denotes env ty (ArrayReplaceOp value array (IntegerAttr i it)) t r →
  ∃ o, ArrayReplaceOp_canonicalize defs value array (IntegerAttr i it) = Some o ∧
    ∀ d, o = Some d → denotes oval oty d t r.
Proof using C.
  intros Hi Hden. cbn [denotes] in Hden. unfold ArrayReplaceOp_fold in Hden.
  destruct (asArray (Some (env array))) as [vs|] eqn:Ea; [|done]. cbn [pair asInteger] in Hden.
  destruct (replaceAt vs i (env value)) as [vs'|] eqn:Er; [|done]. injection Hden as <-.
  apply replaceAt_inv in Er as [Hb ->]. unfold ArrayReplaceOp_canonicalize. cbn [asInteger].
  rewrite Z.mod_small by lia. destruct (defs array) as [d|] eqn:Ed; [|by exists None].
  pose proof (consistent_def C _ _ Ed) as Hd.
  destruct d as [c| | | | | | |ops| | | | | | | | |]; try (by exists None); cbn [denotes] in Hd.
  - rewrite <- Hd, Ea. simpl. eexists. split; [done|]. intros d [= <-]. apply denotes_create.
    by rewrite imap_insert.
  - unfold ArrayCreateOp_fold in Hd. rewrite allPresent_env in Hd. injection Hd as Hd. rewrite <- Hd in Ea.
    injection Ea as <-. rewrite length_map in Hb. unfold replaceAt, elementAt.
    rewrite (proj2 (Z.ltb_ge _ _)) by lia. destruct (lookup_lt_is_Some_2 ops (Z.to_nat i) ltac:(lia)) as [x Hx].
    rewrite Hx. simpl. eexists. split; [done|]. intros d [= <-]. apply denotes_create.
    rewrite map_map. cbn [oval]. rewrite list_fmap_insert. done.
Qed.

(** ** Loads and stores *)

(** The type reached by [n] steps to the first element. *)
Fixpoint leadingElem (t : Ty) (n : nat) : option Ty :=
  match n with
  | O => Some t
  | S n => match t with StructType (Some (first :: _)) _ => leadingElem first n | _ => None end
  end.

Lemma leadingDepth_spec n : ∀ cur T, leadingDepth cur T = Some n → leadingElem cur n = Some T.
Proof.
  induction n as [|n IH]; intros cur T H; destruct cur as [| |els b| | | | | | |]; simpl in H;
    try (case_bool_decide; simplify_eq; done).
  - case_bool_decide; [by subst|]. destruct els as [[|f els]|]; try done.
    destruct (leadingDepth f T); by simplify_eq.
  - case_bool_decide; [done|]. destruct els as [[|f els]|]; try done. simpl.
    destruct (leadingDepth f T) as [m|] eqn:Em; simpl in H; [|done]. injection H as ->. by apply IH.
Qed.

(** [n] operations [struct.gep .., 0] from a pointer, each giving the address
    it is given, as [denotes] has it. *)
Inductive gepChain : Attr → nat → Attr → Prop :=
  | gepChain_O p : gepChain p O p
  | gepChain_S p n addr t t' : gepChain p n (PointerAttr addr t) → gepChain p (S n) (PointerAttr addr t').

Lemma gepChain_address p n q a t : gepChain p n q → p = PointerAttr a t → ∃ t', q = PointerAttr a t'.
Proof using Type.
  induction 1 as [|p n addr t1 t' _ IH]; intros Hp; [eauto|]. destruct (IH Hp) as [t2 [= -> _]]. eauto.
Qed.

(** What a rewritten load of type [T] gives. *)
Definition loads (rw : LoadRewrite) (T : Ty) (x : Attr) : Prop :=
  match rw with
  | ReplaceLoad v => env v = x
  | LoadThroughGEPs base n =>
      (∃ src, pointerElement (ty base) = Some src ∧ leadingElem src n = Some T) ∧
      ∀ q, gepChain (env base) n q → readAttributeFromPointer (Some q) T st = Success x
  | LoadThenBitcast p e =>
      ∃ y, readAttributeFromPointer (Some (env p)) e st = Success y ∧ foldPointerCast T (Some y) = Some x
  end.

Section Memory.
(** Reading depends on the address alone, and a pointer in memory has an
    address space but no element type. *)
Hypothesis read_address : ∀ a t t' T,
  readAttributeFromPointer (Some (PointerAttr a t)) T st = readAttributeFromPointer (Some (PointerAttr a t')) T st.
Hypothesis read_pointer : ∀ p e e' s addr t,
  readAttributeFromPointer p (PointerType e s) st = Success (PointerAttr addr t) →
    t = PointerType e s ∧
    readAttributeFromPointer p (PointerType e' s) st = Success (PointerAttr addr (PointerType e' s)).
Hypothesis write_pointer : ∀ addr x e e' s,
  writeAttributeToMemory addr (PointerAttr x (PointerType e s)) st
  = writeAttributeToMemory addr (PointerAttr x (PointerType e' s)) st.

Lemma LoadOp_canonicalize_sound hasOneUse isAtomic vol prevStore T ptr x rw :
  pointerElement (ty ptr) = Some T → readAttributeFromPointer (Some (env ptr)) T st = Success x →
  (∀ arg p a, prevStore = Some (arg, p, a) → pointerElement (ty p) = Some (ty arg) ∧
     ∀ y, readAttributeFromPointer (Some (env p)) (ty arg) st = Success y → y = env arg) →
  LoadOp_canonicalize defs ty hasOneUse isAtomic vol prevStore T ptr = Some rw →
  (∀ p e, rw = LoadThenBitcast p e →
     addressSpaceOf e = addressSpaceOf T ∧ ∃ a t, x = PointerAttr a t) →
  loads rw T x.
Proof using All.
  intros HT Hread Hprev Hrw Hspace. unfold LoadOp_canonicalize in Hrw. destruct (_ || _); [done|].
  destruct (match prevStore with Some _ => _ | None => _ end) as [r|] eqn:Ep.
  { injection Hrw as <-. destruct prevStore as [[[arg p] a]|]; [|done].
    destruct (Nat.eqb_spec p ptr) as [->|]; [|done]. destruct a; [done|]. injection Ep as <-. simpl.
    destruct (Hprev _ _ _ eq_refl) as [Ht Hy]. rewrite HT in Ht. injection Ht as ->. symmetry. by apply Hy. }
  clear Ep. destruct (leadingElement defs ty ptr) as [r|] eqn:El.
  { injection Hrw as <-. unfold leadingElement in El. destruct (defs ptr) as [d|] eqn:Ed; [|done].
    pose proof (consistent_def C _ _ Ed) as Hd. destruct d as [| | | | |input| | | | | | | | | | |]; try done.
    destruct (ty input) as [src sa| | | | | | | | |] eqn:Ei; try done.
    destruct (ty ptr) as [te sb| | | | | | | | |] eqn:Et; try done. simpl in HT. injection HT as ->.
    destruct (_ && _); [|done]. destruct (leadingDepth src T) as [[|n]|] eqn:En; try done. injection El as <-.
    cbn [denotes] in Hd. apply foldPointerCast_inv in Hd as (a & t & Ea & Eb). split.
    - exists src. rewrite Ei. split; [done|]. by apply leadingDepth_spec.
    - intros q Hq. destruct (gepChain_address _ _ _ _ _ Hq Ea) as [t' ->].
      by rewrite (read_address _ _ (PointerType T sb)), <- Eb. }
  clear El. destruct T as [te s| | | | | | | | |]; try done. simpl in Hrw.
  destruct (defs ptr) as [d|] eqn:Ed; [|done]. pose proof (consistent_def C _ _ Ed) as Hd.
  destruct d as [| | | | |input| | | | | | | | | | |]; try done. destruct (hasOneUse ptr); [|done].
  simpl in Hrw. destruct (ty input) as [el si| | | | | | | | |] eqn:Ei; try done.
  destruct el as [e' s'| | | | | | | | |]; try done. injection Hrw as <-.
  destruct (Hspace _ _ eq_refl) as [Hs' (xa & xt & ->)]. simpl in Hs'. injection Hs' as ->.
  cbn [denotes] in Hd. apply foldPointerCast_inv in Hd as (a & t & Ea & Eb).
  rewrite Eb, (read_address _ _ t), <- Ea in Hread.
  destruct (read_pointer _ _ e' _ _ _ Hread) as [-> Hy]. eexists. split; [exact Hy|done].
Qed.

Lemma StoreOp_canonicalize_sound isAtomic vol arg ptr rw addr pt :
  env ptr = PointerAttr addr pt → StoreOp_canonicalize defs ty isAtomic vol arg ptr = Some rw →
  match rw with
  | EraseStore => isUninit (Some (env arg)) = true
  | StoreBitcast p e v => v = arg ∧
      (addressSpaceOf e = addressSpaceOf (ty arg) → ∃ pt' x,
         env p = PointerAttr addr pt' ∧ env arg = PointerAttr x (ty arg) ∧
         writeAttributeToMemory addr (PointerAttr x e) st = writeAttributeToMemory addr (env arg) st) ∨
      typeOf (env arg) = ty arg ∧ ∀ x t, env arg ≠ PointerAttr x t
  end.
Proof using All.
  intros Hp. unfold StoreOp_canonicalize. destruct (_ || _); [done|].
  destruct (isUninit (constantOf defs arg)) eqn:Eu.
  { intros [= <-]. destruct (constantOf defs arg) as [c|] eqn:Ec; [|done]. by rewrite (constantOf_env _ _ Ec). }
  destruct (ty arg) as [ae as_| | | | | | | | |] eqn:Ea; try done. simpl.
  destruct (defs ptr) as [d|] eqn:Ed; [|done]. pose proof (consistent_def C _ _ Ed) as Hd.
  destruct d as [| | | | |input| | | | | | | | | | |]; try done.
  destruct (ty input) as [el si| | | | | | | | |] eqn:Ei; try done.
  destruct el as [e' s'| | | | | | | | |]; try done. intros [= <-].
  pose proof (consistent_type C arg) as Ht. destruct (env arg) as [x t| | | | | | | | |] eqn:Ev;
    try (right; split; [by rewrite Ht|done]).
  left. split; [done|]. simpl. intros [= ->]. cbn [denotes] in Hd.
  apply foldPointerCast_inv in Hd as (a & t' & E1 & E2). rewrite Hp in E2. injection E2 as -> _.
  simpl in Ht. rewrite Ea in Ht. subst t. exists t', x. split_and!; [done|done|]. apply write_pointer.
Qed.

End Memory.

(** The casts to and from builtin types undo each other, and the functions that
    fold them compute them. *)
Section Casts.
Variables foldCastToBuiltin foldCastFromBuiltin : Attr → Ty → option Attr.
Hypothesis to_from : ∀ a t b c, fromBuiltin a t b → toBuiltin b (typeOf a) c → c = a.
Hypothesis from_to : ∀ a t b c, toBuiltin a t b → fromBuiltin b (typeOf a) c → c = a.
Hypothesis fold_to : ∀ a t b c, foldCastToBuiltin a t = Some b → toBuiltin a t c → c = b.
Hypothesis fold_from : ∀ a t b c, foldCastFromBuiltin a t = Some b → fromBuiltin a t c → c = b.

Lemma CastOps_fold_sound t x r :
  (denotes env ty (CastToBuiltinOp x) t r → foldSound r (CastToBuiltinOp_fold defs ty foldCastToBuiltin t x)) ∧
  (denotes env ty (CastFromBuiltinOp x) t r →
     foldSound r (CastFromBuiltinOp_fold defs ty foldCastFromBuiltin t x)).
Proof using All.
  split; intros Hd; cbn [denotes] in Hd.
  - unfold CastToBuiltinOp_fold.
    assert (foldSound r match defs x with Some (CastFromBuiltinOp inner) =>
      if bool_decide (ty inner = t) then FoldValue inner else NoFold | _ => NoFold end) as Hback.
    { destruct (defs x) as [[]|] eqn:Ex; try done. case_bool_decide as Ht; [|done]. right.
      pose proof (consistent_def C _ _ Ex) as Hx. cbn [denotes] in Hx.
      rewrite <- Ht, <- (consistent_type C input) in Hd. symmetry. by eapply to_from. }
    destruct (constantOf defs x) as [[]|] eqn:Ea; try exact Hback.
    destruct (foldCastToBuiltin _ t) as [b|] eqn:Ef; [|done]. right.
    rewrite (constantOf_env _ _ Ea) in Hd. symmetry. by eapply fold_to.
  - unfold CastFromBuiltinOp_fold. destruct (constantOf defs x) as [a|] eqn:Ea.
    + destruct (foldCastFromBuiltin a t) as [b|] eqn:Ef; [|done]. right.
      rewrite (constantOf_env _ _ Ea) in Hd. symmetry. by eapply fold_from.
    + destruct (defs x) as [[]|] eqn:Ex; try done. case_bool_decide as Ht; [|done]. right.
      pose proof (consistent_def C _ _ Ex) as Hx. cbn [denotes] in Hx.
      rewrite <- Ht, <- (consistent_type C input) in Hd. symmetry. by eapply from_to.
Qed.
End Casts.

End Meaning.

(** ** The properties *)

Section Properties.
Context {DL : DataLayoutInterface} {IS : InterpreterState}.


(** C9: every canonicalization of an offset, select, pointer cast, free or
    array operation replaces it by one with the same result: offsets of offsets
    and of geps are merged, casts of casts and of arrays removed, an index into
    an array of one element becomes zero, a replaced element goes into the
    array's operands. For addresses below 2^63, accesses in bounds, and arrays
    whose element sizes the target knows. *)
Theorem memory_canonicalizations_sound target st boolType toBuiltin fromBuiltin defs ty env hasOneUse :
  Consistent target st boolType toBuiltin fromBuiltin defs ty env →
  (∀ v, addressFits (env v)) →
  (∀ v e n s, ty v = PointerType (ArrayType e n) s →
     ∃ tg sz, target = Some tg ∧ getTypeAllocSize tg e = Some sz) →
  let means op t r := denotes target st boolType toBuiltin fromBuiltin env ty op t r in
  let means' op t r := denotes target st boolType toBuiltin fromBuiltin (oval env) (oty ty) op t r in
  (∀ t p i r d, addressFits r → means (OffsetOp p i) t r → OffsetOp_canonicalize defs p i = Some d →
     means' d t r) ∧
  (∀ t c x y r d, means (SelectOp c x y) t r → SelectOfSelect defs c x y = Some d → means d t r) ∧
  (∀ t x r d, means (PointerBitcastOp x) t r → PointerBitcastOp_canonicalize defs ty hasOneUse t x = Some d →
     means' d t r) ∧
  (∀ t x r d, means (PointerToIndexOp x) t r → PointerToIndexOp_canonicalize defs ty x = Some d →
     means' d t r) ∧
  (∀ p q, AlignedFreeOp_canonicalize defs p = Some q →
     AlignedFreeOp_interpret (Some (env q)) st = AlignedFreeOp_interpret (Some (env p)) st) ∧
  (∀ t a i r d, inBounds ty env a i → means (ArrayGEPOp a i) t r →
     ArrayGEPOp_canonicalize defs ty a i = Some d → means' d t r) ∧
  (∀ t v a i it r, i < 2 ^ 32 → means (ArrayReplaceOp v a (IntegerAttr i it)) t r →
     ∃ o, ArrayReplaceOp_canonicalize defs v a (IntegerAttr i it) = Some o ∧ ∀ d, o = Some d → means' d t r).
Proof.
  intros C Hfit Hsized. cbv zeta. split_and!; intros.
  - by eapply OffsetOp_canonicalize_sound.
  - by eapply SelectOfSelect_sound.
  - by eapply PointerBitcastOp_canonicalize_sound.
  - by eapply PointerToIndexOp_canonicalize_sound.
  - by eapply AlignedFreeOp_canonicalize_sound.
  - by eapply ArrayGEPOp_canonicalize_sound.
  - by eapply ArrayReplaceOp_canonicalize_sound.
Qed.

(** C10: a rewritten load gives the same value: the value stored just before,
    the same address through geps to the first element, whose type is the type
    loaded, or the pointer found under another element type. A rewritten store
    of a pointer writes the same; an erased one stored nothing known. For
    memories where a pointer has an address space but no element type, and
    rewrites that do not change the address space of the pointer in memory. *)
Theorem load_store_canonicalize_sound target st boolType toBuiltin fromBuiltin defs ty env hasOneUse :
  Consistent target st boolType toBuiltin fromBuiltin defs ty env →
  (∀ a t t' T, readAttributeFromPointer (Some (PointerAttr a t)) T st
               = readAttributeFromPointer (Some (PointerAttr a t')) T st) →
  (∀ p e e' s addr t, readAttributeFromPointer p (PointerType e s) st = Success (PointerAttr addr t) →
     t = PointerType e s ∧
     readAttributeFromPointer p (PointerType e' s) st = Success (PointerAttr addr (PointerType e' s))) →
  (∀ addr x e e' s, writeAttributeToMemory addr (PointerAttr x (PointerType e s)) st
     = writeAttributeToMemory addr (PointerAttr x (PointerType e' s)) st) →
  (∀ isAtomic vol prevStore T ptr x rw,
     pointerElement (ty ptr) = Some T → readAttributeFromPointer (Some (env ptr)) T st = Success x →
     (∀ arg p a, prevStore = Some (arg, p, a) → pointerElement (ty p) = Some (ty arg) ∧
        ∀ y, readAttributeFromPointer (Some (env p)) (ty arg) st = Success y → y = env arg) →
     LoadOp_canonicalize defs ty hasOneUse isAtomic vol prevStore T ptr = Some rw →
     (∀ p e, rw = LoadThenBitcast p e → addressSpaceOf e = addressSpaceOf T ∧ ∃ a t, x = PointerAttr a t) →
     loads st ty env rw T x) ∧
  (∀ isAtomic vol arg ptr addr pt rw,
     env ptr = PointerAttr addr pt → StoreOp_canonicalize defs ty isAtomic vol arg ptr = Some rw →
     match rw with
     | EraseStore => isUninit (Some (env arg)) = true
     | StoreBitcast p e v => v = arg ∧
         (addressSpaceOf e = addressSpaceOf (ty arg) → ∃ pt' x,
            env p = PointerAttr addr pt' ∧ env arg = PointerAttr x (ty arg) ∧
            writeAttributeToMemory addr (PointerAttr x e) st = writeAttributeToMemory addr (env arg) st) ∨
         typeOf (env arg) = ty arg ∧ ∀ x t, env arg ≠ PointerAttr x t
     end).
Proof.
  intros C Ha Hp Hw. split; intros.
  - by eapply LoadOp_canonicalize_sound.
  - by eapply StoreOp_canonicalize_sound.
Qed.

End Properties.

(** The rewrite of a load of a pointer through a cast does not compare the
    address spaces of the two pointer types: a pointer of space 3 is loaded
    where one of space 0 was. *)
Lemma load_bitcast_changes_address_space :
  let local := PointerType (OtherType 0) 3 in
  let generic := PointerType (OtherType 0) 0 in
  let defs v := match v with 1%nat => Some (PointerBitcastOp 0%nat) | _ => None end in
  let ty v := match v with 0%nat => PointerType local 0 | _ => PointerType generic 0 end in
  LoadOp_canonicalize defs ty (fun _ => true) false false None generic 1
  = Some (LoadThenBitcast 0 local).
Proof. done. Qed.

(** an index outside a constant array stops the compiler in
    [pop.array.replace], where [pop.array.get] leaves the operation alone: the
    folder reads past the end, for a negative index too, and so does the
    canonicalization on an array built from operands; on an array that is an
    uninitialized constant the canonicalization fails a cast. *)
Theorem array_replace_unchecked t i it vs ta v ops defs ty value array :
  i < 0 ∨ Z.of_nat (length vs) ≤ i → - 2 ^ 32 < i < 2 ^ 32 →
  Z.of_nat (length ops) ≤ i mod 2 ^ 32 →
  ArrayReplaceOp_fold t (IntegerAttr i it) (Some v) (Some (ArrayAttr vs ta)) = None ∧
  ArrayGetOp_foldConstant (ArrayType t (Some (Z.of_nat (length vs)))) t None (IntegerAttr i it)
    (Some (ArrayAttr vs ta)) = Some None ∧
  (defs array = Some (ArrayCreateOp ops) →
     ArrayReplaceOp_canonicalize defs value array (IntegerAttr i it) = None) ∧
  (defs array = Some (ArrayCreateOp ops) → ty array = ArrayType t (Some (Z.of_nat (length ops))) →
     i < 0 ∨ Z.of_nat (length ops) ≤ i →
     ArrayGetOp_fold defs ty t array (IntegerAttr i it) = Some NoFold) ∧
  (∀ ut, defs array = Some (ParamConstantOp (UninitMemAttr ut)) →
     ArrayReplaceOp_canonicalize defs value array (IntegerAttr i it) = None).
Proof.
  intros Hi Hr Hops.
  assert (∀ A (l : list A) j, j < 0 ∨ Z.of_nat (length l) ≤ j → elementAt l j = None) as Hout.
  { intros A l j Hj. unfold elementAt. destruct (Z.ltb_spec j 0); [done|]. apply lookup_ge_None_2. lia. }
  assert (∀ n j, j < 0 ∨ n ≤ j → (j <? 0) || (n <=? j) = true) as Htest.
  { intros n j [H|H]; [by rewrite (proj2 (Z.ltb_lt _ _))|]. rewrite (proj2 (Z.leb_le n j)) by done.
    apply orb_true_r. }
  split_and!.
  - unfold ArrayReplaceOp_fold. cbn [pair asArray asInteger]. unfold replaceAt. by rewrite Hout.
  - unfold ArrayGetOp_foldConstant. simpl. by rewrite Htest.
  - intros Hd. unfold ArrayReplaceOp_canonicalize. rewrite Hd. cbn [asInteger]. unfold replaceAt.
    rewrite Hout by auto. done.
  - intros Hd Hty Ho. unfold ArrayGetOp_fold, constantOf. rewrite Hd, Hty. simpl. by rewrite Htest.
  - intros ut Hd. unfold ArrayReplaceOp_canonicalize. by rewrite Hd.
Qed.

(** ** Concrete values *)

#[local] Existing Instance POPRunFacts.mem_state.
#[local] Existing Instance POPRunFacts.mem_layout.

Definition i32 : Ty := IntegerType 32.
Definition scalarBool : Ty := SIMDType (Some 1) (Some 1).
Definition noCast (_ : Attr) (_ : Ty) (_ : Attr) : Prop := False.

(** A constant array of three integers at 64; gep 2 of it; gep 0 of it. *)
Definition table : Attr := ArrayAttr (map (fun z => IntegerAttr z i32) [10; 20; 30]) (ArrayType i32 (Some 3)).
Definition tableMem : St :=
  {| POPRunFacts.blocks := [(64, 12)]; POPRunFacts.nextAddr := 128;
     POPRunFacts.cells := {[ 64 := table; 68 := IntegerAttr 20 i32; 72 := IntegerAttr 30 i32 ]};
     POPRunFacts.globals := ∅; POPRunFacts.written := [] |}.
Definition tableDefs (v : nat) : option (Def nat) :=
  match v with
  | 0%nat => Some (GlobalConstantOp table)
  | 1%nat => Some (ParamConstantOp (IntegerAttr 2 IndexType))
  | 2%nat => Some (ArrayGEPOp 0 1)
  | 3%nat => Some (ParamConstantOp (IntegerAttr 0 IndexType))
  | 4%nat => Some (ArrayGEPOp 0 3)
  | _ => None
  end%nat.
Definition tableEnv (v : nat) : Attr :=
  match v with
  | 0%nat => PointerAttr 64 (PointerType (ArrayType i32 (Some 3)) 0)
  | 1%nat => IntegerAttr 2 IndexType
  | 2%nat => PointerAttr 72 (PointerType i32 0)
  | 3%nat => IntegerAttr 0 IndexType
  | 4%nat => PointerAttr 64 (PointerType i32 0)
  | _ => UninitMemAttr (OtherType 1)
  end.
Definition tableTy (v : nat) : Ty := typeOf (tableEnv v).

Lemma table_holds : holds (Some tt) tableMem 64 table.
Proof.
  split; [done|]. intros vs e n Ht i v off Hi Hoff. injection Ht as <- <- <-. split; [done|]. intros t.
  assert (off = 4 * Z.of_nat i) as ->.
  { destruct Hoff as [[-> ->]|(tg & sz & _ & Hsz & ->)]; [done|]. vm_compute in Hsz. by injection Hsz as <-. }
  destruct i as [|[|[|i]]]; simpl in Hi; simplify_eq; by vm_compute.
Qed.

Lemma table_consistent : Consistent (Some tt) tableMem scalarBool noCast noCast tableDefs tableTy tableEnv.
Proof.
  split.
  - intros v d Hd. destruct v as [|[|[|[|[|v]]]]]; [| | | | |discriminate]; injection Hd as <-.
    + exists 64. split; [reflexivity|]. split; [reflexivity|apply table_holds].
    + reflexivity.
    + vm_compute. reflexivity.
    + reflexivity.
    + vm_compute. reflexivity.
  - reflexivity.
  - intros v b t Hty. by destruct v as [|[|[|[|[|v]]]]].
Qed.


Lemma memory_canonicalizations_sound_witness :
  denotes (Some tt) tableMem scalarBool noCast noCast (oval tableEnv) (oty tableTy)
    (ArrayGEPOp (inl 0%nat) (inl 1%nat)) (PointerType i32 0) (PointerAttr 72 (PointerType i32 0)).
Proof.
  refine (proj1 (@memory_canonicalizations_sound POPRunFacts.mem_layout POPRunFacts.mem_state (Some tt)
    tableMem scalarBool noCast noCast tableDefs tableTy tableEnv (fun _ => true) table_consistent _ _)
    (PointerType i32 0) 4%nat 1%nat (PointerAttr 72 (PointerType i32 0)) _ _ _ _).
  - intros v p t. destruct v as [|[|[|[|[|v]]]]]; simpl; intros; simplify_eq; lia.
  - intros v e n s H. exists tt. destruct v as [|[|[|[|[|v]]]]]; vm_compute in H; try done.
    injection H as <- <- <-. by exists 4.
  - intros p t H. simplify_eq. lia.
  - by vm_compute.
  - by vm_compute.
Defined.

(** A cell at 64 that holds the pointer 128. *)
Definition pointerMem : St :=
  {| POPRunFacts.blocks := [(64, 8)]; POPRunFacts.nextAddr := 256;
     POPRunFacts.cells := {[ 64 := PointerAttr 128 (PointerType (OtherType 0) 0) ]};
     POPRunFacts.globals := ∅; POPRunFacts.written := [] |}.
Definition pointerEnv (v : nat) : Attr :=
  match v with
  | 0%nat => PointerAttr 64 (PointerType (PointerType i32 0) 0)
  | 1%nat => PointerAttr 64 (PointerType (PointerType IndexType 0) 0)
  | _ => UninitMemAttr (OtherType 1)
  end.
Definition pointerDefs (v : nat) : option (Def nat) :=
  match v with 1%nat => Some (PointerBitcastOp 0%nat) | _ => None end.
Definition pointerTy (v : nat) : Ty := typeOf (pointerEnv v).

Lemma pointer_consistent :
  Consistent (Some tt) pointerMem scalarBool noCast noCast pointerDefs pointerTy pointerEnv.
Proof.
  split.
  - intros v d Hd. destruct v as [|[|v]]; simpl in Hd; simplify_eq. by vm_compute.
  - done.
  - intros v b t Hty. by destruct v as [|[|v]].
Qed.

Lemma pointerMem_read p e e' s addr t :
  readAttributeFromPointer p (PointerType e s) pointerMem = Success (PointerAttr addr t) →
  t = PointerType e s ∧
  readAttributeFromPointer p (PointerType e' s) pointerMem = Success (PointerAttr addr (PointerType e' s)).
Proof.
  simpl. unfold POPRunFacts.readCell. destruct (asPointer p) as [[a u]|]; [|done]. simpl.
  destruct (decide (a = 64)) as [->|Hne]; [|by rewrite lookup_singleton_ne].
  rewrite lookup_singleton_eq. simpl. destruct s; simpl; try done. intros H. by simplify_eq.
Qed.

Lemma load_store_canonicalize_sound_witness :
  loads pointerMem pointerTy pointerEnv (LoadThenBitcast 0 (PointerType i32 0)) (PointerType IndexType 0)
    (PointerAttr 128 (PointerType IndexType 0)).
Proof.
  refine (proj1 (@load_store_canonicalize_sound POPRunFacts.mem_layout POPRunFacts.mem_state (Some tt)
    pointerMem scalarBool noCast noCast pointerDefs pointerTy pointerEnv (fun _ => true) pointer_consistent
    _ pointerMem_read _) false false None (PointerType IndexType 0) 1%nat _ _ _ _ _ _ _).
  - done.
  - done.
  - done.
  - by vm_compute.
  - done.
  - by vm_compute.
  - intros p e [= <- <-]. split; [done|]. by exists 128, (PointerType IndexType 0).
Defined.

Lemma array_replace_unchecked_witness :
  ArrayReplaceOp_fold (ArrayType i32 (Some 3)) (IntegerAttr (-1) IndexType) (Some (IntegerAttr 5 i32)) (Some table)
    = None.
Proof.
  apply (array_replace_unchecked (ArrayType i32 (Some 3)) (-1) IndexType
    (map (fun z => IntegerAttr z i32) [10; 20; 30]) (ArrayType i32 (Some 3)) (IntegerAttr 5 i32) []
    (fun _ => None) (fun _ => i32) 0%nat 0%nat); simpl; [by left|lia|done].
Defined.

End POPMemSound.
