(* ===== verification/POPSimd.v ===== *)
(** How the compile-time interpreter runs the SIMD operations of the POP
    dialect: the folders the interpreter goes through and the [interpret] and
    [parametric_interpret] methods of Mojo/lib/POPDialect/POPOpsFolders.cpp,
    with the casts between element types and bit patterns. *)
From S2P Require Import Prelude LLVMSupport StringRef POPTypes POPReshape POPFolds POPAttrs POPInterp.

Module POPSimd.
Import POPAttrs POPInterp POPTypes.

(** A folder's result: an attribute, the value of the operand of that number,
    or nothing. *)
Inductive FoldResult := FoldAttr (a : Attr) | FoldOperand (i : nat) | NoFold.

Definition simdSize (t : Ty) : option Z := match t with SIMDType n _ => n | _ => None end.
Definition simdDType (t : Ty) : option DTypeCode := match t with SIMDType _ d => d | _ => None end.
(** [SIMDType::isScalar]. *)
Definition isScalar (t : Ty) : bool := bool_decide (simdSize t = Some 1).
Definition boolVal (v : Z) : bool := negb (v =? 0).

(** The constants of builtin types that [CastFromBuiltinOp] converts: elements
    of an array attribute of the given kind, or a scalar. *)
Inductive BuiltinKind := BuiltinBool | BuiltinInt | BuiltinIndex | BuiltinFloat.
Inductive Builtin :=
  | BuiltinVector (kind : BuiltinKind) (values : list Z)
  | BuiltinScalar (kind : BuiltinKind) (value : Z).

Section Simd.
Context {DL : DataLayoutInterface} {IS : InterpreterState} {LM : LLVMMath} {DT : DTypes}.

(** What the code asks of element types, of the target, and of functions in
    other files. *)
Variable dtypeOf : DTypeCode → DType.
Variable kBool : DTypeCode.
Variable target : option TargetInfo.
Variable resolveIndexBitWidth : TargetInfo → Z.
Variable getIsLittleEndian : TargetInfo → bool.
Variable getReboundType : Ty → Ty.
Variable getReboundAttribute : Attr → Attr.
Variable foldSIMDSplat : option Attr → Ty → FoldResult.
Variable foldCast : Attr → Ty → Ty → Ty → option Z → option Attr.
Variable foldSIMDRound : option Attr → option TargetInfo → option Attr.
(** [foldSIMDOp] with the remainder of its lanes. *)
Variable foldSIMDRem : list (option Attr) → option Z → option Attr.
(** [foldSIMDOpResult] with a function that keeps the bits of each lane: for
    types other than index types, and for index types of the given width. *)
Variable foldBitsNoIndex foldBitsOther : option Attr → DTypeCode → option Z → option Attr.
Variable hasFloatSemantics : DType → bool.
Variable builtinOf : Attr → option Builtin.
Variable interpretMemcpy : option Attr → option Attr → option Attr → Interp (list (option Attr)).
Variable interpretOpWithFolder : FoldResult → list (option Attr) → Interp (list (option Attr)).

Definition mapResult (a : Attr) : Interp (list (option Attr)) := ret [Some a].
(** [operands[i]], handed on. *)
Definition mapOperand (a : option Attr) : Interp (list (option Attr)) := ret [a].
Definition attrOr (a : option Attr) (otherwise : FoldResult) : FoldResult :=
  match a with Some a => FoldAttr a | None => otherwise end.
(** A folder that reads out of range. *)
Definition throughFolder (r : option FoldResult) (operands : list (option Attr))
    : Interp (list (option Attr)) := r ← must r; interpretOpWithFolder r operands.

Definition validateSIMDConstruction (t : Ty) : ErrorOr unit :=
  POPFolds.validateSIMDConstruction (simdSize t) (dtypeOf <$> simdDType t).
Definition lift {A} (e : ErrorOr A) : Interp A := fun s => Some (e, s).

(** ** RoundOp, RemOp *)

Definition RoundOp_interpret (operand : option Attr) : Interp (list (option Attr)) :=
  match foldSIMDRound operand target with
  | Some a => mapResult a
  | None => fail "failed to interpret POP::RoundOp"
  end.
Definition RoundOp_parametric_interpret (operand : option Attr) : Interp (list (option Attr)) :=
  match foldSIMDRound operand target with
  | Some a => mapResult a
  | None => fail "failed to interpret POP::RoundOp"
  end.

Definition foldRemOp (operands : list (option Attr)) : option Attr :=
  if existsb (fun a => bool_decide (asSIMD a = None)) operands then None else
  match operands with
  | Some a :: _ =>
      _ ← simdDType (typeOf a); foldSIMDRem operands (resolveIndexBitWidth <$> target)
  | _ => None
  end.
Definition RemOp_interpret (operands : list (option Attr)) : Interp (list (option Attr)) :=
  match foldRemOp operands with
  | Some a => mapResult a
  | None => fail "failed to interpret POP::RemOp"
  end.
Definition RemOp_parametric_interpret (operands : list (option Attr)) : Interp (list (option Attr)) :=
  match foldRemOp operands with
  | Some a => mapResult a
  | None => fail "failed to interpret POP::RemOp"
  end.

(** ** BitcastOp *)

Definition isAnyIndex (t : DType) : bool := isIndex t || isUIndex t.

(** [isAddress]: among the queries of the input only this one is not in
    [DTypes]. *)
Variable isAddress : DType → bool.

Definition bitcastSIMDIndex (operand : option Attr) (inputDType : DTypeCode) (outputDType : DTypeCode)
    : option Attr :=
  let t := dtypeOf inputDType in
  if isAnyIndex t || isAddress t then
    target ← target; foldBitsOther operand outputDType (Some (resolveIndexBitWidth target))
  else foldBitsNoIndex operand outputDType None.

(** The last branch asserts a float type. *)
Definition evaluateBitcastOp (resultType inputType : Ty) (operand : option Attr) : option (option Attr) :=
  match simdDType resultType, simdDType inputType, simdSize inputType, simdSize resultType with
  | Some dtype, Some inputDType, Some inputSize, Some outputSize =>
      let out := dtypeOf dtype in
      let inp := dtypeOf inputDType in
      let byLanes :=
        if isBool inp || isBool out then Some None
        else if isInt out then Some (bitcastSIMDIndex operand inputDType dtype)
        else if isAnyIndex out then Some (foldBitsOther operand dtype None)
        else if isFloat out then
          if hasFloatSemantics out then Some (bitcastSIMDIndex operand inputDType dtype) else Some None
        else None in
      match asSIMD operand with
      | Some (values, _) =>
          if negb (inputSize =? outputSize) || isBool inp || isBool out then
            Some (values ← POPReshape.reshape values inp inputSize out outputSize (getIsLittleEndian <$> target);
                  Some (SIMDAttr values (SIMDType (Some outputSize) (Some dtype))))
          else byLanes
      | None => byLanes
      end
  | _, _, _, _ => Some None
  end.

Definition BitcastOp_interpret (type inputType : Ty) (operand : option Attr) : Interp (list (option Attr)) :=
  result ← must (evaluateBitcastOp type inputType operand);
  match result with Some a => mapResult a | None => fail "failed to interpret bitcast" end.
Definition BitcastOp_parametric_interpret (type : Ty) (operand : option Attr) : Interp (list (option Attr)) :=
  let resultType := getReboundType type in
  a ← must operand;
  (if isSIMDType resultType && isSIMDType (typeOf a) then ret tt else crash) ≫= fun _ =>
  result ← must (evaluateBitcastOp resultType (typeOf a) operand);
  match result with Some a => mapResult a | None => fail "failed to interpret bitcast" end.

(** ** CastOp *)

(** The operation's input itself, when nothing changes. *)
Definition castOpfoldHelper (operand : option Attr) (resultType inputType outputType : Ty)
    (indexBitWidth : option Z) : FoldResult :=
  match operand, asSIMD operand, simdDType resultType with
  | Some a, Some _, Some _ => attrOr (foldCast a resultType inputType outputType indexBitWidth) NoFold
  | _, _, _ => if bool_decide (inputType = outputType) then FoldOperand 0 else NoFold
  end.
Definition CastOp_fold (type inputType : Ty) (operand : option Attr) : FoldResult :=
  castOpfoldHelper operand type inputType type None.

(** A result that is the operation's input is cast to an attribute, which
    fails. *)
Definition castResult (resultType : Ty) (r : FoldResult) : Interp (list (option Attr)) :=
  match r with
  | FoldAttr a => mapResult a
  | FoldOperand _ => crash
  | NoFold => _ ← lift (validateSIMDConstruction resultType); fail "failed to interpret POP::CastOp"
  end.
Definition CastOp_interpret (type : Ty) (operand : option Attr) : Interp (list (option Attr)) :=
  a ← must operand;
  (if isSIMDType type && isSIMDType (typeOf a) then ret tt else crash) ≫= fun _ =>
  target ← must target;
  castResult type (castOpfoldHelper operand type (typeOf a) type (Some (resolveIndexBitWidth target))).
Definition CastOp_parametric_interpret (type : Ty) (operand : option Attr) : Interp (list (option Attr)) :=
  a ← must operand;
  let resultType := getReboundType type in
  let inputType := getReboundType (typeOf a) in
  (if isSIMDType resultType && isSIMDType inputType then ret tt else crash) ≫= fun _ =>
  target ← must target;
  castResult resultType
    (castOpfoldHelper operand resultType inputType resultType (Some (resolveIndexBitWidth target))).

(** ** SIMDExtractElementOp, SIMDInsertElementOp *)

Definition SIMDExtractElementOp_fold (vectorType type : Ty) (vector position : option Attr)
    : option FoldResult :=
  if isScalar vectorType then Some (attrOr vector (FoldOperand 0)) else
  match pair (asSIMD vector) (asInteger position) with
  | None => Some NoFold
  | Some (values, _, idx) => v ← elementAt values idx; Some (FoldAttr (SIMDAttr [v] type))
  end.
Definition SIMDExtractElementOp_interpret (vectorType type : Ty) (vector position : option Attr)
    : Interp (list (option Attr)) :=
  throughFolder (SIMDExtractElementOp_fold vectorType type vector position) [vector; position].
Definition SIMDExtractElementOp_parametric_interpret (type : Ty) (vector position : option Attr)
    : Interp (list (option Attr)) :=
  a ← must vector;
  let vectorType := getReboundType (typeOf a) in
  (if isSIMDType vectorType then ret tt else crash) ≫= fun _ =>
  if isScalar vectorType then mapOperand vector else
  '(values, _, idx) ← need "non-constant inputs" (pair (asSIMD vector) (asInteger position));
  v ← must (elementAt values idx);
  if isSIMDType (getReboundType type) then mapResult (SIMDAttr [v] (getReboundType type)) else crash.

(** An insertion into undefined memory is one into zero. *)
Definition vectorValues (type : Ty) (vector : option Attr) : option (option (list Z)) :=
  match asSIMD vector with
  | Some (values, _) => Some (Some values)
  | None => if isUninit vector then n ← simdSize type; Some (Some (replicate (Z.to_nat n) 0)) else Some None
  end.
Definition insertElement (type : Ty) (vector value position : option Attr) : option (option Attr) :=
  vec ← vectorValues type vector;
  match pair vec (pair (asSIMD value) (asInteger position)) with
  | None => Some None
  | Some (values, (val, _, idx)) =>
      v ← head val; values ← replaceAt values idx v; Some (Some (SIMDAttr values type))
  end.
Definition SIMDInsertElementOp_interpret (type : Ty) (vector value position : option Attr)
    : Interp (list (option Attr)) :=
  throughFolder ((fun r => attrOr r NoFold) <$> insertElement type vector value position)
    [vector; value; position].
Definition SIMDInsertElementOp_parametric_interpret (type : Ty) (vector value position : option Attr)
    : Interp (list (option Attr)) :=
  let type := getReboundType type in
  (if isSIMDType type then ret tt else crash) ≫= fun _ =>
  r ← must (insertElement type vector value position);
  match r with Some a => mapResult a | None => fail "non-constant inputs" end.

(** ** SIMDSelectOp *)

Fixpoint selectLanes (cond t f : list Z) : list Z :=
  match cond, t, f with
  | c :: cond, x :: t, y :: f => (if boolVal c then x else y) :: selectLanes cond t f
  | _, _, _ => []
  end.
Definition allOnOff (on off : option Attr) : bool :=
  match asSIMD on, asSIMD off with
  | Some (t, _), Some (f, _) => forallb boolVal t && forallb (fun v => negb (boolVal v)) f
  | _, _ => false
  end.

(** [sameValue]: are the true and the false value the same value? *)
Definition SIMDSelectOp_fold (type : Ty) (sameValue : bool) (cond trueValue falseValue : option Attr)
    : FoldResult :=
  match asSIMD cond, asSIMD trueValue, asSIMD falseValue with
  | Some (c, _), Some (t, _), Some (f, _) => FoldAttr (SIMDAttr (selectLanes c t f) type)
  | _, _, _ =>
      if sameValue then FoldOperand 1
      else match asSIMD cond with
           | Some (c, _) =>
               if forallb boolVal c then FoldOperand 1
               else if forallb (fun v => negb (boolVal v)) c then FoldOperand 2
               else if bool_decide (simdDType type = Some kBool) && allOnOff trueValue falseValue
               then FoldOperand 0 else NoFold
           | None =>
               if bool_decide (simdDType type = Some kBool) && allOnOff trueValue falseValue
               then FoldOperand 0 else NoFold
           end
  end.
Definition SIMDSelectOp_interpret (type : Ty) (sameValue : bool) (cond trueValue falseValue : option Attr)
    : Interp (list (option Attr)) :=
  interpretOpWithFolder (SIMDSelectOp_fold type sameValue cond trueValue falseValue)
    [cond; trueValue; falseValue].
Definition SIMDSelectOp_parametric_interpret (type : Ty) (sameValue : bool)
    (cond trueValue falseValue : option Attr) : Interp (list (option Attr)) :=
  let type := getReboundType type in
  (if isSIMDType type then ret tt else crash) ≫= fun _ =>
  match asSIMD cond, asSIMD trueValue, asSIMD falseValue with
  | Some (c, _), Some (t, _), Some (f, _) => mapResult (SIMDAttr (selectLanes c t f) type)
  | _, _, _ =>
      if sameValue then mapOperand trueValue
      else match asSIMD cond with
           | Some (c, _) =>
               if forallb boolVal c then mapOperand trueValue
               else if forallb (fun v => negb (boolVal v)) c then mapOperand falseValue
               else if bool_decide (simdDType type = Some kBool) && allOnOff trueValue falseValue
               then mapOperand cond else fail "cannot interpret SIMDSelect"
           | None =>
               if bool_decide (simdDType type = Some kBool) && allOnOff trueValue falseValue
               then mapOperand cond else fail "cannot interpret SIMDSelect"
           end
  end.

(** [select(x, false, true)] becomes an exclusive or of the condition with the
    false value. *)
Definition SIMDSelectOp_canonicalize (type : Ty) (trueConstant falseConstant : option Attr) : bool :=
  bool_decide (simdDType type = Some kBool) && allOnOff falseConstant trueConstant.

(** ** SIMDShuffleOp *)

Definition maskValues (mask : Attr) : option (option (list Z)) :=
  match asArray (Some mask) with
  | None => None
  | Some values => Some (mapM (fun a => asInteger (Some a)) values)
  end.
Definition shuffleLanes (lhs rhs mask : list Z) : option (list Z) :=
  mapM (elementAt (lhs ++ rhs)%list) mask.

Definition SIMDShuffleOp_fold (type : Ty) (mask : Attr) (lhs rhs : option Attr) : option FoldResult :=
  match simdSize type, asSIMD lhs, asSIMD rhs, maskValues mask with
  | Some _, Some (l, _), Some (r, _), Some (Some mask) =>
      lanes ← shuffleLanes l r mask; Some (FoldAttr (SIMDAttr lanes type))
  | _, _, _, _ => Some NoFold
  end.
Definition SIMDShuffleOp_interpret (type : Ty) (mask : Attr) (lhs rhs : option Attr)
    : Interp (list (option Attr)) :=
  throughFolder (SIMDShuffleOp_fold type mask lhs rhs) [lhs; rhs].
Definition SIMDShuffleOp_parametric_interpret (type : Ty) (mask : Attr) (lhs rhs : option Attr)
    : Interp (list (option Attr)) :=
  let type := getReboundType type in
  (if isSIMDType type then ret tt else crash) ≫= fun _ =>
  match simdSize type, asSIMD lhs, asSIMD rhs, maskValues (getReboundAttribute mask) with
  | Some _, Some (l, _), Some (r, _), Some mask =>
      mask ← need "mask is unknown constant" mask;
      lanes ← must (shuffleLanes l r mask);
      mapResult (SIMDAttr lanes type)
  | _, _, _, _ => fail "non-constant inputs"
  end.

(** ** SIMDSplatOp *)

Definition SIMDSplatOp_interpret (type : Ty) (scalar : option Attr) : Interp (list (option Attr)) :=
  _ ← lift (validateSIMDConstruction type);
  interpretOpWithFolder (foldSIMDSplat scalar type) [scalar].
Definition SIMDSplatOp_parametric_interpret (type : Ty) (scalar : option Attr) : Interp (list (option Attr)) :=
  let resultType := getReboundType type in
  (if isSIMDType resultType then ret tt else crash) ≫= fun _ =>
  if isScalar resultType then mapOperand scalar else
  _ ← lift (validateSIMDConstruction resultType);
  '(size, (values, _)) ← need "cannot find size or is not a scalar" (pair (simdSize resultType) (asSIMD scalar));
  v ← must (head values);
  mapResult (SIMDAttr (replicate (Z.to_nat size) v) resultType).

(** ** CastFromBuiltinOp, MemcpyOp *)

(** The elements of an array attribute as lanes of [dtype], which decides the
    class the attribute is cast to; [None]: the cast fails. *)
Definition vectorLanes (dtype : DType) (kind : BuiltinKind) (values : list Z) : option (list Z) :=
  if isBool dtype then
    match kind with BuiltinInt => Some (map (fun v => if boolVal v then 1 else 0) values) | _ => None end
  else if isIndex dtype then match kind with BuiltinIndex => Some values | _ => None end
  else if isInt dtype then match kind with BuiltinInt => Some values | _ => None end
  else match kind with BuiltinFloat => Some values | _ => None end.
(** A [BoolAttr] and an index are integer attributes too; otherwise a float type
    is asserted. *)
Definition scalarLane (dtype : DType) (kind : BuiltinKind) (v : Z) : option Z :=
  if isBool dtype then match kind with BuiltinBool => Some v | _ => None end
  else if isIndex dtype || isInt dtype then match kind with BuiltinFloat => None | _ => Some v end
  else if isFloat dtype then match kind with BuiltinFloat => Some v | _ => None end
  else None.
(** A vector keeps the operation's type, a scalar gets the rebound one; an
    unresolved element type is success without a result. *)
Definition CastFromBuiltinOp_parametric_interpret (type : Ty) (operand : option Attr)
    : Interp (list (option Attr)) :=
  let reboundType := getReboundType type in
  (if isSIMDType reboundType then ret tt else crash) ≫= fun _ =>
  match operand with
  | None => ret [operand]
  | Some val =>
      match builtinOf val with
      | None => ret [operand]
      | Some b =>
          match dtypeOf <$> simdDType reboundType with
          | None => ret []
          | Some dtype =>
              match b with
              | BuiltinVector kind values =>
                  lanes ← must (vectorLanes dtype kind values); mapResult (SIMDAttr lanes type)
              | BuiltinScalar kind v =>
                  lane ← must (scalarLane dtype kind v); mapResult (SIMDAttr [lane] reboundType)
              end
          end
      end
  end.

Definition MemcpyOp_interpret (dest src size : option Attr) : Interp (list (option Attr)) :=
  interpretMemcpy dest src size.
(** The operands themselves are rebound. *)
Definition MemcpyOp_parametric_interpret (dest src size : option Attr) : Interp (list (option Attr)) :=
  interpretMemcpy (getReboundAttribute <$> dest) (getReboundAttribute <$> src) (getReboundAttribute <$> size).

End Simd.
End POPSimd.
