(* ===== verification/POPSimdRun.v ===== *)
(** The two ways the interpreter runs a SIMD operation agree: on elaborated code
    through the folders, and on generic code under bindings of its
    parameters. *)
From S2P Require Import Prelude LLVMSupport LLVMTypes StringRef POPTypes POPReshape POPFolds POPAttrs POPInterp POPRun POPRunFacts POPSimd.

Module POPSimdRun.
Import POPAttrs POPInterp POPTypes POPSimd.

(** An operation with what it carries beside its operands: its type, and the
    types of operands a folder looks at. *)
Inductive Operation :=
  | RoundOp
  | RemOp
  | BitcastOp (type inputType : Ty)
  | CastOp (type : Ty)
  | SIMDExtractElementOp (vectorType type : Ty)
  | SIMDInsertElementOp (type : Ty)
  | SIMDSelectOp (type : Ty) (sameValue : bool)
  | SIMDShuffleOp (type : Ty) (mask : Attr)
  | SIMDSplatOp (type : Ty)
  | MemcpyOp.

Section Run.
Context {DL : DataLayoutInterface} {IS : InterpreterState} {LM : LLVMMath} {DT : DTypes}.
Variable dtypeOf : DTypeCode → DType.
Variable kBool : DTypeCode.
Variable target : option TargetInfo.
Variable resolveIndexBitWidth : TargetInfo → Z.
Variable getIsLittleEndian : TargetInfo → bool.
Variable getReboundType : Ty → Ty.
Variable getReboundAttribute : Attr → Attr.
Variable foldSIMDSplat : option Attr → Ty → FoldResult.
Variable foldCast : Attr → Ty → Ty → Ty → option Z → option Attr.
Variable foldSIMDRound : option Attr → option TargetInfo → option Attr.
Variable foldSIMDRem : list (option Attr) → option Z → option Attr.
Variable foldBitsNoIndex foldBitsOther : option Attr → DTypeCode → option Z → option Attr.
Variable hasFloatSemantics isAddress : DType → bool.
Variable interpretMemcpy : option Attr → option Attr → option Attr → Interp (list (option Attr)).
Variable interpretOpWithFolder : FoldResult → list (option Attr) → Interp (list (option Attr)).

Definition interpret (op : Operation) (ops : list (option Attr)) : Interp (list (option Attr)) :=
  match op, ops with
  | RoundOp, [a] => RoundOp_interpret target foldSIMDRound a
  | RemOp, [a; b] => RemOp_interpret target resolveIndexBitWidth foldSIMDRem [a; b]
  | BitcastOp t i, [a] =>
      BitcastOp_interpret dtypeOf target resolveIndexBitWidth getIsLittleEndian foldBitsNoIndex foldBitsOther
        hasFloatSemantics isAddress t i a
  | CastOp t, [a] => CastOp_interpret dtypeOf target resolveIndexBitWidth foldCast t a
  | SIMDExtractElementOp vt t, [v; p] => SIMDExtractElementOp_interpret interpretOpWithFolder vt t v p
  | SIMDInsertElementOp t, [v; x; p] => SIMDInsertElementOp_interpret interpretOpWithFolder t v x p
  | SIMDSelectOp t same, [c; x; y] => SIMDSelectOp_interpret kBool interpretOpWithFolder t same c x y
  | SIMDShuffleOp t mask, [l; r] => SIMDShuffleOp_interpret interpretOpWithFolder t mask l r
  | SIMDSplatOp t, [x] => SIMDSplatOp_interpret dtypeOf foldSIMDSplat interpretOpWithFolder t x
  | MemcpyOp, [d; s; n] => MemcpyOp_interpret interpretMemcpy d s n
  | _, _ => crash
  end.

Definition parametric_interpret (op : Operation) (ops : list (option Attr)) : Interp (list (option Attr)) :=
  match op, ops with
  | RoundOp, [a] => RoundOp_parametric_interpret target foldSIMDRound a
  | RemOp, [a; b] => RemOp_parametric_interpret target resolveIndexBitWidth foldSIMDRem [a; b]
  | BitcastOp t _, [a] =>
      BitcastOp_parametric_interpret dtypeOf target resolveIndexBitWidth getIsLittleEndian getReboundType
        foldBitsNoIndex foldBitsOther hasFloatSemantics isAddress t a
  | CastOp t, [a] =>
      CastOp_parametric_interpret dtypeOf target resolveIndexBitWidth getReboundType foldCast t a
  | SIMDExtractElementOp _ t, [v; p] => SIMDExtractElementOp_parametric_interpret getReboundType t v p
  | SIMDInsertElementOp t, [v; x; p] => SIMDInsertElementOp_parametric_interpret getReboundType t v x p
  | SIMDSelectOp t same, [c; x; y] => SIMDSelectOp_parametric_interpret kBool getReboundType t same c x y
  | SIMDShuffleOp t mask, [l; r] =>
      SIMDShuffleOp_parametric_interpret getReboundType getReboundAttribute t mask l r
  | SIMDSplatOp t, [x] => SIMDSplatOp_parametric_interpret dtypeOf getReboundType t x
  | MemcpyOp, [d; s; n] => MemcpyOp_parametric_interpret getReboundAttribute interpretMemcpy d s n
  | _, _ => crash
  end.

(** The operation with the parameters substituted. *)
Definition elaborate (op : Operation) : Operation :=
  let rt := getReboundType in
  match op with
  | BitcastOp t i => BitcastOp (rt t) (rt i)
  | CastOp t => CastOp (rt t)
  | SIMDExtractElementOp vt t => SIMDExtractElementOp (rt vt) (rt t)
  | SIMDInsertElementOp t => SIMDInsertElementOp (rt t)
  | SIMDSelectOp t same => SIMDSelectOp (rt t) same
  | SIMDShuffleOp t mask => SIMDShuffleOp (rt t) (getReboundAttribute mask)
  | SIMDSplatOp t => SIMDSplatOp (rt t)
  | op => op
  end.

(** The result has a SIMD type, and the operands are attributes of the types of
    their values, without parameters. *)
Definition agreeable (op : Operation) (ops : list (option Attr)) : Prop :=
  let rt := getReboundType in
  match op, ops with
  | BitcastOp t i, [o] => ∃ a, o = Some a ∧ isSIMDType (rt t) = true ∧ isSIMDType (typeOf a) = true ∧ typeOf a = rt i
  | CastOp t, [o] => ∃ a, o = Some a ∧ rt (typeOf a) = typeOf a
  | SIMDExtractElementOp vt t, [o; _] =>
      ∃ a, o = Some a ∧ rt (typeOf a) = rt vt ∧ isSIMDType (rt vt) = true ∧ isSIMDType (rt t) = true
  | SIMDInsertElementOp t, _ => isSIMDType (rt t) = true
  | SIMDSelectOp t _, _ => isSIMDType (rt t) = true
  | SIMDShuffleOp t _, _ => isSIMDType (rt t) = true
  | SIMDSplatOp t, [o] =>
      isSIMDType (rt t) = true ∧
      ∃ v s, o = Some (SIMDAttr [v] s) ∧ (isScalar (rt t) = true → s = rt t)
  | MemcpyOp, [d; s; n] =>
      getReboundAttribute <$> d = d ∧ getReboundAttribute <$> s = s ∧ getReboundAttribute <$> n = n
  | _, _ => True
  end.

(** [interpretOpWithFolder] hands on the attribute or the operand that the folder
    returns; the folder of a splat repeats its scalar. *)
Hypothesis folder_attr : ∀ a ops s, interpretOpWithFolder (FoldAttr a) ops s = Some (Success [Some a], s).
Hypothesis folder_operand : ∀ i ops o s, ops !! i = Some o →
  interpretOpWithFolder (FoldOperand i) ops s = Some (Success [o], s).
Hypothesis folder_fails : ∀ ops s r s', interpretOpWithFolder NoFold ops s ≠ Some (Success r, s').
Hypothesis splat_repeats : ∀ v t n d,
  foldSIMDSplat (Some (SIMDAttr [v] t)) (SIMDType (Some n) d)
    = FoldAttr (SIMDAttr (replicate (Z.to_nat n) v) (SIMDType (Some n) d)).

Ltac run_interp := cbv [mbind Interp_bind need must ret mapResult mapOperand lift crash fail throughFolder].

Lemma extract_agrees vt t v p s r s' : agreeable (SIMDExtractElementOp vt t) [v; p] →
  SIMDExtractElementOp_interpret interpretOpWithFolder (getReboundType vt) (getReboundType t) v p s
    = Some (Success r, s') →
  SIMDExtractElementOp_parametric_interpret getReboundType t v p s = Some (Success r, s').
Proof.
  intros (a & -> & Ha & Hvt & Ht). unfold SIMDExtractElementOp_interpret, SIMDExtractElementOp_parametric_interpret.
  run_interp. rewrite Ha, Hvt. unfold SIMDExtractElementOp_fold. destruct (isScalar (getReboundType vt)).
  { simpl. by rewrite folder_attr. }
  destruct (pair (asSIMD (Some a)) (asInteger p)) as [[[values st] idx]|]; cbn [mbind option_bind].
  2: { intros H. by apply folder_fails in H. }
  destruct (elementAt values idx); [|done]. simpl. by rewrite folder_attr, Ht.
Qed.

Lemma insert_agrees t v x p s r s' : isSIMDType (getReboundType t) = true →
  SIMDInsertElementOp_interpret interpretOpWithFolder (getReboundType t) v x p s = Some (Success r, s') →
  SIMDInsertElementOp_parametric_interpret getReboundType t v x p s = Some (Success r, s').
Proof.
  intros Ht. unfold SIMDInsertElementOp_interpret, SIMDInsertElementOp_parametric_interpret. run_interp.
  rewrite Ht. destruct (insertElement _ v x p) as [[a|]|]; simpl; [by rewrite folder_attr| |done].
  intros H. by apply folder_fails in H.
Qed.

Lemma select_agrees t same c x y s r s' : isSIMDType (getReboundType t) = true →
  SIMDSelectOp_interpret kBool interpretOpWithFolder (getReboundType t) same c x y s = Some (Success r, s') →
  SIMDSelectOp_parametric_interpret kBool getReboundType t same c x y s = Some (Success r, s').
Proof.
  intros Ht. unfold SIMDSelectOp_interpret, SIMDSelectOp_parametric_interpret, SIMDSelectOp_fold. run_interp.
  rewrite Ht. repeat case_match; rewrite ?folder_attr; try done;
    try (erewrite folder_operand by done; done); intros H'; by apply folder_fails in H'.
Qed.

Lemma shuffle_agrees t mask l x s r s' : isSIMDType (getReboundType t) = true →
  SIMDShuffleOp_interpret interpretOpWithFolder (getReboundType t) (getReboundAttribute mask) l x s
    = Some (Success r, s') →
  SIMDShuffleOp_parametric_interpret getReboundType getReboundAttribute t mask l x s = Some (Success r, s').
Proof.
  intros Ht. unfold SIMDShuffleOp_interpret, SIMDShuffleOp_parametric_interpret, SIMDShuffleOp_fold. run_interp.
  rewrite Ht. destruct (simdSize (getReboundType t)); [|intros H; by apply folder_fails in H].
  destruct (asSIMD l) as [[ls ?]|]; [|intros H; by apply folder_fails in H].
  destruct (asSIMD x) as [[rs ?]|]; [|intros H; by apply folder_fails in H].
  destruct (maskValues _) as [[m|]|]; try (intros H; by apply folder_fails in H).
  simpl. destruct (shuffleLanes ls rs m); simpl; [by rewrite folder_attr|done].
Qed.

Lemma splat_agrees t x s r s' : agreeable (SIMDSplatOp t) [x] →
  SIMDSplatOp_interpret dtypeOf foldSIMDSplat interpretOpWithFolder (getReboundType t) x s = Some (Success r, s') →
  SIMDSplatOp_parametric_interpret dtypeOf getReboundType t x s = Some (Success r, s').
Proof.
  intros [Ht (v & st & -> & Hscalar)]. unfold SIMDSplatOp_interpret, SIMDSplatOp_parametric_interpret. run_interp.
  rewrite Ht. destruct (validateSIMDConstruction dtypeOf (getReboundType t)) as [[]|] eqn:Hv; [|done].
  unfold isScalar in *. destruct (getReboundType t) as [| | | | |[n|] d| | | |]; try done.
  rewrite splat_repeats, folder_attr. case_bool_decide as Hn; [|done].
  simpl in Hn. injection Hn as ->. rewrite (Hscalar eq_refl). done.
Qed.

Lemma cast_agrees t a s : getReboundType (typeOf a) = typeOf a →
  CastOp_parametric_interpret dtypeOf target resolveIndexBitWidth getReboundType foldCast t (Some a) s =
  CastOp_interpret dtypeOf target resolveIndexBitWidth foldCast (getReboundType t) (Some a) s.
Proof. intros Ha. unfold CastOp_parametric_interpret, CastOp_interpret. run_interp. by rewrite Ha. Qed.

(** C11: The two ways of running a SIMD operation agree: whenever [interpret] on
    the operation with its parameters substituted succeeds, which for most
    operations goes through the folder, [parametric_interpret] on the generic
    operation gives the same values in the same state. The operands must be
    attributes of the types of their values. *)
Theorem simd_parametric_interpret_agrees op ops s r s' : agreeable op ops →
  interpret (elaborate op) ops s = Some (Success r, s') →
  parametric_interpret op ops s = Some (Success r, s').
Proof.
  destruct op; intros Hag Hrun; simpl in Hrun; destruct ops as [|o1 [|o2 [|o3 [|]]]]; try done.
  - destruct Hag as (a & -> & Ht & Hta & Ha). simpl. revert Hrun. unfold BitcastOp_interpret, BitcastOp_parametric_interpret.
    run_interp. by rewrite Ht, Hta, Ha.
  - destruct Hag as (a & -> & Ha). simpl. by rewrite cast_agrees.
  - by apply extract_agrees with (vt := vectorType).
  - by apply insert_agrees.
  - by apply select_agrees.
  - by apply shuffle_agrees.
  - by apply splat_agrees.
  - destruct Hag as (Hd & Hs & Hn). simpl. unfold MemcpyOp_parametric_interpret. by rewrite Hd, Hs, Hn.
Qed.

(** What the interpreter makes of a cast and a splat that change nothing:
    a cast between equal types of a value that is not a SIMD constant, which the
    folder answers with the operand, fails an assertion, though the folder alone
    handles it; and a splat to one lane is accepted under bindings without the
    test of the type that the other run makes, so an invalid element type is an
    error in one and the operand in the other. *)
Theorem trivial_cast_and_splat t a s v st tg :
  target = Some tg → getReboundType t = t → isSIMDType t = true → typeOf a = t → asSIMD (Some a) = None →
  CastOp_fold foldCast t t (Some a) = FoldOperand 0 ∧
  CastOp_interpret dtypeOf target resolveIndexBitWidth foldCast t (Some a) s = None ∧
  (isScalar t = true → (∀ d, simdDType t = Some d → isInvalid (dtypeOf d) = true) →
   is_Some (simdDType t) →
   SIMDSplatOp_interpret dtypeOf foldSIMDSplat interpretOpWithFolder t (Some (SIMDAttr [v] st)) s
     = Some (Error "simd type cannot be DType.invalid", s) ∧
   SIMDSplatOp_parametric_interpret dtypeOf getReboundType t (Some (SIMDAttr [v] st)) s
     = Some (Success [Some (SIMDAttr [v] st)], s)).
Proof.
  intros Htg Hrt Ht Ha Hs. split.
  { unfold CastOp_fold, castOpfoldHelper. rewrite Hs. by rewrite bool_decide_eq_true_2. }
  split.
  { unfold CastOp_interpret. run_interp. rewrite Ha, Ht, Htg. unfold castResult, castOpfoldHelper.
    rewrite Hs. by rewrite bool_decide_eq_true_2. }
  intros Hsc Hinv [d Hd]. unfold SIMDSplatOp_interpret, SIMDSplatOp_parametric_interpret. run_interp.
  rewrite Hrt, Ht, Hsc. split; [|done]. unfold validateSIMDConstruction, POPFolds.validateSIMDConstruction.
  unfold isScalar in Hsc. bool_to_prop. rewrite Hsc, Hd. simpl. by rewrite (Hinv d Hd).
Qed.

(** Under bindings, a vector constant gets the generic type of the operation, a
    scalar the bound one. *)
Lemma CastFromBuiltin_unbound builtinOf t a s values kind lanes d :
  isSIMDType (getReboundType t) = true → simdDType (getReboundType t) = Some d →
  builtinOf a = Some (BuiltinVector kind values) → vectorLanes (dtypeOf d) kind values = Some lanes →
  CastFromBuiltinOp_parametric_interpret dtypeOf getReboundType builtinOf t (Some a) s
    = Some (Success [Some (SIMDAttr lanes t)], s).
Proof.
  intros Ht Hd Hb Hl. unfold CastFromBuiltinOp_parametric_interpret. run_interp. by rewrite Ht, Hb, Hd; simpl; rewrite Hl.
Qed.

(** The canonicalization of a select between false and true is exact on lanes
    that are 0 or 1. *)
Lemma select_not_is_xor type tv fv t f c :
  SIMDSelectOp_canonicalize kBool type (Some (SIMDAttr t tv)) (Some (SIMDAttr f fv)) = true →
  List.length t = List.length c → List.length f = List.length c →
  Forall (fun v => v = 0 ∨ v = 1) (c ++ t ++ f)%list →
  selectLanes c t f = zip_with Z.lxor c f.
Proof.
  unfold SIMDSelectOp_canonicalize, allOnOff. simpl. intros H Ht Hf Hb. bool_to_prop.
  rewrite !Forall_app in Hb. destruct Hb as (Hc & Hbt & Hbf). clear H.
  revert t f Ht Hf H0 H1 Hbt Hbf. induction Hc as [|x c Hx _ IH]; intros [|a t] [|b f] Ht Hf Ho Hoff Hbt Hbf; simplify_eq/=; try done.
  bool_to_prop. inversion_clear Hbt. inversion_clear Hbf. unfold boolVal in *. rewrite IH by (try done; lia).
  destruct Hx as [-> | ->]; simpl; f_equal; intuition (subst; done).
Qed.

End Run.
(** ** Concrete functions *)

#[local] Existing Instance POPRunFacts.mem_state.
#[local] Existing Instance POPRunFacts.mem_layout.
#[local] Existing Instance llvm_math.
#[local] Existing Instance elem_dtypes.

Definition folder (r : FoldResult) (ops : list (option Attr)) : Interp (list (option Attr)) :=
  match r with
  | FoldAttr a => ret [Some a]
  | FoldOperand i => match ops !! i with Some o => ret [o] | None => fail "no such operand" end
  | NoFold => fail "not folded"
  end.
Definition splat (scalar : option Attr) (t : Ty) : FoldResult :=
  match scalar, t with
  | Some (SIMDAttr [v] _), SIMDType (Some n) _ => FoldAttr (SIMDAttr (replicate (Z.to_nat n) v) t)
  | _, _ => NoFold
  end.
(** A parametric width, bound to 4; the element type 1 is an 8-bit integer, any
    other is invalid. *)
Definition bindWidth (t : Ty) : Ty := match t with SIMDType None d => SIMDType (Some 4) d | t => t end.
Definition elementType (d : DTypeCode) : Elem := if d =? 1 then EInt true 8 else EInvalid.
Definition noAttr {A B} (_ : A) (_ : B) : option Attr := None.
Definition emptyMem : St :=
  {| POPRunFacts.blocks := []; POPRunFacts.nextAddr := 64; POPRunFacts.cells := ∅;
     POPRunFacts.globals := ∅; POPRunFacts.written := [] |}.

Lemma folder_operand_ok i ops o s : ops !! i = Some o → folder (FoldOperand i) ops s = Some (Success [o], s).
Proof. intros H. unfold folder. by rewrite H. Qed.

Lemma simd_parametric_interpret_agrees_witness :
  parametric_interpret elementType 0 (Some tt) (fun _ => 64) (fun _ => true) bindWidth id
    (fun _ _ _ _ _ => None) noAttr noAttr (fun _ _ _ => None) (fun _ _ _ => None)
    (fun _ => false) (fun _ => false) (fun _ _ _ => fail "no memory")
    (SIMDSplatOp (SIMDType None (Some 1))) [Some (SIMDAttr [7] (SIMDType (Some 1) (Some 1)))] emptyMem
  = Some (Success [Some (SIMDAttr [7; 7; 7; 7] (SIMDType (Some 4) (Some 1)))], emptyMem).
Proof.
  apply (@simd_parametric_interpret_agrees POPRunFacts.mem_layout POPRunFacts.mem_state llvm_math elem_dtypes
    elementType 0 (Some tt) (fun _ => 64) (fun _ => true) bindWidth id splat (fun _ _ _ _ _ => None) noAttr noAttr
    (fun _ _ _ => None) (fun _ _ _ => None) (fun _ => false) (fun _ => false) (fun _ _ _ => fail "no memory") folder).
  - reflexivity.
  - exact folder_operand_ok.
  - intros ops s r s' H. discriminate H.
  - reflexivity.
  - split; [reflexivity|]. exists 7, (SIMDType (Some 1) (Some 1)). split; [reflexivity|]. discriminate.
  - vm_compute. reflexivity.
Defined.

Lemma trivial_cast_and_splat_witness :
  let t := SIMDType (Some 1) (Some 0) in
  CastOp_interpret elementType (Some tt) (fun _ => 64) (fun _ _ _ _ _ => None) t (Some (UninitMemAttr t)) emptyMem
    = None.
Proof.
  exact (proj1 (proj2 (@trivial_cast_and_splat POPRunFacts.mem_layout POPRunFacts.mem_state llvm_math elem_dtypes
    elementType (Some tt) (fun _ => 64) bindWidth splat (fun _ _ _ _ _ => None) folder
    (SIMDType (Some 1) (Some 0)) (UninitMemAttr (SIMDType (Some 1) (Some 0))) emptyMem 0 IndexType tt
    eq_refl eq_refl eq_refl eq_refl eq_refl))).
Defined.

End POPSimdRun.
